(** * A shallow embedding of the Transformer notebook (transformer.ipynb)

    The notebook defines the forward pass of the Transformer with PyTorch:
    [ScaledDotProductAttention], [Attention], [MultiHeadAttention],
    [FeedForwardNetwork], [Residual_Connection], [Sublayer], [Encoder],
    [Decoder], [PositionalEncoding] and [Transformer].  The file holds an
    earlier draft of these classes followed by the final version; the
    definitions below follow the final version.

    Tensor elements are IEEE-754 floats.  They are modelled as a real number
    or one of the three special values; the arithmetic of the special values
    follows IEEE-754, finite arithmetic is exact (rounding, overflow and the
    sign of zero are not modelled).  Tensors are nested lists (spec: every
    dimension is positive); Python exceptions are the left summand of
    [result]. *)

From Stdlib Require Import Reals Lra Lia List ZArith Bool Arith.
From Stdlib Require Import ROrderedType.
Import ListNotations.


(** ** Scalars *)

Inductive fp : Type :=
| Fin (r : R)
| PInf
| NInf
| NaN.

Declare Scope fp_scope.
Delimit Scope fp_scope with fp.

Module FP.

Open Scope R_scope.

Definition zero : fp := Fin 0.
Definition one : fp := Fin 1.

(** the result of [r * inf] or [r / 0]: decided by the sign of [r] *)
Definition by_sign (r : R) (pos neg : fp) : fp :=
  match Rcompare r 0 with
  | Lt => neg
  | Eq => NaN
  | Gt => pos
  end.

Definition neg (x : fp) : fp :=
  match x with
  | Fin r => Fin (- r)
  | PInf => NInf
  | NInf => PInf
  | NaN => NaN
  end.

(** the sum: on special values as IEEE-754 has it; on two finite numbers the
    exact real sum, so neither the rounding of float32 nor its overflow to
    an infinity is modelled *)
Definition add (x y : fp) : fp :=
  match x, y with
  | NaN, _ | _, NaN => NaN
  | Fin a, Fin b => Fin (a + b)
  | PInf, NInf | NInf, PInf => NaN
  | PInf, _ | _, PInf => PInf
  | NInf, _ | _, NInf => NInf
  end.

Definition sub (x y : fp) : fp := add x (neg y).

(** the product: on special values as IEEE-754 has it; on two finite
    numbers the exact real product (no rounding, no overflow) *)
Definition mul (x y : fp) : fp :=
  match x, y with
  | NaN, _ | _, NaN => NaN
  | Fin a, Fin b => Fin (a * b)
  | Fin a, PInf | PInf, Fin a => by_sign a PInf NInf
  | Fin a, NInf | NInf, Fin a => by_sign a NInf PInf
  | PInf, PInf | NInf, NInf => PInf
  | PInf, NInf | NInf, PInf => NInf
  end.

Definition div (x y : fp) : fp :=
  match x, y with
  | NaN, _ | _, NaN => NaN
  | Fin a, Fin b =>
      match Rcompare b 0 with
      | Eq => by_sign a PInf NInf
      | _ => Fin (a / b)
      end
  | Fin _, _ => Fin 0
  | PInf, Fin b => match Rcompare b 0 with Lt => NInf | _ => PInf end
  | NInf, Fin b => match Rcompare b 0 with Lt => PInf | _ => NInf end
  | _, _ => NaN
  end.

Definition exp (x : fp) : fp :=
  match x with
  | Fin r => Fin (Rtrigo_def.exp r)
  | PInf => PInf
  | NInf => Fin 0
  | NaN => NaN
  end.

Definition sqrt (x : fp) : fp :=
  match x with
  | Fin r => match Rcompare r 0 with Lt => NaN | _ => Fin (R_sqrt.sqrt r) end
  | PInf => PInf
  | _ => NaN
  end.

Definition sin (x : fp) : fp :=
  match x with Fin r => Fin (Rtrigo_def.sin r) | _ => NaN end.

Definition cos (x : fp) : fp :=
  match x with Fin r => Fin (Rtrigo_def.cos r) | _ => NaN end.

(** [torch.pow(base, x)] for a positive Python scalar [base] *)
Definition pow (base : R) (x : fp) : fp :=
  match x with
  | Fin r => Fin (Rpower base r)
  | PInf => match Rcompare base 1 with Lt => Fin 0 | Eq => Fin 1 | Gt => PInf end
  | NInf => match Rcompare base 1 with Lt => PInf | Eq => Fin 1 | Gt => Fin 0 end
  | NaN => NaN
  end.

(** maximum as [torch.max] computes it: a NaN operand gives NaN *)
Definition max (x y : fp) : fp :=
  match x, y with
  | NaN, _ | _, NaN => NaN
  | PInf, _ | _, PInf => PInf
  | NInf, z | z, NInf => z
  | Fin a, Fin b => Fin (Rmax a b)
  end.

(** [torch.relu]: [max(0, x)], NaN stays NaN *)
Definition relu (x : fp) : fp :=
  match x with
  | Fin r => Fin (Rmax 0 r)
  | PInf => PInf
  | NInf => Fin 0
  | NaN => NaN
  end.

(** the comparison [x == 0] *)
Definition is_zero (x : fp) : bool :=
  match x with
  | Fin r => match Rcompare r 0 with Eq => true | _ => false end
  | _ => false
  end.

Definition is_fin (x : fp) : bool :=
  match x with Fin _ => true | _ => false end.

(** Python [int] and [np.sqrt] of one *)
Definition of_nat (n : nat) : fp := Fin (INR n).
Definition of_Z (z : Z) : fp := Fin (IZR z).

End FP.

Infix "+" := FP.add : fp_scope.
Infix "-" := FP.sub : fp_scope.
Infix "*" := FP.mul : fp_scope.
Infix "/" := FP.div : fp_scope.

(** ** Exceptions *)

Inductive exn : Type :=
| AssertionError       (* a failed [assert] *)
| ZeroDivisionError    (* integer [%] by zero *)
| RuntimeError         (* torch: sizes that do not match, invalid sizes *)
| IndexError.          (* torch: index out of range *)

Definition result (A : Type) : Type := (exn + A)%type.

Definition ok {A} (a : A) : result A := inr a.
Definition raise {A} (e : exn) : result A := inl e.

Definition bind {A B} (m : result A) (k : A -> result B) : result B :=
  match m with
  | inl e => inl e
  | inr a => k a
  end.

Notation "x <- m ;; k" := (bind m (fun x => k))
  (at level 61, m at next level, right associativity).

Fixpoint mapM {A B} (f : A -> result B) (l : list A) : result (list B) :=
  match l with
  | [] => ok []
  | a :: l' => b <- f a ;; bs <- mapM f l' ;; ok (b :: bs)
  end.

Notation "' pat <- m ;; k" := (bind m (fun x => match x with pat => k end))
  (at level 61, pat pattern, m at next level, right associativity).

(** ** Tensors

    A vector is a list, a matrix a list of rows, and [tensor n] a matrix with
    [n] leading (batch) axes. *)

Abbreviation vec := (list fp) (only parsing).
Abbreviation matrix := (list (list fp)) (only parsing).

Fixpoint tensor (n : nat) : Type :=
  match n with
  | O => matrix
  | S k => list (tensor k)
  end.

Abbreviation tensor3 := (list (list (list fp))) (only parsing).

(** *** Reductions and products *)

(** sum of a vector, accumulated from the left starting at zero *)
Definition vsum (v : vec) : fp := fold_left FP.add v FP.zero.

Definition dot (u v : vec) : fp :=
  vsum (map (fun p => (fst p * snd p)%fp) (combine u v)).

Definition ncols (m : matrix) : nat := length (hd [] m).

Definition column (m : matrix) (j : nat) : vec :=
  map (fun row => nth j row FP.zero) m.

(** [torch.transpose(m, -2, -1)] of one matrix *)
Definition transpose (m : matrix) : matrix :=
  map (column m) (seq 0 (ncols m)).

(** [torch.matmul] of two matrices: the width of the left operand must be the
    height of the right one *)
Definition matmul (A B : matrix) : result matrix :=
  if forallb (fun row => length row =? length B) A
  then ok (map (fun row => map (dot row) (transpose B)) A)
  else raise RuntimeError.

(** *** Broadcasting

    Two axes are compatible when their sizes are equal or one of them is 1;
    an axis of size 1 is repeated. *)

Definition zipM {A B C} (f : A -> B -> result C) (xs : list A) (ys : list B)
  : result (list C) :=
  if length xs =? length ys
  then mapM (fun p => f (fst p) (snd p)) (combine xs ys)
  else raise RuntimeError.

Definition bcast2 {A B C} (f : A -> B -> result C) (xs : list A) (ys : list B)
  : result (list C) :=
  if length xs =? length ys
  then mapM (fun p => f (fst p) (snd p)) (combine xs ys)
  else match xs, ys with
       | [x], _ => mapM (f x) ys
       | _, [y] => mapM (fun x => f x y) xs
       | _, _ => raise RuntimeError
       end.

Fixpoint lift1 (n : nat) (f : matrix -> matrix) : tensor n -> tensor n :=
  match n with
  | O => f
  | S k => map (lift1 k f)
  end.

Fixpoint lift1M (n : nat) (f : matrix -> result matrix)
  : tensor n -> result (tensor n) :=
  match n with
  | O => f
  | S k => mapM (lift1M k f)
  end.

Fixpoint lift2 (n : nat) (f : matrix -> matrix -> result matrix)
  : tensor n -> tensor n -> result (tensor n) :=
  match n with
  | O => f
  | S k => bcast2 (lift2 k f)
  end.

(** elementwise binary operations, broadcasting on every axis *)
Definition vzip (f : fp -> fp -> fp) : vec -> vec -> result vec :=
  bcast2 (fun a b => ok (f a b)).

Definition mzip (f : fp -> fp -> fp) : matrix -> matrix -> result matrix :=
  bcast2 (vzip f).

Definition tzip (n : nat) (f : fp -> fp -> fp)
  : tensor n -> tensor n -> result (tensor n) :=
  lift2 n (mzip f).

(** [t + u] on tensors of the same rank *)
Definition tadd (n : nat) : tensor n -> tensor n -> result (tensor n) :=
  tzip n FP.add.

(** the tensor and a Python scalar: [t / c], [t * c] *)
Definition mmap (f : fp -> fp) (m : matrix) : matrix := map (map f) m.
Definition tmap (n : nat) (f : fp -> fp) : tensor n -> tensor n :=
  lift1 n (mmap f).

(** [t.shape[-1]] *)
Fixpoint last_dim (n : nat) : tensor n -> nat :=
  match n with
  | O => ncols
  | S k => fun t => match t with
                    | [] => O
                    | x :: _ => last_dim k x
                    end
  end.

(** *** Softmax over the last axis: [F.softmax(t, dim=-1)] *)

Definition vmax (v : vec) : fp :=
  match v with
  | [] => NInf
  | x :: xs => fold_left FP.max xs x
  end.

Definition softmax_row (v : vec) : vec :=
  let m := vmax v in
  let e := map (fun x => FP.exp (x - m)%fp) v in
  let s := vsum e in
  map (fun y => (y / s)%fp) e.

Definition softmax (n : nat) : tensor n -> tensor n :=
  lift1 n (map softmax_row).

(** *** The look-ahead mask *)

(** [torch.full((r, c), v)] *)
Definition full (r c : nat) (v : fp) : matrix := repeat (repeat v c) r.

Definition mapi {A B} (f : nat -> A -> B) (l : list A) : list B :=
  map (fun p => f (fst p) (snd p)) (combine (seq 0 (length l)) l).

(** [torch.triu(m, diagonal)]: entries strictly below the given diagonal
    become zero *)
Definition triu (diagonal : nat) (m : matrix) : matrix :=
  mapi (fun i row =>
          mapi (fun j x => if i + diagonal <=? j then x else FP.zero) row) m.

(** [m[m == 0] = v] *)
Definition fill_zeros (v : fp) (m : matrix) : matrix :=
  mmap (fun x => if FP.is_zero x then v else x) m.

(** *** Concatenation along the last axis: [torch.cat(ts, -1)] *)

Definition cat_rows : matrix -> matrix -> result matrix :=
  zipM (fun r1 r2 => ok (r1 ++ r2)).

Fixpoint cat2 (n : nat) : tensor n -> tensor n -> result (tensor n) :=
  match n with
  | O => cat_rows
  | S k => zipM (cat2 k)
  end.

Definition cat (n : nat) (ts : list (tensor n)) : result (tensor n) :=
  match ts with
  | [] => raise RuntimeError
  | t :: ts' =>
      fold_left (fun acc u => a <- acc ;; cat2 n a u) ts' (ok t)
  end.

(** *** Slice assignment [dst[:, start::2] = src]

    The source is expanded (broadcast) to the shape of the slice: each of its
    axes must have the size of the slice's axis, or size 1. *)

Definition slice_len (start step len : nat) : nat :=
  if len <=? start then O else (len - start + step - 1) / step.

Definition expand_axis {A} (size : nat) (l : list A) : result (list A) :=
  if length l =? size then ok l
  else match l with
       | [a] => ok (repeat a size)
       | _ => raise RuntimeError
       end.

Definition expand (rows cols : nat) (src : matrix) : result matrix :=
  src_rows <- expand_axis rows src ;;
  mapM (expand_axis cols) src_rows.

Definition set_cols (start : nat) (dst_row src_row : vec) : vec :=
  mapi (fun j x =>
          if (start <=? j) && Nat.even (j - start)
          then nth ((j - start) / 2) src_row x
          else x) dst_row.

Definition assign_cols (start : nat) (dst src : matrix) : result matrix :=
  src' <- expand (length dst) (slice_len start 2 (ncols dst)) src ;;
  ok (map (fun p => set_cols start (fst p) (snd p)) (combine dst src')).

(** ** Random initial weights

    [torch.randn] and the initialisers of [nn.Linear] and [nn.Embedding]
    draw from the global generator: an infinite supply of finite samples,
    consumed from the front. *)

Definition rng : Type := nat -> R.

Definition advance (k : nat) (g : rng) : rng := fun i => g (k + i)%nat.

Definition draw_vec (len : nat) (g : rng) : vec :=
  map (fun i => Fin (g i)) (seq 0 len).

Definition draw_matrix (rows cols : nat) (g : rng) : matrix :=
  map (fun i => draw_vec cols (advance (i * cols) g)) (seq 0 rows).

(** a size of a tensor must not be negative *)
Definition randn (rows cols : Z) (g : rng) : result (matrix * rng) :=
  if ((rows <? 0) || (cols <? 0))%Z
  then raise RuntimeError
  else let r := Z.to_nat rows in
       let c := Z.to_nat cols in
       ok (draw_matrix r c g, advance (r * c) g).

Definition randn_vec (len : Z) (g : rng) : result (vec * rng) :=
  if (len <? 0)%Z
  then raise RuntimeError
  else let l := Z.to_nat len in ok (draw_vec l g, advance l g).

(** [torch.matmul] of a batch and a weight matrix *)
Definition matmul_w (X : tensor3) (W : matrix) : result tensor3 :=
  lift2 1 matmul X [W].

(** ** class ScaledDotProductAttention *)

Module ScaledDotProductAttention.

Record t : Type := { mask : bool }.

Definition init (mask : bool) : t := {| mask := mask |}.

(** the mask of the shape of the weighted values: minus infinity strictly
    above the main diagonal, one elsewhere *)
Definition look_ahead_mask (rows cols : nat) : matrix :=
  fill_zeros FP.one (triu 1 (full rows cols NInf)).

(** [weighted_values * look_ahead_mask] for one matrix ([torch.triu] works
    on the last two axes, so a batch is masked matrix by matrix) *)
Definition apply_mask (weighted_values : matrix) : result matrix :=
  mzip FP.mul weighted_values
       (look_ahead_mask (length weighted_values) (ncols weighted_values)).

(** the softmax scores, a local of [forward] *)
Definition weights (n : nat) (Q K : tensor n) : result (tensor n) :=
  let K_transpose := lift1 n transpose K in
  dot_products <- lift2 n matmul Q K_transpose ;;
  let d_k := last_dim n K in
  let scaled_dot_products :=
    tmap n (fun x => (x / FP.sqrt (FP.of_nat d_k))%fp) dot_products in
  ok (softmax n scaled_dot_products).

Definition forward (self : t) (n : nat) (Q K V : tensor n)
  : result (tensor n) :=
  weights <- weights n Q K ;;
  weighted_values <- lift2 n matmul weights V ;;
  if mask self
  then lift1M n apply_mask weighted_values
  else ok weighted_values.

End ScaledDotProductAttention.

(** ** class Attention *)

Module Attention.

Record t : Type :=
  { WK : matrix;
    WQ : matrix;
    WV : matrix;
    scaled_dot_product : ScaledDotProductAttention.t }.

Definition init (d_model d_key : Z) (mask : bool) (g : rng)
  : result (t * rng) :=
  ' (wk, g) <- randn d_model d_key g ;;
  ' (wq, g) <- randn d_model d_key g ;;
  ' (wv, g) <- randn d_model d_key g ;;
  ok ({| WK := wk; WQ := wq; WV := wv;
         scaled_dot_product := ScaledDotProductAttention.init mask |}, g).

Definition forward (self : t) (inputs : tensor3)
  (encoder_output : option tensor3) : result tensor3 :=
  let X := match encoder_output with
           | None => inputs
           | Some e => e
           end in
  K <- matmul_w X (WK self) ;;
  V <- matmul_w X (WV self) ;;
  Q <- matmul_w inputs (WQ self) ;;
  ScaledDotProductAttention.forward (scaled_dot_product self) 1 Q K V.

End Attention.

(** ** class MultiHeadAttention *)

Module MultiHeadAttention.

Record t : Type :=
  { mask : bool;
    h : Z;
    multi_head_attention : list Attention.t;
    W : matrix }.

(** [[Attention(d_model, d_key, mask) for _ in range(n)]] *)
Fixpoint attention_list (n : nat) (d_model d_key : Z) (mask : bool) (g : rng)
  : result (list Attention.t * rng) :=
  match n with
  | O => ok ([], g)
  | S n' =>
      ' (a, g) <- Attention.init d_model d_key mask g ;;
      ' (l, g) <- attention_list n' d_model d_key mask g ;;
      ok (a :: l, g)
  end.

Definition init (n_head d_model : Z) (mask : bool) (g : rng)
  : result (t * rng) :=
  (* assert d_model % n_head == 0 *)
  if (n_head =? 0)%Z then raise ZeroDivisionError else
  if negb (d_model mod n_head =? 0)%Z then raise AssertionError else
  (* int(d_model / n_head): the quotient is exact here *)
  let d_key := Z.quot d_model n_head in
  ' (heads, g) <- attention_list (Z.to_nat n_head) d_model d_key mask g ;;
  ' (w, g) <- randn (n_head * d_key) d_model g ;;
  ok ({| mask := mask; h := n_head;
         multi_head_attention := heads; W := w |}, g).

Definition forward (self : t) (x : tensor3) (encoder_output : option tensor3)
  : result tensor3 :=
  attention_scores <-
    mapM (fun attention => Attention.forward attention x encoder_output)
         (multi_head_attention self) ;;
  Z <- cat 1 attention_scores ;;
  matmul_w Z (W self).

End MultiHeadAttention.

(** ** nn.Linear, nn.ReLU, nn.LayerNorm, nn.Embedding *)

Module Linear.

Record t : Type :=
  { weight : matrix;   (* (out_features, in_features) *)
    bias : vec }.      (* (out_features) *)

Definition init (in_features out_features : Z) (g : rng) : result (t * rng) :=
  ' (w, g) <- randn out_features in_features g ;;
  ' (b, g) <- randn_vec out_features g ;;
  ok ({| weight := w; bias := b |}, g).

(** [x @ weight.T + bias] *)
Definition forward (self : t) (x : tensor3) : result tensor3 :=
  y <- matmul_w x (transpose (weight self)) ;;
  lift1M 1 (mapM (fun row => zipM (fun a b => ok (a + b)%fp) row (bias self))) y.

End Linear.

Definition ReLU (x : tensor3) : tensor3 := tmap 1 FP.relu x.

Module LayerNorm.

Record t : Type :=
  { normalized_shape : nat;
    weight : vec;
    bias : vec;
    eps : R }.

Definition init (d_model : Z) : result t :=
  if (d_model <? 0)%Z then raise RuntimeError else
  let d := Z.to_nat d_model in
  ok {| normalized_shape := d;
        weight := repeat FP.one d;
        bias := repeat FP.zero d;
        eps := (1 / 100000)%R |}.

Definition mean (v : vec) : fp := (vsum v / FP.of_nat (length v))%fp.

(** one feature vector: [(x - E[x]) / sqrt(Var[x] + eps) * weight + bias],
    with the biased variance *)
Definition forward_row (self : t) (v : vec) : result vec :=
  if length v =? normalized_shape self
  then
    let mu := mean v in
    let var := mean (map (fun x => ((x - mu) * (x - mu))%fp) v) in
    let sd := FP.sqrt (var + Fin (eps self))%fp in
    let normed := map (fun x => ((x - mu) / sd)%fp) v in
    scaled <- zipM (fun a b => ok (a * b)%fp) normed (weight self) ;;
    zipM (fun a b => ok (a + b)%fp) scaled (bias self)
  else raise RuntimeError.

Definition forward (self : t) (x : tensor3) : result tensor3 :=
  lift1M 1 (mapM (forward_row self)) x.

End LayerNorm.

Module Embedding.

Record t : Type :=
  { weight : matrix }.     (* (num_embeddings, embedding_dim) *)

Definition init (num_embeddings embedding_dim : Z) (g : rng)
  : result (t * rng) :=
  ' (w, g) <- randn num_embeddings embedding_dim g ;;
  ok ({| weight := w |}, g).

Definition lookup (self : t) (i : Z) : result vec :=
  if ((0 <=? i) && (i <? Z.of_nat (length (weight self))))%Z
  then ok (nth (Z.to_nat i) (weight self) [])
  else raise IndexError.

(** a (batch, seq) tensor of token indices to a (batch, seq, dim) tensor *)
Definition forward (self : t) (idx : list (list Z)) : result tensor3 :=
  mapM (mapM (lookup self)) idx.

End Embedding.

(** ** class FeedForwardNetwork *)

Module FeedForwardNetwork.

(** [nn.Sequential(nn.Linear(d_model, d_ff), nn.ReLU(), nn.Linear(d_ff, d_model))] *)
Record t : Type :=
  { linear1 : Linear.t;
    linear2 : Linear.t }.

Definition init (d_model d_feedforward : Z) (g : rng) : result (t * rng) :=
  ' (l1, g) <- Linear.init d_model d_feedforward g ;;
  ' (l2, g) <- Linear.init d_feedforward d_model g ;;
  ok ({| linear1 := l1; linear2 := l2 |}, g).

Definition forward (self : t) (x : tensor3) : result tensor3 :=
  x <- Linear.forward (linear1 self) x ;;
  let x := ReLU x in
  Linear.forward (linear2 self) x.

End FeedForwardNetwork.

(** ** class Residual_Connection and class Sublayer *)

Module Residual_Connection.

(** the wrapped layer is any module: a function that may raise *)
Record t : Type := { layer : tensor3 -> result tensor3 }.

Definition init (layer : tensor3 -> result tensor3) : t := {| layer := layer |}.

Definition forward (self : t) (x : tensor3) : result tensor3 :=
  f_x <- layer self x ;;
  tadd 1 x f_x.

End Residual_Connection.

Module Sublayer.

Record t : Type :=
  { res_connect : Residual_Connection.t;
    layer_norm : LayerNorm.t }.

Definition init (layer : tensor3 -> result tensor3) (d_model : Z) : result t :=
  ln <- LayerNorm.init d_model ;;
  ok {| res_connect := Residual_Connection.init layer; layer_norm := ln |}.

Definition forward (self : t) (x : tensor3) : result tensor3 :=
  x <- Residual_Connection.forward (res_connect self) x ;;
  LayerNorm.forward (layer_norm self) x.

End Sublayer.

(** ** class Encoder *)

Module Encoder.

Record t : Type :=
  { attention : MultiHeadAttention.t;
    feed_forward : FeedForwardNetwork.t;
    layer_norm1 : LayerNorm.t;
    layer_norm2 : LayerNorm.t }.

Definition init (n_head d_model d_feedforward : Z) (g : rng)
  : result (t * rng) :=
  ' (a, g) <- MultiHeadAttention.init n_head d_model false g ;;
  ' (f, g) <- FeedForwardNetwork.init d_model d_feedforward g ;;
  ln1 <- LayerNorm.init d_model ;;
  ln2 <- LayerNorm.init d_model ;;
  ok ({| attention := a; feed_forward := f;
         layer_norm1 := ln1; layer_norm2 := ln2 |}, g).

Definition forward (self : t) (x : tensor3) : result tensor3 :=
  attention_scores <- MultiHeadAttention.forward (attention self) x None ;;
  s <- tadd 1 attention_scores x ;;
  x <- LayerNorm.forward (layer_norm1 self) s ;;
  scores <- FeedForwardNetwork.forward (feed_forward self) x ;;
  s <- tadd 1 scores x ;;
  LayerNorm.forward (layer_norm2 self) s.

End Encoder.

(** ** class Decoder *)

Module Decoder.

Record t : Type :=
  { masked_attention : MultiHeadAttention.t;
    attention : MultiHeadAttention.t;
    feedforward : FeedForwardNetwork.t;
    layer_norm1 : LayerNorm.t;
    layer_norm2 : LayerNorm.t;
    layer_norm3 : LayerNorm.t }.

Definition init (n_head d_model d_feedforward : Z) (g : rng)
  : result (t * rng) :=
  ' (ma, g) <- MultiHeadAttention.init n_head d_model true g ;;
  ' (a, g) <- MultiHeadAttention.init n_head d_model false g ;;
  ' (f, g) <- FeedForwardNetwork.init d_model d_feedforward g ;;
  ln1 <- LayerNorm.init d_model ;;
  ln2 <- LayerNorm.init d_model ;;
  ln3 <- LayerNorm.init d_model ;;
  ok ({| masked_attention := ma; attention := a; feedforward := f;
         layer_norm1 := ln1; layer_norm2 := ln2; layer_norm3 := ln3 |}, g).

Definition forward (self : t) (x encoder_output : tensor3) : result tensor3 :=
  masked_attention_scores <-
    MultiHeadAttention.forward (masked_attention self) x None ;;
  s <- tadd 1 masked_attention_scores x ;;
  x <- LayerNorm.forward (layer_norm1 self) s ;;
  attention_scores <-
    MultiHeadAttention.forward (attention self) x (Some encoder_output) ;;
  s <- tadd 1 attention_scores x ;;
  x <- LayerNorm.forward (layer_norm2 self) s ;;
  scores <- FeedForwardNetwork.forward (feedforward self) x ;;
  s <- tadd 1 scores x ;;
  LayerNorm.forward (layer_norm3 self) s.

End Decoder.

(** ** class PositionalEncoding *)

Module PositionalEncoding.

Record t : Type := { d_model : Z }.

Definition init (d_model : Z) : t := {| d_model := d_model |}.

(** [torch.arange(0, stop)]: a negative [stop] is refused *)
Definition arange (stop : Z) : result vec :=
  if (stop <? 0)%Z then raise RuntimeError
  else ok (map FP.of_nat (seq 0 (Z.to_nat stop))).

(** [10000 ^ (2i / d_model)] for every [i] *)
Definition div_term (self : t) (i : vec) : vec :=
  map (fun i => FP.pow 10000 ((Fin 2 * i) / FP.of_Z (d_model self))%fp) i.

(** [position[:, np.newaxis] / div_term]: one row per position *)
Definition angles (position div_term : vec) : matrix :=
  map (fun p => map (fun d => (p / d)%fp) div_term) position.

Definition forward (self : t) (x : tensor3) : result matrix :=
  (* PE = torch.zeros(x.shape[1:]) *)
  let PE := full (length (hd [] x)) (ncols (hd [] x)) FP.zero in
  position <- arange (Z.of_nat (length PE)) ;;
  i <- arange (d_model self / 2) ;;
  let div_term := div_term self i in
  PE <- assign_cols 0 PE (mmap FP.sin (angles position div_term)) ;;
  PE <- assign_cols 1 PE (mmap FP.cos (angles position div_term)) ;;
  ok PE.

End PositionalEncoding.

(** ** class Transformer *)

Module Transformer.

Record t : Type :=
  { n_token : Z;
    n_layer : Z;
    n_head : Z;
    d_model : Z;
    d_ff : Z;
    encoders : list Encoder.t;
    decoders : list Decoder.t;
    embedding : Embedding.t;
    pos_encoding : PositionalEncoding.t }.

Fixpoint encoder_stack (n : nat) (n_head d_model d_ff : Z) (g : rng)
  : result (list Encoder.t * rng) :=
  match n with
  | O => ok ([], g)
  | S n' =>
      ' (e, g) <- Encoder.init n_head d_model d_ff g ;;
      ' (l, g) <- encoder_stack n' n_head d_model d_ff g ;;
      ok (e :: l, g)
  end.

Fixpoint decoder_stack (n : nat) (n_head d_model d_ff : Z) (g : rng)
  : result (list Decoder.t * rng) :=
  match n with
  | O => ok ([], g)
  | S n' =>
      ' (d, g) <- Decoder.init n_head d_model d_ff g ;;
      ' (l, g) <- decoder_stack n' n_head d_model d_ff g ;;
      ok (d :: l, g)
  end.

Definition init (n_token n_layer n_head d_model d_ff : Z) (g : rng)
  : result (t * rng) :=
  ' (encoders, g) <- encoder_stack (Z.to_nat n_layer) n_head d_model d_ff g ;;
  ' (decoders, g) <- decoder_stack (Z.to_nat n_layer) n_head d_model d_ff g ;;
  ' (embedding, g) <- Embedding.init n_token d_model g ;;
  ok ({| n_token := n_token; n_layer := n_layer; n_head := n_head;
         d_model := d_model; d_ff := d_ff;
         encoders := encoders; decoders := decoders;
         embedding := embedding;
         pos_encoding := PositionalEncoding.init d_model |}, g).

(** [self.embedding(x) * np.sqrt(self.d_model)], then [x + pos_encoding(x)] *)
Definition embed (self : t) (x : list (list Z)) : result tensor3 :=
  e <- Embedding.forward (embedding self) x ;;
  let x := tmap 1 (fun v => (v * FP.sqrt (FP.of_Z (d_model self)))%fp) e in
  pe <- PositionalEncoding.forward (pos_encoding self) x ;;
  tadd 1 x [pe].

(** [nn.Sequential] of the encoders *)
Definition run_encoders (encoders : list Encoder.t) (x : tensor3)
  : result tensor3 :=
  fold_left (fun acc encoder => a <- acc ;; Encoder.forward encoder a)
            encoders (ok x).

(** [for decoder in self.decoders: ...] *)
Definition run_decoders (decoders : list Decoder.t) (y encoder_output : tensor3)
  : result tensor3 :=
  fold_left (fun acc decoder =>
               a <- acc ;; Decoder.forward decoder a encoder_output)
            decoders (ok y).

(** the pre-softmax linear layer: the transpose of the embedding weights *)
Definition project (self : t) (decoder_output : tensor3) : result tensor3 :=
  matmul_w decoder_output (transpose (Embedding.weight (embedding self))).

Definition forward (self : t) (x y : list (list Z)) : result tensor3 :=
  x <- embed self x ;;
  y <- embed self y ;;
  encoder_output <- run_encoders (encoders self) x ;;
  decoder_output <- run_decoders (decoders self) y encoder_output ;;
  scores <- project self decoder_output ;;
  ok (softmax 1 scores).

End Transformer.

(** ** Auxiliary definitions for the statements *)

(** [torch.zeros_like(x)] *)
Definition zeros_like (n : nat) (x : tensor n) : tensor n :=
  tmap n (fun _ => FP.zero) x.

(** The encoder layer written with the [Sublayer] wrapper, as the notebook
    describes it: [Sublayer(attention)] then [Sublayer(feed_forward)], with
    the encoder's own normalisation parameters. *)
Module EncoderBySublayers.

Definition attention_sublayer (self : Encoder.t) : Sublayer.t :=
  {| Sublayer.res_connect :=
       Residual_Connection.init
         (fun x => MultiHeadAttention.forward (Encoder.attention self) x None);
     Sublayer.layer_norm := Encoder.layer_norm1 self |}.

Definition feed_forward_sublayer (self : Encoder.t) : Sublayer.t :=
  {| Sublayer.res_connect :=
       Residual_Connection.init
         (FeedForwardNetwork.forward (Encoder.feed_forward self));
     Sublayer.layer_norm := Encoder.layer_norm2 self |}.

Definition forward (self : Encoder.t) (x : tensor3) : result tensor3 :=
  m <- Sublayer.forward (attention_sublayer self) x ;;
  Sublayer.forward (feed_forward_sublayer self) m.

End EncoderBySublayers.

(** shapes, as boolean tests: a [rows] by [cols] matrix, and a tensor with the
    leading axes [dims] over such matrices *)
Definition is_matrix (rows cols : nat) (m : matrix) : bool :=
  (length m =? rows) && forallb (fun row => length row =? cols) m.

Fixpoint has_shape (n : nat) (dims : list nat) (rows cols : nat)
  : tensor n -> bool :=
  match n with
  | O => fun m => match dims with
                  | [] => is_matrix rows cols m
                  | _ :: _ => false
                  end
  | S k => fun t => match dims with
                    | [] => false
                    | d :: ds =>
                        (length t =? d) && forallb (has_shape k ds rows cols) t
                    end
  end.

(** the sinusoid of the specification at position [pos] and feature [j]:
    with [i = j / 2], the sine of [pos / 10000^(2i/d_model)] for an even
    feature and the cosine for an odd one *)
Definition sinusoid (d_model pos j : nat) : fp :=
  let angle := (INR pos / Rpower 10000 (2 * INR (j / 2) / INR d_model))%R in
  if Nat.even j then Fin (sin angle) else Fin (cos angle).

(** the sine or cosine term of one position, as the positional encoding
    computes it: [f(pos / 10000^(2i/d_model))] for [i] below [d_model // 2] *)
Definition trig_row (d : nat) (f : fp -> fp) (pos : nat) : vec :=
  map (fun i => f (FP.of_nat pos
                   / FP.pow 10000 ((Fin 2 * FP.of_nat i)
                                   / FP.of_Z (Z.of_nat d)))%fp)
      (seq 0 (d / 2)).

(** one row of the encoding: the sines written to the even columns of a row
    of zeros, then the cosines to the odd columns *)
Definition PE_row (d : nat) (pos : nat) : vec :=
  set_cols 1 (set_cols 0 (repeat FP.zero d) (trig_row d FP.sin pos))
           (trig_row d FP.cos pos).

(** the assignment [weight[v, k] = a] to one entry of a matrix *)
Definition update {A} (l : list A) (i : nat) (a : A) : list A :=
  mapi (fun j x => if j =? i then a else x) l.

Definition set_entry (m : matrix) (v k : nat) (a : fp) : matrix :=
  mapi (fun i row => if i =? v then update row k a else row) m.

(** the model after [self.embedding.weight[v, k] = a]: the embedding is the
    one object that the lookups and the output projection read *)
Definition set_embedding_entry (self : Transformer.t) (v k : nat) (a : fp)
  : Transformer.t :=
  {| Transformer.n_token := Transformer.n_token self;
     Transformer.n_layer := Transformer.n_layer self;
     Transformer.n_head := Transformer.n_head self;
     Transformer.d_model := Transformer.d_model self;
     Transformer.d_ff := Transformer.d_ff self;
     Transformer.encoders := Transformer.encoders self;
     Transformer.decoders := Transformer.decoders self;
     Transformer.embedding :=
       {| Embedding.weight :=
            set_entry (Embedding.weight (Transformer.embedding self)) v k a |};
     Transformer.pos_encoding := Transformer.pos_encoding self |}.

(** a model without layers over a vocabulary of two tokens, for examples *)
Definition tiny_transformer : Transformer.t :=
  {| Transformer.n_token := 2;
     Transformer.n_layer := 0;
     Transformer.n_head := 1;
     Transformer.d_model := 2;
     Transformer.d_ff := 1;
     Transformer.encoders := [];
     Transformer.decoders := [];
     Transformer.embedding :=
       {| Embedding.weight := [[Fin 1; Fin 2]; [Fin 3; Fin 4]] |};
     Transformer.pos_encoding := PositionalEncoding.init 2 |}.

(** a tensor with the leading axes [dims] all of whose matrices satisfy [P] *)
Fixpoint tall (n : nat) (P : matrix -> Prop) (dims : list nat)
  : tensor n -> Prop :=
  match n with
  | O => fun m => dims = [] /\ P m
  | S k => fun t => match dims with
                    | [] => False
                    | d :: ds => length t = d /\ Forall (tall k P ds) t
                    end
  end.

(** every element is a finite number (not an infinity, not NaN) *)
Definition vfin (v : vec) : bool := forallb FP.is_fin v.
Definition mfin (m : matrix) : bool := forallb vfin m.

Fixpoint all_fin (n : nat) : tensor n -> bool :=
  match n with
  | O => mfin
  | S k => forallb (all_fin k)
  end.

(** [x] is a number at distance at most [tol] from [c] *)
Definition within (x : fp) (c tol : R) : Prop :=
  exists r, x = Fin r /\ (Rabs (r - c) <= tol)%R.


(** the shapes that the constructors give to the weights *)
Definition Attention_shape (d_model d_key : nat) (a : Attention.t) : bool :=
  is_matrix d_model d_key (Attention.WK a)
  && is_matrix d_model d_key (Attention.WQ a)
  && is_matrix d_model d_key (Attention.WV a).

Definition MultiHeadAttention_shape (n_head d_model : nat)
  (self : MultiHeadAttention.t) : bool :=
  let d_key := d_model / n_head in
  (length (MultiHeadAttention.multi_head_attention self) =? n_head)
  && forallb (Attention_shape d_model d_key)
             (MultiHeadAttention.multi_head_attention self)
  && is_matrix (n_head * d_key) d_model (MultiHeadAttention.W self).

(** the optional memory of an attention layer has the batch size and the
    width of the input *)
Definition memory_shape (b d_model : nat) (encoder_output : option tensor3)
  : bool :=
  match encoder_output with
  | None => true
  | Some e => (1 <=? length (hd [] e))
              && has_shape 1 [b] (length (hd [] e)) d_model e
  end.

(** two heads of width one over a model dimension of two, for examples *)
Definition tiny_head : Attention.t :=
  {| Attention.WK := [[Fin 1]; [Fin 0]];
     Attention.WQ := [[Fin 0]; [Fin 1]];
     Attention.WV := [[Fin 1]; [Fin 1]];
     Attention.scaled_dot_product := ScaledDotProductAttention.init false |}.

Definition tiny_multi_head : MultiHeadAttention.t :=
  {| MultiHeadAttention.mask := false;
     MultiHeadAttention.h := 2;
     MultiHeadAttention.multi_head_attention := [tiny_head; tiny_head];
     MultiHeadAttention.W := [[Fin 1; Fin 0]; [Fin 0; Fin 1]] |}.

(** plus infinity or NaN: what a square of a non-finite number is *)
Definition pinf_or_nan (x : fp) : Prop := x = PInf \/ x = NaN.

(** entry [(0, j)] of a matrix *)
Definition entry0 (j : nat) (m : matrix) : fp := nth j (hd [] m) FP.zero.

(** the first row holds an infinity or NaN in column [j] *)
Definition tainted (j : nat) (m : matrix) : Prop :=
  FP.is_fin (entry0 j m) = false.

(** every entry of the first row is NaN *)
Definition nan_row (m : matrix) : Prop :=
  Forall (fun a => a = NaN) (hd [] m).

(** every head of the layer masks *)
Definition MultiHeadAttention_masked (self : MultiHeadAttention.t) : bool :=
  forallb (fun a => ScaledDotProductAttention.mask
                      (Attention.scaled_dot_product a))
          (MultiHeadAttention.multi_head_attention self).

Definition Linear_shape (in_features out_features : nat) (l : Linear.t) : bool :=
  is_matrix out_features in_features (Linear.weight l)
  && (length (Linear.bias l) =? out_features).

Definition LayerNorm_shape (d : nat) (ln : LayerNorm.t) : bool :=
  (LayerNorm.normalized_shape ln =? d)
  && (length (LayerNorm.weight ln) =? d)
  && (length (LayerNorm.bias ln) =? d).

Definition FeedForwardNetwork_shape (d d_ff : nat) (f : FeedForwardNetwork.t)
  : bool :=
  Linear_shape d d_ff (FeedForwardNetwork.linear1 f)
  && Linear_shape d_ff d (FeedForwardNetwork.linear2 f).

Definition Encoder_shape (n_head d d_ff : nat) (e : Encoder.t) : bool :=
  MultiHeadAttention_shape n_head d (Encoder.attention e)
  && FeedForwardNetwork_shape d d_ff (Encoder.feed_forward e)
  && LayerNorm_shape d (Encoder.layer_norm1 e)
  && LayerNorm_shape d (Encoder.layer_norm2 e).

Definition Decoder_shape (n_head d d_ff : nat) (dec : Decoder.t) : bool :=
  MultiHeadAttention_shape n_head d (Decoder.masked_attention dec)
  && MultiHeadAttention_masked (Decoder.masked_attention dec)
  && MultiHeadAttention_shape n_head d (Decoder.attention dec)
  && FeedForwardNetwork_shape d d_ff (Decoder.feedforward dec)
  && LayerNorm_shape d (Decoder.layer_norm1 dec)
  && LayerNorm_shape d (Decoder.layer_norm2 dec)
  && LayerNorm_shape d (Decoder.layer_norm3 dec).

Definition Transformer_shape (vocab n_head d d_ff : nat) (t : Transformer.t)
  : bool :=
  forallb (Encoder_shape n_head d d_ff) (Transformer.encoders t)
  && forallb (Decoder_shape n_head d d_ff) (Transformer.decoders t)
  && is_matrix vocab d (Embedding.weight (Transformer.embedding t))
  && (PositionalEncoding.d_model (Transformer.pos_encoding t) =? Z.of_nat d)%Z
  && (Transformer.d_model t =? Z.of_nat d)%Z.

(** a (batch, seq) tensor of token indices below the vocabulary size *)
Definition indices_shape (b seq_len vocab : nat) (idx : list (list Z)) : bool :=
  (length idx =? b)
  && forallb (fun row =>
                (length row =? seq_len)
                && forallb (fun i => (0 <=? i) && (i <? Z.of_nat vocab))%Z row)
             idx.

(** the value of [LayerNorm.forward_row] on a vector of the normalised
    length *)
Definition layer_norm_value (self : LayerNorm.t) (v : vec) : vec :=
  let mu := LayerNorm.mean v in
  let var := LayerNorm.mean (map (fun x => ((x - mu) * (x - mu))%fp) v) in
  let sd := FP.sqrt (var + Fin (LayerNorm.eps self))%fp in
  let normed := map (fun x => ((x - mu) / sd)%fp) v in
  map (fun p => (fst p + snd p)%fp)
      (combine (map (fun p => (fst p * snd p)%fp)
                    (combine normed (LayerNorm.weight self)))
               (LayerNorm.bias self)).

(** a row of the output is a probability distribution: every entry is a
    non-negative number and the entries sum to one within 1e-4 *)
Definition distribution (row : vec) : Prop :=
  Forall (fun a => exists r, a = Fin r /\ (0 <= r)%R) row
  /\ within (vsum row) 1 (1 / 10000).

(** the model that [Transformer(n_token=2, n_layer=1, n_head=1, d_model=2,
    d_ff=1)] builds when every sample of the generator is zero *)
Definition demo_transformer : Transformer.t :=
  match Transformer.init 2 1 1 2 1 (fun _ => 0%R) with
  | inr (t, _) => t
  | inl _ => tiny_transformer
  end.

(** the elementwise combination of two matrices of one shape *)
Definition zip_rows (f : fp -> fp -> fp) (a b : matrix) : matrix :=
  map (fun p => map (fun q => f (fst q) (snd q)) (combine (fst p) (snd p)))
      (combine a b).

(** the locals of [PositionalEncoding.forward] on an input with [seq_len]
    positions, for the model dimension [d] *)
Definition PE_position (seq_len : nat) : vec := map FP.of_nat (seq 0 seq_len).

Definition PE_div_term (d : nat) : vec :=
  PositionalEncoding.div_term (PositionalEncoding.init (Z.of_nat d))
    (map FP.of_nat (seq 0 (d / 2))).

Definition PE_sines (d seq_len : nat) : matrix :=
  mmap FP.sin (PositionalEncoding.angles (PE_position seq_len) (PE_div_term d)).

Definition PE_cosines (d seq_len : nat) : matrix :=
  mmap FP.cos (PositionalEncoding.angles (PE_position seq_len) (PE_div_term d)).

(** arithmetic on lengths, with the type of tensors folded *)
Ltac fold_tensor :=
  repeat match goal with
         | n : nat |- _ => progress fold (tensor n) in *
         end.
Ltac tlia := fold_tensor; lia.

(** the test that [Embedding.lookup] makes on an index *)
Definition in_vocab (self : Embedding.t) (i : Z) : bool :=
  ((0 <=? i) && (i <? Z.of_nat (length (Embedding.weight self))))%Z.

(** weights that are all finite numbers; the heads of a layer that do not
    mask *)
Definition Attention_fin (a : Attention.t) : bool :=
  mfin (Attention.WK a) && mfin (Attention.WQ a) && mfin (Attention.WV a).

Definition MultiHeadAttention_fin (self : MultiHeadAttention.t) : bool :=
  forallb Attention_fin (MultiHeadAttention.multi_head_attention self)
  && mfin (MultiHeadAttention.W self).

Definition MultiHeadAttention_unmasked (self : MultiHeadAttention.t) : bool :=
  forallb (fun a => negb (ScaledDotProductAttention.mask
                            (Attention.scaled_dot_product a)))
          (MultiHeadAttention.multi_head_attention self).

Definition Linear_fin (l : Linear.t) : bool :=
  mfin (Linear.weight l) && vfin (Linear.bias l).

Definition FeedForwardNetwork_fin (f : FeedForwardNetwork.t) : bool :=
  Linear_fin (FeedForwardNetwork.linear1 f)
  && Linear_fin (FeedForwardNetwork.linear2 f).

(** finite scale and shift, and a positive [eps] *)
Definition LayerNorm_fin (ln : LayerNorm.t) : Prop :=
  vfin (LayerNorm.weight ln) = true /\ vfin (LayerNorm.bias ln) = true
  /\ (0 < LayerNorm.eps ln)%R.

Definition Encoder_fin (e : Encoder.t) : Prop :=
  MultiHeadAttention_fin (Encoder.attention e) = true
  /\ MultiHeadAttention_unmasked (Encoder.attention e) = true
  /\ FeedForwardNetwork_fin (Encoder.feed_forward e) = true
  /\ LayerNorm_fin (Encoder.layer_norm1 e)
  /\ LayerNorm_fin (Encoder.layer_norm2 e).

(** one feature row through a linear layer, [row W^T + bias], and through
    the feed-forward network, [max(0, row W1^T + b1) W2^T + b2] *)
Definition Linear_row (l : Linear.t) (row : vec) : vec :=
  map (fun p => (fst p + snd p)%fp)
      (combine (map (dot row) (Linear.weight l)) (Linear.bias l)).

Definition FeedForwardNetwork_row (f : FeedForwardNetwork.t) (row : vec) : vec :=
  Linear_row (FeedForwardNetwork.linear2 f)
             (map FP.relu (Linear_row (FeedForwardNetwork.linear1 f) row)).

(** a feed-forward network, a normalisation and an encoder layer over a model
    dimension of two, for examples *)
Definition tiny_feed_forward : FeedForwardNetwork.t :=
  {| FeedForwardNetwork.linear1 :=
       {| Linear.weight := [[Fin 1; Fin (-1)]]; Linear.bias := [Fin 0] |};
     FeedForwardNetwork.linear2 :=
       {| Linear.weight := [[Fin 1]; [Fin 2]];
          Linear.bias := [Fin 0; Fin 1] |} |}.

Definition tiny_layer_norm : LayerNorm.t :=
  {| LayerNorm.normalized_shape := 2;
     LayerNorm.weight := [FP.one; FP.one];
     LayerNorm.bias := [FP.zero; FP.zero];
     LayerNorm.eps := (1 / 100000)%R |}.

Definition tiny_encoder : Encoder.t :=
  {| Encoder.attention := tiny_multi_head;
     Encoder.feed_forward := tiny_feed_forward;
     Encoder.layer_norm1 := tiny_layer_norm;
     Encoder.layer_norm2 := tiny_layer_norm |}.

Definition Decoder_fin (dec : Decoder.t) : Prop :=
  MultiHeadAttention_fin (Decoder.masked_attention dec) = true
  /\ MultiHeadAttention_fin (Decoder.attention dec) = true
  /\ MultiHeadAttention_unmasked (Decoder.attention dec) = true
  /\ FeedForwardNetwork_fin (Decoder.feedforward dec) = true
  /\ LayerNorm_fin (Decoder.layer_norm1 dec)
  /\ LayerNorm_fin (Decoder.layer_norm2 dec)
  /\ LayerNorm_fin (Decoder.layer_norm3 dec).

Definition Transformer_fin (self : Transformer.t) : Prop :=
  Forall Encoder_fin (Transformer.encoders self)
  /\ Forall Decoder_fin (Transformer.decoders self)
  /\ mfin (Embedding.weight (Transformer.embedding self)) = true.

(** a head of width two and a decoder layer with one such head, for
    examples *)
Definition tiny_wide_head (mask : bool) : Attention.t :=
  {| Attention.WK := [[Fin 1; Fin 0]; [Fin 0; Fin 1]];
     Attention.WQ := [[Fin 1; Fin 0]; [Fin 0; Fin 1]];
     Attention.WV := [[Fin 1; Fin 0]; [Fin 0; Fin 1]];
     Attention.scaled_dot_product := ScaledDotProductAttention.init mask |}.

Definition tiny_wide_multi_head (mask : bool) : MultiHeadAttention.t :=
  {| MultiHeadAttention.mask := mask;
     MultiHeadAttention.h := 1;
     MultiHeadAttention.multi_head_attention := [tiny_wide_head mask];
     MultiHeadAttention.W := [[Fin 1; Fin 0]; [Fin 0; Fin 1]] |}.

Definition tiny_decoder : Decoder.t :=
  {| Decoder.masked_attention := tiny_wide_multi_head true;
     Decoder.attention := tiny_wide_multi_head false;
     Decoder.feedforward := tiny_feed_forward;
     Decoder.layer_norm1 := tiny_layer_norm;
     Decoder.layer_norm2 := tiny_layer_norm;
     Decoder.layer_norm3 := tiny_layer_norm |}.

(** ** The shift of the target in the unit test: [torch.roll(y, 1)]

    Without [dims] the tensor is flattened, rolled and restored to its
    shape: the element at flat index [i] moves to [(i + shifts) mod size]. *)

Definition roll_flat {A} (shifts : Z) (l : list A) : list A :=
  match length l with
  | O => l
  | S _ as size =>
      let s := Z.to_nat (shifts mod Z.of_nat size) in
      skipn (size - s) l ++ firstn (size - s) l
  end.

(** [l.reshape(rows, cols)] *)
Fixpoint reshape {A} (rows cols : nat) (l : list A) : list (list A) :=
  match rows with
  | O => []
  | S r => firstn cols l :: reshape r cols (skipn cols l)
  end.

Definition roll (shifts : Z) (y : list (list Z)) : list (list Z) :=
  reshape (length y) (length (hd [] y)) (roll_flat shifts (concat y)).

(** row [i] of a matrix holds an infinity or NaN; row [i] holds NaN only *)
Definition bad_row (i : nat) (m : matrix) : Prop :=
  exists a, In a (nth i m []) /\ FP.is_fin a = false.

Definition nan_row_at (i : nat) (m : matrix) : Prop :=
  Forall (fun a => a = NaN) (nth i m []).

(** ** The earlier draft of the attention classes

    The notebook opens with a first version of [ScaledDotProductAttention]
    and [Attention], written for one sequence (matrices without a batch
    axis): the keys are transposed on the axes 0 and 1, their width is
    [K.shape[1]], and the mask is an argument of [forward] that nothing is
    done with. *)

Module Draft.

Module ScaledDotProductAttention.

Definition forward (Q K V : matrix) (mask : bool) : result matrix :=
  dot_products <- matmul Q (transpose K) ;;
  let d_k := ncols K in
  let scaled_dot_products :=
    mmap (fun x => (x / FP.sqrt (FP.of_nat d_k))%fp) dot_products in
  let weights := map softmax_row scaled_dot_products in
  weighted_values <- matmul weights V ;;
  (* if mask==True: pass *)
  if mask then ok weighted_values else ok weighted_values.

End ScaledDotProductAttention.

Module Attention.

Record t : Type :=
  { WK : matrix;
    WQ : matrix;
    WV : matrix }.

Definition init (d_model d_k : Z) (g : rng) : result (t * rng) :=
  ' (wk, g) <- randn d_model d_k g ;;
  ' (wq, g) <- randn d_model d_k g ;;
  ' (wv, g) <- randn d_model d_k g ;;
  ok ({| WK := wk; WQ := wq; WV := wv |}, g).

Definition forward (self : t) (inputs : matrix) (mask : bool) : result matrix :=
  K <- matmul inputs (WK self) ;;
  Q <- matmul inputs (WQ self) ;;
  V <- matmul inputs (WV self) ;;
  ScaledDotProductAttention.forward Q K V mask.

End Attention.

End Draft.

(** entry [(i, pos, j)] of a batch, and the token at position [pos] of
    sequence [i] *)
Definition entry3 (t : tensor3) (i pos j : nat) : fp :=
  nth j (nth pos (nth i t []) []) FP.zero.

Definition token_at (idx : list (list Z)) (i pos : nat) : Z :=
  nth pos (nth i idx []) 0%Z.

(** * Properties *)

(** ** Scalars *)

Lemma Rcompare_refl (r : R) : Rcompare r r = Eq.
Proof. destruct (Rcompare_spec r r); [reflexivity | lra | lra]. Qed.

Lemma Rcompare_gt (a b : R) : (b < a)%R -> Rcompare a b = Gt.
Proof. intros H. destruct (Rcompare_spec a b); [lra | lra | reflexivity]. Qed.

Lemma fp_add_comm (x y : fp) : (x + y)%fp = (y + x)%fp.
Proof. destruct x, y; simpl; try reflexivity. now rewrite Rplus_comm. Qed.

Lemma fp_add_zero_r (x : fp) : (x + FP.zero)%fp = x.
Proof. destruct x; simpl; try reflexivity. now rewrite Rplus_0_r. Qed.

(** ** The error monad *)

Lemma bind_assoc {A B C} (m : result A) (f : A -> result B) (g : B -> result C) :
  bind (bind m f) g = bind m (fun a => bind (f a) g).
Proof. destruct m; reflexivity. Qed.

Lemma bind_ok_l {A B} (a : A) (k : A -> result B) : bind (ok a) k = k a.
Proof. reflexivity. Qed.

Lemma bind_ext {A B} (m : result A) (f g : A -> result B) :
  (forall a, f a = g a) -> bind m f = bind m g.
Proof. intros H. destruct m; simpl; [reflexivity | apply H]. Qed.

Lemma mapM_ext_in {A B} (f g : A -> result B) (l : list A) :
  (forall a, In a l -> f a = g a) -> mapM f l = mapM g l.
Proof.
  induction l as [| a l IH]; intros H; simpl; [reflexivity |].
  rewrite (H a (or_introl eq_refl)), IH; [reflexivity |].
  intros b Hb. apply H. now right.
Qed.

Lemma mapM_pure {A B} (g : A -> B) (l : list A) :
  mapM (fun a => ok (g a)) l = ok (map g l).
Proof.
  induction l as [| a l IH]; simpl; [reflexivity |].
  rewrite IH. reflexivity.
Qed.

Lemma mapM_ok_in {A B} (f : A -> result B) (g : A -> B) (l : list A) :
  (forall a, In a l -> f a = ok (g a)) -> mapM f l = ok (map g l).
Proof.
  intros H. rewrite <- mapM_pure. now apply mapM_ext_in.
Qed.

(** ** Broadcasting is symmetric *)

Lemma combine_swap {A B} (xs : list A) (ys : list B) :
  combine ys xs = map (fun p => (snd p, fst p)) (combine xs ys).
Proof.
  revert ys. induction xs as [| x xs IH]; intros [| y ys]; simpl;
    try reflexivity.
  now rewrite IH.
Qed.

Lemma mapM_map {A B C} (f : B -> result C) (g : A -> B) (l : list A) :
  mapM f (map g l) = mapM (fun a => f (g a)) l.
Proof.
  induction l as [| a l IH]; simpl; [reflexivity |]. now rewrite IH.
Qed.

Lemma bcast2_sym {A B C} (f : A -> B -> result C) (g : B -> A -> result C)
  (xs : list A) (ys : list B) :
  (forall a b, f a b = g b a) -> bcast2 f xs ys = bcast2 g ys xs.
Proof.
  intros H. unfold bcast2. rewrite (Nat.eqb_sym (length ys)).
  destruct (length xs =? length ys) eqn:E.
  - rewrite (combine_swap xs ys), mapM_map. simpl.
    apply mapM_ext_in. intros [a b] _. apply H.
  - destruct xs as [| x [| x' xs]], ys as [| y [| y' ys]];
      simpl in E; try discriminate; cbn -[mapM]; try reflexivity;
      apply mapM_ext_in; intros; apply H.
Qed.

Lemma tzip_comm (f : fp -> fp -> fp) (n : nat) :
  (forall a b, f a b = f b a) ->
  forall x y : tensor n, tzip n f x y = tzip n f y x.
Proof.
  intros Hf. unfold tzip.
  induction n as [| n IH]; simpl; intros x y.
  - unfold mzip. apply bcast2_sym. intros u v.
    unfold vzip. apply bcast2_sym. intros a b. now rewrite Hf.
  - apply bcast2_sym. exact IH.
Qed.

Lemma tadd_comm (n : nat) (x y : tensor n) : tadd n x y = tadd n y x.
Proof. apply tzip_comm. exact fp_add_comm. Qed.

(** ** Adding a tensor of zeros *)

Lemma combine_map_r {A B} (g : A -> B) (l : list A) :
  combine l (map g l) = map (fun a => (a, g a)) l.
Proof. induction l as [| a l IH]; simpl; [reflexivity |]. now rewrite IH. Qed.

Lemma bcast2_diag {A B C} (f : A -> B -> result C) (g : A -> B) (k : A -> C)
  (l : list A) :
  (forall a, In a l -> f a (g a) = ok (k a)) ->
  bcast2 f l (map g l) = ok (map k l).
Proof.
  intros H. unfold bcast2.
  rewrite length_map, Nat.eqb_refl, combine_map_r, mapM_map. simpl.
  now apply mapM_ok_in.
Qed.

Lemma tadd_zeros_like (n : nat) (x : tensor n) :
  tadd n x (zeros_like n x) = ok x.
Proof.
  unfold tadd, tzip, zeros_like, tmap.
  induction n as [| n IH]; simpl.
  - unfold mzip, mmap.
    rewrite (bcast2_diag _ _ (fun v => v)); [now rewrite map_id |].
    intros v _. unfold vzip.
    rewrite (bcast2_diag _ _ (fun a => a)); [now rewrite map_id |].
    intros a _. now rewrite fp_add_zero_r.
  - rewrite (bcast2_diag _ _ (fun v => v)); [now rewrite map_id |].
    intros a _. apply IH.
Qed.

(** ** MultiHeadAttention: the divisibility assertion *)

Lemma MultiHeadAttention_init_not_divisible (n_head d_model : Z) (mask : bool)
  (g : rng) :
  n_head <> 0%Z -> (d_model mod n_head)%Z <> 0%Z ->
  MultiHeadAttention.init n_head d_model mask g = raise AssertionError.
Proof.
  intros Hh Hm. unfold MultiHeadAttention.init.
  destruct (Z.eqb_spec n_head 0) as [E | _]; [contradiction |].
  destruct (Z.eqb_spec (d_model mod n_head) 0) as [E | _]; [contradiction |].
  reflexivity.
Qed.

(** C3: constructing [MultiHeadAttention] with a model dimension that the
    head count does not divide fails: no layer is created, the constructor
    raises.  For a head count other than zero the exception is the failed
    [assert d_model % n_head == 0] (the configuration error of the
    specification); a head count of zero already fails in the [%].  With
    [d_model = 512] and [n_head = 7] the assertion fails. *)
Theorem MultiHeadAttention_init_rejects_indivisible
  (n_head d_model : Z) (mask : bool) (g : rng) :
  ~ (n_head | d_model)%Z ->
  MultiHeadAttention.init n_head d_model mask g
    = raise (if (n_head =? 0)%Z then ZeroDivisionError else AssertionError)
  /\ MultiHeadAttention.init 7 512 mask g = raise AssertionError.
Proof.
  intros Hdiv. split.
  - destruct (Z.eqb_spec n_head 0) as [E | E].
    + unfold MultiHeadAttention.init. subst. reflexivity.
    + apply MultiHeadAttention_init_not_divisible; [exact E |].
      intros Hm. apply Hdiv. now apply Z.mod_divide.
  - reflexivity.
Qed.

Lemma MultiHeadAttention_init_rejects_indivisible_witness :
  MultiHeadAttention.init 7 512 false (fun _ => 0%R) = raise AssertionError.
Proof.
  refine (proj1 (MultiHeadAttention_init_rejects_indivisible
                   7 512 false (fun _ => 0%R) _)).
  intros [q Hq]. lia.
Defined.

(** C7: the sublayer wrapper returns [LayerNorm(x + layer(x))]: the residual
    sum first, then the normalisation; and when the wrapped layer returns
    zeros for every input, the output is exactly [LayerNorm(x)]. *)
Theorem Sublayer_forward_residual_then_normalize
  (self : Sublayer.t) (x : tensor3) :
  Sublayer.forward self x
    = (f_x <- Residual_Connection.layer (Sublayer.res_connect self) x ;;
       s <- tadd 1 x f_x ;;
       LayerNorm.forward (Sublayer.layer_norm self) s)
  /\ ((forall x', Residual_Connection.layer (Sublayer.res_connect self) x'
                  = ok (zeros_like 1 x')) ->
      Sublayer.forward self x
        = LayerNorm.forward (Sublayer.layer_norm self) x).
Proof.
  unfold Sublayer.forward, Residual_Connection.forward. split.
  - apply bind_assoc.
  - intros Hzero. rewrite Hzero. simpl bind at 2.
    now rewrite tadd_zeros_like.
Qed.

Lemma Sublayer_forward_residual_then_normalize_witness :
  let ln := {| LayerNorm.normalized_shape := 2;
               LayerNorm.weight := [FP.one; FP.one];
               LayerNorm.bias := [FP.zero; FP.zero];
               LayerNorm.eps := (1 / 100000)%R |} in
  let self := {| Sublayer.res_connect :=
                   Residual_Connection.init (fun x => ok (zeros_like 1 x));
                 Sublayer.layer_norm := ln |} in
  Sublayer.forward self [[[Fin 1; Fin 3]]]
    = LayerNorm.forward ln [[[Fin 1; Fin 3]]].
Proof.
  intros ln self.
  apply (proj2 (Sublayer_forward_residual_then_normalize self [[[Fin 1; Fin 3]]])).
  intros x'. reflexivity.
Defined.

(** C9: the encoder layer, which inlines the residual connections and the
    normalisations, computes what [Sublayer(feed_forward)] after
    [Sublayer(attention)] computes with the same normalisation parameters:
    [LayerNorm2(F(m) + m)] with [m = LayerNorm1(A(x) + x)]. *)
Theorem Encoder_forward_refines_sublayers (self : Encoder.t) (x : tensor3) :
  Encoder.forward self x = EncoderBySublayers.forward self x.
Proof.
  unfold Encoder.forward, EncoderBySublayers.forward, Sublayer.forward,
    Residual_Connection.forward. simpl.
  rewrite !bind_assoc. apply bind_ext. intros a.
  rewrite (tadd_comm 1 a x). apply bind_ext. intros s.
  apply bind_ext. intros m.
  rewrite !bind_assoc. apply bind_ext. intros f.
  now rewrite (tadd_comm 1 f m).
Qed.

(** ** Lists: indexed maps, [repeat] and [combine] *)

Lemma mapi_length {A B} (f : nat -> A -> B) (l : list A) :
  length (mapi f l) = length l.
Proof.
  unfold mapi. rewrite length_map, length_combine, length_seq. lia.
Qed.

Lemma combine_seq_nth {A} (l : list A) (s j : nat) (d : A) :
  j < length l ->
  nth j (combine (seq s (length l)) l) (O, d) = (s + j, nth j l d).
Proof.
  revert s j. induction l as [| a l IH]; simpl; intros s j Hj; [lia |].
  destruct j as [| j]; [now rewrite Nat.add_0_r |].
  rewrite IH by lia. f_equal. lia.
Qed.

Lemma mapi_nth {A B} (f : nat -> A -> B) (l : list A) (j : nat) (d : A) (d' : B) :
  j < length l -> nth j (mapi f l) d' = f j (nth j l d).
Proof.
  intros Hj. unfold mapi.
  rewrite (nth_indep _ d' (f O d))
    by (rewrite length_map, length_combine, length_seq; lia).
  rewrite (map_nth (fun p => f (fst p) (snd p)) _ (O, d)).
  now rewrite combine_seq_nth.
Qed.

Lemma repeat_as_map {A} (a : A) (n s : nat) :
  repeat a n = map (fun _ => a) (seq s n).
Proof.
  revert s. induction n as [| n IH]; intros s; simpl; [reflexivity |].
  now rewrite <- IH.
Qed.

Lemma combine_map_map {A B C} (f : A -> B) (g : A -> C) (l : list A) :
  combine (map f l) (map g l) = map (fun a => (f a, g a)) l.
Proof. induction l as [| a l IH]; simpl; [reflexivity |]. now rewrite IH. Qed.

Lemma set_cols_length (start : nat) (dst src : vec) :
  length (set_cols start dst src) = length dst.
Proof. apply mapi_length. Qed.

Lemma set_cols_nth (start : nat) (dst src : vec) (j : nat) (d : fp) :
  j < length dst ->
  nth j (set_cols start dst src) d
  = if (start <=? j) && Nat.even (j - start)
    then nth ((j - start) / 2) src (nth j dst d)
    else nth j dst d.
Proof. intros Hj. unfold set_cols. now rewrite (mapi_nth _ _ _ d d). Qed.

(** ** Expanding the source of a slice assignment *)

Lemma mapM_expand_axis_same {A} (cols : nat) (rows : list (list A)) :
  Forall (fun r => length r = cols) rows ->
  mapM (expand_axis cols) rows = ok rows.
Proof.
  intros H. rewrite (mapM_ok_in _ (fun r => r)); [now rewrite map_id |].
  intros r Hr. unfold expand_axis.
  rewrite Forall_forall in H. now rewrite (H r Hr), Nat.eqb_refl.
Qed.

Lemma expand_axis_mismatch {A} (cols : nat) (r : list A) :
  length r <> cols -> length r <> 1 ->
  expand_axis cols r = raise RuntimeError.
Proof.
  intros Hc H1. unfold expand_axis.
  destruct (Nat.eqb_spec (length r) cols) as [E | _]; [contradiction |].
  destruct r as [| a [| a' r]]; simpl in *; try reflexivity. lia.
Qed.

Lemma expand_axis_one {A} (cols : nat) (a : A) :
  expand_axis cols [a] = ok (repeat a cols).
Proof.
  unfold expand_axis. simpl.
  destruct cols as [| [| c]]; reflexivity.
Qed.

Lemma expand_same_rows (rows cols : nat) (src : matrix) :
  length src = rows -> expand rows cols src = mapM (expand_axis cols) src.
Proof.
  intros H. unfold expand, expand_axis. now rewrite H, Nat.eqb_refl.
Qed.

(** ** Slice assignment on known shapes *)

Lemma assign_cols_exact (start : nat) (dst src : matrix) :
  length src = length dst ->
  Forall (fun r => length r = slice_len start 2 (ncols dst)) src ->
  assign_cols start dst src
  = ok (map (fun p => set_cols start (fst p) (snd p)) (combine dst src)).
Proof.
  intros Hlen Hrows. unfold assign_cols.
  rewrite expand_same_rows by exact Hlen.
  now rewrite mapM_expand_axis_same.
Qed.

Lemma assign_cols_broadcast (start : nat) (dst src : matrix) :
  length src = length dst ->
  Forall (fun r => length r = 1) src ->
  assign_cols start dst src
  = ok (map (fun p => set_cols start (fst p) (snd p))
            (combine dst
               (map (fun r => repeat (hd FP.zero r)
                                     (slice_len start 2 (ncols dst))) src))).
Proof.
  intros Hlen Hrows. unfold assign_cols.
  rewrite expand_same_rows by exact Hlen.
  rewrite (mapM_ok_in _ (fun r => repeat (hd FP.zero r)
                                         (slice_len start 2 (ncols dst))));
    [reflexivity |].
  intros r Hr. rewrite Forall_forall in Hrows. specialize (Hrows r Hr).
  destruct r as [| a [| a' r]]; simpl in Hrows; try discriminate.
  apply expand_axis_one.
Qed.

Lemma assign_cols_mismatch (start k : nat) (dst src : matrix) :
  length src = length dst -> 1 <= length src ->
  Forall (fun r => length r = k) src ->
  k <> slice_len start 2 (ncols dst) -> k <> 1 ->
  assign_cols start dst src = raise RuntimeError.
Proof.
  intros Hlen Hne Hrows Hk H1. unfold assign_cols.
  rewrite expand_same_rows by exact Hlen.
  destruct src as [| r src]; simpl in Hne; [lia |].
  inversion Hrows as [| ? ? Hr _]; subst.
  simpl. rewrite expand_axis_mismatch; [reflexivity | exact Hk | exact H1].
Qed.

Lemma assign_cols_result_shape (start rows cols : nat) (dst src' : matrix) :
  is_matrix rows cols dst = true -> length src' = rows ->
  is_matrix rows cols
    (map (fun p => set_cols start (fst p) (snd p)) (combine dst src')) = true.
Proof.
  unfold is_matrix. intros H Hs.
  apply andb_prop in H. destruct H as [Hr Hc].
  apply Nat.eqb_eq in Hr. rewrite forallb_forall in Hc.
  apply andb_true_intro. split.
  - apply Nat.eqb_eq. rewrite length_map, length_combine. lia.
  - apply forallb_forall. intros r Hin.
    apply in_map_iff in Hin. destruct Hin as [[a b] [<- Hin]].
    rewrite set_cols_length. apply Hc. simpl.
    eapply in_combine_l. exact Hin.
Qed.

Lemma is_matrix_ncols (rows cols : nat) (m : matrix) :
  is_matrix rows cols m = true -> 1 <= rows -> ncols m = cols.
Proof.
  unfold is_matrix, ncols. intros H Hpos.
  apply andb_prop in H. destruct H as [Hr Hc]. apply Nat.eqb_eq in Hr.
  destruct m as [| r m]; simpl in *; [lia |].
  apply andb_prop in Hc. destruct Hc as [Hc _]. now apply Nat.eqb_eq.
Qed.

Lemma is_matrix_length (rows cols : nat) (m : matrix) :
  is_matrix rows cols m = true -> length m = rows.
Proof.
  unfold is_matrix. intros H. apply andb_prop in H. now apply Nat.eqb_eq.
Qed.

Lemma is_matrix_rows (rows cols : nat) (m : matrix) :
  is_matrix rows cols m = true -> Forall (fun r => length r = cols) m.
Proof.
  unfold is_matrix. intros H. apply andb_prop in H. destruct H as [_ H].
  rewrite forallb_forall in H. apply Forall_forall. intros r Hr.
  apply Nat.eqb_eq. now apply H.
Qed.

Lemma is_matrix_intro (rows cols : nat) (m : matrix) :
  length m = rows -> Forall (fun r => length r = cols) m ->
  is_matrix rows cols m = true.
Proof.
  intros Hl Hr. unfold is_matrix. apply andb_true_intro. split.
  - now apply Nat.eqb_eq.
  - apply forallb_forall. rewrite Forall_forall in Hr.
    intros r Hin. apply Nat.eqb_eq. now apply Hr.
Qed.

Lemma full_is_matrix (rows cols : nat) (v : fp) :
  is_matrix rows cols (full rows cols v) = true.
Proof.
  apply is_matrix_intro.
  - apply repeat_length.
  - apply Forall_forall. intros r Hr. apply repeat_spec in Hr. subst.
    apply repeat_length.
Qed.

(** ** PositionalEncoding on an input of known shape *)

Lemma arange_of_nat (n : nat) :
  PositionalEncoding.arange (Z.of_nat n) = ok (map FP.of_nat (seq 0 n)).
Proof.
  unfold PositionalEncoding.arange.
  destruct (Z.ltb_spec (Z.of_nat n) 0) as [H | _]; [lia |].
  now rewrite Nat2Z.id.
Qed.

Lemma slice_len_even_start (d : nat) : slice_len 0 2 d = (d + 1) / 2.
Proof.
  unfold slice_len. destruct d as [| d]; [reflexivity |].
  simpl Nat.leb. cbv iota. f_equal. lia.
Qed.

Lemma slice_len_odd_start (d : nat) : slice_len 1 2 d = d / 2.
Proof.
  unfold slice_len. destruct d as [| [| d]]; try reflexivity.
  simpl Nat.leb. cbv iota. f_equal. lia.
Qed.

Section PositionalEncodingSteps.

Variables (d seq_len : nat) (x : tensor3).
Hypothesis Hx : is_matrix seq_len d (hd [] x) = true.
Hypothesis Hseq : 1 <= seq_len.

Lemma PE_forward_steps :
  PositionalEncoding.forward (PositionalEncoding.init (Z.of_nat d)) x
  = (PE <- assign_cols 0 (full seq_len d FP.zero) (PE_sines d seq_len) ;;
     PE <- assign_cols 1 PE (PE_cosines d seq_len) ;;
     ok PE).
Proof.
  unfold PositionalEncoding.forward.
  rewrite (is_matrix_length _ _ _ Hx), (is_matrix_ncols _ _ _ Hx Hseq).
  replace (length (full seq_len d FP.zero)) with seq_len
    by (unfold full; now rewrite repeat_length).
  rewrite arange_of_nat, bind_ok_l.
  cbn [PositionalEncoding.d_model PositionalEncoding.init].
  change 2%Z with (Z.of_nat 2). rewrite <- Nat2Z.inj_div, arange_of_nat.
  reflexivity.
Qed.

Lemma PE_trig_shape (f : fp -> fp) :
  is_matrix seq_len (d / 2)
    (mmap f (PositionalEncoding.angles (PE_position seq_len) (PE_div_term d)))
  = true.
Proof.
  apply is_matrix_intro.
  - unfold mmap, PositionalEncoding.angles, PE_position.
    now rewrite !length_map, length_seq.
  - apply Forall_forall. intros r Hr.
    unfold mmap, PositionalEncoding.angles in Hr.
    rewrite map_map in Hr. apply in_map_iff in Hr.
    destruct Hr as [p [<- _]].
    unfold PE_div_term, PositionalEncoding.div_term.
    now rewrite !length_map, length_seq.
Qed.

Lemma PE0_shape : is_matrix seq_len d (full seq_len d FP.zero) = true.
Proof. apply full_is_matrix. Qed.

Lemma sines_shape : is_matrix seq_len (d / 2) (PE_sines d seq_len) = true.
Proof. apply PE_trig_shape. Qed.

Lemma cosines_shape : is_matrix seq_len (d / 2) (PE_cosines d seq_len) = true.
Proof. apply PE_trig_shape. Qed.

(** the second assignment, to the odd columns, always fits *)
Lemma PE_assign_cosines (PE1 : matrix) :
  is_matrix seq_len d PE1 = true ->
  assign_cols 1 PE1 (PE_cosines d seq_len)
  = ok (map (fun p => set_cols 1 (fst p) (snd p))
            (combine PE1 (PE_cosines d seq_len))).
Proof.
  intros H1. apply assign_cols_exact.
  - rewrite (is_matrix_length _ _ _ cosines_shape).
    now rewrite (is_matrix_length _ _ _ H1).
  - rewrite (is_matrix_ncols _ _ _ H1 Hseq), slice_len_odd_start.
    apply (is_matrix_rows _ _ _ cosines_shape).
Qed.

(** an even width: both assignments fit *)
Lemma PE_forward_even :
  Nat.even d = true ->
  PositionalEncoding.forward (PositionalEncoding.init (Z.of_nat d)) x
  = ok (map (fun p => set_cols 1 (fst p) (snd p))
            (combine
               (map (fun p => set_cols 0 (fst p) (snd p))
                    (combine (full seq_len d FP.zero) (PE_sines d seq_len)))
               (PE_cosines d seq_len))).
Proof.
  intros Hev. rewrite PE_forward_steps.
  rewrite assign_cols_exact.
  - simpl bind. rewrite PE_assign_cosines; [reflexivity |].
    apply assign_cols_result_shape; [apply PE0_shape |].
    apply (is_matrix_length _ _ _ sines_shape).
  - rewrite (is_matrix_length _ _ _ sines_shape).
    now rewrite (is_matrix_length _ _ _ PE0_shape).
  - rewrite (is_matrix_ncols _ _ _ PE0_shape Hseq), slice_len_even_start.
    replace ((d + 1) / 2) with (d / 2).
    + apply (is_matrix_rows _ _ _ sines_shape).
    + apply Nat.even_spec in Hev. destruct Hev as [k ->].
      rewrite (Nat.mul_comm 2 k), Nat.div_mul by lia.
      rewrite Nat.div_add_l by lia. simpl. lia.
Qed.

(** width three: the single sine column is broadcast to both even columns *)
Lemma PE_forward_three :
  d = 3 -> exists PE, PositionalEncoding.forward (PositionalEncoding.init (Z.of_nat d)) x = ok PE
                      /\ is_matrix seq_len d PE = true.
Proof.
  intros H3. rewrite PE_forward_steps.
  rewrite assign_cols_broadcast.
  - simpl bind. rewrite PE_assign_cosines.
    + eexists. split; [reflexivity |].
      apply assign_cols_result_shape.
      * apply assign_cols_result_shape; [apply PE0_shape |].
        rewrite length_map.
        apply (is_matrix_length _ _ _ sines_shape).
      * apply (is_matrix_length _ _ _ cosines_shape).
    + apply assign_cols_result_shape; [apply PE0_shape |].
      rewrite length_map.
      apply (is_matrix_length _ _ _ sines_shape).
  - rewrite (is_matrix_length _ _ _ sines_shape).
    now rewrite (is_matrix_length _ _ _ PE0_shape).
  - generalize (is_matrix_rows _ _ _ sines_shape).
    subst d. simpl. trivial.
Qed.

(** any other odd width: the sine term has one column too few and is not
    a single column *)
Lemma PE_forward_odd :
  Nat.odd d = true -> d <> 3 ->
  PositionalEncoding.forward (PositionalEncoding.init (Z.of_nat d)) x = raise RuntimeError.
Proof.
  intros Hodd H3. rewrite PE_forward_steps.
  apply Nat.odd_spec in Hodd. destruct Hodd as [k Hk].
  assert (Hhalf : d / 2 = k).
  { subst d. rewrite (Nat.mul_comm 2 k), Nat.div_add_l by lia.
    simpl. lia. }
  rewrite (assign_cols_mismatch 0 (d / 2)); [reflexivity | | | | |].
  - rewrite (is_matrix_length _ _ _ sines_shape).
    now rewrite (is_matrix_length _ _ _ PE0_shape).
  - now rewrite (is_matrix_length _ _ _ sines_shape).
  - apply (is_matrix_rows _ _ _ sines_shape).
  - rewrite (is_matrix_ncols _ _ _ PE0_shape Hseq), slice_len_even_start.
    rewrite Hhalf. subst d.
    replace (2 * k + 1 + 1) with ((k + 1) * 2) by lia.
    rewrite Nat.div_mul by lia. lia.
  - rewrite Hhalf. intros ->. apply H3. lia.
Qed.

End PositionalEncodingSteps.

(** ** The entries of the positional encoding *)

Lemma nth_map_seq {A} (f : nat -> A) (n p : nat) (d : A) :
  p < n -> nth p (map f (seq 0 n)) d = f p.
Proof.
  intros Hp. rewrite (nth_indep _ d (f O)) by now rewrite length_map, length_seq.
  rewrite map_nth, seq_nth by exact Hp. reflexivity.
Qed.

Lemma PE_angle (d pos i : nat) :
  1 <= d ->
  (FP.of_nat pos
   / FP.pow 10000 ((Fin 2 * FP.of_nat i) / FP.of_Z (Z.of_nat d)))%fp
  = Fin (INR pos / Rpower 10000 (2 * INR i / INR d)).
Proof.
  intros Hd. unfold FP.of_nat, FP.of_Z. simpl.
  rewrite <- INR_IZR_INZ.
  assert (Hpos : (0 < INR d)%R) by (apply lt_0_INR; lia).
  rewrite (Rcompare_gt _ _ Hpos). simpl.
  assert (Hpow : (0 < Rpower 10000 (2 * INR i / INR d))%R)
    by (unfold Rpower; apply exp_pos).
  now rewrite (Rcompare_gt _ _ Hpow).
Qed.

Lemma has_shape_hd (b seq_len d : nat) (x : tensor3) :
  has_shape 1 [b] seq_len d x = true -> 1 <= b ->
  is_matrix seq_len d (hd [] x) = true.
Proof.
  simpl. intros H Hb. apply andb_prop in H. destruct H as [Hl Hall].
  apply Nat.eqb_eq in Hl. destruct x as [| m x]; simpl in *; [lia |].
  apply andb_prop in Hall. tauto.
Qed.

Section PositionalEncodingEntries.

Variables (d seq_len : nat) (x : tensor3).
Hypothesis Hx : is_matrix seq_len d (hd [] x) = true.
Hypothesis Hseq : 1 <= seq_len.
Hypothesis Hev : Nat.even d = true.
Hypothesis Hd : 2 <= d.

Lemma PE_forward_rows :
  PositionalEncoding.forward (PositionalEncoding.init (Z.of_nat d)) x
  = ok (map (PE_row d) (seq 0 seq_len)).
Proof using Hx Hseq Hev.
  rewrite (PE_forward_even d seq_len x Hx Hseq Hev).
  f_equal. unfold PE_sines, PE_cosines, PE_position, PE_div_term, full, mmap,
    PositionalEncoding.angles, PositionalEncoding.div_term.
  rewrite (repeat_as_map (repeat FP.zero d) seq_len 0).
  rewrite !map_map, combine_map_map, map_map, combine_map_map, map_map.
  apply map_ext. intros pos. simpl. unfold PE_row, trig_row.
  now rewrite !map_map.
Qed.

Lemma PE_rows_shape :
  is_matrix seq_len d (map (PE_row d) (seq 0 seq_len)) = true.
Proof using Type.
  clear Hx Hseq Hev Hd. apply is_matrix_intro.
  - now rewrite length_map, length_seq.
  - apply Forall_forall. intros r Hr. apply in_map_iff in Hr.
    destruct Hr as [pos [<- _]]. unfold PE_row.
    now rewrite !set_cols_length, repeat_length.
Qed.

Lemma trig_row_nth (f : fp -> fp) (pos i : nat) (dflt : fp) :
  i < d / 2 ->
  nth i (trig_row d f pos) dflt
  = f (Fin (INR pos / Rpower 10000 (2 * INR i / INR d))).
Proof using Hd.
  clear Hx Hseq Hev. intros Hi. unfold trig_row.
  rewrite nth_map_seq by exact Hi. now rewrite PE_angle by lia.
Qed.

Lemma PE_row_entry (pos j : nat) :
  j < d -> nth j (PE_row d pos) NaN = sinusoid d pos j.
Proof using Hev Hd.
  clear Hx Hseq. intros Hj. unfold PE_row.
  assert (Hhalf : j / 2 < d / 2).
  { apply Nat.even_spec in Hev. destruct Hev as [k Hk]. subst d.
    rewrite (Nat.mul_comm 2 k), Nat.div_mul by lia.
    apply Nat.Div0.div_lt_upper_bound. lia. }
  rewrite set_cols_nth by now rewrite set_cols_length, repeat_length.
  rewrite set_cols_nth by now rewrite repeat_length.
  unfold sinusoid. rewrite Nat.sub_0_r. simpl (0 <=? j).
  destruct (Nat.even j) eqn:Ej.
  - (* an even column keeps the sine written by the first assignment *)
    assert (Hodd : (1 <=? j) && Nat.even (j - 1) = false).
    { destruct j as [| j']; [reflexivity |].
      simpl. rewrite Nat.sub_0_r.
      rewrite Nat.even_succ in Ej. rewrite <- Nat.negb_odd, Ej. reflexivity. }
    rewrite Hodd. simpl andb. cbv iota.
    now rewrite trig_row_nth.
  - (* an odd column holds the cosine written by the second one *)
    destruct j as [| j']; [discriminate |].
    simpl (1 <=? S j'). simpl (S j' - 1). rewrite Nat.sub_0_r.
    rewrite Nat.even_succ, <- Nat.negb_even in Ej.
    apply negb_false_iff in Ej. rewrite Ej. simpl andb. cbv iota.
    assert (Hsame : S j' / 2 = j' / 2).
    { apply Nat.even_spec in Ej. destruct Ej as [k ->].
      replace (S (2 * k)) with (1 + k * 2) by lia.
      rewrite Nat.div_add by lia.
      now rewrite (Nat.mul_comm 2 k), Nat.div_mul by lia. }
    rewrite Hsame in Hhalf |- *. now rewrite trig_row_nth.
Qed.

End PositionalEncodingEntries.

(** C8 (amended): the positional encoding is a function of
    (seq_len, d_model) alone: on inputs of shape (batch, seq_len, d_model) it
    depends neither on the entries nor on the batch size, so every call with
    these two sizes returns the very same result.  For every even model
    dimension [d_model >= 2] that result is the (seq_len, d_model) matrix
    whose even features hold [sin(pos / 10000^(2i/d_model))] and whose odd
    features hold the cosine, with [i] the feature index halved, and at
    position 0 it is the alternating pattern 0, 1, 0, 1, ...  The claim as
    it is written, with the formula for every [d_model], fails at the odd
    ones, as the lemma after this theorem shows. *)
Theorem PositionalEncoding_forward_sinusoid
  (d b seq_len : nat) (x : tensor3) :
  1 <= b -> 1 <= seq_len ->
  has_shape 1 [b] seq_len d x = true ->
  (forall b' x', 1 <= b' -> has_shape 1 [b'] seq_len d x' = true ->
     PositionalEncoding.forward (PositionalEncoding.init (Z.of_nat d)) x'
     = PositionalEncoding.forward (PositionalEncoding.init (Z.of_nat d)) x)
  /\ (Nat.even d = true -> 2 <= d ->
      exists PE,
        PositionalEncoding.forward (PositionalEncoding.init (Z.of_nat d)) x
        = ok PE
        /\ is_matrix seq_len d PE = true
        /\ (forall pos j, pos < seq_len -> j < d ->
              nth j (nth pos PE []) NaN = sinusoid d pos j)
        /\ (forall j, j < d ->
              nth j (nth 0 PE []) NaN = if Nat.even j then Fin 0 else Fin 1)).
Proof.
  intros Hb Hseq Hx.
  pose proof (has_shape_hd b seq_len d x Hx Hb) as Hm.
  split.
  - intros b' x' Hb' Hx'.
    pose proof (has_shape_hd b' seq_len d x' Hx' Hb') as Hm'.
    rewrite (PE_forward_steps d seq_len x' Hm' Hseq).
    now rewrite (PE_forward_steps d seq_len x Hm Hseq).
  - intros Hev Hd.
    exists (map (PE_row d) (seq 0 seq_len)).
    assert (Hentry : forall pos j, pos < seq_len -> j < d ->
              nth j (nth pos (map (PE_row d) (seq 0 seq_len)) []) NaN
              = sinusoid d pos j).
    { intros pos j Hpos Hj. rewrite nth_map_seq by exact Hpos.
      now apply PE_row_entry. }
    split; [now apply PE_forward_rows |].
    split; [apply PE_rows_shape |].
    split; [exact Hentry |].
    intros j Hj. rewrite Hentry by lia.
    unfold sinusoid. cbv zeta. change (INR 0) with 0%R.
    unfold Rdiv at 1 3. rewrite !Rmult_0_l.
    destruct (Nat.even j); [now rewrite sin_0 | now rewrite cos_0].
Qed.

Lemma PositionalEncoding_forward_sinusoid_witness :
  exists PE,
    PositionalEncoding.forward (PositionalEncoding.init 2)
      [[[Fin 5; Fin 7]; [Fin 1; Fin 2]]] = ok PE
    /\ nth 1 (nth 0 PE []) NaN = Fin 1.
Proof.
  destruct (proj2 (PositionalEncoding_forward_sinusoid 2 1 2
                     [[[Fin 5; Fin 7]; [Fin 1; Fin 2]]]
                     (le_n 1) (le_S 1 1 (le_n 1)) eq_refl)
              eq_refl (le_n 2))
    as [PE [Hrun [_ [_ Hzero]]]].
  exists PE. split; [exact Hrun |].
  exact (Hzero 1 (le_n 2)).
Defined.

Lemma Rpower_10000_gt_1 (y : R) : (0 < y)%R -> (1 < Rpower 10000 y)%R.
Proof.
  intros Hy. unfold Rpower. rewrite <- exp_0 at 1. apply exp_increasing.
  apply Rmult_lt_0_compat; [exact Hy |].
  rewrite <- ln_1. apply ln_increasing; lra.
Qed.

(** below one the sine does not reach its value at one *)
Lemma sin_one_above (t : R) : (0 < t < 1)%R -> sin 1 <> sin t.
Proof.
  intros [H0 H1] E. pose proof PI2_1 as Hpi.
  assert (H : (sin t < sin 1)%R) by (apply sin_increasing_1; lra).
  lra.
Qed.

(** the claim of C8 as it is written, for every model dimension, fails at
    the odd ones.  At width three the call succeeds, but feature 2 of
    position 1 repeats the sine of feature 0, [sin(1)], where the formula
    asks for [sin(1 / 10000^(2/3))]; at width five the call raises and
    there is no encoding at all. *)
Lemma PositionalEncoding_forward_odd_width_formula :
  (exists PE,
     PositionalEncoding.forward (PositionalEncoding.init 3)
       [[[Fin 0; Fin 0; Fin 0]; [Fin 0; Fin 0; Fin 0]]] = ok PE
     /\ is_matrix 2 3 PE = true
     /\ nth 2 (nth 1 PE []) NaN = nth 0 (nth 1 PE []) NaN
     /\ nth 2 (nth 1 PE []) NaN = Fin (sin 1)
     /\ nth 2 (nth 1 PE []) NaN <> sinusoid 3 1 2)
  /\ PositionalEncoding.forward (PositionalEncoding.init 5)
       [[[Fin 0; Fin 0; Fin 0; Fin 0; Fin 0];
         [Fin 0; Fin 0; Fin 0; Fin 0; Fin 0]]] = raise RuntimeError.
Proof.
  split.
  - eexists. split.
    + change 3%Z with (Z.of_nat 3).
      rewrite (PE_forward_steps 3 2
                 [[[Fin 0; Fin 0; Fin 0]; [Fin 0; Fin 0; Fin 0]]]
                 eq_refl (le_S 1 1 (le_n 1))).
      unfold PE_sines, PE_cosines, PE_position, PE_div_term,
        PositionalEncoding.div_term, PositionalEncoding.angles, mmap.
      cbn [PositionalEncoding.d_model PositionalEncoding.init
           Nat.div Nat.divmod fst seq map].
      rewrite !(PE_angle 3) by lia.
      cbn -[INR Rpower sin cos]. reflexivity.
    + split; [reflexivity |]. split; [reflexivity |].
      cbn [nth].
      assert (E0 : (INR 1 / Rpower 10000 (2 * INR 0 / INR 3) = 1)%R).
      { replace (2 * INR 0 / INR 3)%R with 0%R by (simpl; lra).
        rewrite Rpower_O by lra. simpl. lra. }
      rewrite E0. split; [reflexivity |].
      assert (Hs : sinusoid 3 1 2 = Fin (sin (1 / Rpower 10000 (2 / 3)))).
      { unfold sinusoid. cbn [Nat.even Nat.div Nat.divmod fst].
        replace (INR 3) with 3%R by (simpl; lra).
        change (INR 1) with 1%R. do 4 f_equal. lra. }
      rewrite Hs. intros E. injection E as E. revert E. apply sin_one_above.
      pose proof (Rpower_10000_gt_1 (2 / 3) ltac:(lra)) as Hp.
      set (p := Rpower 10000 (2 / 3)) in *.
      split.
      * apply Rdiv_lt_0_compat; lra.
      * apply (Rmult_lt_reg_r p); [lra |].
        unfold Rdiv. rewrite Rmult_assoc, Rinv_l; lra.
  - change 5%Z with (Z.of_nat 5).
    apply (PE_forward_odd 5 2); [reflexivity | lia | reflexivity | lia].
Qed.

(** the claim of C10 as it is written fails at width three: the sine term has
    one column and is broadcast to the two even columns of the matrix *)
Lemma PositionalEncoding_forward_width_three_succeeds :
  Nat.odd 3 = true
  /\ exists PE,
       PositionalEncoding.forward (PositionalEncoding.init 3)
         [[[Fin 0; Fin 0; Fin 0]]] = ok PE
       /\ is_matrix 1 3 PE = true.
Proof.
  split; [reflexivity |].
  apply (PE_forward_three 3 1 [[[Fin 0; Fin 0; Fin 0]]] eq_refl (le_n 1) eq_refl).
Qed.

(** C10 (amended): on an input of shape (batch, seq_len, d_model) with
    positive sizes, [PositionalEncoding.forward] raises the size-mismatch
    error for every odd [d_model] other than 3: the even-index slice has
    ceil(d_model/2) columns and the sine term floor(d_model/2) columns, which
    is neither that number nor 1.  For [d_model = 3] the one-column sine term
    is broadcast and the call returns a (seq_len, 3) matrix.  For every even
    [d_model >= 2] the call returns a (seq_len, d_model) matrix. *)
Theorem PositionalEncoding_forward_total_cases
  (d b seq_len : nat) (x : tensor3) :
  1 <= b -> 1 <= seq_len -> has_shape 1 [b] seq_len d x = true ->
  slice_len 0 2 d = (d + 1) / 2
  /\ (Nat.odd d = true -> d <> 3 ->
      PositionalEncoding.forward (PositionalEncoding.init (Z.of_nat d)) x
      = raise RuntimeError)
  /\ (d = 3 ->
      exists PE,
        PositionalEncoding.forward (PositionalEncoding.init (Z.of_nat d)) x
        = ok PE
        /\ is_matrix seq_len d PE = true)
  /\ (Nat.even d = true -> 2 <= d ->
      exists PE,
        PositionalEncoding.forward (PositionalEncoding.init (Z.of_nat d)) x
        = ok PE
        /\ is_matrix seq_len d PE = true).
Proof.
  intros Hb Hseq Hx.
  pose proof (has_shape_hd b seq_len d x Hx Hb) as Hm.
  split; [apply slice_len_even_start |]. split; [| split].
  - intros Hodd H3. now apply (PE_forward_odd d seq_len x Hm Hseq).
  - intros H3. now apply (PE_forward_three d seq_len x Hm Hseq).
  - intros Hev Hd.
    exists (map (PE_row d) (seq 0 seq_len)). split.
    + now apply PE_forward_rows.
    + apply PE_rows_shape.
Qed.

Lemma PositionalEncoding_forward_total_cases_witness :
  PositionalEncoding.forward (PositionalEncoding.init 5)
    [[[Fin 0; Fin 0; Fin 0; Fin 0; Fin 0]]] = raise RuntimeError.
Proof.
  refine (proj1 (proj2 (PositionalEncoding_forward_total_cases 5 1 1
            [[[Fin 0; Fin 0; Fin 0; Fin 0; Fin 0]]]
            (le_n 1) (le_n 1) eq_refl)) eq_refl _).
  discriminate.
Defined.

(** ** The transpose and the shared embedding matrix *)

Lemma map_nth_seq {A} (l : list A) (d : A) :
  map (fun j => nth j l d) (seq 0 (length l)) = l.
Proof.
  induction l as [| a l IH]; simpl; [reflexivity |].
  f_equal. rewrite <- seq_shift, map_map. exact IH.
Qed.

Lemma nth_map_in {A B} (f : A -> B) (l : list A) (i : nat) (d : A) (d' : B) :
  i < length l -> nth i (map f l) d' = f (nth i l d).
Proof.
  intros Hi. rewrite (nth_indep _ d' (f d)) by now rewrite length_map.
  apply map_nth.
Qed.

Lemma is_matrix_nth_row (rows cols : nat) (m : matrix) (i : nat) :
  is_matrix rows cols m = true -> i < rows -> length (nth i m []) = cols.
Proof.
  intros Hm Hi. pose proof (is_matrix_rows _ _ _ Hm) as Hr.
  rewrite Forall_forall in Hr. apply Hr. apply nth_In.
  now rewrite (is_matrix_length _ _ _ Hm).
Qed.

(** a column of the transpose is a row of the matrix *)
Lemma column_transpose (rows cols : nat) (m : matrix) (v : nat) :
  is_matrix rows cols m = true -> v < rows ->
  column (transpose m) v = nth v m [].
Proof.
  intros Hm Hv. unfold column at 1, transpose.
  rewrite (is_matrix_ncols _ _ _ Hm) by lia.
  rewrite map_map.
  etransitivity; [| apply (map_nth_seq (nth v m []) FP.zero)].
  rewrite (is_matrix_nth_row _ _ _ _ Hm Hv).
  apply map_ext. intros j. unfold column.
  apply (nth_map_in (fun row => nth j row FP.zero)).
  pose proof (is_matrix_length _ _ _ Hm). tlia.
Qed.

Lemma update_nth_same {A} (l : list A) (i : nat) (a d : A) :
  i < length l -> nth i (update l i a) d = a.
Proof.
  intros Hi. unfold update. rewrite (mapi_nth _ _ _ d d) by exact Hi.
  now rewrite Nat.eqb_refl.
Qed.

Lemma update_length {A} (l : list A) (i : nat) (a : A) :
  length (update l i a) = length l.
Proof. apply mapi_length. Qed.

Lemma set_entry_row (m : matrix) (v k : nat) (a : fp) :
  v < length m -> nth v (set_entry m v k a) [] = update (nth v m []) k a.
Proof.
  intros Hv. unfold set_entry. rewrite (mapi_nth _ _ _ [] []) by exact Hv.
  now rewrite Nat.eqb_refl.
Qed.

Lemma set_entry_is_matrix (rows cols : nat) (m : matrix) (v k : nat) (a : fp) :
  is_matrix rows cols m = true -> is_matrix rows cols (set_entry m v k a) = true.
Proof.
  intros Hm. apply is_matrix_intro.
  - unfold set_entry. rewrite mapi_length. apply (is_matrix_length _ _ _ Hm).
  - apply Forall_forall. intros r Hr.
    destruct (In_nth _ _ [] Hr) as [i [Hi Hnth]].
    unfold set_entry in Hi, Hnth. rewrite mapi_length in Hi.
    rewrite (mapi_nth _ _ _ [] []) in Hnth by exact Hi.
    assert (Hrow : length (nth i m []) = cols).
    { apply (is_matrix_nth_row rows); [exact Hm |].
      now rewrite <- (is_matrix_length _ _ _ Hm). }
    subst r. destruct (i =? v); [now rewrite update_length | exact Hrow].
Qed.

Lemma Embedding_lookup_row (self : Embedding.t) (v : nat) :
  v < length (Embedding.weight self) ->
  Embedding.lookup self (Z.of_nat v) = ok (nth v (Embedding.weight self) []).
Proof.
  intros Hv. unfold Embedding.lookup.
  destruct (Z.leb_spec 0 (Z.of_nat v)) as [_ | H]; [| lia].
  destruct (Z.ltb_spec (Z.of_nat v)
              (Z.of_nat (length (Embedding.weight self)))) as [_ | H]; [| lia].
  simpl. now rewrite Nat2Z.id.
Qed.

(** ** Monadic maps that succeed *)

Lemma mapM_exists {A B} (f : A -> result B) (R : B -> Prop) (l : list A) :
  (forall a, In a l -> exists b, f a = ok b /\ R b) ->
  exists bs, mapM f l = ok bs /\ length bs = length l /\ Forall R bs.
Proof.
  induction l as [| a l IH]; intros H; simpl.
  - exists []. repeat split. constructor.
  - destruct (H a (or_introl eq_refl)) as [b [Hb HR]].
    destruct IH as [bs [Hbs [Hlen HF]]].
    { intros a' Ha'. apply H. now right. }
    exists (b :: bs). rewrite Hb, Hbs. simpl.
    repeat split; [now rewrite Hlen | now constructor].
Qed.

Lemma bcast2_same_length {A B C} (f : A -> B -> result C)
  (xs : list A) (ys : list B) :
  length xs = length ys ->
  bcast2 f xs ys = mapM (fun p => f (fst p) (snd p)) (combine xs ys).
Proof. intros H. unfold bcast2. now rewrite H, Nat.eqb_refl. Qed.

Lemma bcast2_exists {A B C} (f : A -> B -> result C)
  (P : A -> Prop) (Q : B -> Prop) (R : C -> Prop) (xs : list A) (ys : list B) :
  length xs = length ys -> Forall P xs -> Forall Q ys ->
  (forall a b, P a -> Q b -> exists c, f a b = ok c /\ R c) ->
  exists zs, bcast2 f xs ys = ok zs /\ length zs = length xs /\ Forall R zs.
Proof.
  intros Hlen HP HQ Hf. rewrite bcast2_same_length by exact Hlen.
  destruct (mapM_exists (fun p => f (fst p) (snd p)) R (combine xs ys))
    as [zs [Hz [Hl HR]]].
  - intros [a b] Hin. simpl. rewrite Forall_forall in HP, HQ.
    apply Hf; [eapply HP, in_combine_l | eapply HQ, in_combine_r]; exact Hin.
  - exists zs. split; [exact Hz |]. split; [| exact HR].
    rewrite Hl, length_combine. lia.
Qed.

(** ** Tensors of a known shape *)

Lemma tall_impl (n : nat) (P Q : matrix -> Prop) (dims : list nat) (t : tensor n) :
  (forall m, P m -> Q m) -> tall n P dims t -> tall n Q dims t.
Proof.
  intros HPQ. revert dims t.
  induction n as [| n IH]; cbn; intros dims t H.
  - destruct H as [Hd HP]. split; [exact Hd | now apply HPQ].
  - destruct dims as [| d ds]; [exact H |]. destruct H as [Hl HF].
    split; [exact Hl |]. eapply Forall_impl; [| exact HF].
    intros a. apply IH.
Qed.

Lemma tall_and (n : nat) (P Q : matrix -> Prop) (dims : list nat) (t : tensor n) :
  tall n P dims t -> tall n Q dims t -> tall n (fun m => P m /\ Q m) dims t.
Proof.
  revert dims t. induction n as [| n IH]; cbn; intros dims t HP HQ.
  - destruct HP as [Hd HP], HQ as [_ HQ]. now repeat split.
  - destruct dims as [| d ds]; [exact HP |].
    destruct HP as [Hl HP], HQ as [_ HQ]. split; [exact Hl |].
    rewrite Forall_forall in *. intros a Ha. apply IH; auto.
Qed.

Lemma has_shape_tall (n : nat) (dims : list nat) (rows cols : nat) (t : tensor n) :
  has_shape n dims rows cols t = true <->
  tall n (fun m => is_matrix rows cols m = true) dims t.
Proof.
  revert dims t. induction n as [| n IH]; cbn; intros dims t.
  - destruct dims; split; intros H; try discriminate; try tauto.
    destruct H; discriminate.
  - destruct dims as [| d ds]; [split; [discriminate | tauto] |].
    rewrite andb_true_iff, Nat.eqb_eq, forallb_forall, Forall_forall.
    split; intros [Hl H]; (split; [exact Hl |]); intros a Ha;
      apply IH, H, Ha.
Qed.

Lemma all_fin_tall (n : nat) (P : matrix -> Prop) (dims : list nat) (t : tensor n) :
  tall n P dims t -> all_fin n t = true ->
  tall n (fun m => mfin m = true) dims t.
Proof.
  revert dims t. induction n as [| n IH]; cbn; intros dims t H Hf.
  - destruct H as [Hd _]. now split.
  - destruct dims as [| d ds]; [exact H |]. destruct H as [Hl H].
    split; [exact Hl |]. rewrite forallb_forall in Hf.
    rewrite Forall_forall in *. intros a Ha. apply IH; auto.
Qed.

Lemma lift1_tall (n : nat) (f : matrix -> matrix) (P Q : matrix -> Prop)
  (dims : list nat) (t : tensor n) :
  (forall m, P m -> Q (f m)) ->
  tall n P dims t -> tall n Q dims (lift1 n f t).
Proof.
  intros Hf. revert dims t. induction n as [| n IH]; cbn; intros dims t H.
  - destruct H as [Hd HP]. split; [exact Hd | now apply Hf].
  - destruct dims as [| d ds]; [exact H |]. destruct H as [Hl H].
    split; [now rewrite length_map |].
    rewrite Forall_forall in *. intros b Hb.
    apply in_map_iff in Hb. destruct Hb as [a [<- Ha]]. apply IH; auto.
Qed.

Lemma lift1M_tall (n : nat) (f : matrix -> result matrix) (P Q : matrix -> Prop)
  (dims : list nat) (t : tensor n) :
  (forall m, P m -> exists m', f m = ok m' /\ Q m') ->
  tall n P dims t ->
  exists t', lift1M n f t = ok t' /\ tall n Q dims t'.
Proof.
  intros Hf. revert dims t. induction n as [| n IH]; cbn; intros dims t H.
  - destruct H as [Hd HP]. destruct (Hf t HP) as [m' [Hm HQ]].
    exists m'. now repeat split.
  - destruct dims as [| d ds]; [contradiction |]. destruct H as [Hl H].
    destruct (mapM_exists (lift1M n f) (tall n Q ds) t) as [t' [Ht [Hl' HF]]].
    + rewrite Forall_forall in H. intros a Ha. apply IH. now apply H.
    + exists t'. split; [exact Ht |]. split; [tlia | exact HF].
Qed.

Lemma lift2_tall (n : nat) (f : matrix -> matrix -> result matrix)
  (P Q R : matrix -> Prop) (dims : list nat) (x y : tensor n) :
  (forall a b, P a -> Q b -> exists c, f a b = ok c /\ R c) ->
  tall n P dims x -> tall n Q dims y ->
  exists z, lift2 n f x y = ok z /\ tall n R dims z.
Proof.
  intros Hf. revert dims x y.
  induction n as [| n IH]; cbn; intros dims x y Hx Hy.
  - destruct Hx as [Hd HP], Hy as [_ HQ].
    destruct (Hf x y HP HQ) as [c [Hc HR]]. exists c. now repeat split.
  - destruct dims as [| d ds]; [contradiction |].
    destruct Hx as [Hlx Hx], Hy as [Hly Hy].
    destruct (bcast2_exists (lift2 n f) (tall n P ds) (tall n Q ds)
                (tall n R ds) x y) as [z [Hz [Hl HF]]];
      [tlia | exact Hx | exact Hy | intros a b; apply IH |].
    exists z. split; [exact Hz |]. split; [tlia | exact HF].
Qed.

(** ** Finite vectors and their sums *)

Lemma vfin_map_Fin (v : vec) :
  vfin v = true -> exists rs, v = map Fin rs.
Proof.
  induction v as [| a v IH]; simpl; intros H.
  - now exists [].
  - apply andb_prop in H. destruct H as [Ha Hv].
    destruct (IH Hv) as [rs ->]. destruct a as [r | | |]; try discriminate.
    now exists (r :: rs).
Qed.

Lemma fold_add_Fin (rs : list R) (a : R) :
  fold_left FP.add (map Fin rs) (Fin a) = Fin (fold_left Rplus rs a).
Proof.
  revert a. induction rs as [| r rs IH]; intros a; simpl; [reflexivity |].
  apply IH.
Qed.

Lemma vsum_Fin (rs : list R) :
  vsum (map Fin rs) = Fin (fold_left Rplus rs 0%R).
Proof. apply fold_add_Fin. Qed.

Lemma fold_max_Fin (rs : list R) (a : R) :
  fold_left FP.max (map Fin rs) (Fin a) = Fin (fold_left Rmax rs a).
Proof.
  revert a. induction rs as [| r rs IH]; intros a; simpl; [reflexivity |].
  apply IH.
Qed.

Lemma fold_Rplus_shift (rs : list R) (a : R) :
  fold_left Rplus rs a = (a + fold_left Rplus rs 0)%R.
Proof.
  revert a. induction rs as [| r rs IH]; intros a; simpl; [lra |].
  rewrite (IH (a + r)%R), (IH (0 + r)%R). lra.
Qed.

Lemma fold_Rplus_nonneg (rs : list R) :
  Forall (fun r => (0 < r)%R) rs -> (0 <= fold_left Rplus rs 0)%R.
Proof.
  induction 1 as [| r rs Hr _ IH]; simpl; [lra |].
  rewrite fold_Rplus_shift. lra.
Qed.

Lemma fold_Rplus_pos (rs : list R) :
  Forall (fun r => (0 < r)%R) rs -> rs <> [] ->
  (0 < fold_left Rplus rs 0)%R.
Proof.
  intros H Hne. destruct rs as [| r rs]; [contradiction |].
  inversion H as [| ? ? Hr Hrs]; subst. simpl.
  rewrite fold_Rplus_shift. pose proof (fold_Rplus_nonneg rs Hrs). lra.
Qed.

Lemma fold_Rplus_scale (rs : list R) (c : R) :
  fold_left Rplus (map (fun r => r / c)%R rs) 0%R
  = (fold_left Rplus rs 0 / c)%R.
Proof.
  induction rs as [| r rs IH]; simpl; [unfold Rdiv; now rewrite Rmult_0_l |].
  rewrite fold_Rplus_shift, IH, (fold_Rplus_shift rs (0 + r)).
  unfold Rdiv. lra.
Qed.

(** ** Softmax of a finite row *)

Lemma softmax_row_length (v : vec) : length (softmax_row v) = length v.
Proof. unfold softmax_row. now rewrite !length_map. Qed.

Lemma softmax_row_Fin (r : R) (rs : list R) :
  let m := fold_left Rmax rs r in
  let es := map (fun x => exp (x + - m)) (r :: rs) in
  softmax_row (map Fin (r :: rs))
  = map Fin (map (fun e => e / fold_left Rplus es 0)%R es).
Proof.
  intros m es. unfold softmax_row.
  assert (Hmax : vmax (map Fin (r :: rs)) = Fin m) by apply fold_max_Fin.
  rewrite Hmax.
  assert (He : map (fun x => FP.exp (x - Fin m)%fp) (map Fin (r :: rs))
               = map Fin es).
  { unfold es. rewrite !map_map. reflexivity. }
  rewrite He, vsum_Fin, !map_map.
  assert (Hpos : (0 < fold_left Rplus es 0)%R).
  { apply fold_Rplus_pos; [| discriminate].
    apply Forall_forall. intros e Hin. unfold es in Hin.
    apply in_map_iff in Hin. destruct Hin as [x [<- _]]. apply exp_pos. }
  apply map_ext. intros e. unfold FP.div. now rewrite (Rcompare_gt _ _ Hpos).
Qed.

Lemma softmax_row_sums_to_one (v : vec) :
  vfin v = true -> v <> [] -> vsum (softmax_row v) = FP.one.
Proof.
  intros Hfin Hne. destruct (vfin_map_Fin v Hfin) as [rs ->].
  destruct rs as [| r rs]; [contradiction |].
  rewrite softmax_row_Fin, vsum_Fin, fold_Rplus_scale.
  unfold FP.one. f_equal. apply Rdiv_diag.
  apply Rgt_not_eq, fold_Rplus_pos; [| discriminate].
  apply Forall_forall. intros e Hin.
  apply in_map_iff in Hin. destruct Hin as [x [<- _]]. apply exp_pos.
Qed.


(** ** Matrix products on known shapes *)

Lemma column_length (m : matrix) (j : nat) : length (column m j) = length m.
Proof. unfold column. apply length_map. Qed.

Lemma transpose_is_matrix (rows cols : nat) (m : matrix) :
  is_matrix rows cols m = true -> 1 <= rows ->
  is_matrix cols rows (transpose m) = true.
Proof.
  intros Hm Hr. apply is_matrix_intro.
  - unfold transpose. rewrite length_map, length_seq.
    now apply (is_matrix_ncols rows).
  - apply Forall_forall. intros c Hc. unfold transpose in Hc.
    apply in_map_iff in Hc. destruct Hc as [j [<- _]].
    rewrite column_length. apply (is_matrix_length _ _ _ Hm).
Qed.

Lemma nth_fin (v : vec) (j : nat) :
  vfin v = true -> FP.is_fin (nth j v FP.zero) = true.
Proof.
  intros Hv. destruct (Nat.lt_ge_cases j (length v)) as [Hj | Hj].
  - unfold vfin in Hv. rewrite forallb_forall in Hv. apply Hv. now apply nth_In.
  - now rewrite nth_overflow.
Qed.

Lemma transpose_fin (m : matrix) : mfin m = true -> mfin (transpose m) = true.
Proof.
  intros Hm. unfold mfin, transpose. apply forallb_forall. intros c Hc.
  apply in_map_iff in Hc. destruct Hc as [j [<- _]].
  unfold vfin, column. apply forallb_forall. intros a Ha.
  apply in_map_iff in Ha. destruct Ha as [row [<- Hrow]].
  apply nth_fin. unfold mfin in Hm. rewrite forallb_forall in Hm. now apply Hm.
Qed.

Lemma fold_add_fin (l : vec) (acc : fp) :
  vfin l = true -> FP.is_fin acc = true ->
  FP.is_fin (fold_left FP.add l acc) = true.
Proof.
  revert acc. induction l as [| a l IH]; simpl; intros acc Hl Hacc; [exact Hacc |].
  apply andb_prop in Hl. destruct Hl as [Ha Hl]. apply IH; [exact Hl |].
  destruct acc, a; try discriminate. reflexivity.
Qed.

Lemma dot_fin (u v : vec) :
  vfin u = true -> vfin v = true -> FP.is_fin (dot u v) = true.
Proof.
  intros Hu Hv. unfold dot, vsum. apply fold_add_fin; [| reflexivity].
  unfold vfin in *. rewrite forallb_forall in *. intros p Hp.
  apply in_map_iff in Hp. destruct Hp as [[a b] [<- Hin]]. simpl.
  pose proof (Hu a (in_combine_l _ _ _ _ Hin)) as Ha.
  pose proof (Hv b (in_combine_r _ _ _ _ Hin)) as Hb.
  destruct a, b; try discriminate. reflexivity.
Qed.

Lemma matmul_value (A B : matrix) (k : nat) :
  Forall (fun r => length r = k) A -> length B = k ->
  matmul A B = ok (map (fun row => map (dot row) (transpose B)) A).
Proof.
  intros HA HB. unfold matmul.
  assert (Hchk : forallb (fun row => length row =? length B) A = true).
  { apply forallb_forall. rewrite Forall_forall in HA. intros r Hr.
    apply Nat.eqb_eq. rewrite HB. now apply HA. }
  now rewrite Hchk.
Qed.

Lemma matmul_is_matrix (n k m : nat) (A B : matrix) :
  is_matrix n k A = true -> is_matrix k m B = true -> 1 <= k ->
  exists C, matmul A B = ok C
            /\ is_matrix n m C = true
            /\ (mfin A = true -> mfin B = true -> mfin C = true).
Proof.
  intros HA HB Hk. eexists. split; [| split].
  - apply (matmul_value A B k);
      [apply (is_matrix_rows _ _ _ HA) | apply (is_matrix_length _ _ _ HB)].
  - apply is_matrix_intro.
    + rewrite length_map. apply (is_matrix_length _ _ _ HA).
    + apply Forall_forall. intros r Hr. apply in_map_iff in Hr.
      destruct Hr as [row [<- _]]. rewrite length_map.
      apply (is_matrix_length _ _ _ (transpose_is_matrix k m B HB Hk)).
  - intros HfA HfB. unfold mfin. apply forallb_forall. intros r Hr.
    apply in_map_iff in Hr. destruct Hr as [row [<- Hrow]].
    unfold vfin. apply forallb_forall. intros a Ha.
    apply in_map_iff in Ha. destruct Ha as [col [<- Hcol]].
    apply dot_fin.
    + unfold mfin in HfA. rewrite forallb_forall in HfA. now apply HfA.
    + pose proof (transpose_fin B HfB) as HfT. unfold mfin in HfT.
      rewrite forallb_forall in HfT. now apply HfT.
Qed.

Lemma mmap_is_matrix (f : fp -> fp) (rows cols : nat) (m : matrix) :
  is_matrix rows cols m = true -> is_matrix rows cols (mmap f m) = true.
Proof.
  intros Hm. apply is_matrix_intro.
  - unfold mmap. rewrite length_map. apply (is_matrix_length _ _ _ Hm).
  - apply Forall_forall. intros r Hr. unfold mmap in Hr.
    apply in_map_iff in Hr. destruct Hr as [row [<- Hrow]].
    rewrite length_map. pose proof (is_matrix_rows _ _ _ Hm) as H.
    rewrite Forall_forall in H. now apply H.
Qed.

Lemma mmap_fin (f : fp -> fp) (m : matrix) :
  (forall x, FP.is_fin x = true -> FP.is_fin (f x) = true) ->
  mfin m = true -> mfin (mmap f m) = true.
Proof.
  intros Hf Hm. unfold mfin, mmap in *. rewrite forallb_forall in *.
  intros r Hr. apply in_map_iff in Hr. destruct Hr as [row [<- Hrow]].
  specialize (Hm row Hrow). unfold vfin in *. rewrite forallb_forall in *.
  intros a Ha. apply in_map_iff in Ha. destruct Ha as [x [<- Hx]]. auto.
Qed.

(** dividing by the square root of a positive size keeps a number finite *)
Lemma scale_fin (d_k : nat) (x : fp) :
  1 <= d_k -> FP.is_fin x = true ->
  FP.is_fin (x / FP.sqrt (FP.of_nat d_k))%fp = true.
Proof.
  intros Hd Hx. destruct x as [a | | |]; try discriminate.
  assert (Hpos : (0 < INR d_k)%R) by (apply lt_0_INR; lia).
  unfold FP.of_nat, FP.sqrt. rewrite (Rcompare_gt _ _ Hpos).
  unfold FP.div. now rewrite (Rcompare_gt _ _ (sqrt_lt_R0 _ Hpos)).
Qed.

Lemma last_dim_tall (n : nat) (dims : list nat) (rows cols : nat) (t : tensor n) :
  tall n (fun m => is_matrix rows cols m = true) dims t ->
  Forall (fun d => 1 <= d) dims -> 1 <= rows ->
  last_dim n t = cols.
Proof.
  revert dims t. induction n as [| n IH]; cbn; intros dims t H Hpos Hr.
  - destruct H as [_ H]. now apply (is_matrix_ncols rows).
  - destruct dims as [| d ds]; [contradiction |]. destruct H as [Hl H].
    inversion Hpos as [| ? ? Hd Hds]; subst.
    destruct t as [| a t]; [simpl in Hd; lia |].
    inversion H; subst. now apply (IH ds).
Qed.


(** ** Unmasked attention *)






(** ** Elementwise operations on equal shapes *)

Lemma bcast2_pure {A B C} (f : A -> B -> C) (xs : list A) (ys : list B) :
  length xs = length ys ->
  bcast2 (fun a b => ok (f a b)) xs ys
  = ok (map (fun p => f (fst p) (snd p)) (combine xs ys)).
Proof.
  intros H. rewrite bcast2_same_length by exact H.
  apply (mapM_pure (fun p => f (fst p) (snd p))).
Qed.

Lemma mzip_value (f : fp -> fp -> fp) (rows cols : nat) (a b : matrix) :
  is_matrix rows cols a = true -> is_matrix rows cols b = true ->
  mzip f a b = ok (zip_rows f a b).
Proof.
  intros Ha Hb. unfold mzip, zip_rows.
  rewrite bcast2_same_length
    by (rewrite (is_matrix_length _ _ _ Ha); now rewrite (is_matrix_length _ _ _ Hb)).
  apply mapM_ok_in. intros [u v] Hin. simpl. unfold vzip.
  apply bcast2_pure.
  pose proof (is_matrix_rows _ _ _ Ha) as Hra.
  pose proof (is_matrix_rows _ _ _ Hb) as Hrb.
  rewrite Forall_forall in Hra, Hrb.
  rewrite (Hra u (in_combine_l _ _ _ _ Hin)).
  now rewrite (Hrb v (in_combine_r _ _ _ _ Hin)).
Qed.

Lemma zip_rows_is_matrix (f : fp -> fp -> fp) (rows cols : nat) (a b : matrix) :
  is_matrix rows cols a = true -> is_matrix rows cols b = true ->
  is_matrix rows cols (zip_rows f a b) = true.
Proof.
  intros Ha Hb. apply is_matrix_intro.
  - unfold zip_rows. rewrite length_map, length_combine.
    rewrite (is_matrix_length _ _ _ Ha), (is_matrix_length _ _ _ Hb). lia.
  - apply Forall_forall. intros r Hr. unfold zip_rows in Hr.
    apply in_map_iff in Hr. destruct Hr as [[u v] [<- Hin]]. simpl.
    pose proof (is_matrix_rows _ _ _ Ha) as Hra.
    pose proof (is_matrix_rows _ _ _ Hb) as Hrb.
    rewrite Forall_forall in Hra, Hrb.
    rewrite length_map, length_combine.
    rewrite (Hra u (in_combine_l _ _ _ _ Hin)).
    rewrite (Hrb v (in_combine_r _ _ _ _ Hin)). lia.
Qed.

(** ** The look-ahead mask *)

Lemma mapi_is_matrix (f : nat -> nat -> fp -> fp) (rows cols : nat) (m : matrix) :
  is_matrix rows cols m = true ->
  is_matrix rows cols (mapi (fun i row => mapi (f i) row) m) = true.
Proof.
  intros Hm. apply is_matrix_intro.
  - rewrite mapi_length. apply (is_matrix_length _ _ _ Hm).
  - apply Forall_forall. intros r Hr.
    destruct (In_nth _ _ [] Hr) as [i [Hi Hnth]].
    rewrite mapi_length in Hi.
    rewrite (mapi_nth _ _ _ [] []) in Hnth by exact Hi. subst r.
    rewrite mapi_length. apply (is_matrix_nth_row rows); [exact Hm |].
    now rewrite <- (is_matrix_length _ _ _ Hm).
Qed.

Lemma look_ahead_mask_is_matrix (rows cols : nat) :
  is_matrix rows cols (ScaledDotProductAttention.look_ahead_mask rows cols)
  = true.
Proof.
  unfold ScaledDotProductAttention.look_ahead_mask, fill_zeros, triu.
  apply mmap_is_matrix.
  apply (mapi_is_matrix (fun i j x => if i + 1 <=? j then x else FP.zero)).
  apply full_is_matrix.
Qed.

Lemma apply_mask_value (rows cols : nat) (w : matrix) :
  is_matrix rows cols w = true -> 1 <= rows ->
  ScaledDotProductAttention.apply_mask w
  = ok (zip_rows FP.mul w
          (ScaledDotProductAttention.look_ahead_mask rows cols)).
Proof.
  intros Hw Hr. unfold ScaledDotProductAttention.apply_mask.
  rewrite (is_matrix_length _ _ _ Hw), (is_matrix_ncols _ _ _ Hw Hr).
  apply (mzip_value FP.mul rows cols); [exact Hw |].
  apply look_ahead_mask_is_matrix.
Qed.

Lemma apply_mask_is_matrix (rows cols : nat) (w : matrix) :
  is_matrix rows cols w = true ->
  exists w', ScaledDotProductAttention.apply_mask w = ok w'
             /\ is_matrix rows cols w' = true.
Proof.
  intros Hw. destruct rows as [| rows].
  - pose proof (is_matrix_length _ _ _ Hw) as Hl.
    destruct w; [| discriminate]. exists []. split; reflexivity.
  - eexists. split; [apply (apply_mask_value (S rows) cols); [exact Hw | lia] |].
    apply zip_rows_is_matrix; [exact Hw | apply look_ahead_mask_is_matrix].
Qed.

(** ** The shape of the attention output, masked or not *)

Lemma ScaledDotProductAttention_forward_steps
  (self : ScaledDotProductAttention.t) (n : nat) (dims : list nat)
  (seq_q seq_k d_k d_v : nat) (Q K V : tensor n) :
  1 <= seq_k -> 1 <= d_k ->
  tall n (fun m => is_matrix seq_q d_k m = true) dims Q ->
  tall n (fun m => is_matrix seq_k d_k m = true) dims K ->
  tall n (fun m => is_matrix seq_k d_v m = true) dims V ->
  exists weighted_values,
    tall n (fun m => is_matrix seq_q d_v m = true) dims weighted_values
    /\ ScaledDotProductAttention.forward self n Q K V
       = if ScaledDotProductAttention.mask self
         then lift1M n ScaledDotProductAttention.apply_mask weighted_values
         else ok weighted_values.
Proof.
  intros Hk Hd HQ HK HV.
  unfold ScaledDotProductAttention.forward, ScaledDotProductAttention.weights.
  assert (HKt : tall n (fun m => is_matrix d_k seq_k m = true) dims
                     (lift1 n transpose K)).
  { apply (lift1_tall n transpose (fun m => is_matrix seq_k d_k m = true));
      [| exact HK]. intros m Hm. now apply transpose_is_matrix. }
  destruct (lift2_tall n matmul
              (fun m => is_matrix seq_q d_k m = true)
              (fun m => is_matrix d_k seq_k m = true)
              (fun m => is_matrix seq_q seq_k m = true)
              dims Q (lift1 n transpose K)) as [dp [Hdp Hshape]];
    [| exact HQ | exact HKt |].
  { intros a b Ha Hb.
    destruct (matmul_is_matrix seq_q d_k seq_k a b Ha Hb Hd) as [c [Hc [Hs _]]].
    exists c. auto. }
  rewrite Hdp, !bind_ok_l.
  set (weights := softmax n _).
  assert (Hw : tall n (fun m => is_matrix seq_q seq_k m = true) dims weights).
  { unfold weights, softmax, tmap.
    apply (lift1_tall n (map softmax_row)
             (fun m => is_matrix seq_q seq_k m = true));
      [| apply (lift1_tall n _ (fun m => is_matrix seq_q seq_k m = true));
         [| exact Hshape]].
    - intros m Hm. apply is_matrix_intro.
      + rewrite length_map. apply (is_matrix_length _ _ _ Hm).
      + apply Forall_forall. intros r Hr. apply in_map_iff in Hr.
        destruct Hr as [row [<- Hrow]]. rewrite softmax_row_length.
        pose proof (is_matrix_rows _ _ _ Hm) as H.
        rewrite Forall_forall in H. now apply H.
    - intros m Hm. now apply mmap_is_matrix. }
  destruct (lift2_tall n matmul
              (fun m => is_matrix seq_q seq_k m = true)
              (fun m => is_matrix seq_k d_v m = true)
              (fun m => is_matrix seq_q d_v m = true) dims weights V)
    as [wv [Hwv Hso]]; [| exact Hw | exact HV |].
  { intros a b Ha Hb.
    destruct (matmul_is_matrix seq_q seq_k d_v a b Ha Hb Hk) as [c [Hc [Hs _]]].
    exists c. auto. }
  rewrite Hwv, bind_ok_l.
  exists wv. split; [exact Hso | reflexivity].
Qed.

Lemma ScaledDotProductAttention_forward_shape
  (self : ScaledDotProductAttention.t) (n : nat) (dims : list nat)
  (seq_q seq_k d_k d_v : nat) (Q K V : tensor n) :
  1 <= seq_k -> 1 <= d_k ->
  tall n (fun m => is_matrix seq_q d_k m = true) dims Q ->
  tall n (fun m => is_matrix seq_k d_k m = true) dims K ->
  tall n (fun m => is_matrix seq_k d_v m = true) dims V ->
  exists out,
    ScaledDotProductAttention.forward self n Q K V = ok out
    /\ tall n (fun m => is_matrix seq_q d_v m = true) dims out.
Proof.
  intros Hk Hd HQ HK HV.
  destruct (ScaledDotProductAttention_forward_steps self n dims
              seq_q seq_k d_k d_v Q K V Hk Hd HQ HK HV) as [wv [Hso ->]].
  destruct (ScaledDotProductAttention.mask self).
  - apply (lift1M_tall n _ (fun m => is_matrix seq_q d_v m = true));
      [| exact Hso].
    intros m Hm. now apply apply_mask_is_matrix.
  - exists wv. split; [reflexivity | exact Hso].
Qed.

(** ** Products with a weight matrix *)

Lemma matmul_w_eq (X : tensor3) (W : matrix) :
  matmul_w X W = mapM (fun x => matmul x W) X.
Proof.
  unfold matmul_w. cbn [lift2]. unfold bcast2.
  destruct X as [| a [| b X]]; reflexivity.
Qed.

Lemma tall1_intro (P : matrix -> Prop) (b : nat) (x : tensor3) :
  length x = b -> Forall P x -> tall 1 P [b] x.
Proof.
  intros Hl HF. cbn. split; [exact Hl |].
  eapply Forall_impl; [| exact HF]. intros a Ha. now split.
Qed.

Lemma tall1_elim (P : matrix -> Prop) (b : nat) (x : tensor3) :
  tall 1 P [b] x -> length x = b /\ Forall P x.
Proof.
  cbn. intros [Hl HF]. split; [exact Hl |].
  eapply Forall_impl; [| exact HF]. now intros a [_ Ha].
Qed.

Lemma matmul_w_tall (b n k m : nat) (X : tensor3) (W : matrix) :
  tall 1 (fun x => is_matrix n k x = true) [b] X ->
  is_matrix k m W = true -> 1 <= k ->
  exists Y, matmul_w X W = ok Y
            /\ tall 1 (fun y => is_matrix n m y = true) [b] Y.
Proof.
  intros HX HW Hk. apply tall1_elim in HX. destruct HX as [Hl HX].
  rewrite matmul_w_eq.
  destruct (mapM_exists (fun x => matmul x W)
              (fun y => is_matrix n m y = true) X) as [Y [HY [Hlen HF]]].
  - rewrite Forall_forall in HX. intros a Ha.
    destruct (matmul_is_matrix n k m a W (HX a Ha) HW Hk) as [c [Hc [Hs _]]].
    exists c. auto.
  - exists Y. split; [exact HY |]. apply tall1_intro; [lia | exact HF].
Qed.

(** ** One attention head *)

Lemma Attention_forward_shape
  (self : Attention.t) (b n m d_model d_key : nat)
  (inputs : tensor3) (encoder_output : option tensor3) :
  Attention_shape d_model d_key self = true ->
  1 <= d_model -> 1 <= d_key -> 1 <= m ->
  has_shape 1 [b] n d_model inputs = true ->
  has_shape 1 [b] m d_model
    (match encoder_output with None => inputs | Some e => e end) = true ->
  exists out,
    Attention.forward self inputs encoder_output = ok out
    /\ has_shape 1 [b] n d_key out = true.
Proof.
  intros Hs Hdm Hdk Hm Hin HX. unfold Attention_shape in Hs.
  apply andb_prop in Hs. destruct Hs as [Hs HWV].
  apply andb_prop in Hs. destruct Hs as [HWK HWQ].
  apply has_shape_tall in Hin, HX.
  unfold Attention.forward. destruct encoder_output as [e |]; cbv zeta.
  all: cbv beta iota in HX |- *.
  all:
    destruct (matmul_w_tall b m d_model d_key _ _ HX HWK Hdm) as [K [HK HKs]];
    destruct (matmul_w_tall b m d_model d_key _ _ HX HWV Hdm) as [V [HV HVs]];
    destruct (matmul_w_tall b n d_model d_key _ _ Hin HWQ Hdm) as [Q [HQ HQs]];
    rewrite HK, bind_ok_l, HV, bind_ok_l, HQ, bind_ok_l;
    destruct (ScaledDotProductAttention_forward_shape
                (Attention.scaled_dot_product self) 1 [b] n m d_key d_key
                Q K V Hm Hdk HQs HKs HVs) as [out [Hout Hso]];
    exists out; (split; [exact Hout | now apply has_shape_tall]).
Qed.

(** ** Concatenation along the last axis *)

Lemma zipM_exists {A B C} (f : A -> B -> result C)
  (P : A -> Prop) (Q : B -> Prop) (R : C -> Prop) (xs : list A) (ys : list B) :
  length xs = length ys -> Forall P xs -> Forall Q ys ->
  (forall a b, P a -> Q b -> exists c, f a b = ok c /\ R c) ->
  exists zs, zipM f xs ys = ok zs /\ length zs = length xs /\ Forall R zs.
Proof.
  intros Hlen HP HQ Hf.
  replace (zipM f xs ys) with (bcast2 f xs ys)
    by (unfold zipM, bcast2; now rewrite Hlen, Nat.eqb_refl).
  now apply (bcast2_exists f P Q R).
Qed.

Lemma cat_rows_is_matrix (n c1 c2 : nat) (a b : matrix) :
  is_matrix n c1 a = true -> is_matrix n c2 b = true ->
  exists z, cat_rows a b = ok z /\ is_matrix n (c1 + c2) z = true.
Proof.
  intros Ha Hb. unfold cat_rows.
  destruct (zipM_exists (fun r1 r2 : list fp => ok (r1 ++ r2))
              (fun r => length r = c1) (fun r => length r = c2)
              (fun r => length r = c1 + c2) a b) as [z [Hz [Hl HF]]].
  - rewrite (is_matrix_length _ _ _ Ha). now rewrite (is_matrix_length _ _ _ Hb).
  - apply (is_matrix_rows _ _ _ Ha).
  - apply (is_matrix_rows _ _ _ Hb).
  - intros r1 r2 H1 H2. exists (r1 ++ r2). split; [reflexivity |].
    rewrite length_app. lia.
  - exists z. split; [exact Hz |]. apply is_matrix_intro; [| exact HF].
    rewrite Hl. apply (is_matrix_length _ _ _ Ha).
Qed.

Lemma cat2_gen (n : nat) (dims : list nat) (P Q R : list (list fp) -> Prop)
  (x y : tensor n) :
  (forall a b, P a -> Q b -> exists z, cat_rows a b = ok z /\ R z) ->
  tall n P dims x -> tall n Q dims y ->
  exists z, cat2 n x y = ok z /\ tall n R dims z.
Proof.
  intros Hf. revert dims x y.
  induction n as [| n IH]; cbn; intros dims x y Hx Hy.
  - destruct Hx as [Hd Hx], Hy as [_ Hy].
    destruct (Hf x y Hx Hy) as [z [Hz Hs]]. exists z. now repeat split.
  - destruct dims as [| d ds]; [contradiction |].
    destruct Hx as [Hlx Hx], Hy as [Hly Hy].
    destruct (zipM_exists (cat2 n) (tall n P ds) (tall n Q ds) (tall n R ds) x y)
      as [z [Hz [Hl HF]]];
      [tlia | exact Hx | exact Hy | intros a b; apply IH |].
    exists z. split; [exact Hz |]. split; [tlia | exact HF].
Qed.

Lemma cat_fold_gen (n : nat) (dims : list nat)
  (P : nat -> list (list fp) -> Prop) (Q : list (list fp) -> Prop) (c : nat)
  (ts : list (tensor n)) :
  (forall k a b, P k a -> Q b -> exists z, cat_rows a b = ok z /\ P (k + c) z) ->
  forall (acc : tensor n) (k : nat),
    tall n (P k) dims acc -> Forall (tall n Q dims) ts ->
    exists z,
      fold_left (fun a u => a' <- a ;; cat2 n a' u) ts (ok acc) = ok z
      /\ tall n (P (k + length ts * c)) dims z.
Proof.
  intros Hf. induction ts as [| t ts IH]; intros acc k Hacc Hts.
  - exists acc. split; [reflexivity |]. simpl. now rewrite Nat.add_0_r.
  - inversion Hts as [| ? ? Ht Hts']; subst.
    destruct (cat2_gen n dims (P k) Q (P (k + c)) acc t (Hf k) Hacc Ht)
      as [z [Hz Hs]].
    cbn [fold_left]. rewrite bind_ok_l, Hz.
    destruct (IH z (k + c) Hs Hts') as [z' [Hz' Hs']].
    exists z'. split; [exact Hz' |].
    replace (k + length (t :: ts) * c) with (k + c + length ts * c)
      by (simpl; lia).
    exact Hs'.
Qed.

Lemma cat_tall (n : nat) (dims : list nat) (rows c : nat) (ts : list (tensor n)) :
  ts <> [] ->
  Forall (tall n (fun m => is_matrix rows c m = true) dims) ts ->
  exists z, cat n ts = ok z
            /\ tall n (fun m => is_matrix rows (length ts * c) m = true) dims z.
Proof.
  intros Hne Hts. destruct ts as [| t ts]; [contradiction |].
  inversion Hts as [| ? ? Ht Hts']; subst.
  destruct (cat_fold_gen n dims (fun k m => is_matrix rows k m = true)
              (fun m => is_matrix rows c m = true) c ts
              (fun k a b => cat_rows_is_matrix rows k c a b) t c Ht Hts')
    as [z [Hz Hs]].
  exists z. split; [exact Hz |]. simpl length. simpl Nat.mul. exact Hs.
Qed.

(** ** The shapes of freshly drawn weights *)

Lemma bind_inv {A B} (m : result A) (k : A -> result B) (b : B) :
  bind m k = ok b -> exists a, m = ok a /\ k a = ok b.
Proof.
  destruct m as [e | a]; simpl; intros H; [discriminate |]. now exists a.
Qed.

Lemma draw_matrix_is_matrix (rows cols : nat) (g : rng) :
  is_matrix rows cols (draw_matrix rows cols g) = true.
Proof.
  apply is_matrix_intro.
  - unfold draw_matrix. now rewrite length_map, length_seq.
  - apply Forall_forall. intros r Hr. unfold draw_matrix in Hr.
    apply in_map_iff in Hr. destruct Hr as [i [<- _]].
    unfold draw_vec. now rewrite length_map, length_seq.
Qed.

Lemma randn_inv (rows cols : Z) (g g' : rng) (m : list (list fp)) :
  randn rows cols g = ok (m, g') ->
  (0 <= rows)%Z /\ (0 <= cols)%Z
  /\ is_matrix (Z.to_nat rows) (Z.to_nat cols) m = true.
Proof.
  unfold randn. intros H.
  destruct (Z.ltb_spec rows 0) as [Hr | Hr]; [discriminate |].
  destruct (Z.ltb_spec cols 0) as [Hc | Hc]; [discriminate |].
  simpl in H. inversion H. subst. repeat split; try assumption.
  apply draw_matrix_is_matrix.
Qed.

Lemma Attention_init_shape (d_model d_key : Z) (mask : bool) (g g' : rng)
  (a : Attention.t) :
  Attention.init d_model d_key mask g = ok (a, g') ->
  Attention_shape (Z.to_nat d_model) (Z.to_nat d_key) a = true.
Proof.
  unfold Attention.init. intros H.
  apply bind_inv in H. destruct H as [[wk g1] [Hk H]].
  apply bind_inv in H. destruct H as [[wq g2] [Hq H]].
  apply bind_inv in H. destruct H as [[wv g3] [Hv H]].
  inversion H. subst. unfold Attention_shape. simpl.
  apply randn_inv in Hk, Hq, Hv.
  destruct Hk as [_ [_ ->]], Hq as [_ [_ ->]], Hv as [_ [_ ->]]. reflexivity.
Qed.

Lemma attention_list_shape (n : nat) (d_model d_key : Z) (mask : bool)
  (g g' : rng) (l : list Attention.t) :
  MultiHeadAttention.attention_list n d_model d_key mask g = ok (l, g') ->
  length l = n
  /\ forallb (Attention_shape (Z.to_nat d_model) (Z.to_nat d_key)) l = true.
Proof.
  revert g g' l. induction n as [| n IH]; intros g g' l H.
  - inversion H. now split.
  - cbn [MultiHeadAttention.attention_list] in H.
    apply bind_inv in H. destruct H as [[a g1] [Ha H]].
    apply bind_inv in H. destruct H as [[l' g2] [Hl H]].
    inversion H. subst.
    destruct (IH _ _ _ Hl) as [Hlen Hall]. split; [simpl; now rewrite Hlen |].
    simpl. now rewrite (Attention_init_shape _ _ _ _ _ _ Ha), Hall.
Qed.

Lemma MultiHeadAttention_init_shape (n_head d_model : nat) (mask : bool)
  (g g' : rng) (self : MultiHeadAttention.t) :
  1 <= n_head ->
  MultiHeadAttention.init (Z.of_nat n_head) (Z.of_nat d_model) mask g
  = ok (self, g') ->
  MultiHeadAttention_shape n_head d_model self = true.
Proof.
  intros Hh. unfold MultiHeadAttention.init.
  destruct (Z.eqb_spec (Z.of_nat n_head) 0) as [E | _]; [lia |].
  destruct (Z.of_nat d_model mod Z.of_nat n_head =? 0)%Z; [| discriminate].
  cbn [negb]. cbv zeta.
  assert (Hq : (Z.of_nat d_model ÷ Z.of_nat n_head)%Z
               = Z.of_nat (d_model / n_head)).
  { rewrite Z.quot_div_nonneg by lia. now rewrite Nat2Z.inj_div. }
  rewrite Hq, <- Nat2Z.inj_mul. intros H.
  apply bind_inv in H. destruct H as [[heads g1] [Hheads H]].
  apply bind_inv in H. destruct H as [[w g2] [Hw H]].
  inversion H. subst. clear H.
  apply attention_list_shape in Hheads. rewrite !Nat2Z.id in Hheads.
  destruct Hheads as [Hlen Hall].
  apply randn_inv in Hw. rewrite !Nat2Z.id in Hw. destruct Hw as [_ [_ Hw]].
  unfold MultiHeadAttention_shape. simpl.
  rewrite Hlen, Nat.eqb_refl, Hall. exact Hw.
Qed.

(** ** MultiHeadAttention: heads, concatenation, projection *)

Lemma memory_shape_elim (b n d_model : nat) (x : tensor3)
  (encoder_output : option tensor3) :
  1 <= n -> has_shape 1 [b] n d_model x = true ->
  memory_shape b d_model encoder_output = true ->
  exists m, 1 <= m
            /\ has_shape 1 [b] m d_model
                 (match encoder_output with None => x | Some e => e end) = true.
Proof.
  intros Hn Hx Hm. destruct encoder_output as [e |].
  - unfold memory_shape in Hm. apply andb_prop in Hm. destruct Hm as [Hl Hs].
    exists (length (hd [] e)). split; [now apply Nat.leb_le | exact Hs].
  - now exists n.
Qed.

Lemma MultiHeadAttention_forward_steps
  (n_head d_model b n : nat) (self : MultiHeadAttention.t)
  (x : tensor3) (encoder_output : option tensor3) :
  1 <= n_head -> 1 <= d_model -> d_model mod n_head = 0 -> 1 <= n ->
  MultiHeadAttention_shape n_head d_model self = true ->
  has_shape 1 [b] n d_model x = true ->
  memory_shape b d_model encoder_output = true ->
  exists heads Z out,
    mapM (fun attention => Attention.forward attention x encoder_output)
         (MultiHeadAttention.multi_head_attention self) = ok heads
    /\ length heads = n_head
    /\ Forall (fun o => has_shape 1 [b] n (d_model / n_head) o = true) heads
    /\ cat 1 heads = ok Z
    /\ has_shape 1 [b] n (n_head * (d_model / n_head)) Z = true
    /\ is_matrix (n_head * (d_model / n_head)) d_model
         (MultiHeadAttention.W self) = true
    /\ matmul_w Z (MultiHeadAttention.W self) = ok out
    /\ MultiHeadAttention.forward self x encoder_output = ok out
    /\ has_shape 1 [b] n d_model out = true.
Proof.
  intros Hh Hd Hmod Hn Hself Hx Hmem.
  set (d_k := d_model / n_head) in *.
  assert (Hprod : n_head * d_k = d_model).
  { unfold d_k. apply Nat.Div0.div_exact in Hmod. lia. }
  assert (Hdk : 1 <= d_k) by nia.
  unfold MultiHeadAttention_shape in Hself. fold d_k in Hself.
  apply andb_prop in Hself. destruct Hself as [Hself HW].
  apply andb_prop in Hself. destruct Hself as [Hlen Hheads].
  apply Nat.eqb_eq in Hlen. rewrite forallb_forall in Hheads.
  destruct (memory_shape_elim b n d_model x encoder_output Hn Hx Hmem)
    as [m [Hm HX]].
  destruct (mapM_exists
              (fun attention => Attention.forward attention x encoder_output)
              (fun o => has_shape 1 [b] n d_k o = true)
              (MultiHeadAttention.multi_head_attention self))
    as [heads [Hrun [Hl HF]]].
  { intros a Ha.
    apply (Attention_forward_shape a b n m d_model d_k); auto. }
  destruct (cat_tall 1 [b] n d_k heads) as [Z [HZ HZs]].
  { intros ->. simpl in Hl. lia. }
  { eapply Forall_impl; [| exact HF]. intros o Ho. now apply has_shape_tall. }
  assert (E : length (heads : list (tensor 1)) = n_head)
    by (rewrite <- Hlen; exact Hl).
  rewrite E in HZs.
  destruct (matmul_w_tall b n (n_head * d_k) d_model Z
              (MultiHeadAttention.W self) HZs HW) as [out [Hout Hos]];
    [nia |].
  exists heads, Z, out.
  split; [exact Hrun |]. split; [lia |]. split; [exact HF |].
  split; [exact HZ |]. split; [now apply has_shape_tall |].
  split; [exact HW |]. split; [exact Hout |]. split.
  - unfold MultiHeadAttention.forward. now rewrite Hrun, bind_ok_l, HZ, bind_ok_l.
  - now apply has_shape_tall.
Qed.

(** C5: [MultiHeadAttention.forward] runs every head on the same input and
    memory, concatenates the [h] outputs of width [d_k] into a tensor of
    width [h * d_k] and multiplies it by [W], of shape [(h * d_k, d_model)];
    so for every input of shape (batch, seq, d_model), with [h] dividing
    [d_model], the output has the shape of the input.  The shapes of the
    weights are those the constructor gives them. *)
Theorem MultiHeadAttention_forward_shape
  (n_head d_model b n : nat) (self : MultiHeadAttention.t)
  (x : tensor3) (encoder_output : option tensor3) :
  let d_k := d_model / n_head in
  1 <= n_head -> 1 <= d_model -> d_model mod n_head = 0 -> 1 <= n ->
  MultiHeadAttention_shape n_head d_model self = true ->
  has_shape 1 [b] n d_model x = true ->
  memory_shape b d_model encoder_output = true ->
  (forall mask g g' mha,
      MultiHeadAttention.init (Z.of_nat n_head) (Z.of_nat d_model) mask g
      = ok (mha, g') ->
      MultiHeadAttention_shape n_head d_model mha = true)
  /\ exists heads Z out,
       mapM (fun attention => Attention.forward attention x encoder_output)
            (MultiHeadAttention.multi_head_attention self) = ok heads
       /\ length heads = n_head
       /\ Forall (fun o => has_shape 1 [b] n d_k o = true) heads
       /\ cat 1 heads = ok Z
       /\ has_shape 1 [b] n (n_head * d_k) Z = true
       /\ is_matrix (n_head * d_k) d_model (MultiHeadAttention.W self) = true
       /\ matmul_w Z (MultiHeadAttention.W self) = ok out
       /\ MultiHeadAttention.forward self x encoder_output = ok out
       /\ has_shape 1 [b] n d_model out = true.
Proof.
  intros d_k Hh Hd Hmod Hn Hself Hx Hmem. split.
  - intros mask g g' mha. now apply MultiHeadAttention_init_shape.
  - now apply MultiHeadAttention_forward_steps.
Qed.

Lemma MultiHeadAttention_forward_shape_witness :
  exists out,
    MultiHeadAttention.forward tiny_multi_head [[[Fin 1; Fin 2]]] None = ok out
    /\ has_shape 1 [1] 1 2 out = true.
Proof.
  destruct (proj2 (MultiHeadAttention_forward_shape 2 2 1 1 tiny_multi_head
                     [[[Fin 1; Fin 2]]] None
                     (le_S 1 1 (le_n 1)) (le_S 1 1 (le_n 1)) eq_refl (le_n 1)
                     eq_refl eq_refl eq_refl))
    as [heads [Z [out [_ [_ [_ [_ [_ [_ [_ [Hrun Hshape]]]]]]]]]]].
  exists out. now split.
Defined.

(** ** Masked attention on two positions *)

Lemma scale_Fin (d_k : nat) (a : R) :
  1 <= d_k ->
  (Fin a / FP.sqrt (FP.of_nat d_k))%fp = Fin (a / sqrt (INR d_k)).
Proof.
  intros Hd.
  assert (Hpos : (0 < INR d_k)%R) by (apply lt_0_INR; lia).
  unfold FP.of_nat, FP.sqrt. rewrite (Rcompare_gt _ _ Hpos).
  unfold FP.div. now rewrite (Rcompare_gt _ _ (sqrt_lt_R0 _ Hpos)).
Qed.

(** two equal scores get the weight one half each *)
Lemma softmax_row_uniform2 (s : R) :
  softmax_row [Fin s; Fin s] = [Fin (1 / 2); Fin (1 / 2)].
Proof.
  change [Fin s; Fin s] with (map Fin [s; s]).
  rewrite softmax_row_Fin. cbn [map fold_left].
  pose proof (exp_pos (s + - Rmax s s)) as He.
  set (e := exp (s + - Rmax s s)) in *.
  assert (H : (e / (0 + e + e) = 1 / 2)%R) by (field; lra).
  now rewrite H.
Qed.

Lemma is_zero_zero : FP.is_zero FP.zero = true.
Proof. unfold FP.is_zero, FP.zero. now rewrite Rcompare_refl. Qed.

(** with the mask on, two positions and one feature: both outputs are the
    mean of both values, the later one included *)
Lemma masked_attention_two_positions (v0 v1 : R) :
  ScaledDotProductAttention.forward (ScaledDotProductAttention.init true) 0
    [[Fin 0]; [Fin 0]] [[Fin 0]; [Fin 0]] [[Fin v0]; [Fin v1]]
  = ok [[Fin ((v0 + v1) / 2)]; [Fin ((v0 + v1) / 2)]].
Proof.
  unfold ScaledDotProductAttention.forward, ScaledDotProductAttention.weights.
  cbn -[FP.div FP.sqrt FP.exp FP.add FP.mul FP.sub FP.max FP.is_zero
        FP.of_nat softmax_row].
  change (FP.zero + Fin 0 * Fin 0)%fp with (Fin (0 + 0 * 0)).
  rewrite scale_Fin by lia. rewrite softmax_row_uniform2.
  cbn -[FP.is_zero FP.zero].
  rewrite is_zero_zero. cbn.
  replace ((0 + 1 / 2 * v0 + 1 / 2 * v1) * 1)%R with ((v0 + v1) / 2)%R by lra.
  reflexivity.
Qed.

(** C1 (the code at a failing input): with causal masking on, changing only
    the Value row of position 1 changes the output at query position 0.  The
    mask is multiplied into the weighted values after the softmax, so the
    weights of the later positions are not zero. *)
Theorem ScaledDotProductAttention_mask_leaks_future :
  let self := ScaledDotProductAttention.init true in
  let Q := [[Fin 0]; [Fin 0]] in
  let K := [[Fin 0]; [Fin 0]] in
  let V := [[Fin 0]; [Fin 0]] in
  let V' := [[Fin 0]; [Fin 1]] in
  nth 0 V [] = nth 0 V' []
  /\ exists out out',
       ScaledDotProductAttention.forward self 0 Q K V = ok out
       /\ ScaledDotProductAttention.forward self 0 Q K V' = ok out'
       /\ nth 0 out [] = [Fin 0]
       /\ nth 0 out' [] = [Fin (1 / 2)]
       /\ nth 0 out [] <> nth 0 out' [].
Proof.
  intros self Q K V V'. split; [reflexivity |].
  exists [[Fin ((0 + 0) / 2)]; [Fin ((0 + 0) / 2)]],
         [[Fin ((0 + 1) / 2)]; [Fin ((0 + 1) / 2)]].
  split; [apply masked_attention_two_positions |].
  split; [apply masked_attention_two_positions |].
  cbn [nth].
  replace ((0 + 0) / 2)%R with 0%R by lra.
  replace ((0 + 1) / 2)%R with (1 / 2)%R by lra.
  repeat split. intros H. inversion H. lra.
Qed.

(** ** Infinities and NaN in the arithmetic *)

Lemma by_sign_nonfin (r : R) : FP.is_fin (FP.by_sign r PInf NInf) = false.
Proof. unfold FP.by_sign. destruct (Rcompare r 0); reflexivity. Qed.

Lemma by_sign_nonfin' (r : R) : FP.is_fin (FP.by_sign r NInf PInf) = false.
Proof. unfold FP.by_sign. destruct (Rcompare r 0); reflexivity. Qed.

Lemma add_nonfin_l (a b : fp) :
  FP.is_fin a = false -> FP.is_fin (a + b)%fp = false.
Proof. destruct a, b; simpl; congruence. Qed.

Lemma add_nonfin_r (a b : fp) :
  FP.is_fin b = false -> FP.is_fin (a + b)%fp = false.
Proof. destruct a, b; simpl; congruence. Qed.

Lemma neg_nonfin (a : fp) :
  FP.is_fin a = false -> FP.is_fin (FP.neg a) = false.
Proof. destruct a; simpl; congruence. Qed.

Lemma sub_nonfin_r (a b : fp) :
  FP.is_fin b = false -> FP.is_fin (a - b)%fp = false.
Proof. intros H. unfold FP.sub. now apply add_nonfin_r, neg_nonfin. Qed.

Lemma mul_nonfin_l (a b : fp) :
  FP.is_fin a = false -> FP.is_fin (a * b)%fp = false.
Proof.
  destruct a, b; simpl; try congruence; intros _;
    first [apply by_sign_nonfin | apply by_sign_nonfin'].
Qed.

Lemma mul_NInf_nonfin (a : fp) : FP.is_fin (a * NInf)%fp = false.
Proof. destruct a; simpl; try reflexivity. apply by_sign_nonfin'. Qed.

Lemma div_nonfin_pos (a : fp) (r : R) :
  (0 < r)%R -> FP.is_fin a = false -> FP.is_fin (a / Fin r)%fp = false.
Proof.
  intros Hr. destruct a; simpl; try congruence; intros _;
    now rewrite (Rcompare_gt _ _ Hr).
Qed.

Lemma square_nonfin (a : fp) :
  FP.is_fin a = false -> pinf_or_nan (a * a)%fp.
Proof. destruct a; simpl; try congruence; intros _; unfold pinf_or_nan; auto. Qed.

Lemma add_pinf_or_nan (a b : fp) :
  pinf_or_nan b -> FP.is_fin a = true \/ pinf_or_nan a ->
  pinf_or_nan (a + b)%fp.
Proof.
  unfold pinf_or_nan. intros [-> | ->] [Ha | [-> | ->]]; simpl; auto;
    destruct a; try discriminate; auto.
Qed.

Lemma add_fin_pinf_or_nan (a : fp) (r : R) :
  pinf_or_nan a -> pinf_or_nan (a + Fin r)%fp.
Proof. unfold pinf_or_nan. intros [-> | ->]; simpl; auto. Qed.

Lemma div_pinf_or_nan_pos (a : fp) (r : R) :
  (0 < r)%R -> pinf_or_nan a -> pinf_or_nan (a / Fin r)%fp.
Proof.
  unfold pinf_or_nan. intros Hr [-> | ->]; simpl; auto.
  rewrite (Rcompare_gt _ _ Hr). auto.
Qed.

Lemma sqrt_pinf_or_nan (a : fp) : pinf_or_nan a -> pinf_or_nan (FP.sqrt a).
Proof. unfold pinf_or_nan. intros [-> | ->]; simpl; auto. Qed.

Lemma div_nonfin_by_pinf_or_nan (a s : fp) :
  FP.is_fin a = false -> pinf_or_nan s -> (a / s)%fp = NaN.
Proof.
  unfold pinf_or_nan. intros Ha [-> | ->]; destruct a; simpl in *; congruence.
Qed.

Lemma mul_NaN_l (b : fp) : (NaN * b)%fp = NaN.
Proof. destruct b; reflexivity. Qed.

Lemma add_NaN_l (b : fp) : (NaN + b)%fp = NaN.
Proof. destruct b; reflexivity. Qed.

Lemma add_NaN_r (a : fp) : (a + NaN)%fp = NaN.
Proof. destruct a; reflexivity. Qed.

Lemma sub_NaN_l (b : fp) : (NaN - b)%fp = NaN.
Proof. unfold FP.sub. apply add_NaN_l. Qed.

Lemma div_NaN_l (b : fp) : (NaN / b)%fp = NaN.
Proof. destruct b; reflexivity. Qed.

(** ** Sums that meet an infinity or a NaN *)

Lemma fold_add_nonfin_acc (l : list fp) (acc : fp) :
  FP.is_fin acc = false -> FP.is_fin (fold_left FP.add l acc) = false.
Proof.
  revert acc. induction l as [| a l IH]; cbn [fold_left]; intros acc H; [exact H |].
  apply IH. now apply add_nonfin_l.
Qed.

Lemma fold_add_nonfin (l : list fp) (acc a : fp) :
  In a l -> FP.is_fin a = false ->
  FP.is_fin (fold_left FP.add l acc) = false.
Proof.
  revert acc. induction l as [| x l IH]; cbn [fold_left In]; intros acc Hin Ha; [contradiction |].
  destruct Hin as [-> | Hin].
  - apply fold_add_nonfin_acc. now apply add_nonfin_r.
  - now apply IH.
Qed.

Lemma vsum_nonfin (v : list fp) (a : fp) :
  In a v -> FP.is_fin a = false -> FP.is_fin (vsum v) = false.
Proof. apply fold_add_nonfin. Qed.

Lemma fold_add_NaN_acc (l : list fp) : fold_left FP.add l NaN = NaN.
Proof. induction l as [| a l IH]; cbn [fold_left]; [reflexivity |]. now rewrite add_NaN_l. Qed.

Lemma fold_add_NaN (l : list fp) (acc : fp) :
  In NaN l -> fold_left FP.add l acc = NaN.
Proof.
  revert acc. induction l as [| x l IH]; cbn [fold_left In]; intros acc Hin; [contradiction |].
  destruct Hin as [-> | Hin].
  - rewrite add_NaN_r. apply fold_add_NaN_acc.
  - now apply IH.
Qed.

Lemma fold_add_pinf_or_nan (l : list fp) (acc : fp) :
  Forall pinf_or_nan l -> pinf_or_nan acc ->
  pinf_or_nan (fold_left FP.add l acc).
Proof.
  revert acc. induction l as [| a l IH]; cbn [fold_left]; intros acc Hl Hacc; [exact Hacc |].
  inversion Hl; subst. apply IH; [assumption |].
  apply add_pinf_or_nan; auto.
Qed.

Lemma vsum_pinf_or_nan (v : list fp) :
  v <> [] -> Forall pinf_or_nan v -> pinf_or_nan (vsum v).
Proof.
  intros Hne Hv. destruct v as [| a v]; [contradiction |].
  inversion Hv; subst. unfold vsum. cbn [fold_left].
  apply fold_add_pinf_or_nan; [assumption |].
  apply add_pinf_or_nan; [assumption | now left].
Qed.

(** a product of two vectors with an infinity or NaN in the left one *)
Lemma dot_nonfin (u v : list fp) (i : nat) :
  length u = length v -> i < length u ->
  FP.is_fin (nth i u FP.zero) = false ->
  FP.is_fin (dot u v) = false.
Proof.
  intros Hlen Hi Hbad. unfold dot.
  apply (vsum_nonfin _ (nth i u FP.zero * nth i v FP.zero)%fp).
  - apply in_map_iff. exists (nth i u FP.zero, nth i v FP.zero).
    split; [reflexivity |].
    rewrite <- combine_nth by exact Hlen. apply nth_In.
    rewrite length_combine. lia.
  - now apply mul_nonfin_l.
Qed.

Lemma dot_NaN (u v : list fp) (i : nat) :
  length u = length v -> i < length u ->
  nth i u FP.zero = NaN -> dot u v = NaN.
Proof.
  intros Hlen Hi Hbad. unfold dot, vsum. apply fold_add_NaN.
  apply in_map_iff. exists (nth i u FP.zero, nth i v FP.zero).
  split; [rewrite Hbad; apply mul_NaN_l |].
  rewrite <- combine_nth by exact Hlen. apply nth_In.
  rewrite length_combine. lia.
Qed.

(** ** The first row of elementwise results and of the mask *)

Lemma hd_nonempty_matrix (rows cols : nat) (m : list (list fp)) :
  is_matrix rows cols m = true -> 1 <= rows ->
  exists r m', m = r :: m' /\ length r = cols.
Proof.
  intros Hm Hr. pose proof (is_matrix_length _ _ _ Hm) as Hl.
  destruct m as [| r m']; [simpl in Hl; lia |].
  exists r, m'. split; [reflexivity |].
  pose proof (is_matrix_rows _ _ _ Hm) as H. now inversion H.
Qed.

Lemma zip_rows_entry0 (f : fp -> fp -> fp) (rows cols j : nat)
  (a b : list (list fp)) :
  is_matrix rows cols a = true -> is_matrix rows cols b = true ->
  1 <= rows -> j < cols ->
  entry0 j (zip_rows f a b) = f (entry0 j a) (entry0 j b).
Proof.
  intros Ha Hb Hr Hj.
  destruct (hd_nonempty_matrix _ _ _ Ha Hr) as [ra [a' [-> Hla]]].
  destruct (hd_nonempty_matrix _ _ _ Hb Hr) as [rb [b' [-> Hlb]]].
  unfold entry0, zip_rows. cbn [combine map hd fst snd].
  rewrite (nth_map_in (fun q => f (fst q) (snd q)) _ _ (FP.zero, FP.zero))
    by (rewrite length_combine; lia).
  rewrite combine_nth by lia. reflexivity.
Qed.

Lemma look_ahead_mask_entry (rows cols : nat) :
  entry0 1 (ScaledDotProductAttention.look_ahead_mask (S rows) (S (S cols)))
  = NInf.
Proof. reflexivity. Qed.

(** the masked weighted values hold an infinity or NaN at row 0, column 1 *)
Lemma apply_mask_tainted (rows cols : nat) (w : list (list fp)) :
  is_matrix rows cols w = true -> 1 <= rows -> 2 <= cols ->
  exists w', ScaledDotProductAttention.apply_mask w = ok w'
             /\ is_matrix rows cols w' = true /\ tainted 1 w'.
Proof.
  intros Hw Hr Hc. eexists.
  split; [apply (apply_mask_value rows cols w Hw Hr) |].
  split; [apply zip_rows_is_matrix;
          [exact Hw | apply look_ahead_mask_is_matrix] |].
  unfold tainted.
  rewrite (zip_rows_entry0 FP.mul rows cols 1 w _ Hw
             (look_ahead_mask_is_matrix rows cols) Hr) by lia.
  destruct rows as [| rows]; [lia |].
  destruct cols as [| [| cols]]; [lia | lia |].
  rewrite look_ahead_mask_entry. apply mul_NInf_nonfin.
Qed.

(** ** The masked layers of the decoder *)

(** with the mask on, every matrix of the output holds an infinity or NaN at
    row 0, column 1 *)
Lemma ScaledDotProductAttention_forward_masked
  (self : ScaledDotProductAttention.t) (n : nat) (dims : list nat)
  (seq_q seq_k d_k d_v : nat) (Q K V : tensor n) :
  ScaledDotProductAttention.mask self = true ->
  1 <= seq_q -> 1 <= seq_k -> 1 <= d_k -> 2 <= d_v ->
  tall n (fun m => is_matrix seq_q d_k m = true) dims Q ->
  tall n (fun m => is_matrix seq_k d_k m = true) dims K ->
  tall n (fun m => is_matrix seq_k d_v m = true) dims V ->
  exists out,
    ScaledDotProductAttention.forward self n Q K V = ok out
    /\ tall n (fun m => is_matrix seq_q d_v m = true /\ tainted 1 m) dims out.
Proof.
  intros Hmask Hq Hk Hd Hv HQ HK HV.
  destruct (ScaledDotProductAttention_forward_steps self n dims
              seq_q seq_k d_k d_v Q K V Hk Hd HQ HK HV) as [wv [Hso ->]].
  rewrite Hmask.
  apply (lift1M_tall n _ (fun m => is_matrix seq_q d_v m = true));
    [| exact Hso].
  intros m Hm. now apply apply_mask_tainted.
Qed.

Lemma Attention_forward_masked
  (self : Attention.t) (b n d_model d_key : nat) (inputs : tensor3) :
  ScaledDotProductAttention.mask (Attention.scaled_dot_product self) = true ->
  Attention_shape d_model d_key self = true ->
  1 <= d_model -> 2 <= d_key -> 1 <= n ->
  has_shape 1 [b] n d_model inputs = true ->
  exists out,
    Attention.forward self inputs None = ok out
    /\ tall 1 (fun m => is_matrix n d_key m = true /\ tainted 1 m) [b] out.
Proof.
  intros Hmask Hs Hdm Hdk Hn Hin. unfold Attention_shape in Hs.
  apply andb_prop in Hs. destruct Hs as [Hs HWV].
  apply andb_prop in Hs. destruct Hs as [HWK HWQ].
  apply has_shape_tall in Hin.
  unfold Attention.forward. cbv zeta.
  destruct (matmul_w_tall b n d_model d_key _ _ Hin HWK Hdm) as [K [HK HKs]].
  destruct (matmul_w_tall b n d_model d_key _ _ Hin HWV Hdm) as [V [HV HVs]].
  destruct (matmul_w_tall b n d_model d_key _ _ Hin HWQ Hdm) as [Q [HQ HQs]].
  rewrite HK, bind_ok_l, HV, bind_ok_l, HQ, bind_ok_l.
  apply (ScaledDotProductAttention_forward_masked
           (Attention.scaled_dot_product self) 1 [b] n n d_key d_key Q K V);
    auto; lia.
Qed.

(** *** Concatenation keeps the first columns *)

Lemma zipM_pure {A B C} (f : A -> B -> C) (xs : list A) (ys : list B) :
  length xs = length ys ->
  zipM (fun a b => ok (f a b)) xs ys
  = ok (map (fun p => f (fst p) (snd p)) (combine xs ys)).
Proof.
  intros H. unfold zipM. rewrite H, Nat.eqb_refl.
  apply (mapM_pure (fun p => f (fst p) (snd p))).
Qed.

Lemma cat_rows_value (n c1 c2 : nat) (a b : list (list fp)) :
  is_matrix n c1 a = true -> is_matrix n c2 b = true ->
  cat_rows a b = ok (map (fun p => fst p ++ snd p) (combine a b)).
Proof.
  intros Ha Hb. unfold cat_rows. apply (zipM_pure (fun r1 r2 => r1 ++ r2)).
  rewrite (is_matrix_length _ _ _ Ha). now rewrite (is_matrix_length _ _ _ Hb).
Qed.

Lemma cat_rows_tainted (n c1 c2 : nat) (a b : list (list fp)) :
  is_matrix n c1 a = true -> is_matrix n c2 b = true ->
  1 <= n -> 2 <= c1 -> tainted 1 a ->
  exists z, cat_rows a b = ok z
            /\ is_matrix n (c1 + c2) z = true /\ tainted 1 z.
Proof.
  intros Ha Hb Hn Hc Ht.
  destruct (cat_rows_is_matrix n c1 c2 a b Ha Hb) as [z [Hz Hs]].
  exists z. split; [exact Hz |]. split; [exact Hs |].
  rewrite (cat_rows_value n c1 c2 a b Ha Hb) in Hz. inversion Hz. subst z.
  destruct (hd_nonempty_matrix _ _ _ Ha Hn) as [ra [a' [-> Hla]]].
  destruct (hd_nonempty_matrix _ _ _ Hb Hn) as [rb [b' [-> Hlb]]].
  unfold tainted, entry0 in *. cbn [combine map hd fst snd] in *.
  rewrite app_nth1 by lia. exact Ht.
Qed.

(** *** A product with an infinity or NaN in the first row *)

Lemma transpose_nth (rows cols : nat) (W : list (list fp)) (j : nat) :
  is_matrix rows cols W = true -> 1 <= rows -> j < cols ->
  nth j (transpose W) [] = column W j.
Proof.
  intros HW Hr Hj. unfold transpose.
  rewrite (is_matrix_ncols _ _ _ HW Hr). now apply nth_map_seq.
Qed.

Lemma matmul_tainted (n k d i : nat) (Z W : list (list fp)) :
  is_matrix n k Z = true -> is_matrix k d W = true ->
  1 <= n -> 1 <= d -> i < k -> tainted i Z ->
  exists out, matmul Z W = ok out
              /\ is_matrix n d out = true /\ tainted 0 out.
Proof.
  intros HZ HW Hn Hd Hi Ht.
  destruct (matmul_is_matrix n k d Z W HZ HW) as [out [Hout [Hs _]]]; [lia |].
  exists out. split; [exact Hout |]. split; [exact Hs |].
  rewrite (matmul_value Z W k) in Hout;
    [| apply (is_matrix_rows _ _ _ HZ) | apply (is_matrix_length _ _ _ HW)].
  inversion Hout. subst out.
  destruct (hd_nonempty_matrix _ _ _ HZ Hn) as [r [Z' [-> Hlr]]].
  unfold tainted, entry0 in *. cbn [map hd] in *.
  rewrite (nth_map_in (dot r) _ _ []).
  - rewrite (transpose_nth k d W 0 HW) by lia.
    apply (dot_nonfin r (column W 0) i); [| lia | exact Ht].
    rewrite column_length. now rewrite (is_matrix_length _ _ _ HW).
  - rewrite (is_matrix_length _ _ _ (transpose_is_matrix k d W HW ltac:(lia))).
    lia.
Qed.

(** ** Layer normalisation *)

Lemma LayerNorm_shape_elim (d : nat) (ln : LayerNorm.t) :
  LayerNorm_shape d ln = true ->
  LayerNorm.normalized_shape ln = d
  /\ length (LayerNorm.weight ln) = d /\ length (LayerNorm.bias ln) = d.
Proof.
  unfold LayerNorm_shape. intros H.
  apply andb_prop in H. destruct H as [H H3].
  apply andb_prop in H. destruct H as [H1 H2].
  now rewrite !Nat.eqb_eq in *.
Qed.

Lemma forward_row_value (self : LayerNorm.t) (d : nat) (v : list fp) :
  LayerNorm_shape d self = true -> length v = d ->
  LayerNorm.forward_row self v = ok (layer_norm_value self v).
Proof.
  intros Hs Hv. destruct (LayerNorm_shape_elim d self Hs) as [Hn [Hw Hb]].
  unfold LayerNorm.forward_row, layer_norm_value.
  rewrite Hv, Hn, Nat.eqb_refl. cbv zeta.
  rewrite (zipM_pure FP.mul) by now rewrite length_map, Hw.
  rewrite bind_ok_l.
  apply (zipM_pure FP.add).
  now rewrite length_map, length_combine, length_map, Hv, Hw, Hb, Nat.min_id.
Qed.

Lemma layer_norm_value_length (self : LayerNorm.t) (d : nat) (v : list fp) :
  LayerNorm_shape d self = true -> length v = d ->
  length (layer_norm_value self v) = d.
Proof.
  intros Hs Hv. destruct (LayerNorm_shape_elim d self Hs) as [Hn [Hw Hb]].
  unfold layer_norm_value.
  rewrite length_map, length_combine, length_map, length_combine, length_map.
  lia.
Qed.

(** one infinity or NaN in the vector makes the mean, every deviation and
    the standard deviation non-finite: every normalised value is NaN *)
Lemma layer_norm_value_NaN (self : LayerNorm.t) (v : list fp) (a : fp) :
  nth 0 v FP.zero = a -> v <> [] -> FP.is_fin a = false ->
  Forall (fun y => y = NaN) (layer_norm_value self v).
Proof.
  intros Ha Hne Hbad.
  assert (Hin : In a v).
  { destruct v as [| x v']; [contradiction |]. simpl in Ha. subst. now left. }
  assert (Hlen : (0 < INR (length v))%R).
  { apply lt_0_INR. destruct v; [contradiction | simpl; lia]. }
  unfold layer_norm_value.
  set (mu := LayerNorm.mean v).
  assert (Hmu : FP.is_fin mu = false).
  { unfold mu, LayerNorm.mean, FP.of_nat.
    apply div_nonfin_pos; [exact Hlen |]. now apply (vsum_nonfin v a). }
  set (sq := map (fun x => ((x - mu) * (x - mu))%fp) v).
  assert (Hsq : Forall pinf_or_nan sq).
  { apply Forall_forall. intros y Hy. unfold sq in Hy.
    apply in_map_iff in Hy. destruct Hy as [x [<- _]].
    apply square_nonfin. now apply sub_nonfin_r. }
  set (sd := FP.sqrt (LayerNorm.mean sq + Fin (LayerNorm.eps self))%fp).
  assert (Hsd : pinf_or_nan sd).
  { unfold sd. apply sqrt_pinf_or_nan, add_fin_pinf_or_nan.
    unfold LayerNorm.mean, FP.of_nat. apply div_pinf_or_nan_pos.
    - unfold sq. now rewrite length_map.
    - apply vsum_pinf_or_nan; [| exact Hsq].
      unfold sq. destruct v; [contradiction | discriminate]. }
  apply Forall_forall. intros y Hy.
  apply in_map_iff in Hy. destruct Hy as [[s bb] [<- Hin1]].
  apply in_combine_l in Hin1.
  apply in_map_iff in Hin1. destruct Hin1 as [[nx w] [<- Hin2]].
  apply in_combine_l in Hin2.
  apply in_map_iff in Hin2. destruct Hin2 as [x [<- _]].
  cbn [fst snd].
  rewrite (div_nonfin_by_pinf_or_nan (x - mu)%fp sd);
    [| now apply sub_nonfin_r | exact Hsd].
  now rewrite mul_NaN_l, add_NaN_l.
Qed.

Lemma LayerNorm_rows (self : LayerNorm.t) (n d : nat) (m : list (list fp)) :
  LayerNorm_shape d self = true -> is_matrix n d m = true ->
  exists y, mapM (LayerNorm.forward_row self) m = ok y
            /\ is_matrix n d y = true
            /\ (1 <= n -> 1 <= d -> tainted 0 m -> nan_row y).
Proof.
  intros Hs Hm. pose proof (is_matrix_rows _ _ _ Hm) as Hrows.
  rewrite Forall_forall in Hrows.
  exists (map (layer_norm_value self) m). split; [| split].
  - apply mapM_ok_in. intros v Hv. apply (forward_row_value self d); auto.
  - apply is_matrix_intro.
    + rewrite length_map. apply (is_matrix_length _ _ _ Hm).
    + apply Forall_forall. intros r Hr. apply in_map_iff in Hr.
      destruct Hr as [v [<- Hv]]. apply layer_norm_value_length; auto.
  - intros Hn Hd Ht.
    destruct (hd_nonempty_matrix _ _ _ Hm Hn) as [r [m' [-> Hlr]]].
    unfold nan_row. cbn [map hd].
    apply (layer_norm_value_NaN self r (nth 0 r FP.zero)); [reflexivity | | exact Ht].
    intros ->. simpl in Hlr. lia.
Qed.

(** ** The residual sum and the normalisation of a sublayer *)

Lemma tadd_gen (b n d : nat) (PA PB R : list (list fp) -> Prop)
  (a x : list (list (list fp))) :
  (forall u v, is_matrix n d u = true -> is_matrix n d v = true ->
               PA u -> PB v -> R (zip_rows FP.add u v)) ->
  tall 1 (fun m => is_matrix n d m = true /\ PA m) [b] a ->
  tall 1 (fun m => is_matrix n d m = true /\ PB m) [b] x ->
  exists s, tadd 1 a x = ok s
            /\ tall 1 (fun m => is_matrix n d m = true /\ R m) [b] s.
Proof.
  intros HR Ha Hx. unfold tadd, tzip.
  apply (lift2_tall 1 (mzip FP.add)
           (fun m => is_matrix n d m = true /\ PA m)
           (fun m => is_matrix n d m = true /\ PB m)); [| exact Ha | exact Hx].
  intros u v [Hu HPu] [Hv HPv].
  exists (zip_rows FP.add u v).
  split; [now apply (mzip_value FP.add n d) |].
  split; [now apply zip_rows_is_matrix | now apply HR].
Qed.

Lemma add_norm_gen (ln : LayerNorm.t) (b n d : nat)
  (PA PB RS RY : list (list fp) -> Prop) (a x : list (list (list fp))) :
  LayerNorm_shape d ln = true ->
  (forall u v, is_matrix n d u = true -> is_matrix n d v = true ->
               PA u -> PB v -> RS (zip_rows FP.add u v)) ->
  (forall s y, is_matrix n d s = true -> RS s ->
               mapM (LayerNorm.forward_row ln) s = ok y -> RY y) ->
  tall 1 (fun m => is_matrix n d m = true /\ PA m) [b] a ->
  tall 1 (fun m => is_matrix n d m = true /\ PB m) [b] x ->
  exists y, (s <- tadd 1 a x ;; LayerNorm.forward ln s) = ok y
            /\ tall 1 (fun m => is_matrix n d m = true /\ RY m) [b] y.
Proof.
  intros Hln HRS HRY Ha Hx.
  destruct (tadd_gen b n d PA PB RS a x HRS Ha Hx) as [s [Hs Hss]].
  rewrite Hs, bind_ok_l. unfold LayerNorm.forward.
  apply (lift1M_tall 1 _ (fun m => is_matrix n d m = true /\ RS m));
    [| exact Hss].
  intros m [Hm HR].
  destruct (LayerNorm_rows ln n d m Hln Hm) as [y [Hy [Hys _]]].
  exists y. split; [exact Hy |]. split; [exact Hys |].
  now apply (HRY m).
Qed.

Lemma tall_true (n : nat) (P : list (list fp) -> Prop) (dims : list nat)
  (t : tensor n) :
  tall n P dims t -> tall n (fun m => P m /\ True) dims t.
Proof. apply tall_impl. auto. Qed.

(** shapes only *)
Lemma add_norm_shape (ln : LayerNorm.t) (b n d : nat)
  (a x : list (list (list fp))) :
  LayerNorm_shape d ln = true ->
  has_shape 1 [b] n d a = true -> has_shape 1 [b] n d x = true ->
  exists y, (s <- tadd 1 a x ;; LayerNorm.forward ln s) = ok y
            /\ has_shape 1 [b] n d y = true.
Proof.
  intros Hln Ha Hx. apply has_shape_tall in Ha, Hx.
  destruct (add_norm_gen ln b n d (fun _ => True) (fun _ => True)
              (fun _ => True) (fun _ => True) a x Hln)
    as [y [Hy Hys]]; auto using tall_true.
  exists y. split; [exact Hy |]. apply has_shape_tall.
  eapply tall_impl; [| exact Hys]. now intros m [Hm _].
Qed.

(** a sum with an infinity or NaN at entry (0, 0) is normalised to a first
    row of NaN *)
Lemma add_norm_nan (ln : LayerNorm.t) (b n d : nat)
  (PA PB : list (list fp) -> Prop) (a x : list (list (list fp))) :
  LayerNorm_shape d ln = true -> 1 <= n -> 1 <= d ->
  (forall u v, is_matrix n d u = true -> is_matrix n d v = true ->
               PA u -> PB v -> tainted 0 (zip_rows FP.add u v)) ->
  tall 1 (fun m => is_matrix n d m = true /\ PA m) [b] a ->
  tall 1 (fun m => is_matrix n d m = true /\ PB m) [b] x ->
  exists y, (s <- tadd 1 a x ;; LayerNorm.forward ln s) = ok y
            /\ tall 1 (fun m => is_matrix n d m = true /\ nan_row m) [b] y.
Proof.
  intros Hln Hn Hd HRS Ha Hx.
  apply (add_norm_gen ln b n d PA PB (tainted 0) nan_row a x Hln HRS);
    [| exact Ha | exact Hx].
  intros s y Hs Ht Hy.
  destruct (LayerNorm_rows ln n d s Hln Hs) as [y' [Hy' [_ Hnan]]].
  rewrite Hy in Hy'. inversion Hy'. subst y'. now apply Hnan.
Qed.

Lemma tainted_add_l (n d : nat) (u v : list (list fp)) :
  is_matrix n d u = true -> is_matrix n d v = true ->
  1 <= n -> 1 <= d -> tainted 0 u -> tainted 0 (zip_rows FP.add u v).
Proof.
  intros Hu Hv Hn Hd Ht. unfold tainted.
  rewrite (zip_rows_entry0 FP.add n d 0 u v Hu Hv Hn) by lia.
  now apply add_nonfin_l.
Qed.

Lemma nan_row_entry0 (n d : nat) (v : list (list fp)) :
  is_matrix n d v = true -> 1 <= n -> 1 <= d -> nan_row v ->
  entry0 0 v = NaN.
Proof.
  intros Hv Hn Hd Hnan.
  destruct (hd_nonempty_matrix _ _ _ Hv Hn) as [r [v' [-> Hlr]]].
  unfold nan_row, entry0 in *. cbn [hd] in *.
  destruct r as [| a r]; [simpl in Hlr; lia |].
  inversion Hnan. now subst.
Qed.

Lemma tainted_add_nan_r (n d : nat) (u v : list (list fp)) :
  is_matrix n d u = true -> is_matrix n d v = true ->
  1 <= n -> 1 <= d -> nan_row v -> tainted 0 (zip_rows FP.add u v).
Proof.
  intros Hu Hv Hn Hd Hnan. unfold tainted.
  rewrite (zip_rows_entry0 FP.add n d 0 u v Hu Hv Hn) by lia.
  rewrite (nan_row_entry0 n d v Hv Hn Hd Hnan). now rewrite add_NaN_r.
Qed.

(** ** The masked multi-head attention *)

Lemma MultiHeadAttention_forward_masked
  (n_head d_model b n : nat) (self : MultiHeadAttention.t)
  (x : list (list (list fp))) :
  1 <= n_head -> d_model mod n_head = 0 -> 2 <= d_model / n_head -> 1 <= n ->
  MultiHeadAttention_shape n_head d_model self = true ->
  MultiHeadAttention_masked self = true ->
  has_shape 1 [b] n d_model x = true ->
  exists out,
    MultiHeadAttention.forward self x None = ok out
    /\ tall 1 (fun m => is_matrix n d_model m = true /\ tainted 0 m) [b] out.
Proof.
  intros Hh Hmod Hdk Hn Hself Hmask Hx.
  set (d_k := d_model / n_head) in *.
  assert (Hprod : n_head * d_k = d_model).
  { unfold d_k. apply Nat.Div0.div_exact in Hmod. lia. }
  assert (Hd : 1 <= d_model) by nia.
  unfold MultiHeadAttention_shape in Hself. fold d_k in Hself.
  apply andb_prop in Hself. destruct Hself as [Hself HW].
  apply andb_prop in Hself. destruct Hself as [Hlen Hheads].
  apply Nat.eqb_eq in Hlen. rewrite forallb_forall in Hheads.
  unfold MultiHeadAttention_masked in Hmask. rewrite forallb_forall in Hmask.
  destruct (mapM_exists
              (fun attention => Attention.forward attention x None)
              (tall 1 (fun m => is_matrix n d_k m = true /\ tainted 1 m) [b])
              (MultiHeadAttention.multi_head_attention self))
    as [heads [Hrun [Hl HF]]].
  { intros a Ha. apply (Attention_forward_masked a b n d_model d_k); auto. }
  unfold MultiHeadAttention.forward. rewrite Hrun, bind_ok_l.
  destruct heads as [| o1 os]; [simpl in Hl; lia |].
  pose proof (Forall_inv HF) as Ho1. pose proof (Forall_inv_tail HF) as Hos.
  assert (Hstep : forall k a c,
             (is_matrix n k a = true /\ (2 <= k /\ tainted 1 a)) ->
             is_matrix n d_k c = true ->
             exists z, cat_rows a c = ok z
                       /\ (is_matrix n (k + d_k) z = true
                           /\ (2 <= k + d_k /\ tainted 1 z))).
  { intros k a c [Ha [Hk Ht]] Hc.
    destruct (cat_rows_tainted n k d_k a c Ha Hc Hn Hk Ht) as [z [Hz [Hs Htz]]].
    exists z. repeat split; auto. lia. }
  assert (Hacc : tall 1 (fun a => is_matrix n d_k a = true
                                  /\ (2 <= d_k /\ tainted 1 a)) [b] o1).
  { eapply tall_impl; [| exact Ho1]. intros m [Hm Ht]. auto. }
  assert (Hrest : Forall (tall 1 (fun a => is_matrix n d_k a = true) [b]) os).
  { eapply Forall_impl; [| exact Hos]. intros o Ho.
    eapply tall_impl; [| exact Ho]. now intros m [Hm _]. }
  destruct (cat_fold_gen 1 [b]
              (fun k a => is_matrix n k a = true /\ (2 <= k /\ tainted 1 a))
              (fun a => is_matrix n d_k a = true) d_k os Hstep o1 d_k
              Hacc Hrest) as [Z [HZ HZs]].
  unfold cat. rewrite HZ, bind_ok_l.
  assert (Hwidth : d_k + @length (tensor 1) os * d_k = n_head * d_k).
  { change (@length (tensor 1) os) with (@length (list (list (list fp))) os).
    simpl in Hl. rewrite <- Hlen, <- Hl. lia. }
  rewrite Hwidth in HZs.
  rewrite matmul_w_eq.
  apply (lift1M_tall 1 (fun z => matmul z (MultiHeadAttention.W self))
           (fun a => is_matrix n (n_head * d_k) a = true
                     /\ (2 <= n_head * d_k /\ tainted 1 a)));
    [| exact HZs].
  intros z [Hz [Hk Ht]].
  apply (matmul_tainted n (n_head * d_k) d_model 1 z _ Hz HW); auto; lia.
Qed.

(** ** The feed-forward network *)

Lemma Linear_forward_shape (l : Linear.t) (d_in d_out b n : nat)
  (x : list (list (list fp))) :
  Linear_shape d_in d_out l = true -> 1 <= d_in -> 1 <= d_out ->
  has_shape 1 [b] n d_in x = true ->
  exists y, Linear.forward l x = ok y /\ has_shape 1 [b] n d_out y = true.
Proof.
  intros Hl Hin Hout Hx. unfold Linear_shape in Hl.
  apply andb_prop in Hl. destruct Hl as [HW Hb]. apply Nat.eqb_eq in Hb.
  apply has_shape_tall in Hx. unfold Linear.forward.
  destruct (matmul_w_tall b n d_in d_out x (transpose (Linear.weight l)) Hx)
    as [y [Hy Hys]]; [now apply transpose_is_matrix | exact Hin |].
  rewrite Hy, bind_ok_l.
  destruct (lift1M_tall 1
              (mapM (fun row => zipM (fun a c => ok (a + c)%fp) row
                                     (Linear.bias l)))
              (fun m => is_matrix n d_out m = true)
              (fun m => is_matrix n d_out m = true) [b] y) as [z [Hz Hzs]];
    [| exact Hys |].
  - intros m Hm.
    exists (map (fun row => map (fun p => (fst p + snd p)%fp)
                                (combine row (Linear.bias l))) m).
    pose proof (is_matrix_rows _ _ _ Hm) as Hrows.
    rewrite Forall_forall in Hrows. split.
    + apply mapM_ok_in. intros row Hrow.
      apply (zipM_pure FP.add). rewrite Hb. now apply Hrows.
    + apply is_matrix_intro.
      * rewrite length_map. apply (is_matrix_length _ _ _ Hm).
      * apply Forall_forall. intros r Hr. apply in_map_iff in Hr.
        destruct Hr as [row [<- Hrow]].
        rewrite length_map, length_combine, Hb, (Hrows row Hrow). lia.
  - exists z. split; [exact Hz | now apply has_shape_tall].
Qed.

Lemma ReLU_shape (b n d : nat) (x : list (list (list fp))) :
  has_shape 1 [b] n d x = true -> has_shape 1 [b] n d (ReLU x) = true.
Proof.
  intros Hx. apply has_shape_tall in Hx. apply has_shape_tall.
  unfold ReLU, tmap.
  apply (lift1_tall 1 _ (fun m => is_matrix n d m = true)); [| exact Hx].
  intros m Hm. now apply mmap_is_matrix.
Qed.

Lemma FeedForwardNetwork_forward_shape (f : FeedForwardNetwork.t)
  (d d_ff b n : nat) (x : list (list (list fp))) :
  FeedForwardNetwork_shape d d_ff f = true -> 1 <= d -> 1 <= d_ff ->
  has_shape 1 [b] n d x = true ->
  exists y, FeedForwardNetwork.forward f x = ok y
            /\ has_shape 1 [b] n d y = true.
Proof.
  intros Hf Hd Hff Hx. unfold FeedForwardNetwork_shape in Hf.
  apply andb_prop in Hf. destruct Hf as [H1 H2].
  unfold FeedForwardNetwork.forward.
  destruct (Linear_forward_shape _ d d_ff b n x H1 Hd Hff Hx) as [y1 [Hy1 Hs1]].
  rewrite Hy1, bind_ok_l. cbv zeta.
  apply (Linear_forward_shape _ d_ff d b n (ReLU y1) H2 Hff Hd).
  now apply ReLU_shape.
Qed.

(** ** One encoder layer and the stack *)

Lemma Encoder_forward_shape (e : Encoder.t) (n_head d d_ff b n : nat)
  (x : list (list (list fp))) :
  Encoder_shape n_head d d_ff e = true ->
  1 <= n_head -> 1 <= d -> d mod n_head = 0 -> 1 <= d_ff -> 1 <= n ->
  has_shape 1 [b] n d x = true ->
  exists y, Encoder.forward e x = ok y /\ has_shape 1 [b] n d y = true.
Proof.
  intros He Hh Hd Hmod Hff Hn Hx. unfold Encoder_shape in He.
  apply andb_prop in He. destruct He as [He Hln2].
  apply andb_prop in He. destruct He as [He Hln1].
  apply andb_prop in He. destruct He as [Hmha Hffn].
  unfold Encoder.forward.
  destruct (MultiHeadAttention_forward_steps n_head d b n (Encoder.attention e)
              x None Hh Hd Hmod Hn Hmha Hx eq_refl)
    as [heads [Z [a [_ [_ [_ [_ [_ [_ [_ [Ha Has]]]]]]]]]]].
  rewrite Ha, bind_ok_l.
  destruct (add_norm_shape (Encoder.layer_norm1 e) b n d a x Hln1 Has Hx)
    as [x1 [Hx1 Hx1s]].
  apply bind_inv in Hx1. destruct Hx1 as [s1 [Hs1 Hx1]].
  rewrite Hs1, bind_ok_l, Hx1, bind_ok_l.
  destruct (FeedForwardNetwork_forward_shape (Encoder.feed_forward e)
              d d_ff b n x1 Hffn Hd Hff Hx1s) as [f [Hf Hfs]].
  rewrite Hf, bind_ok_l.
  apply (add_norm_shape (Encoder.layer_norm2 e) b n d f x1 Hln2 Hfs Hx1s).
Qed.

Lemma run_encoders_shape (encoders : list Encoder.t) (n_head d d_ff b n : nat)
  (x : list (list (list fp))) :
  forallb (Encoder_shape n_head d d_ff) encoders = true ->
  1 <= n_head -> 1 <= d -> d mod n_head = 0 -> 1 <= d_ff -> 1 <= n ->
  has_shape 1 [b] n d x = true ->
  exists y, Transformer.run_encoders encoders x = ok y
            /\ has_shape 1 [b] n d y = true.
Proof.
  intros Hes Hh Hd Hmod Hff Hn. revert x.
  induction encoders as [| e es IH]; intros x Hx.
  - exists x. now split.
  - simpl in Hes. apply andb_prop in Hes. destruct Hes as [He Hes].
    destruct (Encoder_forward_shape e n_head d d_ff b n x He Hh Hd Hmod Hff Hn Hx)
      as [y [Hy Hys]].
    unfold Transformer.run_encoders. cbn [fold_left].
    rewrite bind_ok_l, Hy. apply (IH Hes y Hys).
Qed.

(** ** One decoder layer and the stack *)

Lemma memory_shape_some (b m d : nat) (enc : list (list (list fp))) :
  1 <= b -> 1 <= m -> has_shape 1 [b] m d enc = true ->
  memory_shape b d (Some enc) = true.
Proof.
  intros Hb Hm He. unfold memory_shape.
  pose proof (has_shape_hd b m d enc He Hb) as Hhd.
  rewrite (is_matrix_length _ _ _ Hhd).
  apply andb_true_intro. split; [now apply Nat.leb_le | exact He].
Qed.

Lemma Decoder_forward_nan (dec : Decoder.t) (n_head d d_ff b n m : nat)
  (x enc : list (list (list fp))) :
  Decoder_shape n_head d d_ff dec = true ->
  1 <= n_head -> d mod n_head = 0 -> 2 <= d / n_head -> 1 <= d_ff ->
  1 <= b -> 1 <= n -> 1 <= m ->
  has_shape 1 [b] n d x = true -> has_shape 1 [b] m d enc = true ->
  exists y, Decoder.forward dec x enc = ok y
            /\ tall 1 (fun a => is_matrix n d a = true /\ nan_row a) [b] y.
Proof.
  intros Hdec Hh Hmod Hdk Hff Hb Hn Hm Hx Henc.
  assert (Hd : 1 <= d).
  { apply Nat.Div0.div_exact in Hmod. nia. }
  unfold Decoder_shape in Hdec.
  apply andb_prop in Hdec. destruct Hdec as [Hdec Hln3].
  apply andb_prop in Hdec. destruct Hdec as [Hdec Hln2].
  apply andb_prop in Hdec. destruct Hdec as [Hdec Hln1].
  apply andb_prop in Hdec. destruct Hdec as [Hdec Hffn].
  apply andb_prop in Hdec. destruct Hdec as [Hdec Hatt].
  apply andb_prop in Hdec. destruct Hdec as [Hmatt Hmasked].
  unfold Decoder.forward.
  (* the masked self-attention *)
  destruct (MultiHeadAttention_forward_masked n_head d b n
              (Decoder.masked_attention dec) x Hh Hmod Hdk Hn Hmatt Hmasked Hx)
    as [ma [Hma Hmas]].
  rewrite Hma, bind_ok_l.
  destruct (add_norm_nan (Decoder.layer_norm1 dec) b n d
              (tainted 0) (fun _ => True) ma x Hln1 Hn Hd)
    as [x1 [Hx1 Hx1s]];
    [intros u v Hu Hv Ht _; now apply (tainted_add_l n d) | exact Hmas
     | apply tall_true; now apply has_shape_tall |].
  apply bind_inv in Hx1. destruct Hx1 as [s1 [Hs1 Hx1]].
  rewrite Hs1, bind_ok_l, Hx1, bind_ok_l.
  assert (Hx1shape : has_shape 1 [b] n d x1 = true).
  { apply has_shape_tall. eapply tall_impl; [| exact Hx1s]. now intros a [Ha _]. }
  (* the attention over the encoder output *)
  destruct (MultiHeadAttention_forward_steps n_head d b n (Decoder.attention dec)
              x1 (Some enc) Hh Hd Hmod Hn Hatt Hx1shape
              (memory_shape_some b m d enc Hb Hm Henc))
    as [heads [Z [a2 [_ [_ [_ [_ [_ [_ [_ [Ha2 Ha2s]]]]]]]]]]].
  rewrite Ha2, bind_ok_l.
  destruct (add_norm_nan (Decoder.layer_norm2 dec) b n d
              (fun _ => True) nan_row a2 x1 Hln2 Hn Hd)
    as [x2 [Hx2 Hx2s]];
    [intros u v Hu Hv _ Hnan; now apply (tainted_add_nan_r n d)
     | apply tall_true; now apply has_shape_tall | exact Hx1s |].
  apply bind_inv in Hx2. destruct Hx2 as [s2 [Hs2 Hx2]].
  rewrite Hs2, bind_ok_l, Hx2, bind_ok_l.
  assert (Hx2shape : has_shape 1 [b] n d x2 = true).
  { apply has_shape_tall. eapply tall_impl; [| exact Hx2s]. now intros a [Ha _]. }
  (* the feed-forward network *)
  destruct (FeedForwardNetwork_forward_shape (Decoder.feedforward dec)
              d d_ff b n x2 Hffn Hd Hff Hx2shape) as [f [Hf Hfs]].
  rewrite Hf, bind_ok_l.
  apply (add_norm_nan (Decoder.layer_norm3 dec) b n d
           (fun _ => True) nan_row f x2 Hln3 Hn Hd);
    [intros u v Hu Hv _ Hnan; now apply (tainted_add_nan_r n d)
    | apply tall_true; now apply has_shape_tall | exact Hx2s].
Qed.

Lemma run_decoders_nan (decoders : list Decoder.t) (n_head d d_ff b n m : nat)
  (y enc : list (list (list fp))) :
  forallb (Decoder_shape n_head d d_ff) decoders = true -> decoders <> [] ->
  1 <= n_head -> d mod n_head = 0 -> 2 <= d / n_head -> 1 <= d_ff ->
  1 <= b -> 1 <= n -> 1 <= m ->
  has_shape 1 [b] n d y = true -> has_shape 1 [b] m d enc = true ->
  exists out, Transformer.run_decoders decoders y enc = ok out
              /\ tall 1 (fun a => is_matrix n d a = true /\ nan_row a) [b] out.
Proof.
  intros Hds Hne Hh Hmod Hdk Hff Hb Hn Hm Hy Henc.
  destruct decoders as [| dec ds]; [contradiction |]. clear Hne.
  simpl in Hds. apply andb_prop in Hds. destruct Hds as [Hdec Hds].
  destruct (Decoder_forward_nan dec n_head d d_ff b n m y enc
              Hdec Hh Hmod Hdk Hff Hb Hn Hm Hy Henc) as [y1 [Hy1 Hy1s]].
  unfold Transformer.run_decoders. cbn [fold_left]. rewrite bind_ok_l, Hy1.
  clear Hy1 Hy Hdec. revert y1 Hy1s.
  induction ds as [| dec' ds IH]; intros y1 Hy1s.
  - exists y1. now split.
  - simpl in Hds. apply andb_prop in Hds. destruct Hds as [Hdec' Hds].
    assert (Hy1shape : has_shape 1 [b] n d y1 = true).
    { apply has_shape_tall. eapply tall_impl; [| exact Hy1s].
      now intros a [Ha _]. }
    destruct (Decoder_forward_nan dec' n_head d d_ff b n m y1 enc
                Hdec' Hh Hmod Hdk Hff Hb Hn Hm Hy1shape Henc) as [y2 [Hy2 Hy2s]].
    cbn [fold_left]. rewrite bind_ok_l, Hy2. apply (IH Hds y2 Hy2s).
Qed.

(** ** Embedding, scaling and positions *)

Lemma indices_shape_elim (b seq_len vocab : nat) (idx : list (list Z)) :
  indices_shape b seq_len vocab idx = true ->
  length idx = b
  /\ Forall (fun row => length row = seq_len
                        /\ Forall (fun i => (0 <= i < Z.of_nat vocab)%Z) row)
            idx.
Proof.
  unfold indices_shape. intros H.
  apply andb_prop in H. destruct H as [Hl H]. apply Nat.eqb_eq in Hl.
  split; [exact Hl |]. rewrite forallb_forall in H.
  apply Forall_forall. intros row Hrow. specialize (H row Hrow).
  apply andb_prop in H. destruct H as [Hlr Hr]. apply Nat.eqb_eq in Hlr.
  split; [exact Hlr |]. rewrite forallb_forall in Hr.
  apply Forall_forall. intros i Hi. specialize (Hr i Hi).
  apply andb_prop in Hr. destruct Hr as [H0 H1]. lia.
Qed.

Lemma Embedding_forward_shape (self : Embedding.t) (vocab d b seq_len : nat)
  (idx : list (list Z)) :
  is_matrix vocab d (Embedding.weight self) = true ->
  indices_shape b seq_len vocab idx = true ->
  exists e, Embedding.forward self idx = ok e
            /\ has_shape 1 [b] seq_len d e = true.
Proof.
  intros HE Hidx. apply indices_shape_elim in Hidx. destruct Hidx as [Hl Hrows].
  unfold Embedding.forward.
  destruct (mapM_exists (mapM (Embedding.lookup self))
              (fun m => is_matrix seq_len d m = true) idx) as [e [He [Hle HF]]].
  - rewrite Forall_forall in Hrows. intros row Hrow.
    destruct (Hrows row Hrow) as [Hlr Hr].
    destruct (mapM_exists (Embedding.lookup self)
                (fun v => length v = d) row) as [m [Hm [Hlm HFm]]].
    + rewrite Forall_forall in Hr. intros i Hi. specialize (Hr i Hi).
      exists (nth (Z.to_nat i) (Embedding.weight self) []).
      split.
      * rewrite <- (Z2Nat.id i) at 1 by lia.
        apply Embedding_lookup_row.
        rewrite (is_matrix_length _ _ _ HE). lia.
      * apply (is_matrix_nth_row vocab); [exact HE | lia].
    + exists m. split; [exact Hm |]. apply is_matrix_intro; [lia | exact HFm].
  - exists e. split; [exact He |]. apply has_shape_tall.
    apply tall1_intro; [lia | exact HF].
Qed.

Lemma tmap_shape (f : fp -> fp) (b n d : nat) (x : list (list (list fp))) :
  has_shape 1 [b] n d x = true -> has_shape 1 [b] n d (tmap 1 f x) = true.
Proof.
  intros Hx. apply has_shape_tall in Hx. apply has_shape_tall.
  unfold tmap.
  apply (lift1_tall 1 _ (fun m => is_matrix n d m = true)); [| exact Hx].
  intros m Hm. now apply mmap_is_matrix.
Qed.

Lemma tadd_broadcast_eq (x : list (list (list fp))) (pe : list (list fp)) :
  tadd 1 x [pe] = mapM (fun a => mzip FP.add a pe) x.
Proof.
  unfold tadd, tzip. cbn [lift2]. unfold bcast2.
  destruct x as [| a [| c x]]; reflexivity.
Qed.

Lemma embed_shape (self : Transformer.t) (vocab n_head d d_ff b seq_len : nat)
  (idx : list (list Z)) :
  Transformer_shape vocab n_head d d_ff self = true ->
  Nat.even d = true -> 2 <= d -> 1 <= b -> 1 <= seq_len ->
  indices_shape b seq_len vocab idx = true ->
  exists x, Transformer.embed self idx = ok x
            /\ has_shape 1 [b] seq_len d x = true.
Proof.
  intros Hself Hev Hd Hb Hseq Hidx. unfold Transformer_shape in Hself.
  apply andb_prop in Hself. destruct Hself as [Hself Hdm].
  apply andb_prop in Hself. destruct Hself as [Hself Hpe].
  apply andb_prop in Hself. destruct Hself as [_ HE].
  apply Z.eqb_eq in Hdm, Hpe.
  unfold Transformer.embed.
  destruct (Embedding_forward_shape _ vocab d b seq_len idx HE Hidx)
    as [e [He Hes]].
  rewrite He, bind_ok_l. cbv zeta.
  set (x := tmap 1 _ e).
  assert (Hx : has_shape 1 [b] seq_len d x = true) by now apply tmap_shape.
  assert (Hinit : Transformer.pos_encoding self
                  = PositionalEncoding.init (Z.of_nat d)).
  { destruct (Transformer.pos_encoding self) as [dm]. simpl in Hpe.
    now rewrite Hpe. }
  rewrite Hinit.
  rewrite (PE_forward_rows d seq_len x (has_shape_hd b seq_len d x Hx Hb)
             Hseq Hev), bind_ok_l.
  rewrite tadd_broadcast_eq. apply has_shape_tall in Hx.
  destruct (lift1M_tall 1 (fun a => mzip FP.add a (map (PE_row d) (seq 0 seq_len)))
              (fun m => is_matrix seq_len d m = true)
              (fun m => is_matrix seq_len d m = true) [b] x) as [y [Hy Hys]];
    [| exact Hx |].
  - intros m Hm. exists (zip_rows FP.add m (map (PE_row d) (seq 0 seq_len))).
    split.
    + apply (mzip_value FP.add seq_len d); [exact Hm | apply PE_rows_shape].
    + apply zip_rows_is_matrix; [exact Hm | apply PE_rows_shape].
  - exists y. split; [exact Hy | now apply has_shape_tall].
Qed.

(** ** The projection and the final softmax on a first row of NaN *)

Lemma matmul_nan_row (n k d : nat) (Z W : list (list fp)) :
  is_matrix n k Z = true -> is_matrix k d W = true ->
  1 <= n -> 1 <= k -> nan_row Z ->
  exists out, matmul Z W = ok out
              /\ is_matrix n d out = true /\ nan_row out.
Proof.
  intros HZ HW Hn Hk Hnan.
  destruct (matmul_is_matrix n k d Z W HZ HW Hk) as [out [Hout [Hs _]]].
  exists out. split; [exact Hout |]. split; [exact Hs |].
  rewrite (matmul_value Z W k) in Hout;
    [| apply (is_matrix_rows _ _ _ HZ) | apply (is_matrix_length _ _ _ HW)].
  inversion Hout. subst out.
  pose proof (nan_row_entry0 n k Z HZ Hn Hk Hnan) as H0.
  destruct (hd_nonempty_matrix _ _ _ HZ Hn) as [r [Z' [-> Hlr]]].
  unfold nan_row, entry0 in *. cbn [map hd] in *.
  apply Forall_forall. intros a Ha.
  apply in_map_iff in Ha. destruct Ha as [col [<- Hcol]].
  apply (dot_NaN r col 0); [| lia | exact H0].
  pose proof (is_matrix_rows _ _ _ (transpose_is_matrix k d W HW Hk)) as Hcols.
  rewrite Forall_forall in Hcols. rewrite (Hcols col Hcol). exact Hlr.
Qed.

Lemma softmax_row_NaN (v : list fp) :
  Forall (fun a => a = NaN) v -> Forall (fun a => a = NaN) (softmax_row v).
Proof.
  intros Hv. unfold softmax_row. rewrite Forall_forall in *.
  intros y Hy. apply in_map_iff in Hy. destruct Hy as [e [<- He]].
  apply in_map_iff in He. destruct He as [x [<- Hx]].
  rewrite (Hv x Hx), sub_NaN_l. cbn [FP.exp]. apply div_NaN_l.
Qed.

Lemma softmax_nan_row (n d : nat) (m : list (list fp)) :
  is_matrix n d m = true -> nan_row m ->
  is_matrix n d (map softmax_row m) = true /\ nan_row (map softmax_row m).
Proof.
  intros Hm Hnan. split.
  - apply is_matrix_intro.
    + rewrite length_map. apply (is_matrix_length _ _ _ Hm).
    + apply Forall_forall. intros r Hr. apply in_map_iff in Hr.
      destruct Hr as [row [<- Hrow]]. rewrite softmax_row_length.
      pose proof (is_matrix_rows _ _ _ Hm) as H.
      rewrite Forall_forall in H. now apply H.
  - unfold nan_row in *. destruct m as [| r m]; [constructor |].
    cbn [map hd] in *. now apply softmax_row_NaN.
Qed.

Lemma nan_row_not_distribution (n d : nat) (m : list (list fp)) :
  is_matrix n d m = true -> 1 <= n -> 1 <= d -> nan_row m ->
  ~ distribution (hd [] m).
Proof.
  intros Hm Hn Hd Hnan [Hpos _].
  pose proof (nan_row_entry0 n d m Hm Hn Hd Hnan) as H0.
  destruct (hd_nonempty_matrix _ _ _ Hm Hn) as [r [m' [-> Hlr]]].
  unfold entry0 in H0. cbn [hd] in *.
  destruct r as [| a r]; [simpl in Hlr; lia |].
  simpl in H0. subst a. inversion Hpos as [| ? ? [x [Hx _]] _].
  discriminate.
Qed.

(** every well-formed model with a decoder layer and heads of width two or
    more returns a first row of NaN for every batch element *)
Lemma Transformer_forward_nan_rows
  (vocab n_head d d_ff b seq_src seq_tgt : nat) (self : Transformer.t)
  (x y : list (list Z)) :
  1 <= vocab -> 1 <= n_head -> d mod n_head = 0 -> 2 <= d / n_head ->
  Nat.even d = true -> 1 <= d_ff ->
  1 <= b -> 1 <= seq_src -> 1 <= seq_tgt ->
  Transformer_shape vocab n_head d d_ff self = true ->
  Transformer.decoders self <> [] ->
  indices_shape b seq_src vocab x = true ->
  indices_shape b seq_tgt vocab y = true ->
  exists out,
    Transformer.forward self x y = ok out
    /\ has_shape 1 [b] seq_tgt vocab out = true
    /\ Forall (fun m => Forall (fun a => a = NaN) (hd [] m)) out
    /\ Forall (fun m => ~ distribution (hd [] m)) out.
Proof.
  intros Hv Hh Hmod Hdk Hev Hff Hb Hsrc Htgt Hself Hne Hx Hy.
  assert (Hd : 2 <= d).
  { apply Nat.Div0.div_exact in Hmod. nia. }
  pose proof Hself as Hshape. unfold Transformer_shape in Hshape.
  apply andb_prop in Hshape. destruct Hshape as [Hshape _].
  apply andb_prop in Hshape. destruct Hshape as [Hshape _].
  apply andb_prop in Hshape. destruct Hshape as [Hshape HE].
  apply andb_prop in Hshape. destruct Hshape as [Hencs Hdecs].
  unfold Transformer.forward.
  destruct (embed_shape self vocab n_head d d_ff b seq_src x
              Hself Hev Hd Hb Hsrc Hx) as [ex [Hex Hexs]].
  destruct (embed_shape self vocab n_head d d_ff b seq_tgt y
              Hself Hev Hd Hb Htgt Hy) as [ey [Hey Heys]].
  rewrite Hex, bind_ok_l, Hey, bind_ok_l.
  destruct (run_encoders_shape (Transformer.encoders self) n_head d d_ff b
              seq_src ex Hencs Hh) as [enc [Henc Hencshape]];
    [lia | exact Hmod | exact Hff | exact Hsrc | exact Hexs |].
  rewrite Henc, bind_ok_l.
  destruct (run_decoders_nan (Transformer.decoders self) n_head d d_ff b
              seq_tgt seq_src ey enc Hdecs Hne Hh Hmod Hdk Hff Hb Htgt Hsrc
              Heys Hencshape) as [dec [Hdec Hdecs']].
  rewrite Hdec, bind_ok_l.
  unfold Transformer.project. rewrite matmul_w_eq.
  destruct (lift1M_tall 1
              (fun z => matmul z (transpose
                                    (Embedding.weight (Transformer.embedding self))))
              (fun a => is_matrix seq_tgt d a = true /\ nan_row a)
              (fun a => is_matrix seq_tgt vocab a = true /\ nan_row a)
              [b] dec) as [scores [Hscores Hss]]; [| exact Hdecs' |].
  { intros z [Hz Hnan].
    apply (matmul_nan_row seq_tgt d vocab z _ Hz); auto; try lia.
    now apply transpose_is_matrix. }
  change (mapM (fun z => matmul z (transpose
                   (Embedding.weight (Transformer.embedding self)))) dec)
    with (lift1M 1 (fun z => matmul z (transpose
                   (Embedding.weight (Transformer.embedding self)))) dec).
  rewrite Hscores, bind_ok_l.
  exists (softmax 1 scores). split; [reflexivity |].
  assert (Hout : tall 1 (fun a => is_matrix seq_tgt vocab a = true /\ nan_row a)
                      [b] (softmax 1 scores)).
  { unfold softmax.
    apply (lift1_tall 1 _ (fun a => is_matrix seq_tgt vocab a = true
                                    /\ nan_row a)); [| exact Hss].
    intros m [Hm Hnan]. now apply softmax_nan_row. }
  split; [| split].
  - apply has_shape_tall. eapply tall_impl; [| exact Hout]. now intros a [Ha _].
  - apply tall1_elim in Hout. destruct Hout as [_ Hout].
    eapply Forall_impl; [| exact Hout]. now intros a [_ Ha].
  - apply tall1_elim in Hout. destruct Hout as [_ Hout].
    eapply Forall_impl; [| exact Hout]. intros a [Ha Hnan].
    now apply (nan_row_not_distribution seq_tgt vocab).
Qed.

(** ** The constructors succeed and give the weights their shapes *)

Lemma randn_ok (rows cols : nat) (g : rng) :
  randn (Z.of_nat rows) (Z.of_nat cols) g
  = ok (draw_matrix rows cols g, advance (rows * cols) g).
Proof.
  unfold randn.
  destruct (Z.ltb_spec (Z.of_nat rows) 0) as [H | _]; [lia |].
  destruct (Z.ltb_spec (Z.of_nat cols) 0) as [H | _]; [lia |].
  simpl. now rewrite !Nat2Z.id.
Qed.

Lemma randn_vec_ok (len : nat) (g : rng) :
  randn_vec (Z.of_nat len) g = ok (draw_vec len g, advance len g).
Proof.
  unfold randn_vec.
  destruct (Z.ltb_spec (Z.of_nat len) 0) as [H | _]; [lia |].
  now rewrite !Nat2Z.id.
Qed.

Lemma Linear_init_ok (d_in d_out : nat) (g : rng) :
  exists l g', Linear.init (Z.of_nat d_in) (Z.of_nat d_out) g = ok (l, g')
               /\ Linear_shape d_in d_out l = true.
Proof.
  unfold Linear.init. rewrite randn_ok, bind_ok_l, randn_vec_ok, bind_ok_l.
  eexists. eexists. split; [reflexivity |].
  unfold Linear_shape. cbn [Linear.weight Linear.bias].
  rewrite draw_matrix_is_matrix. unfold draw_vec.
  now rewrite length_map, length_seq, Nat.eqb_refl.
Qed.

Lemma LayerNorm_init_ok (d : nat) :
  exists ln, LayerNorm.init (Z.of_nat d) = ok ln
             /\ LayerNorm_shape d ln = true.
Proof.
  unfold LayerNorm.init.
  destruct (Z.ltb_spec (Z.of_nat d) 0) as [H | _]; [lia |].
  eexists. split; [reflexivity |].
  unfold LayerNorm_shape. cbn. now rewrite Nat2Z.id, !repeat_length, !Nat.eqb_refl.
Qed.

Lemma FeedForwardNetwork_init_ok (d d_ff : nat) (g : rng) :
  exists f g', FeedForwardNetwork.init (Z.of_nat d) (Z.of_nat d_ff) g = ok (f, g')
               /\ FeedForwardNetwork_shape d d_ff f = true.
Proof.
  unfold FeedForwardNetwork.init.
  destruct (Linear_init_ok d d_ff g) as [l1 [g1 [H1 Hs1]]].
  rewrite H1, bind_ok_l.
  destruct (Linear_init_ok d_ff d g1) as [l2 [g2 [H2 Hs2]]].
  rewrite H2, bind_ok_l.
  eexists. eexists. split; [reflexivity |].
  unfold FeedForwardNetwork_shape. cbn. now rewrite Hs1, Hs2.
Qed.

Lemma Attention_init_ok (d d_key : nat) (mask : bool) (g : rng) :
  exists a g', Attention.init (Z.of_nat d) (Z.of_nat d_key) mask g = ok (a, g')
               /\ Attention_shape d d_key a = true
               /\ ScaledDotProductAttention.mask (Attention.scaled_dot_product a)
                  = mask.
Proof.
  unfold Attention.init.
  rewrite randn_ok, bind_ok_l, randn_ok, bind_ok_l, randn_ok, bind_ok_l.
  eexists. eexists. split; [reflexivity |].
  unfold Attention_shape. cbn. now rewrite !draw_matrix_is_matrix.
Qed.

Lemma attention_list_ok (n d d_key : nat) (mask : bool) (g : rng) :
  exists l g',
    MultiHeadAttention.attention_list n (Z.of_nat d) (Z.of_nat d_key) mask g
    = ok (l, g')
    /\ length l = n
    /\ forallb (Attention_shape d d_key) l = true
    /\ forallb (fun a => Bool.eqb (ScaledDotProductAttention.mask
                                     (Attention.scaled_dot_product a)) mask) l
       = true.
Proof.
  revert g. induction n as [| n IH]; intros g.
  - exists [], g. repeat split.
  - cbn [MultiHeadAttention.attention_list].
    destruct (Attention_init_ok d d_key mask g) as [a [g1 [Ha [Hs Hm]]]].
    rewrite Ha, bind_ok_l.
    destruct (IH g1) as [l [g2 [Hl [Hlen [Hall Hmask]]]]].
    rewrite Hl, bind_ok_l.
    exists (a :: l), g2. split; [reflexivity |]. cbn.
    rewrite Hlen, Hs, Hall, Hm, Hmask, Bool.eqb_reflx. auto.
Qed.

Lemma MultiHeadAttention_init_ok (n_head d : nat) (mask : bool) (g : rng) :
  1 <= n_head -> d mod n_head = 0 ->
  exists mha g',
    MultiHeadAttention.init (Z.of_nat n_head) (Z.of_nat d) mask g = ok (mha, g')
    /\ MultiHeadAttention_shape n_head d mha = true
    /\ (mask = true -> MultiHeadAttention_masked mha = true).
Proof.
  intros Hh Hmod. unfold MultiHeadAttention.init.
  destruct (Z.eqb_spec (Z.of_nat n_head) 0) as [E | _]; [lia |].
  assert (Hm : (Z.of_nat d mod Z.of_nat n_head =? 0)%Z = true).
  { apply Z.eqb_eq. rewrite <- Nat2Z.inj_mod, Hmod. reflexivity. }
  rewrite Hm. cbn [negb]. cbv zeta.
  assert (Hq : (Z.of_nat d ÷ Z.of_nat n_head)%Z = Z.of_nat (d / n_head)).
  { rewrite Z.quot_div_nonneg by lia. now rewrite Nat2Z.inj_div. }
  rewrite Hq, <- Nat2Z.inj_mul, Nat2Z.id.
  destruct (attention_list_ok n_head d (d / n_head) mask g)
    as [l [g1 [Hl [Hlen [Hall Hmask]]]]].
  rewrite Hl, bind_ok_l, randn_ok, bind_ok_l.
  eexists. eexists. split; [reflexivity |]. split.
  - unfold MultiHeadAttention_shape. cbn.
    now rewrite Hlen, Nat.eqb_refl, Hall, draw_matrix_is_matrix.
  - intros ->. unfold MultiHeadAttention_masked. cbn.
    rewrite forallb_forall in *. intros a Ha.
    specialize (Hmask a Ha). now apply Bool.eqb_prop in Hmask.
Qed.

Lemma Encoder_init_ok (n_head d d_ff : nat) (g : rng) :
  1 <= n_head -> d mod n_head = 0 ->
  exists e g',
    Encoder.init (Z.of_nat n_head) (Z.of_nat d) (Z.of_nat d_ff) g = ok (e, g')
    /\ Encoder_shape n_head d d_ff e = true.
Proof.
  intros Hh Hmod. unfold Encoder.init.
  destruct (MultiHeadAttention_init_ok n_head d false g Hh Hmod)
    as [a [g1 [Ha [Has _]]]].
  rewrite Ha, bind_ok_l.
  destruct (FeedForwardNetwork_init_ok d d_ff g1) as [f [g2 [Hf Hfs]]].
  rewrite Hf, bind_ok_l.
  destruct (LayerNorm_init_ok d) as [ln [Hln Hlns]].
  rewrite Hln, !bind_ok_l.
  eexists. eexists. split; [reflexivity |].
  unfold Encoder_shape. cbn. now rewrite Has, Hfs, Hlns.
Qed.

Lemma Decoder_init_ok (n_head d d_ff : nat) (g : rng) :
  1 <= n_head -> d mod n_head = 0 ->
  exists dec g',
    Decoder.init (Z.of_nat n_head) (Z.of_nat d) (Z.of_nat d_ff) g = ok (dec, g')
    /\ Decoder_shape n_head d d_ff dec = true.
Proof.
  intros Hh Hmod. unfold Decoder.init.
  destruct (MultiHeadAttention_init_ok n_head d true g Hh Hmod)
    as [ma [g1 [Hma [Hmas Hmasked]]]].
  rewrite Hma, bind_ok_l.
  destruct (MultiHeadAttention_init_ok n_head d false g1 Hh Hmod)
    as [a [g2 [Ha [Has _]]]].
  rewrite Ha, bind_ok_l.
  destruct (FeedForwardNetwork_init_ok d d_ff g2) as [f [g3 [Hf Hfs]]].
  rewrite Hf, bind_ok_l.
  destruct (LayerNorm_init_ok d) as [ln [Hln Hlns]].
  rewrite Hln, !bind_ok_l.
  eexists. eexists. split; [reflexivity |].
  unfold Decoder_shape. cbn. now rewrite Hmas, (Hmasked eq_refl), Has, Hfs, Hlns.
Qed.

Lemma encoder_stack_ok (n n_head d d_ff : nat) (g : rng) :
  1 <= n_head -> d mod n_head = 0 ->
  exists l g',
    Transformer.encoder_stack n (Z.of_nat n_head) (Z.of_nat d) (Z.of_nat d_ff) g
    = ok (l, g')
    /\ length l = n /\ forallb (Encoder_shape n_head d d_ff) l = true.
Proof.
  intros Hh Hmod. revert g. induction n as [| n IH]; intros g.
  - exists [], g. repeat split.
  - cbn [Transformer.encoder_stack].
    destruct (Encoder_init_ok n_head d d_ff g Hh Hmod) as [e [g1 [He Hes]]].
    rewrite He, bind_ok_l.
    destruct (IH g1) as [l [g2 [Hl [Hlen Hall]]]].
    rewrite Hl, bind_ok_l.
    exists (e :: l), g2. split; [reflexivity |]. cbn.
    now rewrite Hlen, Hes, Hall.
Qed.

Lemma decoder_stack_ok (n n_head d d_ff : nat) (g : rng) :
  1 <= n_head -> d mod n_head = 0 ->
  exists l g',
    Transformer.decoder_stack n (Z.of_nat n_head) (Z.of_nat d) (Z.of_nat d_ff) g
    = ok (l, g')
    /\ length l = n /\ forallb (Decoder_shape n_head d d_ff) l = true.
Proof.
  intros Hh Hmod. revert g. induction n as [| n IH]; intros g.
  - exists [], g. repeat split.
  - cbn [Transformer.decoder_stack].
    destruct (Decoder_init_ok n_head d d_ff g Hh Hmod) as [e [g1 [He Hes]]].
    rewrite He, bind_ok_l.
    destruct (IH g1) as [l [g2 [Hl [Hlen Hall]]]].
    rewrite Hl, bind_ok_l.
    exists (e :: l), g2. split; [reflexivity |]. cbn.
    now rewrite Hlen, Hes, Hall.
Qed.

Lemma Transformer_init_ok (vocab n_layer n_head d d_ff : nat) (g : rng) :
  1 <= n_head -> d mod n_head = 0 ->
  exists self g',
    Transformer.init (Z.of_nat vocab) (Z.of_nat n_layer) (Z.of_nat n_head)
                     (Z.of_nat d) (Z.of_nat d_ff) g = ok (self, g')
    /\ Transformer_shape vocab n_head d d_ff self = true
    /\ length (Transformer.decoders self) = n_layer.
Proof.
  intros Hh Hmod. unfold Transformer.init. rewrite Nat2Z.id.
  destruct (encoder_stack_ok n_layer n_head d d_ff g Hh Hmod)
    as [es [g1 [Hes [_ Hess]]]].
  rewrite Hes, bind_ok_l.
  destruct (decoder_stack_ok n_layer n_head d d_ff g1 Hh Hmod)
    as [ds [g2 [Hds [Hlen Hdss]]]].
  rewrite Hds, bind_ok_l.
  unfold Embedding.init. rewrite randn_ok, !bind_ok_l.
  eexists. eexists. split; [reflexivity |]. split; [| exact Hlen].
  unfold Transformer_shape. cbn.
  now rewrite Hess, Hdss, draw_matrix_is_matrix, !Z.eqb_refl.
Qed.

(** ** The whole model *)

(** the unit test of the notebook: batch 2, sequence length 3, the default
    model of 6 layers, 8 heads, d_model 512 and d_ff 2048, for any vocabulary
    (37000 tokens in the notebook) and whatever the initial weights *)
Lemma Transformer_notebook_unit_test (vocab : nat) (g : rng)
  (x y : list (list Z)) :
  1 <= vocab ->
  indices_shape 2 3 vocab x = true -> indices_shape 2 3 vocab y = true ->
  exists self g' out,
    Transformer.init (Z.of_nat vocab) 6 8 512 2048 g = ok (self, g')
    /\ Transformer.forward self x y = ok out
    /\ has_shape 1 [2] 3 vocab out = true
    /\ Forall (fun m => Forall (fun a => a = NaN) (hd [] m)) out.
Proof.
  intros Hv Hx Hy.
  destruct (Transformer_init_ok vocab 6 8 512 2048 g) as [self [g' [Hi [Hs Hl]]]];
    [lia | reflexivity |].
  assert (Hne : Transformer.decoders self <> []).
  { intros E. rewrite E in Hl. discriminate. }
  destruct (Transformer_forward_nan_rows vocab 8 512 2048 2 3 3 self x y
              Hv ltac:(lia) eq_refl ltac:(simpl; lia) eq_refl ltac:(lia)
              ltac:(lia) ltac:(lia) ltac:(lia) Hs Hne Hx Hy)
    as [out [Hout [Hshape [Hnan _]]]].
  exists self, g', out. repeat split; assumption.
Qed.

(** C2 (the code on every well-formed model with a decoder layer and heads
    of width two or more, as the constructor builds them):
    [Transformer.forward] returns a tensor of shape
    (batch, seq_len_tgt, vocabulary_size), but the row of the first target
    position of every batch element holds NaN only, so it is not a
    probability distribution.  The masked attention of the decoder
    multiplies its weighted values by minus infinity above the diagonal;
    the infinity reaches the layer normalisation through the output
    projection and the residual sum, and the normalisation turns the row
    into NaN, which every later layer and the final softmax keep. *)
Theorem Transformer_forward_first_row_nan
  (vocab n_head d d_ff b seq_src seq_tgt : nat) (self : Transformer.t)
  (x y : list (list Z)) :
  1 <= vocab -> 1 <= n_head -> d mod n_head = 0 -> 2 <= d / n_head ->
  Nat.even d = true -> 1 <= d_ff ->
  1 <= b -> 1 <= seq_src -> 1 <= seq_tgt ->
  Transformer_shape vocab n_head d d_ff self = true ->
  Transformer.decoders self <> [] ->
  indices_shape b seq_src vocab x = true ->
  indices_shape b seq_tgt vocab y = true ->
  (forall n_layer g, 1 <= n_layer ->
     exists t g',
       Transformer.init (Z.of_nat vocab) (Z.of_nat n_layer) (Z.of_nat n_head)
                        (Z.of_nat d) (Z.of_nat d_ff) g = ok (t, g')
       /\ Transformer_shape vocab n_head d d_ff t = true
       /\ Transformer.decoders t <> [])
  /\ exists out,
       Transformer.forward self x y = ok out
       /\ has_shape 1 [b] seq_tgt vocab out = true
       /\ Forall (fun m => Forall (fun a => a = NaN) (hd [] m)) out
       /\ Forall (fun m => ~ distribution (hd [] m)) out.
Proof.
  intros Hv Hh Hmod Hdk Hev Hff Hb Hsrc Htgt Hself Hne Hx Hy. split.
  - intros n_layer g Hl.
    destruct (Transformer_init_ok vocab n_layer n_head d d_ff g Hh Hmod)
      as [t [g' [Hi [Hs Hlen]]]].
    exists t, g'. split; [exact Hi |]. split; [exact Hs |].
    intros E. rewrite E in Hlen. simpl in Hlen. lia.
  - now apply (Transformer_forward_nan_rows vocab n_head d d_ff b seq_src seq_tgt).
Qed.

Lemma Transformer_forward_first_row_nan_witness :
  exists out,
    Transformer.forward demo_transformer [[0%Z]] [[1%Z]] = ok out
    /\ has_shape 1 [1] 1 2 out = true
    /\ Forall (fun m => Forall (fun a => a = NaN) (hd [] m)) out.
Proof.
  destruct (proj2 (Transformer_forward_first_row_nan 2 1 2 1 1 1 1
                     demo_transformer [[0%Z]] [[1%Z]]
                     (le_S 1 1 (le_n 1)) (le_n 1) eq_refl (le_n 2) eq_refl
                     (le_n 1) (le_n 1) (le_n 1) (le_n 1) eq_refl
                     ltac:(discriminate) eq_refl eq_refl))
    as [out [Hrun [Hshape [Hnan _]]]].
  exists out. repeat split; assumption.
Defined.

(** ** Token indices outside the vocabulary *)

Lemma mapM_raise {A B} (f : A -> result B) (e : exn) (l : list A) :
  (forall a x, In a l -> f a = raise x -> x = e) ->
  (exists a, In a l /\ f a = raise e) ->
  mapM f l = raise e.
Proof.
  induction l as [| a l IH]; intros Hall [a0 [Hin Ha0]]; [destruct Hin |].
  simpl. destruct (f a) as [x | b] eqn:Ea.
  - simpl. rewrite (Hall a x (or_introl eq_refl) Ea). reflexivity.
  - simpl. destruct Hin as [<- | Hin].
    + rewrite Ea in Ha0. discriminate.
    + rewrite IH; [reflexivity | |].
      * intros a1 x H1. apply Hall. now right.
      * now exists a0.
Qed.

Lemma lookup_in_vocab (self : Embedding.t) (i : Z) :
  Embedding.lookup self i
  = if in_vocab self i
    then ok (nth (Z.to_nat i) (Embedding.weight self) [])
    else raise IndexError.
Proof. reflexivity. Qed.

Lemma lookup_raise (self : Embedding.t) (i : Z) (x : exn) :
  Embedding.lookup self i = raise x -> x = IndexError.
Proof.
  rewrite lookup_in_vocab. destruct (in_vocab self i); intros H.
  - discriminate.
  - now inversion H.
Qed.

Lemma lookup_row_raise (self : Embedding.t) (row : list Z) (x : exn) :
  mapM (Embedding.lookup self) row = raise x -> x = IndexError.
Proof.
  induction row as [| i row IH]; simpl; intros H; [discriminate |].
  destruct (Embedding.lookup self i) as [e | v] eqn:Ei; simpl in H.
  - inversion H; subst. now apply (lookup_raise self i).
  - destruct (mapM (Embedding.lookup self) row) as [e | vs]; simpl in H.
    + inversion H; subst. now apply IH.
    + discriminate.
Qed.

Lemma Embedding_forward_out_of_range (self : Embedding.t) (idx : list (list Z)) :
  forallb (forallb (in_vocab self)) idx = false ->
  Embedding.forward self idx = raise IndexError.
Proof.
  intros H. unfold Embedding.forward. apply mapM_raise.
  - intros row x _. apply lookup_row_raise.
  - assert (Hex : exists row, In row idx /\ forallb (in_vocab self) row = false).
    { induction idx as [| r idx IH]; simpl in H; [discriminate |].
      destruct (forallb (in_vocab self) r) eqn:Er.
      - destruct (IH H) as [row [Hin Hrow]]. exists row. split; [now right | exact Hrow].
      - exists r. split; [now left | exact Er]. }
    destruct Hex as [row [Hin Hrow]]. exists row. split; [exact Hin |].
    apply mapM_raise.
    + intros i x _. apply lookup_raise.
    + clear Hin. induction row as [| i row IH]; simpl in Hrow; [discriminate |].
      destruct (in_vocab self i) eqn:Ei.
      * destruct (IH Hrow) as [a [Hin Ha]]. exists a. split; [now right | exact Ha].
      * exists i. split; [now left |]. rewrite lookup_in_vocab, Ei. reflexivity.
Qed.

Lemma Embedding_forward_in_range (self : Embedding.t) (idx : list (list Z)) :
  forallb (forallb (in_vocab self)) idx = true ->
  Embedding.forward self idx
  = ok (map (map (fun i => nth (Z.to_nat i) (Embedding.weight self) [])) idx).
Proof.
  intros H. unfold Embedding.forward. apply mapM_ok_in. intros row Hrow.
  apply mapM_ok_in. intros i Hi. rewrite lookup_in_vocab.
  rewrite forallb_forall in H. specialize (H row Hrow).
  rewrite forallb_forall in H. now rewrite (H i Hi).
Qed.

(** X1. [Embedding.forward] succeeds exactly when every index is in
    [0, num_embeddings): it then returns, for every index, that row of the
    weight matrix; a single index below zero or past the last row makes the
    whole call raise IndexError (negative indices do not count from the
    end). *)
Theorem Embedding_forward_index_range (self : Embedding.t) (idx : list (list Z)) :
  Embedding.forward self idx
  = if forallb (forallb (in_vocab self)) idx
    then ok (map (map (fun i => nth (Z.to_nat i) (Embedding.weight self) []))
                 idx)
    else raise IndexError.
Proof.
  destruct (forallb (forallb (in_vocab self)) idx) eqn:E.
  - now apply Embedding_forward_in_range.
  - now apply Embedding_forward_out_of_range.
Qed.

Lemma embed_out_of_range (self : Transformer.t) (x : list (list Z)) :
  forallb (forallb (in_vocab (Transformer.embedding self))) x = false ->
  Transformer.embed self x = raise IndexError.
Proof.
  intros H. unfold Transformer.embed.
  now rewrite (Embedding_forward_out_of_range _ _ H).
Qed.

(** X2. [Transformer.forward] looks the source tokens up first: a source
    index outside the vocabulary raises IndexError whatever the target and
    the weights are; on a well-formed model with a valid source, a target
    index outside the vocabulary raises IndexError as well. *)
Theorem Transformer_forward_index_error
  (vocab n_head d d_ff b seq_src : nat) (self : Transformer.t)
  (x y : list (list Z)) :
  (forallb (forallb (in_vocab (Transformer.embedding self))) x = false ->
   Transformer.forward self x y = raise IndexError)
  /\ (Transformer_shape vocab n_head d d_ff self = true ->
      Nat.even d = true -> 2 <= d -> 1 <= b -> 1 <= seq_src ->
      indices_shape b seq_src vocab x = true ->
      forallb (forallb (in_vocab (Transformer.embedding self))) y = false ->
      Transformer.forward self x y = raise IndexError).
Proof.
  split.
  - intros H. unfold Transformer.forward.
    now rewrite (embed_out_of_range _ _ H).
  - intros Hs Hev Hd Hb Hseq Hx Hy. unfold Transformer.forward.
    destruct (embed_shape self vocab n_head d d_ff b seq_src x Hs Hev Hd Hb Hseq Hx)
      as [x' [Ex _]].
    rewrite Ex, bind_ok_l. now rewrite (embed_out_of_range _ _ Hy).
Qed.

Lemma Transformer_forward_index_error_witness :
  Transformer.forward demo_transformer [[2%Z]] [[0%Z]] = raise IndexError
  /\ Transformer.forward demo_transformer [[0%Z]] [[(-1)%Z]] = raise IndexError.
Proof.
  split.
  - apply (proj1 (Transformer_forward_index_error 2 1 2 1 1 1 demo_transformer
                    [[2%Z]] [[0%Z]])).
    reflexivity.
  - apply (proj2 (Transformer_forward_index_error 2 1 2 1 1 1 demo_transformer
                    [[0%Z]] [[(-1)%Z]])); try reflexivity; lia.
Defined.

(** ** The look-ahead mask, entry by entry *)

Lemma nth_repeat_lt {A} (a d : A) (n i : nat) :
  i < n -> nth i (repeat a n) d = a.
Proof.
  intros H. rewrite (nth_indep _ d a) by now rewrite repeat_length.
  apply nth_repeat.
Qed.

Lemma look_ahead_mask_nth (rows cols i j : nat) :
  i < rows -> j < cols ->
  nth j (nth i (ScaledDotProductAttention.look_ahead_mask rows cols) []) FP.zero
  = if i + 1 <=? j then NInf else FP.one.
Proof.
  intros Hi Hj. unfold ScaledDotProductAttention.look_ahead_mask, fill_zeros, mmap, triu, full.
  rewrite (nth_map_in _ _ i [] []) by now rewrite mapi_length, repeat_length.
  rewrite (mapi_nth _ _ i [] []) by now rewrite repeat_length.
  rewrite (nth_repeat_lt _ _ _ _ Hi).
  rewrite (nth_map_in _ _ j FP.zero FP.zero) by now rewrite mapi_length, repeat_length.
  rewrite (mapi_nth _ _ j FP.zero FP.zero) by now rewrite repeat_length.
  rewrite (nth_repeat_lt _ _ _ _ Hj).
  destruct (i + 1 <=? j); [reflexivity |].
  now rewrite is_zero_zero.
Qed.

Lemma zip_rows_nth (f : fp -> fp -> fp) (rows cols i j : nat) (a b : list (list fp)) :
  is_matrix rows cols a = true -> is_matrix rows cols b = true ->
  i < rows -> j < cols ->
  nth j (nth i (zip_rows f a b) []) FP.zero
  = f (nth j (nth i a []) FP.zero) (nth j (nth i b []) FP.zero).
Proof.
  intros Ha Hb Hi Hj. unfold zip_rows.
  pose proof (is_matrix_length _ _ _ Ha) as La.
  pose proof (is_matrix_length _ _ _ Hb) as Lb.
  pose proof (is_matrix_nth_row _ _ _ i Ha Hi) as Ra.
  pose proof (is_matrix_nth_row _ _ _ i Hb Hi) as Rb.
  rewrite (nth_map_in _ _ i ([], []) []) by (rewrite length_combine; lia).
  rewrite combine_nth by lia. cbn [fst snd].
  rewrite (nth_map_in _ _ j (FP.zero, FP.zero) FP.zero) by (rewrite length_combine; lia).
  rewrite combine_nth by lia. reflexivity.
Qed.

Lemma mul_one_r (x : fp) : (x * FP.one)%fp = x.
Proof.
  destruct x as [r | | |]; simpl; try reflexivity.
  - f_equal. ring.
  - unfold FP.by_sign. now rewrite (Rcompare_gt 1 0) by lra.
  - unfold FP.by_sign. now rewrite (Rcompare_gt 1 0) by lra.
Qed.

Lemma ScaledDotProductAttention_forward_mask_after (n : nat) (Q K V : tensor n) :
  ScaledDotProductAttention.forward (ScaledDotProductAttention.init true) n Q K V
  = (out <- ScaledDotProductAttention.forward
              (ScaledDotProductAttention.init false) n Q K V ;;
     lift1M n ScaledDotProductAttention.apply_mask out).
Proof.
  unfold ScaledDotProductAttention.forward. cbn [ScaledDotProductAttention.mask
    ScaledDotProductAttention.init].
  rewrite bind_assoc. apply bind_ext. intros w.
  rewrite bind_assoc. apply bind_ext. intros wv.
  now rewrite bind_ok_l.
Qed.

(** X3. The masked attention is the unmasked attention followed by a
    product with the look-ahead mask over the weighted values, a matrix of
    shape (seq_q, d_v): the entry in row [i] and feature column [j] is kept
    when [j <= i] and multiplied by minus infinity, so never finite, when
    [j > i].  No attention weight is changed, and the result still has the
    shape (seq_q, d_v). *)
Theorem ScaledDotProductAttention_masked_entries
  (seq_q seq_k d_k d_v : nat) (Q K V : list (list fp)) :
  1 <= seq_q -> 1 <= seq_k -> 1 <= d_k ->
  is_matrix seq_q d_k Q = true -> is_matrix seq_k d_k K = true ->
  is_matrix seq_k d_v V = true ->
  exists out out',
    ScaledDotProductAttention.forward
      (ScaledDotProductAttention.init false) 0 Q K V = ok out
    /\ ScaledDotProductAttention.forward
         (ScaledDotProductAttention.init true) 0 Q K V = ok out'
    /\ is_matrix seq_q d_v out' = true
    /\ forall i j, i < seq_q -> j < d_v ->
         let a := nth j (nth i out []) FP.zero in
         let a' := nth j (nth i out' []) FP.zero in
         (j <= i -> a' = a)
         /\ (i < j -> a' = (a * NInf)%fp /\ FP.is_fin a' = false).
Proof.
  intros Hq Hk Hdk HQ HK HV.
  destruct (ScaledDotProductAttention_forward_shape
              (ScaledDotProductAttention.init false) 0 [] seq_q seq_k d_k d_v
              Q K V Hk Hdk) as [out [Hout Hshape]];
    try (split; [reflexivity | assumption]).
  destruct Hshape as [_ Hshape].
  exists out, (zip_rows FP.mul out
                 (ScaledDotProductAttention.look_ahead_mask seq_q d_v)).
  split; [exact Hout |].
  split.
  { rewrite ScaledDotProductAttention_forward_mask_after, Hout, bind_ok_l.
    cbn [lift1M]. now apply apply_mask_value. }
  split.
  { apply zip_rows_is_matrix; [exact Hshape | apply look_ahead_mask_is_matrix]. }
  intros i j Hi Hj. cbn zeta.
  rewrite (zip_rows_nth _ seq_q d_v i j _ _ Hshape
             (look_ahead_mask_is_matrix seq_q d_v) Hi Hj).
  rewrite (look_ahead_mask_nth _ _ _ _ Hi Hj).
  split.
  - intros Hle. destruct (i + 1 <=? j) eqn:E.
    + apply Nat.leb_le in E. lia.
    + apply mul_one_r.
  - intros Hlt. destruct (i + 1 <=? j) eqn:E.
    + split; [reflexivity | apply mul_NInf_nonfin].
    + apply Nat.leb_gt in E. lia.
Qed.

Lemma ScaledDotProductAttention_masked_entries_witness :
  exists out out',
    ScaledDotProductAttention.forward
      (ScaledDotProductAttention.init false) 0
      [[Fin 1]; [Fin 2]] [[Fin 1]; [Fin 0]] [[Fin 1; Fin 2]; [Fin 3; Fin 4]]
    = ok out
    /\ ScaledDotProductAttention.forward
         (ScaledDotProductAttention.init true) 0
         [[Fin 1]; [Fin 2]] [[Fin 1]; [Fin 0]] [[Fin 1; Fin 2]; [Fin 3; Fin 4]]
       = ok out'
    /\ nth 0 (nth 0 out' []) FP.zero = nth 0 (nth 0 out []) FP.zero
    /\ FP.is_fin (nth 1 (nth 0 out' []) FP.zero) = false.
Proof.
  destruct (ScaledDotProductAttention_masked_entries 2 2 1 2
              [[Fin 1]; [Fin 2]] [[Fin 1]; [Fin 0]]
              [[Fin 1; Fin 2]; [Fin 3; Fin 4]]
              (le_S 1 1 (le_n 1)) (le_S 1 1 (le_n 1)) (le_n 1)
              eq_refl eq_refl eq_refl)
    as [out [out' [H1 [H2 [_ H]]]]].
  exists out, out'. split; [exact H1 |]. split; [exact H2 |]. split.
  - exact (proj1 (H 0 0 (le_S 1 1 (le_n 1)) (le_S 1 1 (le_n 1))) (le_n 0)).
  - exact (proj2 (proj2 (H 0 1 (le_S 1 1 (le_n 1)) (le_n 2)) (le_n 1))).
Defined.

(** ** A single key, and operands that do not fit *)

Lemma softmax_row_singleton (a : R) : softmax_row [Fin a] = [FP.one].
Proof.
  pose proof (softmax_row_Fin a []) as H. cbn zeta in H.
  change (map Fin [a]) with [Fin a] in H. rewrite H. clear H.
  cbn [map fold_left]. unfold FP.one. do 2 f_equal.
  pose proof (exp_pos (a + - a)). field. lra.
Qed.

Lemma dot_one (x : fp) : dot [FP.one] [x] = x.
Proof.
  unfold dot, vsum. cbn [combine map fold_left fst snd].
  destruct x as [r | | |]; simpl; try reflexivity.
  - f_equal. ring.
  - unfold FP.by_sign. now rewrite (Rcompare_gt 1 0) by lra.
  - unfold FP.by_sign. now rewrite (Rcompare_gt 1 0) by lra.
Qed.

Lemma is_matrix_one_row (cols : nat) (m : list (list fp)) :
  is_matrix 1 cols m = true -> exists r, m = [r] /\ length r = cols.
Proof.
  intros H. destruct (hd_nonempty_matrix 1 cols m H (le_n 1)) as [r [m' [E Hr]]].
  subst m. pose proof (is_matrix_length _ _ _ H) as L. simpl in L.
  destruct m'; [| discriminate]. now exists r.
Qed.

Lemma transpose_one_row (v : list fp) :
  transpose [v] = map (fun x => [x]) v.
Proof.
  unfold transpose, ncols, column. cbn [hd].
  transitivity (map (fun x => [x])
                    (map (fun j => nth j v FP.zero) (seq 0 (length v)))).
  - rewrite map_map. reflexivity.
  - now rewrite map_nth_seq.
Qed.

Lemma mfin_Forall (m : list (list fp)) :
  mfin m = true <-> Forall (fun r => vfin r = true) m.
Proof. unfold mfin. rewrite forallb_forall, Forall_forall. reflexivity. Qed.

(** X4. In exact arithmetic (finite sums and products neither round nor
    overflow to an infinity, so the score of finite operands is finite):
    with a single key (the memory holds one position) every query gives
    that key the weight one, so the unmasked attention returns the single
    value row for every query, whatever the finite queries and the finite
    key are. *)
Theorem ScaledDotProductAttention_single_key
  (seq_q d_k : nat) (Q K : list (list fp)) (v : list fp) :
  1 <= d_k ->
  is_matrix seq_q d_k Q = true -> is_matrix 1 d_k K = true ->
  mfin Q = true -> mfin K = true ->
  ScaledDotProductAttention.weights 0 Q K = ok (map (fun _ => [FP.one]) Q)
  /\ ScaledDotProductAttention.forward
       (ScaledDotProductAttention.init false) 0 Q K [v]
     = ok (map (fun _ => v) Q).
Proof.
  intros Hdk HQ HK FQ FK.
  assert (HKt : is_matrix d_k 1 (transpose K) = true)
    by (apply transpose_is_matrix; [exact HK | lia]).
  assert (HKtt : is_matrix 1 d_k (transpose (transpose K)) = true)
    by (apply transpose_is_matrix; [exact HKt | exact Hdk]).
  destruct (is_matrix_one_row _ _ HKtt) as [k [Ek Lk]].
  assert (Fk : vfin k = true).
  { pose proof (transpose_fin _ (transpose_fin _ FK)) as F.
    rewrite Ek in F. simpl in F. now rewrite andb_true_r in F. }
  assert (Hw : ScaledDotProductAttention.weights 0 Q K
               = ok (map (fun _ => [FP.one]) Q)).
  { unfold ScaledDotProductAttention.weights. cbn [lift1 lift2].
    rewrite (matmul_value Q (transpose K) d_k);
      [| exact (is_matrix_rows seq_q d_k Q HQ)
       | exact (is_matrix_length d_k 1 _ HKt)].
    rewrite bind_ok_l. rewrite Ek. cbn [softmax tmap lift1 last_dim].
    unfold mmap. rewrite !map_map. f_equal.
    apply map_ext_in. intros row Hrow. cbn [map].
    assert (Frow : vfin row = true).
    { apply mfin_Forall in FQ. rewrite Forall_forall in FQ. now apply FQ. }
    pose proof (dot_fin row k Frow Fk) as Fd.
    assert (Hd : ncols K = d_k) by (apply (is_matrix_ncols 1); [exact HK | lia]).
    rewrite Hd.
    pose proof (scale_fin d_k (dot row k) Hdk Fd) as Fs.
    destruct (dot row k / FP.sqrt (FP.of_nat d_k))%fp as [a | | |];
      try discriminate.
    apply softmax_row_singleton. }
  split; [exact Hw |].
  unfold ScaledDotProductAttention.forward. rewrite Hw, bind_ok_l.
  cbn [lift2 ScaledDotProductAttention.mask ScaledDotProductAttention.init].
  rewrite (matmul_value _ [v] 1);
    [| rewrite Forall_forall; intros r Hr; apply in_map_iff in Hr;
       destruct Hr as [q [<- _]]; reflexivity
     | reflexivity].
  rewrite bind_ok_l. f_equal. rewrite map_map. apply map_ext. intros _.
  rewrite transpose_one_row, map_map.
  rewrite (map_ext _ (fun x => x)) by (intros x; apply dot_one).
  apply map_id.
Qed.

Lemma ScaledDotProductAttention_single_key_witness :
  ScaledDotProductAttention.forward (ScaledDotProductAttention.init false) 0
    [[Fin 1; Fin 2]; [Fin 3; Fin 4]] [[Fin 5; Fin 6]] [[Fin 7; PInf; Fin 9]]
  = ok [[Fin 7; PInf; Fin 9]; [Fin 7; PInf; Fin 9]].
Proof.
  exact (proj2 (ScaledDotProductAttention_single_key 2 2
                  [[Fin 1; Fin 2]; [Fin 3; Fin 4]] [[Fin 5; Fin 6]]
                  [Fin 7; PInf; Fin 9]
                  (le_S 1 1 (le_n 1)) eq_refl eq_refl eq_refl eq_refl)).
Defined.

Lemma matmul_width_mismatch (rows k k' : nat) (A B : list (list fp)) :
  is_matrix rows k A = true -> 1 <= rows -> length B = k' -> k <> k' ->
  matmul A B = raise RuntimeError.
Proof.
  intros HA Hr HB Hne. unfold matmul.
  destruct (hd_nonempty_matrix rows k A HA Hr) as [r [A' [E Lr]]]. subst A.
  cbn [forallb]. replace (length r =? length B) with false; [reflexivity |].
  symmetry. apply Nat.eqb_neq. lia.
Qed.

Lemma transpose_length (rows cols : nat) (m : list (list fp)) :
  is_matrix rows cols m = true -> 1 <= rows -> length (transpose m) = cols.
Proof.
  intros H Hr. unfold transpose. rewrite length_map, length_seq.
  now apply (is_matrix_ncols rows).
Qed.

Lemma weights_is_matrix (seq_q seq_k d_k : nat) (Q K : list (list fp)) :
  1 <= seq_k -> 1 <= d_k ->
  is_matrix seq_q d_k Q = true -> is_matrix seq_k d_k K = true ->
  exists w, ScaledDotProductAttention.weights 0 Q K = ok w
            /\ is_matrix seq_q seq_k w = true.
Proof.
  intros Hk Hdk HQ HK. unfold ScaledDotProductAttention.weights.
  cbn [lift1 lift2 softmax tmap].
  destruct (matmul_is_matrix seq_q d_k seq_k Q (transpose K) HQ
              (transpose_is_matrix _ _ _ HK Hk) Hdk) as [C [EC [HC _]]].
  rewrite EC, bind_ok_l. eexists. split; [reflexivity |].
  apply is_matrix_intro.
  - rewrite length_map. unfold mmap. rewrite length_map.
    now apply (is_matrix_length seq_q seq_k).
  - rewrite Forall_forall. intros r Hr. apply in_map_iff in Hr.
    destruct Hr as [r' [<- Hr']]. rewrite softmax_row_length.
    pose proof (is_matrix_rows _ _ _ (mmap_is_matrix
      (fun x => (x / FP.sqrt (FP.of_nat (last_dim 0 K)))%fp) _ _ _ HC)) as F.
    rewrite Forall_forall in F. now apply F.
Qed.

(** X5. The attention checks its operands only through [torch.matmul]:
    queries and keys of different widths raise RuntimeError at the product
    Q K^T, and a value matrix whose number of rows differs from the number
    of keys raises RuntimeError at the product of the weights with V; the
    mask flag does not matter, the error comes before the mask. *)
Theorem ScaledDotProductAttention_operand_mismatch
  (self : ScaledDotProductAttention.t)
  (seq_q seq_k seq_v d_q d_k d_v : nat) (Q K V : list (list fp)) :
  1 <= seq_q -> 1 <= seq_k ->
  is_matrix seq_q d_q Q = true -> is_matrix seq_k d_k K = true ->
  is_matrix seq_v d_v V = true ->
  (d_q <> d_k ->
   ScaledDotProductAttention.forward self 0 Q K V = raise RuntimeError)
  /\ (d_q = d_k -> 1 <= d_k -> seq_k <> seq_v ->
      ScaledDotProductAttention.forward self 0 Q K V = raise RuntimeError).
Proof.
  intros Hq Hk HQ HK HV. split.
  - intros Hne. unfold ScaledDotProductAttention.forward,
      ScaledDotProductAttention.weights. cbn [lift1 lift2].
    rewrite (matmul_width_mismatch seq_q d_q d_k Q (transpose K) HQ Hq
               (transpose_length _ _ _ HK Hk) Hne).
    reflexivity.
  - intros E Hdk Hne. subst d_q.
    destruct (weights_is_matrix seq_q seq_k d_k Q K Hk Hdk HQ HK)
      as [w [Ew Hw]].
    unfold ScaledDotProductAttention.forward. rewrite Ew, bind_ok_l.
    cbn [lift2].
    rewrite (matmul_width_mismatch seq_q seq_k seq_v w V Hw Hq
               (is_matrix_length _ _ _ HV) Hne).
    reflexivity.
Qed.

Lemma ScaledDotProductAttention_operand_mismatch_witness :
  ScaledDotProductAttention.forward (ScaledDotProductAttention.init false) 0
    [[Fin 1; Fin 2]] [[Fin 1]] [[Fin 1]] = raise RuntimeError
  /\ ScaledDotProductAttention.forward (ScaledDotProductAttention.init true) 0
       [[Fin 1]] [[Fin 1]] [[Fin 1]; [Fin 2]] = raise RuntimeError.
Proof.
  split.
  - apply (proj1 (ScaledDotProductAttention_operand_mismatch
                    (ScaledDotProductAttention.init false) 1 1 1 2 1 1
                    [[Fin 1; Fin 2]] [[Fin 1]] [[Fin 1]]
                    (le_n 1) (le_n 1) eq_refl eq_refl eq_refl)).
    discriminate.
  - apply (proj2 (ScaledDotProductAttention_operand_mismatch
                    (ScaledDotProductAttention.init true) 1 1 2 1 1 1
                    [[Fin 1]] [[Fin 1]] [[Fin 1]; [Fin 2]]
                    (le_n 1) (le_n 1) eq_refl eq_refl eq_refl));
      [reflexivity | apply le_n | discriminate].
Defined.

(** ** Finite inputs give finite attention *)

Lemma vfin_Fin (rs : list R) : vfin (map Fin rs) = true.
Proof. induction rs as [| r rs IH]; [reflexivity | exact IH]. Qed.

Lemma softmax_row_fin (v : list fp) :
  vfin v = true -> vfin (softmax_row v) = true.
Proof.
  intros Hv. destruct (vfin_map_Fin v Hv) as [rs ->].
  destruct rs as [| r rs]; [reflexivity |].
  rewrite softmax_row_Fin. apply vfin_Fin.
Qed.

Lemma softmax_rows_fin (m : list (list fp)) :
  mfin m = true -> mfin (map softmax_row m) = true.
Proof.
  intros H. apply mfin_Forall. apply mfin_Forall in H.
  rewrite Forall_forall in *. intros r Hr. apply in_map_iff in Hr.
  destruct Hr as [row [<- Hrow]]. apply softmax_row_fin. now apply H.
Qed.

Lemma softmax_rows_is_matrix (rows cols : nat) (m : list (list fp)) :
  is_matrix rows cols m = true ->
  is_matrix rows cols (map softmax_row m) = true.
Proof.
  intros Hm. pose proof (is_matrix_rows _ _ _ Hm) as Hrows.
  rewrite Forall_forall in Hrows. apply is_matrix_intro.
  - rewrite length_map. apply (is_matrix_length _ _ _ Hm).
  - apply Forall_forall. intros r Hr. apply in_map_iff in Hr.
    destruct Hr as [row [<- Hrow]]. rewrite softmax_row_length. auto.
Qed.

Lemma attention_weights_fin
  (n : nat) (dims : list nat) (seq_q seq_k d_k : nat) (Q K : tensor n) :
  Forall (fun d => 1 <= d) dims -> 1 <= seq_k -> 1 <= d_k ->
  tall n (fun m => is_matrix seq_q d_k m = true /\ mfin m = true) dims Q ->
  tall n (fun m => is_matrix seq_k d_k m = true /\ mfin m = true) dims K ->
  exists weights,
    ScaledDotProductAttention.weights n Q K = ok weights
    /\ tall n (fun m => is_matrix seq_q seq_k m = true /\ mfin m = true)
            dims weights.
Proof.
  intros Hdims Hk Hd HQ HK. unfold ScaledDotProductAttention.weights.
  assert (HKt : tall n (fun m => is_matrix d_k seq_k m = true /\ mfin m = true)
                     dims (lift1 n transpose K)).
  { eapply lift1_tall; [| exact HK]. intros m [Hm Hf]. split.
    - now apply transpose_is_matrix.
    - now apply transpose_fin. }
  destruct (lift2_tall n matmul
              (fun m => is_matrix seq_q d_k m = true /\ mfin m = true)
              (fun m => is_matrix d_k seq_k m = true /\ mfin m = true)
              (fun m => is_matrix seq_q seq_k m = true /\ mfin m = true)
              dims Q (lift1 n transpose K)) as [dp [Hdp Hshape]];
    [| exact HQ | exact HKt |].
  { intros a b [Ha Hfa] [Hb Hfb].
    destruct (matmul_is_matrix seq_q d_k seq_k a b Ha Hb Hd)
      as [c [Hc [Hs Hf]]].
    exists c. auto. }
  rewrite Hdp, bind_ok_l.
  rewrite (last_dim_tall n dims seq_k d_k K);
    [| eapply tall_impl; [| exact HK]; now intros m [Hm _] | exact Hdims
     | exact Hk].
  eexists. split; [reflexivity |].
  unfold softmax, tmap.
  apply (lift1_tall n (map softmax_row)
           (fun m => is_matrix seq_q seq_k m = true /\ mfin m = true));
    [| apply (lift1_tall n _
                (fun m => is_matrix seq_q seq_k m = true /\ mfin m = true));
       [| exact Hshape]].
  - intros m [Hm Hf]. split;
      [now apply softmax_rows_is_matrix | now apply softmax_rows_fin].
  - intros m [Hm Hf]. split.
    + now apply mmap_is_matrix.
    + apply mmap_fin; [| exact Hf]. intros x. now apply scale_fin.
Qed.

Lemma ScaledDotProductAttention_forward_fin
  (n : nat) (dims : list nat) (seq_q seq_k d_k d_v : nat) (Q K V : tensor n) :
  Forall (fun d => 1 <= d) dims -> 1 <= seq_k -> 1 <= d_k ->
  tall n (fun m => is_matrix seq_q d_k m = true /\ mfin m = true) dims Q ->
  tall n (fun m => is_matrix seq_k d_k m = true /\ mfin m = true) dims K ->
  tall n (fun m => is_matrix seq_k d_v m = true /\ mfin m = true) dims V ->
  exists out,
    ScaledDotProductAttention.forward
      (ScaledDotProductAttention.init false) n Q K V = ok out
    /\ tall n (fun m => is_matrix seq_q d_v m = true /\ mfin m = true) dims out.
Proof.
  intros Hdims Hk Hd HQ HK HV.
  destruct (attention_weights_fin n dims seq_q seq_k d_k Q K Hdims Hk Hd HQ HK)
    as [w [Hw Hws]].
  destruct (lift2_tall n matmul
              (fun m => is_matrix seq_q seq_k m = true /\ mfin m = true)
              (fun m => is_matrix seq_k d_v m = true /\ mfin m = true)
              (fun m => is_matrix seq_q d_v m = true /\ mfin m = true)
              dims w V) as [out [Hout Hso]]; [| exact Hws | exact HV |].
  { intros a b [Ha Hfa] [Hb Hfb].
    destruct (matmul_is_matrix seq_q seq_k d_v a b Ha Hb Hk)
      as [c [Hc [Hs Hf]]].
    exists c. auto. }
  exists out. split; [| exact Hso].
  unfold ScaledDotProductAttention.forward. rewrite Hw, bind_ok_l, Hout.
  reflexivity.
Qed.

Lemma matmul_w_fin (b n k m : nat) (X : list (list (list fp)))
  (W : list (list fp)) :
  tall 1 (fun x => is_matrix n k x = true /\ mfin x = true) [b] X ->
  is_matrix k m W = true -> mfin W = true -> 1 <= k ->
  exists Y, matmul_w X W = ok Y
            /\ tall 1 (fun y => is_matrix n m y = true /\ mfin y = true) [b] Y.
Proof.
  intros HX HW FW Hk. apply tall1_elim in HX. destruct HX as [Hl HX].
  rewrite matmul_w_eq.
  destruct (mapM_exists (fun x => matmul x W)
              (fun y => is_matrix n m y = true /\ mfin y = true) X)
    as [Y [HY [Hlen HF]]].
  - rewrite Forall_forall in HX. intros a Ha. destruct (HX a Ha) as [Hs Hf].
    destruct (matmul_is_matrix n k m a W Hs HW Hk) as [c [Hc [Hcs Hcf]]].
    exists c. auto.
  - exists Y. split; [exact HY |]. apply tall1_intro; [lia | exact HF].
Qed.

(** ** Layer normalisation of finite rows *)

Lemma fold_Rplus_nonneg_le (rs : list R) :
  Forall (fun r => (0 <= r)%R) rs -> (0 <= fold_left Rplus rs 0)%R.
Proof.
  induction 1 as [| r rs Hr _ IH]; simpl; [lra |].
  rewrite fold_Rplus_shift. lra.
Qed.

Lemma fold_Rplus_centered (rs : list R) (mu : R) :
  fold_left Rplus (map (fun r => r + - mu)%R rs) 0%R
  = (fold_left Rplus rs 0 - INR (length rs) * mu)%R.
Proof.
  induction rs as [| r rs IH]; [simpl; lra |].
  cbn [map fold_left]. rewrite fold_Rplus_shift, IH.
  rewrite (fold_Rplus_shift rs (0 + r)).
  change (length (r :: rs)) with (S (length rs)). rewrite S_INR. lra.
Qed.

Lemma mean_Fin (rs : list R) :
  rs <> [] ->
  LayerNorm.mean (map Fin rs)
  = Fin (fold_left Rplus rs 0%R / INR (length rs)).
Proof.
  intros Hne. unfold LayerNorm.mean. rewrite vsum_Fin, length_map.
  unfold FP.of_nat, FP.div. rewrite Rcompare_gt; [reflexivity |].
  apply lt_0_INR. destruct rs; [contradiction | simpl; lia].
Qed.

(** the mean, the biased variance and the deviation that the layer computes
    on a row of real numbers *)
Lemma layer_norm_value_Fin (self : LayerNorm.t) (rs : list R) :
  rs <> [] -> (0 < LayerNorm.eps self)%R ->
  let mu := (fold_left Rplus rs 0 / INR (length rs))%R in
  let var := (fold_left Rplus (map (fun r => (r + - mu) * (r + - mu))%R rs) 0
              / INR (length rs))%R in
  let sd := sqrt (var + LayerNorm.eps self) in
  (0 < sd)%R
  /\ layer_norm_value self (map Fin rs)
     = map (fun p => (fst p + snd p)%fp)
           (combine (map (fun p => (fst p * snd p)%fp)
                         (combine (map (fun r => Fin ((r + - mu) / sd)) rs)
                                  (LayerNorm.weight self)))
                    (LayerNorm.bias self)).
Proof.
  intros Hne Heps mu var sd.
  assert (Hn : (0 < INR (length rs))%R).
  { apply lt_0_INR. destruct rs; [contradiction | simpl; lia]. }
  assert (Hvar : (0 <= var)%R).
  { unfold var. apply Rmult_le_pos; [| left; now apply Rinv_0_lt_compat].
    apply fold_Rplus_nonneg_le. rewrite Forall_forall. intros r Hr.
    apply in_map_iff in Hr. destruct Hr as [q [<- _]].
    exact (Rle_0_sqr (q + - mu)). }
  assert (Hsd : (0 < sd)%R) by (apply sqrt_lt_R0; lra).
  split; [exact Hsd |].
  unfold layer_norm_value. rewrite (mean_Fin rs Hne). fold mu.
  assert (Esq : map (fun x => ((x - Fin mu) * (x - Fin mu))%fp) (map Fin rs)
                = map Fin (map (fun r => (r + - mu) * (r + - mu))%R rs)).
  { rewrite !map_map. apply map_ext. intros r. reflexivity. }
  rewrite Esq, mean_Fin by (destruct rs; [contradiction | discriminate]).
  rewrite length_map. fold var.
  assert (Esd : FP.sqrt (Fin var + Fin (LayerNorm.eps self))%fp = Fin sd).
  { cbn [FP.add FP.sqrt]. rewrite Rcompare_gt by lra. reflexivity. }
  rewrite Esd. do 3 f_equal.
  rewrite map_map. f_equal. apply map_ext. intros r.
  cbn [FP.sub FP.neg FP.add FP.div]. now rewrite Rcompare_gt by exact Hsd.
Qed.

Lemma vfin_zip (f : fp -> fp -> fp) (a b : list fp) :
  (forall x y, FP.is_fin x = true -> FP.is_fin y = true ->
               FP.is_fin (f x y) = true) ->
  vfin a = true -> vfin b = true ->
  vfin (map (fun p => f (fst p) (snd p)) (combine a b)) = true.
Proof.
  intros Hf Ha Hb. unfold vfin in *. rewrite forallb_forall in *.
  intros z Hz. apply in_map_iff in Hz. destruct Hz as [[x y] [<- Hp]].
  apply Hf; [apply Ha; now apply in_combine_l in Hp
            | apply Hb; now apply in_combine_r in Hp].
Qed.

Lemma add_fin (x y : fp) :
  FP.is_fin x = true -> FP.is_fin y = true -> FP.is_fin (x + y)%fp = true.
Proof. destruct x, y; simpl; intros; try discriminate; reflexivity. Qed.

Lemma mul_fin (x y : fp) :
  FP.is_fin x = true -> FP.is_fin y = true -> FP.is_fin (x * y)%fp = true.
Proof. destruct x, y; simpl; intros; try discriminate; reflexivity. Qed.

Lemma layer_norm_value_fin (self : LayerNorm.t) (v : list fp) :
  LayerNorm_fin self -> v <> [] -> vfin v = true ->
  vfin (layer_norm_value self v) = true.
Proof.
  intros [Fw [Fb Heps]] Hne Hv. destruct (vfin_map_Fin v Hv) as [rs ->].
  assert (Hrs : rs <> []) by (intros ->; now apply Hne).
  destruct (layer_norm_value_Fin self rs Hrs Heps) as [_ E]. rewrite E.
  apply (vfin_zip FP.add); [exact add_fin | | exact Fb].
  apply (vfin_zip FP.mul); [exact mul_fin | | exact Fw].
  rewrite <- map_map. apply vfin_Fin.
Qed.

Lemma map_combine_repeat_r {A B C} (f : A -> B -> C) (l : list A) (b : B) :
  map (fun p => f (fst p) (snd p)) (combine l (repeat b (length l)))
  = map (fun a => f a b) l.
Proof.
  induction l as [| a l IH]; [reflexivity |]. simpl. now rewrite IH.
Qed.

(** X6. [nn.LayerNorm(d)] as the constructor leaves it (scale one, shift
    zero, eps 1e-5) maps every finite tensor of width [d] to a finite tensor
    of the same shape in which every feature row sums to zero: the positive
    [eps] keeps the division defined even for a constant row. *)
Theorem LayerNorm_forward_centred
  (d b n : nat) (x : list (list (list fp))) :
  1 <= d ->
  has_shape 1 [b] n d x = true -> all_fin 1 x = true ->
  exists ln y,
    LayerNorm.init (Z.of_nat d) = ok ln
    /\ LayerNorm.forward ln x = ok y
    /\ has_shape 1 [b] n d y = true
    /\ all_fin 1 y = true
    /\ Forall (Forall (fun row => vsum row = FP.zero)) y.
Proof.
  intros Hd Hx Fx.
  destruct (LayerNorm_init_ok d) as [ln [Hinit Hln]].
  assert (Hparams : LayerNorm.weight ln = repeat FP.one d
                    /\ LayerNorm.bias ln = repeat FP.zero d
                    /\ LayerNorm.eps ln = (1 / 100000)%R).
  { unfold LayerNorm.init in Hinit.
    destruct (Z.of_nat d <? 0)%Z; [discriminate |].
    injection Hinit as <-. cbn. now rewrite Nat2Z.id. }
  destruct Hparams as [Ew [Eb Ee]].
  assert (Hrow : forall v, length v = d -> vfin v = true ->
            vfin (layer_norm_value ln v) = true
            /\ vsum (layer_norm_value ln v) = FP.zero).
  { intros v Lv Fv. destruct (vfin_map_Fin v Fv) as [rs ->].
    rewrite length_map in Lv.
    assert (Hrs : rs <> []) by (intros ->; simpl in Lv; lia).
    destruct (layer_norm_value_Fin ln rs Hrs) as [Hsd E]; [rewrite Ee; lra |].
    rewrite E, Ew, Eb. clear E.
    set (mu := (fold_left Rplus rs 0 / INR (length rs))%R) in *.
    set (sd := sqrt _) in *.
    replace d with (length (map (fun r => Fin ((r + - mu) / sd)) rs))
      by now rewrite length_map.
    rewrite (map_combine_repeat_r FP.mul).
    rewrite (map_ext _ (fun a => a)) by (intros a; apply mul_one_r).
    rewrite map_id.
    rewrite (map_combine_repeat_r FP.add).
    rewrite (map_ext _ (fun a => a)) by (intros a; apply fp_add_zero_r).
    rewrite map_id.
    rewrite <- (map_map (fun r => ((r + - mu) / sd)%R) Fin).
    split; [apply vfin_Fin |].
    rewrite vsum_Fin. unfold FP.zero. f_equal.
    rewrite <- (map_map (fun r => (r + - mu)%R) (fun r => (r / sd)%R)).
    rewrite fold_Rplus_scale, fold_Rplus_centered. unfold mu.
    assert (Hn : (0 < INR (length rs))%R).
    { apply lt_0_INR. destruct rs; [contradiction | simpl; lia]. }
    field. split; lra. }
  apply has_shape_tall in Hx.
  pose proof (tall_and 1 _ _ [b] x Hx (all_fin_tall 1 _ [b] x Hx Fx)) as Hxf.
  destruct (lift1M_tall 1 (mapM (LayerNorm.forward_row ln))
              (fun m => is_matrix n d m = true /\ mfin m = true)
              (fun m => is_matrix n d m = true
                        /\ (mfin m = true
                            /\ Forall (fun row => vsum row = FP.zero) m))
              [b] x) as [y [Hy Hys]]; [| exact Hxf |].
  { intros m [Hm Fm].
    destruct (LayerNorm_rows ln n d m Hln Hm) as [y [Hy [Hys _]]].
    exists y. split; [exact Hy |]. split; [exact Hys |].
    assert (Ey : y = map (layer_norm_value ln) m).
    { assert (E : mapM (LayerNorm.forward_row ln) m
                  = ok (map (layer_norm_value ln) m)).
      { apply mapM_ok_in. intros v Hv. apply (forward_row_value ln d); auto.
        pose proof (is_matrix_rows _ _ _ Hm) as R. rewrite Forall_forall in R.
        now apply R. }
      rewrite E in Hy. now injection Hy. }
    subst y. pose proof (is_matrix_rows _ _ _ Hm) as R.
    rewrite Forall_forall in R. apply mfin_Forall in Fm.
    rewrite Forall_forall in Fm. split.
    - apply mfin_Forall. rewrite Forall_forall. intros r Hr.
      apply in_map_iff in Hr. destruct Hr as [v [<- Hv]].
      now apply Hrow; [apply R | apply Fm].
    - rewrite Forall_forall. intros r Hr.
      apply in_map_iff in Hr. destruct Hr as [v [<- Hv]].
      now apply Hrow; [apply R | apply Fm]. }
  exists ln, y. split; [exact Hinit |]. split; [exact Hy |].
  apply tall1_elim in Hys. destruct Hys as [Ly Fy]. split; [| split].
  - apply has_shape_tall. apply tall1_intro; [exact Ly |].
    eapply Forall_impl; [| exact Fy]. now intros m [Hm _].
  - cbn [all_fin]. apply forallb_forall. intros m Hm.
    rewrite Forall_forall in Fy. now destruct (Fy m Hm) as [_ [F _]].
  - eapply Forall_impl; [| exact Fy]. now intros m [_ [_ F]].
Qed.

Lemma LayerNorm_forward_centred_witness :
  exists ln y,
    LayerNorm.init 2 = ok ln
    /\ LayerNorm.forward ln [[[Fin 1; Fin 3]; [Fin 5; Fin 5]]] = ok y
    /\ has_shape 1 [1] 2 2 y = true
    /\ all_fin 1 y = true
    /\ Forall (Forall (fun row => vsum row = FP.zero)) y.
Proof.
  exact (LayerNorm_forward_centred 2 1 2 [[[Fin 1; Fin 3]; [Fin 5; Fin 5]]]
           (le_S 1 1 (le_n 1)) eq_refl eq_refl).
Defined.

(** ** The feed-forward network, row by row *)

Lemma transpose_involutive (rows cols : nat) (m : list (list fp)) :
  is_matrix rows cols m = true -> 1 <= rows -> 1 <= cols ->
  transpose (transpose m) = m.
Proof.
  intros Hm Hr Hc.
  pose proof (transpose_is_matrix rows cols m Hm Hr) as Ht.
  unfold transpose at 1.
  rewrite (is_matrix_ncols cols rows (transpose m) Ht Hc).
  rewrite <- (map_nth_seq m []) at 2.
  rewrite (is_matrix_length _ _ _ Hm).
  apply map_ext_in. intros v Hv. apply in_seq in Hv.
  apply (column_transpose rows cols); [exact Hm | lia].
Qed.

Lemma Linear_shape_elim (d_in d_out : nat) (l : Linear.t) :
  Linear_shape d_in d_out l = true ->
  is_matrix d_out d_in (Linear.weight l) = true
  /\ length (Linear.bias l) = d_out.
Proof.
  unfold Linear_shape. intros H. apply andb_prop in H. destruct H as [HW Hb].
  apply Nat.eqb_eq in Hb. auto.
Qed.

Lemma Linear_row_length (d_in d_out : nat) (l : Linear.t) (row : list fp) :
  Linear_shape d_in d_out l = true -> length (Linear_row l row) = d_out.
Proof.
  intros H. destruct (Linear_shape_elim _ _ _ H) as [HW Hb].
  unfold Linear_row.
  rewrite length_map, length_combine, length_map, Hb,
    (is_matrix_length _ _ _ HW). lia.
Qed.

Lemma Linear_forward_rows (l : Linear.t) (d_in d_out : nat)
  (x : list (list (list fp))) :
  Linear_shape d_in d_out l = true -> 1 <= d_in -> 1 <= d_out ->
  Forall (Forall (fun row => length row = d_in)) x ->
  Linear.forward l x = ok (map (map (Linear_row l)) x).
Proof.
  intros Hl Hin Hout Hx. destruct (Linear_shape_elim _ _ _ Hl) as [HW Hb].
  rewrite Forall_forall in Hx.
  unfold Linear.forward. rewrite matmul_w_eq.
  rewrite (mapM_ok_in _ (map (fun row => map (dot row) (Linear.weight l)))).
  - rewrite bind_ok_l. cbn [lift1M]. rewrite mapM_map.
    apply mapM_ok_in. intros m Hm. rewrite mapM_map.
    apply mapM_ok_in. intros row Hrow.
    apply (zipM_pure FP.add).
    now rewrite length_map, Hb, (is_matrix_length _ _ _ HW).
  - intros m Hm.
    rewrite (matmul_value m (transpose (Linear.weight l)) d_in);
      [| exact (Hx m Hm) | exact (transpose_length _ _ _ HW Hout)].
    now rewrite (transpose_involutive d_out d_in).
Qed.

Lemma has_shape_rows (b n d : nat) (x : list (list (list fp))) :
  has_shape 1 [b] n d x = true ->
  Forall (Forall (fun row => length row = d)) x.
Proof.
  intros H. apply has_shape_tall in H. apply tall1_elim in H.
  destruct H as [_ H]. eapply Forall_impl; [| exact H].
  intros m Hm. exact (is_matrix_rows _ _ _ Hm).
Qed.

Lemma map_rows_shape (g : list fp -> list fp) (b n d d' : nat)
  (x : list (list (list fp))) :
  (forall row, length (g row) = d') ->
  has_shape 1 [b] n d x = true ->
  has_shape 1 [b] n d' (map (map g) x) = true.
Proof.
  intros Hg H. apply has_shape_tall in H. apply tall1_elim in H.
  destruct H as [L H]. apply has_shape_tall. apply tall1_intro.
  - now rewrite length_map.
  - rewrite Forall_forall in *. intros m Hm. apply in_map_iff in Hm.
    destruct Hm as [m0 [<- Hm0]]. apply is_matrix_intro.
    + rewrite length_map. exact (is_matrix_length _ _ _ (H m0 Hm0)).
    + rewrite Forall_forall. intros r Hr. apply in_map_iff in Hr.
      destruct Hr as [r0 [<- _]]. apply Hg.
Qed.

Lemma FeedForwardNetwork_forward_rows
  (f : FeedForwardNetwork.t) (d d_ff b n : nat) (x : list (list (list fp))) :
  FeedForwardNetwork_shape d d_ff f = true -> 1 <= d -> 1 <= d_ff ->
  has_shape 1 [b] n d x = true ->
  FeedForwardNetwork.forward f x = ok (map (map (FeedForwardNetwork_row f)) x)
  /\ has_shape 1 [b] n d (map (map (FeedForwardNetwork_row f)) x) = true.
Proof.
  intros Hf Hd Hff Hx. unfold FeedForwardNetwork_shape in Hf.
  apply andb_prop in Hf. destruct Hf as [H1 H2]. split.
  - unfold FeedForwardNetwork.forward.
    rewrite (Linear_forward_rows _ d d_ff x H1 Hd Hff (has_shape_rows _ _ _ _ Hx)).
    rewrite bind_ok_l. cbv zeta.
    rewrite (Linear_forward_rows _ d_ff d _ H2 Hff Hd).
    + f_equal. unfold ReLU, tmap, mmap. cbn [lift1]. rewrite !map_map.
      apply map_ext. intros m. rewrite !map_map. reflexivity.
    + apply (has_shape_rows b n). apply ReLU_shape.
      apply (map_rows_shape _ b n d d_ff); [| exact Hx].
      intros row. now apply (Linear_row_length d d_ff).
  - apply (map_rows_shape _ b n d d); [| exact Hx].
    intros row. now apply (Linear_row_length d_ff d).
Qed.

(** X7. The feed-forward network is position-wise: on an input of shape
    (batch, seq, d_model) it returns, at every position of every batch
    element, [max(0, row W1^T + b1) W2^T + b2] of the input row at that
    position alone, so the shape (batch, seq, d_model) is kept and no
    position or batch element influences another. *)
Theorem FeedForwardNetwork_forward_position_wise
  (f : FeedForwardNetwork.t) (d d_ff b n : nat) (x : list (list (list fp))) :
  FeedForwardNetwork_shape d d_ff f = true -> 1 <= d -> 1 <= d_ff ->
  has_shape 1 [b] n d x = true ->
  FeedForwardNetwork.forward f x = ok (map (map (FeedForwardNetwork_row f)) x)
  /\ has_shape 1 [b] n d (map (map (FeedForwardNetwork_row f)) x) = true.
Proof. exact (FeedForwardNetwork_forward_rows f d d_ff b n x). Qed.

Lemma FeedForwardNetwork_forward_position_wise_witness :
  let x := [[[Fin 3; Fin 1]; [Fin 1; Fin 3]]] in
  FeedForwardNetwork.forward tiny_feed_forward x
  = ok (map (map (FeedForwardNetwork_row tiny_feed_forward)) x).
Proof.
  exact (proj1 (FeedForwardNetwork_forward_position_wise tiny_feed_forward
                  2 1 1 2 [[[Fin 3; Fin 1]; [Fin 1; Fin 3]]]
                  eq_refl (le_S 1 1 (le_n 1)) (le_n 1) eq_refl)).
Defined.

(** ** Finite inputs through the attention layers *)

Lemma matrix_ext (rows cols : nat) (a b : list (list fp)) :
  is_matrix rows cols a = true -> is_matrix rows cols b = true ->
  (forall i j, i < rows -> j < cols ->
     nth j (nth i a []) FP.zero = nth j (nth i b []) FP.zero) ->
  a = b.
Proof.
  intros Ha Hb H.
  pose proof (is_matrix_length _ _ _ Ha) as La.
  pose proof (is_matrix_length _ _ _ Hb) as Lb.
  apply (nth_ext a b [] []); [lia |].
  intros i Hi. rewrite La in Hi.
  apply (nth_ext _ _ FP.zero FP.zero).
  - rewrite (is_matrix_nth_row _ _ _ i Ha Hi).
    now rewrite (is_matrix_nth_row _ _ _ i Hb Hi).
  - intros j Hj. rewrite (is_matrix_nth_row _ _ _ i Ha Hi) in Hj. now apply H.
Qed.

Lemma apply_mask_one_column (rows : nat) (w : list (list fp)) :
  is_matrix rows 1 w = true -> 1 <= rows ->
  ScaledDotProductAttention.apply_mask w = ok w.
Proof.
  intros Hw Hr. rewrite (apply_mask_value rows 1 w Hw Hr). f_equal.
  apply (matrix_ext rows 1); [| exact Hw |].
  - apply zip_rows_is_matrix; [exact Hw | apply look_ahead_mask_is_matrix].
  - intros i j Hi Hj.
    rewrite (zip_rows_nth _ rows 1 i j _ _ Hw
               (look_ahead_mask_is_matrix rows 1) Hi Hj).
    rewrite (look_ahead_mask_nth _ _ _ _ Hi Hj).
    replace (i + 1 <=? j) with false by (symmetry; apply Nat.leb_gt; lia).
    apply mul_one_r.
Qed.

Lemma ScaledDotProductAttention_forward_any_fin
  (self : ScaledDotProductAttention.t)
  (n : nat) (dims : list nat) (seq_q seq_k d_k d_v : nat) (Q K V : tensor n) :
  ScaledDotProductAttention.mask self = false \/ d_v = 1 ->
  Forall (fun d => 1 <= d) dims -> 1 <= seq_q -> 1 <= seq_k -> 1 <= d_k ->
  tall n (fun m => is_matrix seq_q d_k m = true /\ mfin m = true) dims Q ->
  tall n (fun m => is_matrix seq_k d_k m = true /\ mfin m = true) dims K ->
  tall n (fun m => is_matrix seq_k d_v m = true /\ mfin m = true) dims V ->
  exists out,
    ScaledDotProductAttention.forward self n Q K V = ok out
    /\ tall n (fun m => is_matrix seq_q d_v m = true /\ mfin m = true) dims out.
Proof.
  intros Hmask Hdims Hq Hk Hd HQ HK HV.
  destruct (ScaledDotProductAttention_forward_fin n dims seq_q seq_k d_k d_v
              Q K V Hdims Hk Hd HQ HK HV) as [out [Hout Hos]].
  destruct self as [[|]].
  - destruct Hmask as [Hmask | ->]; [discriminate |].
    change {| ScaledDotProductAttention.mask := true |}
      with (ScaledDotProductAttention.init true).
    rewrite ScaledDotProductAttention_forward_mask_after, Hout, bind_ok_l.
    apply (lift1M_tall n _
             (fun m => is_matrix seq_q 1 m = true /\ mfin m = true));
      [| exact Hos].
    intros m [Hm Fm]. exists m. split; [| auto].
    now apply (apply_mask_one_column seq_q).
  - exists out. split; [exact Hout | exact Hos].
Qed.

Lemma Attention_forward_fin
  (self : Attention.t) (b n m d_model d_key : nat)
  (inputs : list (list (list fp)))
  (encoder_output : option (list (list (list fp)))) :
  Attention_shape d_model d_key self = true -> Attention_fin self = true ->
  ScaledDotProductAttention.mask (Attention.scaled_dot_product self) = false
  \/ d_key = 1 ->
  1 <= b -> 1 <= d_model -> 1 <= d_key -> 1 <= n -> 1 <= m ->
  tall 1 (fun a => is_matrix n d_model a = true /\ mfin a = true) [b] inputs ->
  tall 1 (fun a => is_matrix m d_model a = true /\ mfin a = true) [b]
    (match encoder_output with None => inputs | Some e => e end) ->
  exists out,
    Attention.forward self inputs encoder_output = ok out
    /\ tall 1 (fun a => is_matrix n d_key a = true /\ mfin a = true) [b] out.
Proof.
  intros Hs Hf Hmask Hb Hdm Hdk Hn Hm Hin HX. unfold Attention_shape in Hs.
  apply andb_prop in Hs. destruct Hs as [Hs HWV].
  apply andb_prop in Hs. destruct Hs as [HWK HWQ].
  unfold Attention_fin in Hf.
  apply andb_prop in Hf. destruct Hf as [Hf FWV].
  apply andb_prop in Hf. destruct Hf as [FWK FWQ].
  unfold Attention.forward.
  destruct encoder_output as [e |]; cbv zeta.
  all: cbv beta iota in HX |- *.
  all:
    destruct (matmul_w_fin b m d_model d_key _ _ HX HWK FWK Hdm) as [K [HK HKs]];
    destruct (matmul_w_fin b m d_model d_key _ _ HX HWV FWV Hdm) as [V [HV HVs]];
    destruct (matmul_w_fin b n d_model d_key _ _ Hin HWQ FWQ Hdm) as [Q [HQ HQs]];
    rewrite HK, bind_ok_l, HV, bind_ok_l, HQ, bind_ok_l;
    apply (ScaledDotProductAttention_forward_any_fin _ 1 [b] n m d_key d_key
             Q K V); auto.
Qed.

Lemma cat_rows_fin (n c1 c2 : nat) (a b : list (list fp)) :
  is_matrix n c1 a = true /\ mfin a = true ->
  is_matrix n c2 b = true /\ mfin b = true ->
  exists z, cat_rows a b = ok z
            /\ (is_matrix n (c1 + c2) z = true /\ mfin z = true).
Proof.
  intros [Ha Fa] [Hb Fb].
  destruct (cat_rows_is_matrix n c1 c2 a b Ha Hb) as [z [Hz Hs]].
  exists z. split; [exact Hz |]. split; [exact Hs |].
  rewrite (cat_rows_value n c1 c2 a b Ha Hb) in Hz. injection Hz as <-.
  apply mfin_Forall. apply mfin_Forall in Fa, Fb.
  rewrite Forall_forall in *. intros r Hr. apply in_map_iff in Hr.
  destruct Hr as [[r1 r2] [<- Hp]]. cbn [fst snd].
  unfold vfin. rewrite forallb_app.
  apply in_combine_l in Hp as H1. apply in_combine_r in Hp as H2.
  specialize (Fa r1 H1). specialize (Fb r2 H2). unfold vfin in Fa, Fb.
  now rewrite Fa, Fb.
Qed.

Lemma MultiHeadAttention_forward_fin
  (n_head d_model b n : nat) (self : MultiHeadAttention.t)
  (x : list (list (list fp)))
  (encoder_output : option (list (list (list fp)))) (m : nat) :
  1 <= n_head -> d_model mod n_head = 0 -> 1 <= d_model ->
  1 <= b -> 1 <= n -> 1 <= m ->
  MultiHeadAttention_shape n_head d_model self = true ->
  MultiHeadAttention_fin self = true ->
  MultiHeadAttention_unmasked self = true \/ d_model / n_head = 1 ->
  tall 1 (fun a => is_matrix n d_model a = true /\ mfin a = true) [b] x ->
  tall 1 (fun a => is_matrix m d_model a = true /\ mfin a = true) [b]
    (match encoder_output with None => x | Some e => e end) ->
  exists out,
    MultiHeadAttention.forward self x encoder_output = ok out
    /\ tall 1 (fun a => is_matrix n d_model a = true /\ mfin a = true) [b] out.
Proof.
  intros Hh Hmod Hd Hb Hn Hm Hself Hfin Hmask Hx HX.
  set (d_k := d_model / n_head) in *.
  assert (Hprod : n_head * d_k = d_model).
  { unfold d_k. apply Nat.Div0.div_exact in Hmod. lia. }
  assert (Hdk : 1 <= d_k) by nia.
  unfold MultiHeadAttention_shape in Hself. fold d_k in Hself.
  apply andb_prop in Hself. destruct Hself as [Hself HW].
  apply andb_prop in Hself. destruct Hself as [Hlen Hheads].
  apply Nat.eqb_eq in Hlen. rewrite forallb_forall in Hheads.
  unfold MultiHeadAttention_fin in Hfin.
  apply andb_prop in Hfin. destruct Hfin as [Hfh FW].
  rewrite forallb_forall in Hfh.
  unfold MultiHeadAttention_unmasked in Hmask. rewrite forallb_forall in Hmask.
  destruct (mapM_exists
              (fun attention => Attention.forward attention x encoder_output)
              (tall 1 (fun a => is_matrix n d_k a = true /\ mfin a = true) [b])
              (MultiHeadAttention.multi_head_attention self))
    as [heads [Hrun [Hl HF]]].
  { intros a Ha.
    apply (Attention_forward_fin a b n m d_model d_k); auto.
    destruct Hmask as [Hmask | Hone]; [left | now right].
    apply negb_true_iff. now apply Hmask. }
  unfold MultiHeadAttention.forward. rewrite Hrun, bind_ok_l.
  destruct heads as [| o1 os]; [simpl in Hl; lia |].
  pose proof (Forall_inv HF) as Ho1. pose proof (Forall_inv_tail HF) as Hos.
  destruct (cat_fold_gen 1 [b]
              (fun k a => is_matrix n k a = true /\ mfin a = true)
              (fun a => is_matrix n d_k a = true /\ mfin a = true) d_k os
              (fun k a c => cat_rows_fin n k d_k a c) o1 d_k
              Ho1 Hos) as [Z [HZ HZs]].
  unfold cat. rewrite HZ, bind_ok_l.
  assert (Hwidth : d_k + @length (tensor 1) os * d_k = n_head * d_k).
  { change (@length (tensor 1) os) with (@length (list (list (list fp))) os).
    simpl in Hl. rewrite <- Hlen, <- Hl. lia. }
  rewrite Hwidth in HZs.
  apply (matmul_w_fin b n (n_head * d_k) d_model Z _ HZs HW FW). nia.
Qed.

(** ** Finite inputs through a sublayer *)

Lemma Linear_row_fin (l : Linear.t) (row : list fp) :
  Linear_fin l = true -> vfin row = true -> vfin (Linear_row l row) = true.
Proof.
  unfold Linear_fin. intros H Hrow. apply andb_prop in H. destruct H as [FW Fb].
  unfold Linear_row. apply (vfin_zip FP.add); [exact add_fin | | exact Fb].
  unfold vfin. rewrite forallb_forall. intros a Ha. apply in_map_iff in Ha.
  destruct Ha as [w [<- Hw]]. apply dot_fin; [exact Hrow |].
  unfold mfin in FW. rewrite forallb_forall in FW. now apply FW.
Qed.

Lemma relu_fin (v : list fp) : vfin v = true -> vfin (map FP.relu v) = true.
Proof.
  intros H. destruct (vfin_map_Fin v H) as [rs ->]. rewrite map_map.
  rewrite <- (map_map (fun r => Rmax 0 r) Fin). apply vfin_Fin.
Qed.

Lemma map_rows_fin (g : list fp -> list fp) (Q : list (list fp) -> Prop)
  (b n d' : nat) (x : list (list (list fp))) :
  (forall row, vfin row = true -> vfin (g row) = true) ->
  (forall row, length (g row) = d') ->
  tall 1 (fun a => Q a /\ mfin a = true) [b] x ->
  Forall (fun a => length a = n) x ->
  tall 1 (fun a => is_matrix n d' a = true /\ mfin a = true) [b]
       (map (map g) x).
Proof.
  intros Hg Hl H Hn. apply tall1_elim in H. destruct H as [L H].
  apply tall1_intro; [now rewrite length_map |].
  rewrite Forall_forall in *. intros a Ha. apply in_map_iff in Ha.
  destruct Ha as [a0 [<- Ha0]]. destruct (H a0 Ha0) as [_ Fa]. split.
  - apply is_matrix_intro; [rewrite length_map; now apply Hn |].
    rewrite Forall_forall. intros r Hr. apply in_map_iff in Hr.
    destruct Hr as [r0 [<- _]]. apply Hl.
  - apply mfin_Forall. apply mfin_Forall in Fa. rewrite Forall_forall in *.
    intros r Hr. apply in_map_iff in Hr. destruct Hr as [r0 [<- Hr0]].
    apply Hg. now apply Fa.
Qed.

Lemma FeedForwardNetwork_forward_fin
  (f : FeedForwardNetwork.t) (d d_ff b n : nat) (x : list (list (list fp))) :
  FeedForwardNetwork_shape d d_ff f = true ->
  FeedForwardNetwork_fin f = true -> 1 <= d -> 1 <= d_ff ->
  tall 1 (fun a => is_matrix n d a = true /\ mfin a = true) [b] x ->
  exists y, FeedForwardNetwork.forward f x = ok y
            /\ tall 1 (fun a => is_matrix n d a = true /\ mfin a = true) [b] y.
Proof.
  intros Hs Hf Hd Hff Hx.
  assert (Hshape : has_shape 1 [b] n d x = true).
  { apply has_shape_tall. eapply tall_impl; [| exact Hx]. now intros a [Ha _]. }
  destruct (FeedForwardNetwork_forward_rows f d d_ff b n x Hs Hd Hff Hshape)
    as [E _].
  eexists. split; [exact E |].
  unfold FeedForwardNetwork_shape in Hs. apply andb_prop in Hs.
  destruct Hs as [H1 H2].
  unfold FeedForwardNetwork_fin in Hf. apply andb_prop in Hf.
  destruct Hf as [F1 F2].
  apply (map_rows_fin _ (fun a => is_matrix n d a = true) b n d x);
    [| | exact Hx |].
  - intros row Hrow. unfold FeedForwardNetwork_row.
    apply Linear_row_fin; [exact F2 |]. apply relu_fin.
    now apply Linear_row_fin.
  - intros row. now apply (Linear_row_length d_ff d).
  - apply tall1_elim in Hx. destruct Hx as [_ Hx].
    eapply Forall_impl; [| exact Hx]. intros a [Ha _].
    exact (is_matrix_length _ _ _ Ha).
Qed.

Lemma zip_rows_fin (f : fp -> fp -> fp) (a b : list (list fp)) :
  (forall x y, FP.is_fin x = true -> FP.is_fin y = true ->
               FP.is_fin (f x y) = true) ->
  mfin a = true -> mfin b = true -> mfin (zip_rows f a b) = true.
Proof.
  intros Hf Fa Fb. apply mfin_Forall. apply mfin_Forall in Fa, Fb.
  rewrite Forall_forall in *. unfold zip_rows. intros r Hr.
  apply in_map_iff in Hr. destruct Hr as [[r1 r2] [<- Hp]]. cbn [fst snd].
  apply (vfin_zip f); [exact Hf | apply Fa; now apply in_combine_l in Hp
                      | apply Fb; now apply in_combine_r in Hp].
Qed.

Lemma add_norm_fin (ln : LayerNorm.t) (b n d : nat)
  (a x : list (list (list fp))) :
  LayerNorm_shape d ln = true -> LayerNorm_fin ln -> 1 <= d ->
  tall 1 (fun m => is_matrix n d m = true /\ mfin m = true) [b] a ->
  tall 1 (fun m => is_matrix n d m = true /\ mfin m = true) [b] x ->
  exists y, (s <- tadd 1 a x ;; LayerNorm.forward ln s) = ok y
            /\ tall 1 (fun m => is_matrix n d m = true /\ mfin m = true) [b] y.
Proof.
  intros Hln Fln Hd Ha Hx.
  apply (add_norm_gen ln b n d (fun m => mfin m = true) (fun m => mfin m = true)
           (fun m => mfin m = true) (fun m => mfin m = true) a x Hln);
    [| | exact Ha | exact Hx].
  - intros u v _ _ Fu Fv. now apply (zip_rows_fin FP.add); [exact add_fin | |].
  - intros s y Hs Fs Hy.
    assert (E : mapM (LayerNorm.forward_row ln) s
                = ok (map (layer_norm_value ln) s)).
    { apply mapM_ok_in. intros v Hv. apply (forward_row_value ln d); auto.
      pose proof (is_matrix_rows _ _ _ Hs) as R. rewrite Forall_forall in R.
      now apply R. }
    rewrite E in Hy. injection Hy as <-.
    pose proof (is_matrix_rows _ _ _ Hs) as R. rewrite Forall_forall in R.
    apply mfin_Forall. apply mfin_Forall in Fs. rewrite Forall_forall in *.
    intros r Hr. apply in_map_iff in Hr. destruct Hr as [v [<- Hv]].
    apply layer_norm_value_fin; [exact Fln | | now apply Fs].
    intros ->. specialize (R [] Hv). simpl in R. lia.
Qed.

Lemma Encoder_forward_fin (e : Encoder.t) (n_head d d_ff b n : nat)
  (x : list (list (list fp))) :
  Encoder_shape n_head d d_ff e = true -> Encoder_fin e ->
  1 <= n_head -> 1 <= d -> d mod n_head = 0 -> 1 <= d_ff ->
  1 <= b -> 1 <= n ->
  tall 1 (fun m => is_matrix n d m = true /\ mfin m = true) [b] x ->
  exists y, Encoder.forward e x = ok y
            /\ tall 1 (fun m => is_matrix n d m = true /\ mfin m = true) [b] y.
Proof.
  intros He [Fa [Fu [Ff [F1 F2]]]] Hh Hd Hmod Hff Hb Hn Hx.
  unfold Encoder_shape in He.
  apply andb_prop in He. destruct He as [He Hln2].
  apply andb_prop in He. destruct He as [He Hln1].
  apply andb_prop in He. destruct He as [Hmha Hffn].
  unfold Encoder.forward.
  destruct (MultiHeadAttention_forward_fin n_head d b n (Encoder.attention e)
              x None n Hh Hmod Hd Hb Hn Hn Hmha Fa (or_introl Fu) Hx Hx)
    as [a [Ha Has]].
  rewrite Ha, bind_ok_l.
  destruct (add_norm_fin (Encoder.layer_norm1 e) b n d a x Hln1 F1 Hd Has Hx)
    as [x1 [Hx1 Hx1s]].
  apply bind_inv in Hx1. destruct Hx1 as [s1 [Hs1 Hx1]].
  rewrite Hs1, bind_ok_l, Hx1, bind_ok_l.
  destruct (FeedForwardNetwork_forward_fin (Encoder.feed_forward e)
              d d_ff b n x1 Hffn Ff Hd Hff Hx1s) as [f [Hf Hfs]].
  rewrite Hf, bind_ok_l.
  apply (add_norm_fin (Encoder.layer_norm2 e) b n d f x1 Hln2 F2 Hd Hfs Hx1s).
Qed.

(** ** The constructors draw finite weights *)

Lemma draw_vec_fin (len : nat) (g : rng) : vfin (draw_vec len g) = true.
Proof.
  unfold draw_vec. rewrite <- (map_map g Fin). apply vfin_Fin.
Qed.

Lemma draw_matrix_fin (rows cols : nat) (g : rng) :
  mfin (draw_matrix rows cols g) = true.
Proof.
  apply mfin_Forall. rewrite Forall_forall. intros r Hr.
  apply in_map_iff in Hr. destruct Hr as [i [<- _]]. apply draw_vec_fin.
Qed.

Lemma randn_fin (rows cols : Z) (g g' : rng) (m : list (list fp)) :
  randn rows cols g = ok (m, g') -> mfin m = true.
Proof.
  unfold randn. destruct ((rows <? 0) || (cols <? 0))%Z; [discriminate |].
  intros H. injection H as <- _. apply draw_matrix_fin.
Qed.

Lemma randn_vec_fin (len : Z) (g g' : rng) (v : list fp) :
  randn_vec len g = ok (v, g') -> vfin v = true.
Proof.
  unfold randn_vec. destruct (len <? 0)%Z; [discriminate |].
  intros H. injection H as <- _. apply draw_vec_fin.
Qed.

(** inversion of one step of a constructor that threads the generator *)
Tactic Notation "bind_step" hyp(H) ident(x) ident(g) ident(E) :=
  apply bind_inv in H; destruct H as [[x g] [E H]].

Lemma Attention_init_fin (d_model d_key : Z) (mask : bool) (g g' : rng)
  (a : Attention.t) :
  Attention.init d_model d_key mask g = ok (a, g') ->
  Attention_fin a = true
  /\ ScaledDotProductAttention.mask (Attention.scaled_dot_product a) = mask.
Proof.
  unfold Attention.init. intros H.
  bind_step H wk g1 E1. bind_step H wq g2 E2. bind_step H wv g3 E3.
  injection H as <- _. unfold Attention_fin. cbn -[mfin vfin].
  rewrite (randn_fin _ _ _ _ _ E1), (randn_fin _ _ _ _ _ E2),
    (randn_fin _ _ _ _ _ E3). auto.
Qed.

Lemma attention_list_fin (n : nat) (d_model d_key : Z) (mask : bool)
  (g g' : rng) (l : list Attention.t) :
  MultiHeadAttention.attention_list n d_model d_key mask g = ok (l, g') ->
  forallb Attention_fin l = true
  /\ (mask = false ->
      forallb (fun a => negb (ScaledDotProductAttention.mask
                                (Attention.scaled_dot_product a))) l = true).
Proof.
  revert g g' l. induction n as [| n IH]; intros g g' l H; simpl in H.
  - injection H as <- _. auto.
  - bind_step H a g1 E1. bind_step H l' g2 E2. injection H as <- _.
    destruct (Attention_init_fin _ _ _ _ _ _ E1) as [Fa Ma].
    destruct (IH _ _ _ E2) as [Fl Ml]. cbn [forallb]. rewrite Fa, Fl, Ma.
    split; [reflexivity |]. intros ->. now rewrite Ml.
Qed.

Lemma MultiHeadAttention_init_fin (n_head d_model : Z) (mask : bool)
  (g g' : rng) (self : MultiHeadAttention.t) :
  MultiHeadAttention.init n_head d_model mask g = ok (self, g') ->
  MultiHeadAttention_fin self = true
  /\ (mask = false -> MultiHeadAttention_unmasked self = true).
Proof.
  unfold MultiHeadAttention.init. intros H.
  destruct (n_head =? 0)%Z; [discriminate |].
  destruct (negb (d_model mod n_head =? 0)%Z); [discriminate |].
  cbv zeta in H. bind_step H heads g1 E1. bind_step H w g2 E2.
  injection H as <- _.
  destruct (attention_list_fin _ _ _ _ _ _ _ E1) as [Fh Mh].
  unfold MultiHeadAttention_fin, MultiHeadAttention_unmasked. cbn -[mfin vfin].
  rewrite Fh, (randn_fin _ _ _ _ _ E2). auto.
Qed.

Lemma Linear_init_fin (d_in d_out : Z) (g g' : rng) (l : Linear.t) :
  Linear.init d_in d_out g = ok (l, g') -> Linear_fin l = true.
Proof.
  unfold Linear.init. intros H. bind_step H w g1 E1. bind_step H b g2 E2.
  injection H as <- _. unfold Linear_fin. cbn -[mfin vfin].
  now rewrite (randn_fin _ _ _ _ _ E1), (randn_vec_fin _ _ _ _ E2).
Qed.

Lemma FeedForwardNetwork_init_fin (d d_ff : Z) (g g' : rng)
  (f : FeedForwardNetwork.t) :
  FeedForwardNetwork.init d d_ff g = ok (f, g') ->
  FeedForwardNetwork_fin f = true.
Proof.
  unfold FeedForwardNetwork.init. intros H.
  bind_step H l1 g1 E1. bind_step H l2 g2 E2. injection H as <- _.
  unfold FeedForwardNetwork_fin. cbn -[mfin vfin].
  now rewrite (Linear_init_fin _ _ _ _ _ E1), (Linear_init_fin _ _ _ _ _ E2).
Qed.

Lemma repeat_fin (r : R) (n : nat) : vfin (repeat (Fin r) n) = true.
Proof. induction n as [| n IH]; [reflexivity | exact IH]. Qed.

Lemma LayerNorm_init_fin (d : Z) (ln : LayerNorm.t) :
  LayerNorm.init d = ok ln -> LayerNorm_fin ln.
Proof.
  unfold LayerNorm.init. destruct (d <? 0)%Z; [discriminate |].
  intros H. injection H as <-. unfold LayerNorm_fin. cbn -[mfin vfin].
  split; [apply repeat_fin |]. split; [apply repeat_fin | lra].
Qed.

Lemma Encoder_init_fin (n_head d d_ff : Z) (g g' : rng) (e : Encoder.t) :
  Encoder.init n_head d d_ff g = ok (e, g') -> Encoder_fin e.
Proof.
  unfold Encoder.init. intros H.
  bind_step H a g1 E1. bind_step H f g2 E2.
  apply bind_inv in H. destruct H as [ln1 [L1 H]].
  apply bind_inv in H. destruct H as [ln2 [L2 H]].
  injection H as <- _. unfold Encoder_fin. cbn -[mfin vfin].
  destruct (MultiHeadAttention_init_fin _ _ _ _ _ _ E1) as [Fa Ma].
  split; [exact Fa |]. split; [now apply Ma |].
  split; [now apply (FeedForwardNetwork_init_fin _ _ _ _ _ E2) |].
  split; [exact (LayerNorm_init_fin d ln1 L1)
         | exact (LayerNorm_init_fin d ln2 L2)].
Qed.

(** X8. An encoder layer with finite weights, as the constructor draws
    them, maps a finite input of shape (batch, seq, d_model) to a finite
    output of the same shape: in exact arithmetic the unmasked attention,
    the feed-forward network and the two layer normalisations never produce
    an infinity or a NaN. *)
Theorem Encoder_forward_finite (e : Encoder.t) (n_head d d_ff b n : nat)
  (x : list (list (list fp))) :
  Encoder_shape n_head d d_ff e = true -> Encoder_fin e ->
  1 <= n_head -> 1 <= d -> d mod n_head = 0 -> 1 <= d_ff ->
  1 <= b -> 1 <= n ->
  has_shape 1 [b] n d x = true -> all_fin 1 x = true ->
  (forall g, exists e' g',
      Encoder.init (Z.of_nat n_head) (Z.of_nat d) (Z.of_nat d_ff) g
      = ok (e', g')
      /\ Encoder_shape n_head d d_ff e' = true /\ Encoder_fin e')
  /\ exists y, Encoder.forward e x = ok y
               /\ has_shape 1 [b] n d y = true /\ all_fin 1 y = true.
Proof.
  intros He Fe Hh Hd Hmod Hff Hb Hn Hx Fx. split.
  - intros g. destruct (Encoder_init_ok n_head d d_ff g Hh Hmod)
      as [e' [g' [Hi Hs]]].
    exists e', g'. split; [exact Hi |]. split; [exact Hs |].
    exact (Encoder_init_fin _ _ _ _ _ _ Hi).
  - apply has_shape_tall in Hx.
    pose proof (tall_and 1 _ _ [b] x Hx (all_fin_tall 1 _ [b] x Hx Fx)) as Hxf.
    destruct (Encoder_forward_fin e n_head d d_ff b n x He Fe Hh Hd Hmod Hff
                Hb Hn Hxf) as [y [Hy Hys]].
    exists y. split; [exact Hy |].
    apply tall1_elim in Hys. destruct Hys as [Ly Fy]. split.
    + apply has_shape_tall. apply tall1_intro; [exact Ly |].
      eapply Forall_impl; [| exact Fy]. now intros m [Hm _].
    + cbn [all_fin]. apply forallb_forall. intros m Hm.
      rewrite Forall_forall in Fy. now destruct (Fy m Hm) as [_ F].
Qed.

Lemma tiny_layer_norm_fin : LayerNorm_fin tiny_layer_norm.
Proof.
  split; [reflexivity |]. split; [reflexivity |].
  unfold tiny_layer_norm. cbn [LayerNorm.eps]. lra.
Qed.

Lemma tiny_encoder_fin : Encoder_fin tiny_encoder.
Proof.
  repeat (split; [reflexivity |]).
  split; exact tiny_layer_norm_fin.
Qed.

Lemma Encoder_forward_finite_witness :
  exists y, Encoder.forward tiny_encoder [[[Fin 1; Fin 2]; [Fin 3; Fin 5]]] = ok y
            /\ has_shape 1 [1] 2 2 y = true /\ all_fin 1 y = true.
Proof.
  apply (proj2 (Encoder_forward_finite tiny_encoder 2 2 1 1 2
                  [[[Fin 1; Fin 2]; [Fin 3; Fin 5]]]
                  eq_refl
                  tiny_encoder_fin
                  (le_S 1 1 (le_n 1)) (le_S 1 1 (le_n 1)) eq_refl (le_n 1)
                  (le_n 1) (le_S 1 1 (le_n 1)) eq_refl eq_refl)).
Defined.

(** ** A model whose mask has no effect *)

Lemma Decoder_forward_fin (dec : Decoder.t) (n_head d d_ff b n m : nat)
  (x enc : list (list (list fp))) :
  Decoder_shape n_head d d_ff dec = true -> Decoder_fin dec ->
  1 <= n_head -> d mod n_head = 0 -> d / n_head = 1 -> 1 <= d_ff ->
  1 <= b -> 1 <= n -> 1 <= m ->
  tall 1 (fun a => is_matrix n d a = true /\ mfin a = true) [b] x ->
  tall 1 (fun a => is_matrix m d a = true /\ mfin a = true) [b] enc ->
  exists y, Decoder.forward dec x enc = ok y
            /\ tall 1 (fun a => is_matrix n d a = true /\ mfin a = true) [b] y.
Proof.
  intros Hdec [Fm [Fa [Fu [Ff [F1 [F2 F3]]]]]] Hh Hmod Hone Hff Hb Hn Hm Hx Henc.
  assert (Hd : 1 <= d).
  { apply Nat.Div0.div_exact in Hmod. nia. }
  unfold Decoder_shape in Hdec.
  apply andb_prop in Hdec. destruct Hdec as [Hdec Hln3].
  apply andb_prop in Hdec. destruct Hdec as [Hdec Hln2].
  apply andb_prop in Hdec. destruct Hdec as [Hdec Hln1].
  apply andb_prop in Hdec. destruct Hdec as [Hdec Hffn].
  apply andb_prop in Hdec. destruct Hdec as [Hdec Hatt].
  apply andb_prop in Hdec. destruct Hdec as [Hmatt Hmasked].
  unfold Decoder.forward.
  destruct (MultiHeadAttention_forward_fin n_head d b n
              (Decoder.masked_attention dec) x None n Hh Hmod Hd Hb Hn Hn
              Hmatt Fm (or_intror Hone) Hx Hx) as [ma [Hma Hmas]].
  rewrite Hma, bind_ok_l.
  destruct (add_norm_fin (Decoder.layer_norm1 dec) b n d ma x Hln1 F1 Hd Hmas Hx)
    as [x1 [Hx1 Hx1s]].
  apply bind_inv in Hx1. destruct Hx1 as [s1 [Hs1 Hx1]].
  rewrite Hs1, bind_ok_l, Hx1, bind_ok_l.
  destruct (MultiHeadAttention_forward_fin n_head d b n
              (Decoder.attention dec) x1 (Some enc) m Hh Hmod Hd Hb Hn Hm
              Hatt Fa (or_introl Fu) Hx1s Henc) as [a2 [Ha2 Ha2s]].
  rewrite Ha2, bind_ok_l.
  destruct (add_norm_fin (Decoder.layer_norm2 dec) b n d a2 x1 Hln2 F2 Hd
              Ha2s Hx1s) as [x2 [Hx2 Hx2s]].
  apply bind_inv in Hx2. destruct Hx2 as [s2 [Hs2 Hx2]].
  rewrite Hs2, bind_ok_l, Hx2, bind_ok_l.
  destruct (FeedForwardNetwork_forward_fin (Decoder.feedforward dec)
              d d_ff b n x2 Hffn Ff Hd Hff Hx2s) as [f [Hf Hfs]].
  rewrite Hf, bind_ok_l.
  apply (add_norm_fin (Decoder.layer_norm3 dec) b n d f x2 Hln3 F3 Hd Hfs Hx2s).
Qed.

Lemma run_encoders_fin (encoders : list Encoder.t) (n_head d d_ff b n : nat)
  (x : list (list (list fp))) :
  forallb (Encoder_shape n_head d d_ff) encoders = true ->
  Forall Encoder_fin encoders ->
  1 <= n_head -> 1 <= d -> d mod n_head = 0 -> 1 <= d_ff -> 1 <= b -> 1 <= n ->
  tall 1 (fun a => is_matrix n d a = true /\ mfin a = true) [b] x ->
  exists y, Transformer.run_encoders encoders x = ok y
            /\ tall 1 (fun a => is_matrix n d a = true /\ mfin a = true) [b] y.
Proof.
  intros Hes Fes Hh Hd Hmod Hff Hb Hn. revert x.
  induction encoders as [| e es IH]; intros x Hx.
  - exists x. now split.
  - simpl in Hes. apply andb_prop in Hes. destruct Hes as [He Hes].
    destruct (Encoder_forward_fin e n_head d d_ff b n x He (Forall_inv Fes)
                Hh Hd Hmod Hff Hb Hn Hx) as [y [Hy Hys]].
    unfold Transformer.run_encoders. cbn [fold_left].
    rewrite bind_ok_l, Hy. apply (IH Hes (Forall_inv_tail Fes) y Hys).
Qed.

Lemma run_decoders_fin (decoders : list Decoder.t) (n_head d d_ff b n m : nat)
  (y enc : list (list (list fp))) :
  forallb (Decoder_shape n_head d d_ff) decoders = true ->
  Forall Decoder_fin decoders ->
  decoders = [] \/ d / n_head = 1 ->
  1 <= n_head -> d mod n_head = 0 -> 1 <= d_ff -> 1 <= b -> 1 <= n -> 1 <= m ->
  tall 1 (fun a => is_matrix n d a = true /\ mfin a = true) [b] y ->
  tall 1 (fun a => is_matrix m d a = true /\ mfin a = true) [b] enc ->
  exists out, Transformer.run_decoders decoders y enc = ok out
              /\ tall 1 (fun a => is_matrix n d a = true /\ mfin a = true)
                      [b] out.
Proof.
  intros Hds Fds Hone Hh Hmod Hff Hb Hn Hm. revert y.
  induction decoders as [| dec ds IH]; intros y Hy Henc.
  - exists y. now split.
  - destruct Hone as [Hnil | Hone]; [discriminate |].
    simpl in Hds. apply andb_prop in Hds. destruct Hds as [Hdec Hds].
    destruct (Decoder_forward_fin dec n_head d d_ff b n m y enc Hdec
                (Forall_inv Fds) Hh Hmod Hone Hff Hb Hn Hm Hy Henc)
      as [y1 [Hy1 Hy1s]].
    unfold Transformer.run_decoders. cbn [fold_left].
    rewrite bind_ok_l, Hy1.
    apply (IH Hds (Forall_inv_tail Fds) (or_intror Hone) y1 Hy1s Henc).
Qed.

Lemma vfin_nth (v : list fp) :
  (forall j, j < length v -> FP.is_fin (nth j v NaN) = true) ->
  vfin v = true.
Proof.
  intros H. unfold vfin. apply forallb_forall. intros a Ha.
  destruct (In_nth v a NaN Ha) as [j [Hj <-]]. now apply H.
Qed.

Lemma PE_row_length (d pos : nat) : length (PE_row d pos) = d.
Proof. unfold PE_row. now rewrite !set_cols_length, repeat_length. Qed.

Lemma PE_row_fin (d pos : nat) :
  Nat.even d = true -> 2 <= d -> vfin (PE_row d pos) = true.
Proof.
  intros Hev Hd. apply vfin_nth. intros j Hj. rewrite PE_row_length in Hj.
  rewrite (PE_row_entry d Hev Hd pos j Hj). unfold sinusoid.
  now destruct (Nat.even j).
Qed.

Lemma indices_in_vocab (self : Embedding.t) (vocab d b seq_len : nat)
  (idx : list (list Z)) :
  is_matrix vocab d (Embedding.weight self) = true ->
  indices_shape b seq_len vocab idx = true ->
  forallb (forallb (in_vocab self)) idx = true.
Proof.
  intros HE Hidx. apply indices_shape_elim in Hidx. destruct Hidx as [_ Hrows].
  rewrite Forall_forall in Hrows.
  apply forallb_forall. intros row Hrow. destruct (Hrows row Hrow) as [_ Hr].
  rewrite Forall_forall in Hr.
  apply forallb_forall. intros i Hi. specialize (Hr i Hi).
  unfold in_vocab. rewrite (is_matrix_length _ _ _ HE).
  apply andb_true_intro. split; [apply Z.leb_le | apply Z.ltb_lt]; lia.
Qed.

Lemma Embedding_forward_fin (self : Embedding.t) (vocab d b seq_len : nat)
  (idx : list (list Z)) :
  is_matrix vocab d (Embedding.weight self) = true ->
  mfin (Embedding.weight self) = true ->
  indices_shape b seq_len vocab idx = true ->
  exists e, Embedding.forward self idx = ok e
            /\ tall 1 (fun a => is_matrix seq_len d a = true /\ mfin a = true)
                    [b] e.
Proof.
  intros HE FE Hidx.
  destruct (Embedding_forward_shape self vocab d b seq_len idx HE Hidx)
    as [e [He Hes]].
  exists e. split; [exact He |].
  apply has_shape_tall in Hes. apply tall_and; [exact Hes |].
  rewrite (Embedding_forward_in_range self idx
             (indices_in_vocab self vocab d b seq_len idx HE Hidx)) in He.
  injection He as <-.
  apply tall1_elim in Hes. destruct Hes as [L _].
  apply tall1_intro; [exact L |].
  pose proof (indices_shape_elim _ _ _ _ Hidx) as [_ Hrows].
  rewrite Forall_forall in *. intros a Ha. apply in_map_iff in Ha.
  destruct Ha as [row [<- Hrow]]. destruct (Hrows row Hrow) as [_ Hr].
  rewrite Forall_forall in Hr.
  apply mfin_Forall. rewrite Forall_forall. intros r Hin.
  apply in_map_iff in Hin. destruct Hin as [i [<- Hi]]. specialize (Hr i Hi).
  apply mfin_Forall in FE. rewrite Forall_forall in FE. apply FE.
  apply nth_In. rewrite (is_matrix_length _ _ _ HE). lia.
Qed.

Lemma scale_sqrt_fin (d : nat) (v : fp) :
  FP.is_fin v = true ->
  FP.is_fin (v * FP.sqrt (FP.of_Z (Z.of_nat d)))%fp = true.
Proof.
  intros Hv. apply mul_fin; [exact Hv |]. unfold FP.of_Z, FP.sqrt.
  pose proof (IZR_le 0 (Z.of_nat d) (Nat2Z.is_nonneg d)) as Hnn.
  destruct (Rcompare_spec (IZR (Z.of_nat d)) 0); [reflexivity | lra | reflexivity].
Qed.

Lemma embed_fin (self : Transformer.t) (vocab n_head d d_ff b seq_len : nat)
  (idx : list (list Z)) :
  Transformer_shape vocab n_head d d_ff self = true ->
  mfin (Embedding.weight (Transformer.embedding self)) = true ->
  Nat.even d = true -> 2 <= d -> 1 <= b -> 1 <= seq_len ->
  indices_shape b seq_len vocab idx = true ->
  exists x, Transformer.embed self idx = ok x
            /\ tall 1 (fun a => is_matrix seq_len d a = true /\ mfin a = true)
                    [b] x.
Proof.
  intros Hself FE Hev Hd Hb Hseq Hidx. unfold Transformer_shape in Hself.
  apply andb_prop in Hself. destruct Hself as [Hself Hdm].
  apply andb_prop in Hself. destruct Hself as [Hself Hpe].
  apply andb_prop in Hself. destruct Hself as [_ HE].
  apply Z.eqb_eq in Hdm, Hpe.
  unfold Transformer.embed.
  destruct (Embedding_forward_fin _ vocab d b seq_len idx HE FE Hidx)
    as [e [He Hes]].
  rewrite He, bind_ok_l. cbv zeta. rewrite Hdm.
  set (x := tmap 1 _ e).
  assert (Hx : tall 1 (fun a => is_matrix seq_len d a = true /\ mfin a = true)
                    [b] x).
  { unfold x, tmap.
    apply (lift1_tall 1 _ (fun a => is_matrix seq_len d a = true
                                    /\ mfin a = true)); [| exact Hes].
    intros a [Ha Fa]. split; [now apply mmap_is_matrix |].
    apply mmap_fin; [| exact Fa]. intros v. apply scale_sqrt_fin. }
  assert (Hxs : has_shape 1 [b] seq_len d x = true).
  { apply has_shape_tall. eapply tall_impl; [| exact Hx]. now intros a [Ha _]. }
  assert (Hinit : Transformer.pos_encoding self
                  = PositionalEncoding.init (Z.of_nat d)).
  { destruct (Transformer.pos_encoding self) as [dm]. simpl in Hpe.
    now rewrite Hpe. }
  rewrite Hinit.
  rewrite (PE_forward_rows d seq_len x (has_shape_hd b seq_len d x Hxs Hb)
             Hseq Hev), bind_ok_l.
  rewrite tadd_broadcast_eq.
  apply (lift1M_tall 1 (fun a => mzip FP.add a (map (PE_row d) (seq 0 seq_len)))
           (fun a => is_matrix seq_len d a = true /\ mfin a = true));
    [| exact Hx].
  intros a [Ha Fa]. exists (zip_rows FP.add a (map (PE_row d) (seq 0 seq_len))).
  split; [| split].
  - apply (mzip_value FP.add seq_len d); [exact Ha | apply PE_rows_shape].
  - apply zip_rows_is_matrix; [exact Ha | apply PE_rows_shape].
  - apply (zip_rows_fin FP.add); [exact add_fin | exact Fa |].
    apply mfin_Forall. rewrite Forall_forall. intros r Hr.
    apply in_map_iff in Hr. destruct Hr as [pos [<- _]]. now apply PE_row_fin.
Qed.

Lemma softmax_row_distribution (v : list fp) :
  vfin v = true -> v <> [] -> distribution (softmax_row v).
Proof.
  intros Hfin Hne. split.
  - destruct (vfin_map_Fin v Hfin) as [rs ->].
    destruct rs as [| r rs]; [contradiction |].
    rewrite softmax_row_Fin. cbv zeta.
    set (es := map _ (r :: rs)).
    assert (Hes : Forall (fun e => (0 < e)%R) es).
    { apply Forall_forall. intros e Hin. unfold es in Hin.
      apply in_map_iff in Hin. destruct Hin as [x [<- _]]. apply exp_pos. }
    assert (Hpos : (0 < fold_left Rplus es 0)%R)
      by (apply fold_Rplus_pos; [exact Hes | discriminate]).
    rewrite Forall_forall in *. intros a Ha.
    apply in_map_iff in Ha. destruct Ha as [q [<- Hq]].
    apply in_map_iff in Hq. destruct Hq as [e [<- He]].
    eexists. split; [reflexivity |].
    apply Rmult_le_pos; [left; now apply Hes
                        | left; now apply Rinv_0_lt_compat].
  - rewrite (softmax_row_sums_to_one v Hfin Hne). exists 1%R.
    split; [reflexivity |]. rewrite Rminus_diag, Rabs_R0. lra.
Qed.

Lemma Decoder_init_fin (n_head d d_ff : Z) (g g' : rng) (dec : Decoder.t) :
  Decoder.init n_head d d_ff g = ok (dec, g') -> Decoder_fin dec.
Proof.
  unfold Decoder.init. intros H.
  bind_step H ma g1 E1. bind_step H a g2 E2. bind_step H f g3 E3.
  apply bind_inv in H. destruct H as [ln1 [L1 H]].
  apply bind_inv in H. destruct H as [ln2 [L2 H]].
  apply bind_inv in H. destruct H as [ln3 [L3 H]].
  injection H as <- _. unfold Decoder_fin. cbn -[mfin vfin].
  destruct (MultiHeadAttention_init_fin _ _ _ _ _ _ E1) as [Fm _].
  destruct (MultiHeadAttention_init_fin _ _ _ _ _ _ E2) as [Fa Ma].
  split; [exact Fm |]. split; [exact Fa |]. split; [now apply Ma |].
  split; [now apply (FeedForwardNetwork_init_fin _ _ _ _ _ E3) |].
  split; [exact (LayerNorm_init_fin d ln1 L1) |].
  split; [exact (LayerNorm_init_fin d ln2 L2)
         | exact (LayerNorm_init_fin d ln3 L3)].
Qed.

Lemma encoder_stack_fin (n : nat) (n_head d d_ff : Z) (g g' : rng)
  (l : list Encoder.t) :
  Transformer.encoder_stack n n_head d d_ff g = ok (l, g') ->
  Forall Encoder_fin l.
Proof.
  revert g g' l. induction n as [| n IH]; intros g g' l H; simpl in H.
  - injection H as <- _. constructor.
  - bind_step H e g1 E1. bind_step H l' g2 E2. injection H as <- _.
    constructor; [exact (Encoder_init_fin _ _ _ _ _ _ E1) | exact (IH _ _ _ E2)].
Qed.

Lemma decoder_stack_fin (n : nat) (n_head d d_ff : Z) (g g' : rng)
  (l : list Decoder.t) :
  Transformer.decoder_stack n n_head d d_ff g = ok (l, g') ->
  Forall Decoder_fin l.
Proof.
  revert g g' l. induction n as [| n IH]; intros g g' l H; simpl in H.
  - injection H as <- _. constructor.
  - bind_step H e g1 E1. bind_step H l' g2 E2. injection H as <- _.
    constructor; [exact (Decoder_init_fin _ _ _ _ _ _ E1) | exact (IH _ _ _ E2)].
Qed.

Lemma Transformer_init_fin (n_token n_layer n_head d d_ff : Z) (g g' : rng)
  (self : Transformer.t) :
  Transformer.init n_token n_layer n_head d d_ff g = ok (self, g') ->
  Transformer_fin self.
Proof.
  unfold Transformer.init. intros H.
  bind_step H es g1 E1. bind_step H ds g2 E2. bind_step H emb g3 E3.
  injection H as <- _. unfold Transformer_fin. cbn -[mfin vfin].
  split; [exact (encoder_stack_fin _ _ _ _ _ _ _ E1) |].
  split; [exact (decoder_stack_fin _ _ _ _ _ _ _ E2) |].
  unfold Embedding.init in E3. bind_step E3 w g4 E4. injection E3 as <- _.
  exact (randn_fin _ _ _ _ _ E4).
Qed.

Lemma Transformer_forward_fin
  (vocab n_head d d_ff b seq_src seq_tgt : nat) (self : Transformer.t)
  (x y : list (list Z)) :
  1 <= vocab -> 1 <= n_head -> d mod n_head = 0 ->
  Nat.even d = true -> 2 <= d -> 1 <= d_ff ->
  1 <= b -> 1 <= seq_src -> 1 <= seq_tgt ->
  Transformer_shape vocab n_head d d_ff self = true -> Transformer_fin self ->
  Transformer.decoders self = [] \/ d / n_head = 1 ->
  indices_shape b seq_src vocab x = true ->
  indices_shape b seq_tgt vocab y = true ->
  exists out,
    Transformer.forward self x y = ok out
    /\ has_shape 1 [b] seq_tgt vocab out = true
    /\ Forall (Forall distribution) out.
Proof.
  intros Hv Hh Hmod Hev Hd Hff Hb Hsrc Htgt Hself [Fes [Fds FE]] Hone Hx Hy.
  pose proof Hself as Hshape. unfold Transformer_shape in Hshape.
  apply andb_prop in Hshape. destruct Hshape as [Hshape _].
  apply andb_prop in Hshape. destruct Hshape as [Hshape _].
  apply andb_prop in Hshape. destruct Hshape as [Hshape HE].
  apply andb_prop in Hshape. destruct Hshape as [Hencs Hdecs].
  unfold Transformer.forward.
  destruct (embed_fin self vocab n_head d d_ff b seq_src x
              Hself FE Hev Hd Hb Hsrc Hx) as [ex [Hex Hexs]].
  destruct (embed_fin self vocab n_head d d_ff b seq_tgt y
              Hself FE Hev Hd Hb Htgt Hy) as [ey [Hey Heys]].
  rewrite Hex, bind_ok_l, Hey, bind_ok_l.
  destruct (run_encoders_fin (Transformer.encoders self) n_head d d_ff b
              seq_src ex Hencs Fes Hh) as [enc [Henc Hencs']];
    [lia | exact Hmod | exact Hff | exact Hb | exact Hsrc | exact Hexs |].
  rewrite Henc, bind_ok_l.
  destruct (run_decoders_fin (Transformer.decoders self) n_head d d_ff b
              seq_tgt seq_src ey enc Hdecs Fds Hone Hh Hmod Hff Hb Htgt Hsrc
              Heys Hencs') as [dec [Hdec Hdecs']].
  rewrite Hdec, bind_ok_l.
  unfold Transformer.project.
  destruct (matmul_w_fin b seq_tgt d vocab dec
              (transpose (Embedding.weight (Transformer.embedding self)))
              Hdecs') as [scores [Hscores Hss]];
    [now apply transpose_is_matrix | now apply transpose_fin | lia |].
  rewrite Hscores, bind_ok_l.
  exists (softmax 1 scores). split; [reflexivity |].
  assert (Hout : tall 1 (fun a => is_matrix seq_tgt vocab a = true
                                  /\ Forall distribution a)
                      [b] (softmax 1 scores)).
  { unfold softmax.
    apply (lift1_tall 1 _ (fun a => is_matrix seq_tgt vocab a = true
                                    /\ mfin a = true)); [| exact Hss].
    intros m [Hm Fm]. split; [now apply softmax_rows_is_matrix |].
    pose proof (is_matrix_rows _ _ _ Hm) as R. rewrite Forall_forall in R.
    apply mfin_Forall in Fm. rewrite Forall_forall in *.
    intros r Hr. apply in_map_iff in Hr. destruct Hr as [v [<- Hvin]].
    apply softmax_row_distribution; [now apply Fm |].
    intros ->. specialize (R [] Hvin). simpl in R. lia. }
  split.
  - apply has_shape_tall. eapply tall_impl; [| exact Hout]. now intros a [Ha _].
  - apply tall1_elim in Hout. destruct Hout as [_ Hout].
    eapply Forall_impl; [| exact Hout]. now intros a [_ Ha].
Qed.

(** X9. When the look-ahead mask has no effect, because the model has no
    decoder layer or because every head has width one ([n_head = d_model]),
    [Transformer.forward] on a model with finite weights returns a tensor of
    shape (batch, seq_len_tgt, vocabulary_size) in which every row is a
    probability distribution: non-negative entries that sum to one.  The
    constructor builds such a model for [n_layer = 0]. *)
Theorem Transformer_forward_distribution
  (vocab n_head d d_ff b seq_src seq_tgt : nat) (self : Transformer.t)
  (x y : list (list Z)) :
  1 <= vocab -> 1 <= n_head -> d mod n_head = 0 ->
  Nat.even d = true -> 2 <= d -> 1 <= d_ff ->
  1 <= b -> 1 <= seq_src -> 1 <= seq_tgt ->
  Transformer_shape vocab n_head d d_ff self = true -> Transformer_fin self ->
  Transformer.decoders self = [] \/ d / n_head = 1 ->
  indices_shape b seq_src vocab x = true ->
  indices_shape b seq_tgt vocab y = true ->
  (forall n_layer g,
     exists t g',
       Transformer.init (Z.of_nat vocab) (Z.of_nat n_layer) (Z.of_nat n_head)
                        (Z.of_nat d) (Z.of_nat d_ff) g = ok (t, g')
       /\ Transformer_shape vocab n_head d d_ff t = true
       /\ Transformer_fin t
       /\ (n_layer = 0 -> Transformer.decoders t = []))
  /\ exists out,
       Transformer.forward self x y = ok out
       /\ has_shape 1 [b] seq_tgt vocab out = true
       /\ Forall (Forall distribution) out.
Proof.
  intros Hv Hh Hmod Hev Hd Hff Hb Hsrc Htgt Hself Fself Hone Hx Hy. split.
  - intros n_layer g.
    destruct (Transformer_init_ok vocab n_layer n_head d d_ff g Hh Hmod)
      as [t [g' [Hi [Hs Hlen]]]].
    exists t, g'. split; [exact Hi |]. split; [exact Hs |].
    split; [exact (Transformer_init_fin _ _ _ _ _ _ _ _ Hi) |].
    intros ->. now apply length_zero_iff_nil.
  - now apply (Transformer_forward_fin vocab n_head d d_ff b seq_src seq_tgt).
Qed.

Lemma Transformer_forward_distribution_witness :
  exists out,
    Transformer.forward tiny_transformer [[0%Z]] [[1%Z; 0%Z]] = ok out
    /\ has_shape 1 [1] 2 2 out = true
    /\ Forall (Forall distribution) out.
Proof.
  apply (proj2 (Transformer_forward_distribution 2 1 2 1 1 1 2
                  tiny_transformer [[0%Z]] [[1%Z; 0%Z]]
                  (le_S 1 1 (le_n 1)) (le_n 1) eq_refl eq_refl (le_n 2)
                  (le_n 1) (le_n 1) (le_n 1) (le_S 1 1 (le_n 1)) eq_refl
                  (conj (Forall_nil _) (conj (Forall_nil _) eq_refl))
                  (or_introl eq_refl) eq_refl eq_refl)).
Defined.

(** ** Attention over a memory *)

Lemma bcast2_mismatch {A B C} (f : A -> B -> result C)
  (xs : list A) (ys : list B) :
  length xs <> length ys -> length xs <> 1 -> length ys <> 1 ->
  bcast2 f xs ys = raise RuntimeError.
Proof.
  intros Hne Hx Hy. unfold bcast2.
  replace (length xs =? length ys) with false
    by (symmetry; now apply Nat.eqb_neq).
  destruct xs as [| x [| x' xs]]; destruct ys as [| y [| y' ys]];
    simpl in *; try reflexivity; lia.
Qed.

(** X10. With an encoder output as memory, an attention head takes the
    queries from its input and the keys and values from the memory: for an
    input of shape (batch, n, d_model) and a memory of shape
    (batch, m, d_model), whatever [m] is, the result has the shape
    (batch, n, d_key) of the queries.  Without a memory the head attends to
    its own input. *)
Theorem Attention_forward_memory_shape
  (self : Attention.t) (b n m d_model d_key : nat)
  (inputs enc : list (list (list fp))) :
  Attention_shape d_model d_key self = true ->
  1 <= d_model -> 1 <= d_key -> 1 <= m ->
  has_shape 1 [b] n d_model inputs = true ->
  has_shape 1 [b] m d_model enc = true ->
  (exists out, Attention.forward self inputs (Some enc) = ok out
               /\ has_shape 1 [b] n d_key out = true)
  /\ Attention.forward self inputs None
     = Attention.forward self inputs (Some inputs).
Proof.
  intros Hs Hdm Hdk Hm Hin Henc. split; [| reflexivity].
  now apply (Attention_forward_shape self b n m d_model d_key inputs (Some enc)).
Qed.

Lemma Attention_forward_memory_shape_witness :
  exists out,
    Attention.forward tiny_head [[[Fin 1; Fin 2]]]
      (Some [[[Fin 1; Fin 0]; [Fin 0; Fin 1]; [Fin 2; Fin 2]]]) = ok out
    /\ has_shape 1 [1] 1 1 out = true.
Proof.
  exact (proj1 (Attention_forward_memory_shape tiny_head 1 1 3 2 1
                  [[[Fin 1; Fin 2]]]
                  [[[Fin 1; Fin 0]; [Fin 0; Fin 1]; [Fin 2; Fin 2]]]
                  eq_refl (le_S 1 1 (le_n 1)) (le_n 1)
                  (le_S 1 2 (le_S 1 1 (le_n 1))) eq_refl eq_refl)).
Defined.

Lemma Attention_forward_batch_raise
  (self : Attention.t) (b b' n m d_model d_key : nat)
  (inputs enc : list (list (list fp))) :
  Attention_shape d_model d_key self = true ->
  1 <= d_model ->
  has_shape 1 [b] n d_model inputs = true ->
  has_shape 1 [b'] m d_model enc = true ->
  b <> b' -> b <> 1 -> b' <> 1 ->
  Attention.forward self inputs (Some enc) = raise RuntimeError.
Proof.
  intros Hs Hdm Hin Henc Hne Hb Hb'. unfold Attention_shape in Hs.
  apply andb_prop in Hs. destruct Hs as [Hs HWV].
  apply andb_prop in Hs. destruct Hs as [HWK HWQ].
  apply has_shape_tall in Hin, Henc.
  unfold Attention.forward.
  destruct (matmul_w_tall b' m d_model d_key _ _ Henc HWK Hdm) as [K [HK HKs]].
  destruct (matmul_w_tall b' m d_model d_key _ _ Henc HWV Hdm) as [V [HV HVs]].
  destruct (matmul_w_tall b n d_model d_key _ _ Hin HWQ Hdm) as [Q [HQ HQs]].
  rewrite HK, bind_ok_l, HV, bind_ok_l, HQ, bind_ok_l.
  apply tall1_elim in HKs, HQs. destruct HKs as [LK _]. destruct HQs as [LQ _].
  unfold ScaledDotProductAttention.forward, ScaledDotProductAttention.weights.
  cbn [lift1 lift2].
  rewrite bcast2_mismatch; [reflexivity | | |]; rewrite ?length_map;
    change (tensor 0) with (list (list fp)); lia.
Qed.

(** X11. The batch sizes of the input and of the memory must agree or one
    of them must be one: an attention head given an input of [b] sequences
    and a memory of [b'] sequences, with [b], [b'] different and neither
    equal to one, raises RuntimeError at the product of the queries with the
    transposed keys. *)
Theorem Attention_forward_batch_mismatch
  (self : Attention.t) (b b' n m d_model d_key : nat)
  (inputs enc : list (list (list fp))) :
  Attention_shape d_model d_key self = true ->
  1 <= d_model ->
  has_shape 1 [b] n d_model inputs = true ->
  has_shape 1 [b'] m d_model enc = true ->
  b <> b' -> b <> 1 -> b' <> 1 ->
  Attention.forward self inputs (Some enc) = raise RuntimeError.
Proof.
  exact (Attention_forward_batch_raise self b b' n m d_model d_key inputs enc).
Qed.

Lemma Attention_forward_batch_mismatch_witness :
  Attention.forward tiny_head
    [[[Fin 1; Fin 2]]; [[Fin 1; Fin 2]]]
    (Some [[[Fin 1; Fin 0]]; [[Fin 1; Fin 0]]; [[Fin 1; Fin 0]]])
  = raise RuntimeError.
Proof.
  apply (Attention_forward_batch_mismatch tiny_head 2 3 1 1 2 1
           [[[Fin 1; Fin 2]]; [[Fin 1; Fin 2]]]
           [[[Fin 1; Fin 0]]; [[Fin 1; Fin 0]]; [[Fin 1; Fin 0]]]
           eq_refl (le_S 1 1 (le_n 1)) eq_refl eq_refl);
    discriminate.
Defined.

(** ** The sublayer wrapper and the decoder layer *)

(** X12. [Sublayer(layer, d_model)] keeps the shape of its input: whenever
    the wrapped layer returns a tensor of the input's shape
    (batch, seq, d_model), as the feed-forward network and the multi-head
    attention do, the residual sum and the layer normalisation succeed and
    the result has the shape (batch, seq, d_model). *)
Theorem Sublayer_forward_shape
  (layer : list (list (list fp)) -> result (list (list (list fp))))
  (d b n : nat) (x fx : list (list (list fp))) :
  has_shape 1 [b] n d x = true ->
  layer x = ok fx -> has_shape 1 [b] n d fx = true ->
  exists self y,
    Sublayer.init layer (Z.of_nat d) = ok self
    /\ Sublayer.forward self x = ok y
    /\ has_shape 1 [b] n d y = true.
Proof.
  intros Hx Hfx Hfxs.
  destruct (LayerNorm_init_ok d) as [ln [Hln Hlns]].
  destruct (add_norm_shape ln b n d x fx Hlns Hx Hfxs) as [y [Hy Hys]].
  exists {| Sublayer.res_connect := Residual_Connection.init layer;
            Sublayer.layer_norm := ln |}, y.
  split; [| split; [| exact Hys]].
  - unfold Sublayer.init. now rewrite Hln, bind_ok_l.
  - unfold Sublayer.forward, Residual_Connection.forward.
    cbn [Sublayer.res_connect Sublayer.layer_norm Residual_Connection.layer
         Residual_Connection.init].
    now rewrite Hfx, bind_ok_l.
Qed.

Lemma Sublayer_forward_shape_witness :
  let x := [[[Fin 3; Fin 1]; [Fin 1; Fin 3]]] in
  exists self y,
    Sublayer.init (FeedForwardNetwork.forward tiny_feed_forward) 2 = ok self
    /\ Sublayer.forward self x = ok y
    /\ has_shape 1 [1] 2 2 y = true.
Proof.
  exact (Sublayer_forward_shape (FeedForwardNetwork.forward tiny_feed_forward)
           2 1 2 [[[Fin 3; Fin 1]; [Fin 1; Fin 3]]]
           (map (map (FeedForwardNetwork_row tiny_feed_forward))
                [[[Fin 3; Fin 1]; [Fin 1; Fin 3]]])
           eq_refl
           (proj1 (FeedForwardNetwork_forward_rows tiny_feed_forward 2 1 1 2
                     [[[Fin 3; Fin 1]; [Fin 1; Fin 3]]]
                     eq_refl (le_S 1 1 (le_n 1)) (le_n 1) eq_refl))
           eq_refl).
Defined.

(** X13. A decoder layer maps a target of shape (batch, n, d_model) and an
    encoder output of shape (batch, m, d_model), whatever [m] is, to a
    tensor of shape (batch, n, d_model).  With heads of width two or more
    the masked self-attention puts an infinity into the first position, and
    the first row of every batch element of the result holds NaN only; with
    heads of width one the mask changes nothing, and finite weights and
    inputs give a finite result.  The constructor builds a layer of these
    shapes with finite weights, whose first attention masks. *)
Theorem Decoder_forward_mask_effect
  (dec : Decoder.t) (n_head d d_ff b n m : nat)
  (x enc : list (list (list fp))) :
  Decoder_shape n_head d d_ff dec = true ->
  1 <= n_head -> d mod n_head = 0 -> 1 <= d -> 1 <= d_ff ->
  1 <= b -> 1 <= n -> 1 <= m ->
  has_shape 1 [b] n d x = true -> has_shape 1 [b] m d enc = true ->
  (forall g, exists dec' g',
      Decoder.init (Z.of_nat n_head) (Z.of_nat d) (Z.of_nat d_ff) g
      = ok (dec', g')
      /\ Decoder_shape n_head d d_ff dec' = true /\ Decoder_fin dec')
  /\ (2 <= d / n_head ->
      exists y, Decoder.forward dec x enc = ok y
                /\ has_shape 1 [b] n d y = true
                /\ Forall (fun a => Forall (fun v => v = NaN) (hd [] a)) y)
  /\ (d / n_head = 1 -> Decoder_fin dec ->
      all_fin 1 x = true -> all_fin 1 enc = true ->
      exists y, Decoder.forward dec x enc = ok y
                /\ has_shape 1 [b] n d y = true
                /\ all_fin 1 y = true).
Proof.
  intros Hdec Hh Hmod Hd Hff Hb Hn Hm Hx Henc. split; [| split].
  - intros g. destruct (Decoder_init_ok n_head d d_ff g Hh Hmod)
      as [dec' [g' [Hi Hs]]].
    exists dec', g'. split; [exact Hi |]. split; [exact Hs |].
    exact (Decoder_init_fin _ _ _ _ _ _ Hi).
  - intros Hdk.
    destruct (Decoder_forward_nan dec n_head d d_ff b n m x enc Hdec Hh Hmod
                Hdk Hff Hb Hn Hm Hx Henc) as [y [Hy Hys]].
    exists y. split; [exact Hy |].
    apply tall1_elim in Hys. destruct Hys as [Ly Fy]. split.
    + apply has_shape_tall. apply tall1_intro; [exact Ly |].
      eapply Forall_impl; [| exact Fy]. now intros a [Ha _].
    + eapply Forall_impl; [| exact Fy]. now intros a [_ Ha].
  - intros Hone Fdec Fx Fenc.
    apply has_shape_tall in Hx, Henc.
    pose proof (tall_and 1 _ _ [b] x Hx (all_fin_tall 1 _ [b] x Hx Fx)) as Hxf.
    pose proof (tall_and 1 _ _ [b] enc Henc (all_fin_tall 1 _ [b] enc Henc Fenc))
      as Hef.
    destruct (Decoder_forward_fin dec n_head d d_ff b n m x enc Hdec Fdec Hh
                Hmod Hone Hff Hb Hn Hm Hxf Hef) as [y [Hy Hys]].
    exists y. split; [exact Hy |].
    apply tall1_elim in Hys. destruct Hys as [Ly Fy]. split.
    + apply has_shape_tall. apply tall1_intro; [exact Ly |].
      eapply Forall_impl; [| exact Fy]. now intros a [Ha _].
    + cbn [all_fin]. apply forallb_forall. intros a Ha.
      rewrite Forall_forall in Fy. now destruct (Fy a Ha) as [_ F].
Qed.

Lemma Decoder_forward_mask_effect_witness :
  exists y,
    Decoder.forward tiny_decoder [[[Fin 1; Fin 2]; [Fin 3; Fin 4]]]
      [[[Fin 1; Fin 0]]] = ok y
    /\ has_shape 1 [1] 2 2 y = true
    /\ Forall (fun a => Forall (fun v => v = NaN) (hd [] a)) y.
Proof.
  exact (proj1 (proj2 (Decoder_forward_mask_effect tiny_decoder 1 2 1 1 2 1
                  [[[Fin 1; Fin 2]; [Fin 3; Fin 4]]] [[[Fin 1; Fin 0]]]
                  eq_refl (le_n 1) eq_refl (le_S 1 1 (le_n 1)) (le_n 1)
                  (le_n 1) (le_S 1 1 (le_n 1)) (le_n 1) eq_refl eq_refl))
               (le_n 2)).
Defined.

(** ** The positional encoding and the width of its input *)

Lemma PE_forward_steps_gen (dm w seq_len : nat) (x : list (list (list fp))) :
  is_matrix seq_len w (hd [] x) = true -> 1 <= seq_len ->
  PositionalEncoding.forward (PositionalEncoding.init (Z.of_nat dm)) x
  = (PE <- assign_cols 0 (full seq_len w FP.zero) (PE_sines dm seq_len) ;;
     PE <- assign_cols 1 PE (PE_cosines dm seq_len) ;;
     ok PE).
Proof.
  intros Hx Hseq. unfold PositionalEncoding.forward.
  rewrite (is_matrix_length _ _ _ Hx), (is_matrix_ncols _ _ _ Hx Hseq).
  replace (length (full seq_len w FP.zero)) with seq_len
    by (unfold full; now rewrite repeat_length).
  rewrite arange_of_nat, bind_ok_l.
  cbn [PositionalEncoding.d_model PositionalEncoding.init].
  change 2%Z with (Z.of_nat 2). rewrite <- Nat2Z.inj_div, arange_of_nat.
  reflexivity.
Qed.

Lemma assign_cols_fits (start h rows cols : nat) (dst src : list (list fp)) :
  is_matrix rows cols dst = true -> is_matrix rows h src = true ->
  1 <= rows -> h = 1 \/ h = slice_len start 2 cols ->
  exists PE, assign_cols start dst src = ok PE
             /\ is_matrix rows cols PE = true.
Proof.
  intros Hd Hs Hr Hfit.
  assert (L : length src = length dst).
  { rewrite (is_matrix_length _ _ _ Hs). now rewrite (is_matrix_length _ _ _ Hd). }
  destruct (Nat.eq_dec h (slice_len start 2 cols)) as [E | NE].
  - rewrite assign_cols_exact; [| exact L |].
    + eexists. split; [reflexivity |].
      apply assign_cols_result_shape; [exact Hd |].
      exact (is_matrix_length _ _ _ Hs).
    + rewrite (is_matrix_ncols _ _ _ Hd Hr), <- E.
      exact (is_matrix_rows _ _ _ Hs).
  - destruct Hfit as [-> | E]; [| contradiction].
    rewrite assign_cols_broadcast; [| exact L | exact (is_matrix_rows _ _ _ Hs)].
    eexists. split; [reflexivity |].
    apply assign_cols_result_shape; [exact Hd |].
    rewrite length_map. exact (is_matrix_length _ _ _ Hs).
Qed.

Lemma assign_cols_misfit (start h rows cols : nat) (dst src : list (list fp)) :
  is_matrix rows cols dst = true -> is_matrix rows h src = true ->
  1 <= rows -> h <> 1 -> h <> slice_len start 2 cols ->
  assign_cols start dst src = raise RuntimeError.
Proof.
  intros Hd Hs Hr H1 Hne.
  apply (assign_cols_mismatch start h).
  - rewrite (is_matrix_length _ _ _ Hs). now rewrite (is_matrix_length _ _ _ Hd).
  - now rewrite (is_matrix_length _ _ _ Hs).
  - exact (is_matrix_rows _ _ _ Hs).
  - now rewrite (is_matrix_ncols _ _ _ Hd Hr).
  - exact H1.
Qed.

Lemma half_even (w : nat) : Nat.even w = true -> (w + 1) / 2 = w / 2.
Proof.
  intros H. apply Nat.even_spec in H. destruct H as [k ->].
  rewrite (Nat.mul_comm 2 k), Nat.div_mul by lia.
  rewrite Nat.div_add_l by lia. simpl. lia.
Qed.

Lemma half_odd (w : nat) : Nat.even w = false -> (w + 1) / 2 = S (w / 2).
Proof.
  intros H. assert (Ho : Nat.odd w = true)
    by (unfold Nat.odd; now rewrite H).
  apply Nat.odd_spec in Ho. destruct Ho as [k ->].
  replace (2 * k + 1 + 1) with ((k + 1) * 2) by lia.
  rewrite Nat.div_mul by lia.
  rewrite (Nat.mul_comm 2 k), Nat.div_add_l by lia. simpl. lia.
Qed.

(** X14. [PositionalEncoding(d_model)] accepts an input of width [w]
    exactly when [d_model // 2] is one ([d_model] is 2 or 3: the single sine
    and cosine columns are broadcast over all columns), or [w] is even and
    [d_model // 2 = w / 2] ([d_model] is [w] or [w + 1]); it then returns a
    (seq, w) matrix.  In every other case the slice assignment raises
    RuntimeError. *)
Theorem PositionalEncoding_forward_width
  (dm w b seq_len : nat) (x : list (list (list fp))) :
  1 <= b -> 1 <= seq_len -> has_shape 1 [b] seq_len w x = true ->
  if (dm / 2 =? 1) || (Nat.even w && (dm / 2 =? w / 2))
  then exists PE,
         PositionalEncoding.forward (PositionalEncoding.init (Z.of_nat dm)) x
         = ok PE
         /\ is_matrix seq_len w PE = true
  else PositionalEncoding.forward (PositionalEncoding.init (Z.of_nat dm)) x
       = raise RuntimeError.
Proof.
  intros Hb Hseq Hx.
  rewrite (PE_forward_steps_gen dm w seq_len x
             (has_shape_hd b seq_len w x Hx Hb) Hseq).
  pose proof (full_is_matrix seq_len w FP.zero) as H0.
  pose proof (sines_shape dm seq_len) as Hs.
  pose proof (cosines_shape dm seq_len) as Hc.
  destruct ((dm / 2 =? 1) || (Nat.even w && (dm / 2 =? w / 2))) eqn:Efit.
  - assert (Hfit : forall start, start = 0 \/ start = 1 ->
              dm / 2 = 1 \/ dm / 2 = slice_len start 2 w).
    { intros start Hst. apply orb_prop in Efit.
      destruct Efit as [E | E]; [left; now apply Nat.eqb_eq |].
      apply andb_prop in E. destruct E as [Ev E]. apply Nat.eqb_eq in E.
      right. destruct Hst as [-> | ->].
      - now rewrite slice_len_even_start, half_even.
      - now rewrite slice_len_odd_start. }
    destruct (assign_cols_fits 0 (dm / 2) seq_len w _ _ H0 Hs Hseq
                (Hfit 0 (or_introl eq_refl))) as [PE1 [E1 H1]].
    rewrite E1, bind_ok_l.
    destruct (assign_cols_fits 1 (dm / 2) seq_len w _ _ H1 Hc Hseq
                (Hfit 1 (or_intror eq_refl))) as [PE2 [E2 H2]].
    rewrite E2, bind_ok_l. now exists PE2.
  - apply orb_false_elim in Efit. destruct Efit as [Eone Eeven].
    apply Nat.eqb_neq in Eone.
    destruct (Nat.eq_dec (dm / 2) (slice_len 0 2 w)) as [E | NE].
    + destruct (assign_cols_fits 0 (dm / 2) seq_len w _ _ H0 Hs Hseq
                  (or_intror E)) as [PE1 [E1 H1]].
      rewrite E1, bind_ok_l.
      rewrite (assign_cols_misfit 1 (dm / 2) seq_len w _ _ H1 Hc Hseq Eone);
        [reflexivity |].
      rewrite slice_len_odd_start. rewrite slice_len_even_start in E.
      destruct (Nat.even w) eqn:Ev.
      * rewrite (half_even w Ev) in E. simpl in Eeven.
        apply Nat.eqb_neq in Eeven. contradiction.
      * rewrite (half_odd w Ev) in E. lia.
    + now rewrite (assign_cols_misfit 0 (dm / 2) seq_len w _ _ H0 Hs Hseq Eone NE).
Qed.

Lemma PositionalEncoding_forward_width_witness :
  PositionalEncoding.forward (PositionalEncoding.init 4)
    [[[Fin 0; Fin 0; Fin 0; Fin 0; Fin 0; Fin 0]]] = raise RuntimeError.
Proof.
  exact (PositionalEncoding_forward_width 4 6 1 1
           [[[Fin 0; Fin 0; Fin 0; Fin 0; Fin 0; Fin 0]]]
           (le_n 1) (le_n 1) eq_refl).
Defined.

(** X15. Adding the positional encoding to a batch, [x + pos_encoding(x)],
    adds the same (seq, d_model) matrix to every sequence of the batch: the
    result has the shape (batch, seq, d_model) of [x] and its entry at
    sequence [k], position [pos] and feature [j] is the entry of [x] plus
    the sinusoid of [pos] and [j]. *)
Theorem PositionalEncoding_added_to_every_sequence
  (d b seq_len : nat) (x : list (list (list fp))) :
  Nat.even d = true -> 2 <= d -> 1 <= b -> 1 <= seq_len ->
  has_shape 1 [b] seq_len d x = true ->
  exists PE out,
    PositionalEncoding.forward (PositionalEncoding.init (Z.of_nat d)) x = ok PE
    /\ tadd 1 x [PE] = ok out
    /\ has_shape 1 [b] seq_len d out = true
    /\ forall k pos j, k < b -> pos < seq_len -> j < d ->
         nth j (nth pos (nth k out []) []) FP.zero
         = (nth j (nth pos (nth k x []) []) FP.zero + sinusoid d pos j)%fp.
Proof.
  intros Hev Hd Hb Hseq Hx.
  set (PE := map (PE_row d) (seq 0 seq_len)).
  assert (HPE : is_matrix seq_len d PE = true) by apply PE_rows_shape.
  apply has_shape_tall in Hx. pose proof Hx as Hx'.
  apply tall1_elim in Hx'. destruct Hx' as [Lx Fx].
  rewrite Forall_forall in Fx.
  exists PE, (map (fun a => zip_rows FP.add a PE) x).
  split; [| split; [| split]].
  - apply PE_forward_rows; [| exact Hseq | exact Hev].
    apply (has_shape_hd b); [now apply has_shape_tall | exact Hb].
  - rewrite tadd_broadcast_eq. apply mapM_ok_in. intros a Ha.
    apply (mzip_value FP.add seq_len d); [now apply Fx | exact HPE].
  - apply has_shape_tall. apply tall1_intro; [now rewrite length_map |].
    rewrite Forall_forall. intros a Ha. apply in_map_iff in Ha.
    destruct Ha as [a0 [<- Ha0]].
    apply zip_rows_is_matrix; [now apply Fx | exact HPE].
  - intros k pos j Hk Hpos Hj.
    assert (Hkx : k < length x) by (rewrite <- Lx in Hk; exact Hk).
    rewrite (nth_map_in _ _ k [] [] Hkx).
    rewrite (zip_rows_nth FP.add seq_len d pos j _ _
               (Fx _ (nth_In x [] Hkx)) HPE Hpos Hj).
    f_equal. unfold PE. rewrite (nth_map_seq _ _ _ _ Hpos).
    rewrite (nth_indep _ FP.zero NaN) by now rewrite PE_row_length.
    now apply PE_row_entry.
Qed.

Lemma PositionalEncoding_added_to_every_sequence_witness :
  exists PE out,
    PositionalEncoding.forward (PositionalEncoding.init 2)
      [[[Fin 5; Fin 7]]; [[Fin 1; Fin 2]]] = ok PE
    /\ tadd 1 [[[Fin 5; Fin 7]]; [[Fin 1; Fin 2]]] [PE] = ok out
    /\ has_shape 1 [2] 1 2 out = true.
Proof.
  destruct (PositionalEncoding_added_to_every_sequence 2 2 1
              [[[Fin 5; Fin 7]]; [[Fin 1; Fin 2]]]
              eq_refl (le_n 2) (le_S 1 1 (le_n 1)) (le_n 1) eq_refl)
    as [PE [out [H1 [H2 [H3 _]]]]].
  exists PE, out. repeat split; assumption.
Defined.

(** ** Constructor arguments below zero *)

Lemma randn_nonneg (rows cols : Z) (g : rng) :
  (0 <= rows)%Z -> (0 <= cols)%Z -> exists m g', randn rows cols g = ok (m, g').
Proof.
  intros Hr Hc. unfold randn.
  replace (rows <? 0)%Z with false by (symmetry; apply Z.ltb_ge; lia).
  replace (cols <? 0)%Z with false by (symmetry; apply Z.ltb_ge; lia).
  cbn [orb]. eexists. eexists. reflexivity.
Qed.

Lemma randn_negative_rows (rows cols : Z) (g : rng) :
  (rows < 0)%Z -> randn rows cols g = raise RuntimeError.
Proof.
  intros Hr. unfold randn.
  replace (rows <? 0)%Z with true by (symmetry; apply Z.ltb_lt; lia).
  reflexivity.
Qed.

(** X16. [MultiHeadAttention(n_head, d_model)] checks only that [n_head]
    divides [d_model].  A negative [n_head] that divides a non-negative
    [d_model] passes the assertion: the constructor returns a layer without
    any head, and it is the forward pass that fails, with RuntimeError at the
    concatenation of an empty list.  A positive [n_head] that divides a
    negative [d_model] passes the assertion too, and the constructor fails
    with RuntimeError when the first head draws its weights. *)
Theorem MultiHeadAttention_init_negative
  (n_head d_model : Z) (mask : bool) (g : rng)
  (x : list (list (list fp))) (encoder_output : option (list (list (list fp)))) :
  (n_head | d_model)%Z ->
  ((n_head < 0)%Z -> (0 <= d_model)%Z ->
   exists self g',
     MultiHeadAttention.init n_head d_model mask g = ok (self, g')
     /\ MultiHeadAttention.multi_head_attention self = []
     /\ MultiHeadAttention.forward self x encoder_output = raise RuntimeError)
  /\ ((0 < n_head)%Z -> (d_model < 0)%Z ->
      MultiHeadAttention.init n_head d_model mask g = raise RuntimeError).
Proof.
  intros Hdiv. split.
  - intros Hn Hd. unfold MultiHeadAttention.init.
    replace (n_head =? 0)%Z with false by (symmetry; apply Z.eqb_neq; lia).
    assert (Hmod : (d_model mod n_head = 0)%Z)
      by (apply Z.mod_divide; [lia | exact Hdiv]).
    rewrite Hmod. cbn [Z.eqb negb]. cbv zeta.
    replace (Z.to_nat n_head) with 0 by lia.
    cbn [MultiHeadAttention.attention_list]. rewrite bind_ok_l.
    assert (Hq : (Z.quot d_model n_head <= 0)%Z).
    { rewrite <- (Z.opp_involutive n_head), Z.quot_opp_r by lia.
      pose proof (Z.quot_pos d_model (- n_head) Hd ltac:(lia)). lia. }
    destruct (randn_nonneg (n_head * Z.quot d_model n_head) d_model g)
      as [w [g' Hw]]; [nia | exact Hd |].
    rewrite Hw, bind_ok_l. eexists. eexists.
    split; [reflexivity |]. split; reflexivity.
  - intros Hn Hd. unfold MultiHeadAttention.init.
    replace (n_head =? 0)%Z with false by (symmetry; apply Z.eqb_neq; lia).
    assert (Hmod : (d_model mod n_head = 0)%Z)
      by (apply Z.mod_divide; [lia | exact Hdiv]).
    rewrite Hmod. cbn [Z.eqb negb]. cbv zeta.
    destruct (Z.to_nat n_head) as [| k] eqn:Ek; [lia |].
    cbn [MultiHeadAttention.attention_list]. unfold Attention.init.
    now rewrite (randn_negative_rows d_model _ g Hd).
Qed.

Lemma MultiHeadAttention_init_negative_witness :
  exists self g',
    MultiHeadAttention.init (-8) 512 false (fun _ => 0%R) = ok (self, g')
    /\ MultiHeadAttention.multi_head_attention self = []
    /\ MultiHeadAttention.forward self [[[Fin 1]]] None = raise RuntimeError.
Proof.
  apply (proj1 (MultiHeadAttention_init_negative (-8) 512 false (fun _ => 0%R)
                  [[[Fin 1]]] None
                  (ex_intro _ (-64)%Z eq_refl))); [reflexivity |].
  discriminate.
Defined.

(** ** The shifted target of the unit test *)

Lemma concat_rect_length {A} (n : nat) (y : list (list A)) :
  Forall (fun r => length r = n) y -> length (concat y) = length y * n.
Proof.
  induction 1 as [| r y Hr _ IH]; [reflexivity |].
  cbn [concat length]. rewrite length_app, IH, Hr. lia.
Qed.

Lemma concat_rect_nth {A} (n : nat) (y : list (list A)) (d : A) :
  Forall (fun r => length r = n) y ->
  forall i j, i < length y -> j < n ->
    nth (i * n + j) (concat y) d = nth j (nth i y []) d.
Proof.
  induction 1 as [| r y Hr _ IH]; intros i j Hi Hj; [simpl in Hi; lia |].
  cbn [concat]. destruct i as [| i].
  - cbn [nth Nat.mul Nat.add]. apply app_nth1. lia.
  - cbn [nth]. replace (S i * n + j) with (length r + (i * n + j)) by (simpl; lia).
    rewrite app_nth2_plus. apply IH; [simpl in Hi; lia | exact Hj].
Qed.

Lemma reshape_length {A} (rows cols : nat) (l : list A) :
  length (reshape rows cols l) = rows.
Proof.
  revert l. induction rows as [| r IH]; intros l; [reflexivity |].
  cbn [reshape length]. now rewrite IH.
Qed.

Lemma reshape_rows {A} (rows cols : nat) (l : list A) :
  rows * cols <= length l ->
  Forall (fun r => length r = cols) (reshape rows cols l).
Proof.
  revert l. induction rows as [| r IH]; intros l Hl; [constructor |].
  cbn [reshape]. constructor.
  - rewrite length_firstn. simpl in Hl. lia.
  - apply IH. rewrite length_skipn. simpl in Hl. lia.
Qed.

Lemma reshape_nth {A} (rows cols : nat) (l : list A) (d : A) :
  forall i j, i < rows -> j < cols ->
    nth j (nth i (reshape rows cols l) []) d = nth (i * cols + j) l d.
Proof.
  revert l. induction rows as [| r IH]; intros l i j Hi Hj; [lia |].
  cbn [reshape]. destruct i as [| i].
  - cbn [nth Nat.mul Nat.add]. rewrite nth_firstn.
    now replace (j <? cols) with true by (symmetry; now apply Nat.ltb_lt).
  - cbn [nth]. rewrite IH by lia. rewrite nth_skipn. f_equal. simpl. lia.
Qed.

Lemma roll_flat_length {A} (shifts : Z) (l : list A) :
  length (roll_flat shifts l) = length l.
Proof.
  unfold roll_flat. destruct (length l) as [| k] eqn:E; [exact E |].
  cbv zeta. rewrite length_app, length_skipn, length_firstn, E. lia.
Qed.

Lemma roll_flat_nth {A} (shifts : Z) (l : list A) (d : A) (k : nat) :
  k < length l ->
  nth k (roll_flat shifts l) d
  = nth (Z.to_nat ((Z.of_nat k - shifts) mod Z.of_nat (length l))) l d.
Proof.
  intros Hk. unfold roll_flat.
  destruct (length l) as [| m] eqn:E; [lia |].
  cbv zeta. set (size := S m) in *.
  assert (Hsize : (0 < Z.of_nat size)%Z) by (unfold size; lia).
  pose proof (Z.mod_pos_bound shifts (Z.of_nat size) Hsize) as Hs.
  set (s := (shifts mod Z.of_nat size)%Z) in *.
  assert (Hmod : ((Z.of_nat k - shifts) mod Z.of_nat size
                  = (Z.of_nat k - s) mod Z.of_nat size)%Z).
  { unfold s. now rewrite Zminus_mod_idemp_r. }
  rewrite Hmod.
  destruct (Z_lt_le_dec (Z.of_nat k) s) as [Hlt | Hge].
  - rewrite app_nth1 by (rewrite length_skipn, E; fold size; lia).
    rewrite nth_skipn. f_equal.
    assert (E' : ((Z.of_nat k - s) mod Z.of_nat size
                  = Z.of_nat k - s + Z.of_nat size)%Z).
    { rewrite <- (Z_mod_plus_full (Z.of_nat k - s) 1 (Z.of_nat size)), Z.mul_1_l.
      apply Z.mod_small. lia. }
    rewrite E'. lia.
  - rewrite app_nth2 by (rewrite length_skipn, E; fold size; lia).
    rewrite length_skipn, E. fold size. rewrite nth_firstn.
    replace (k - (size - (size - Z.to_nat s)) <? size - Z.to_nat s) with true
      by (symmetry; apply Nat.ltb_lt; lia).
    f_equal. rewrite Z.mod_small by lia. lia.
Qed.

(** X17. The unit test shifts the target with [torch.roll(y, 1)] and no
    [dims]: the (batch, seq) tensor is rolled as one flat sequence.  The
    shape is kept and every token moves one position to the right inside its
    row, but position 0 of a row receives the last token of the previous
    row, and position 0 of the first row the last token of the last row: the
    shifted target of one sequence starts with a token of another
    sequence. *)
Theorem roll_shifts_across_sequences (b n : nat) (y : list (list Z)) :
  1 <= b -> 1 <= n ->
  length y = b -> Forall (fun r => length r = n) y ->
  length (roll 1 y) = b
  /\ Forall (fun r => length r = n) (roll 1 y)
  /\ (forall i j, i < b -> 1 <= j -> j < n ->
        nth j (nth i (roll 1 y) []) 0%Z = nth (j - 1) (nth i y []) 0%Z)
  /\ (forall i, 1 <= i -> i < b ->
        nth 0 (nth i (roll 1 y) []) 0%Z = nth (n - 1) (nth (i - 1) y []) 0%Z)
  /\ nth 0 (nth 0 (roll 1 y) []) 0%Z = nth (n - 1) (nth (b - 1) y []) 0%Z.
Proof.
  intros Hb Hn Ly Hy.
  assert (Hhd : length (hd [] y) = n).
  { destruct y as [| r y']; [simpl in Ly; lia |]. exact (Forall_inv Hy). }
  assert (Lc : length (concat y) = b * n)
    by (rewrite (concat_rect_length n y Hy); now rewrite Ly).
  assert (Hsize : 1 <= b * n) by nia.
  unfold roll. rewrite Ly, Hhd.
  assert (Hentry : forall i j, i < b -> j < n ->
            nth j (nth i (reshape b n (roll_flat 1 (concat y))) []) 0%Z
            = nth (Z.to_nat ((Z.of_nat (i * n + j) - 1)
                             mod Z.of_nat (b * n))) (concat y) 0%Z).
  { intros i j Hi Hj. rewrite reshape_nth by assumption.
    rewrite roll_flat_nth by (rewrite Lc; nia). now rewrite Lc. }
  split; [apply reshape_length |].
  split; [apply reshape_rows; rewrite roll_flat_length, Lc; lia |].
  split; [| split].
  - intros i j Hi H1 Hj. rewrite (Hentry i j Hi Hj).
    rewrite Z.mod_small by nia.
    replace (Z.to_nat (Z.of_nat (i * n + j) - 1)) with (i * n + (j - 1)) by lia.
    apply concat_rect_nth; [exact Hy | lia | lia].
  - intros i H1 Hi. rewrite (Hentry i 0 Hi Hn).
    rewrite Z.mod_small by nia.
    replace (Z.to_nat (Z.of_nat (i * n + 0) - 1))
      with ((i - 1) * n + (n - 1)) by nia.
    apply concat_rect_nth; [exact Hy | lia | lia].
  - rewrite (Hentry 0 0 Hb Hn). cbn [Nat.mul Nat.add Z.of_nat].
    assert (E : ((0 - 1) mod Z.of_nat (b * n) = Z.of_nat (b * n) - 1)%Z).
    { rewrite <- (Z_mod_plus_full (0 - 1) 1 (Z.of_nat (b * n))), Z.mul_1_l.
      rewrite Z.mod_small by lia. lia. }
    rewrite E.
    replace (Z.to_nat (Z.of_nat (b * n) - 1))
      with ((b - 1) * n + (n - 1)) by nia.
    apply concat_rect_nth; [exact Hy | lia | lia].
Qed.

Lemma roll_shifts_across_sequences_witness :
  nth 0 (nth 1 (roll 1 [[1; 2; 3]; [4; 5; 6]]%Z) []) 0%Z = 3%Z.
Proof.
  refine (proj1 (proj2 (proj2 (proj2
            (roll_shifts_across_sequences 2 3 [[1; 2; 3]; [4; 5; 6]]%Z
               _ _ eq_refl _)))) 1 _ _);
    try lia; repeat constructor.
Defined.

(** ** The embedded input, and inputs that the model refuses *)

Lemma embed_entries
  (self : Transformer.t) (vocab d b seq_len : nat) (idx : list (list Z)) :
  is_matrix vocab d (Embedding.weight (Transformer.embedding self)) = true ->
  PositionalEncoding.d_model (Transformer.pos_encoding self) = Z.of_nat d ->
  Transformer.d_model self = Z.of_nat d ->
  Nat.even d = true -> 2 <= d -> 1 <= b -> 1 <= seq_len ->
  indices_shape b seq_len vocab idx = true ->
  exists e,
    Transformer.embed self idx = ok e
    /\ has_shape 1 [b] seq_len d e = true
    /\ forall k pos j, k < b -> pos < seq_len -> j < d ->
         let token := Z.to_nat (nth pos (nth k idx []) 0%Z) in
         let E := Embedding.weight (Transformer.embedding self) in
         nth j (nth pos (nth k e []) []) FP.zero
         = (nth j (nth token E []) FP.zero * FP.sqrt (FP.of_Z (Z.of_nat d))
            + sinusoid d pos j)%fp.
Proof.
  intros HE Hpe Hdm Hev Hd Hb Hseq Hidx.
  set (E := Embedding.weight (Transformer.embedding self)) in *.
  set (e0 := map (map (fun i => nth (Z.to_nat i) E [])) idx).
  assert (He0 : Embedding.forward (Transformer.embedding self) idx = ok e0).
  { apply Embedding_forward_in_range.
    exact (indices_in_vocab _ vocab d b seq_len idx HE Hidx). }
  assert (He0s : has_shape 1 [b] seq_len d e0 = true).
  { destruct (Embedding_forward_shape _ vocab d b seq_len idx HE Hidx)
      as [e' [He' Hs']].
    rewrite He0 in He'. injection He' as <-. exact Hs'. }
  set (scale := fun v => (v * FP.sqrt (FP.of_Z (Z.of_nat d)))%fp).
  set (x := tmap 1 scale e0).
  assert (Hxs : has_shape 1 [b] seq_len d x = true) by now apply tmap_shape.
  set (PE := map (PE_row d) (seq 0 seq_len)).
  assert (HPE : is_matrix seq_len d PE = true) by apply PE_rows_shape.
  pose proof (indices_shape_elim _ _ _ _ Hidx) as [Lidx Hrows].
  rewrite Forall_forall in Hrows.
  pose proof Hxs as Hx. apply has_shape_tall in Hx. apply tall1_elim in Hx.
  destruct Hx as [Lx Fx]. rewrite Forall_forall in Fx.
  exists (map (fun a => zip_rows FP.add a PE) x). split; [| split].
  - unfold Transformer.embed. rewrite He0, bind_ok_l. cbv zeta.
    rewrite Hdm. fold scale. fold x.
    assert (Hinit : Transformer.pos_encoding self
                    = PositionalEncoding.init (Z.of_nat d)).
    { destruct (Transformer.pos_encoding self) as [dm]. simpl in Hpe.
      now rewrite Hpe. }
    rewrite Hinit.
    rewrite (PE_forward_rows d seq_len x (has_shape_hd b seq_len d x Hxs Hb)
               Hseq Hev), bind_ok_l.
    fold PE. rewrite tadd_broadcast_eq. apply mapM_ok_in. intros a Ha.
    apply (mzip_value FP.add seq_len d); [now apply Fx | exact HPE].
  - apply has_shape_tall. apply tall1_intro; [now rewrite length_map |].
    rewrite Forall_forall. intros a Ha. apply in_map_iff in Ha.
    destruct Ha as [a0 [<- Ha0]].
    apply zip_rows_is_matrix; [now apply Fx | exact HPE].
  - intros k pos j Hk Hpos Hj. cbv zeta.
    assert (Hkx : k < length x) by (rewrite <- Lx in Hk; exact Hk).
    assert (Hki : k < length idx) by lia.
    destruct (Hrows _ (nth_In idx [] Hki)) as [Lrow _].
    rewrite (nth_map_in _ _ k [] [] Hkx).
    rewrite (zip_rows_nth FP.add seq_len d pos j _ _
               (Fx _ (nth_In x [] Hkx)) HPE Hpos Hj).
    f_equal.
    + unfold x, tmap, mmap, e0. cbn [lift1]. rewrite !map_map.
      change (tensor 0) with (list (list fp)).
      rewrite (nth_map_in _ _ k [] [] Hki). rewrite map_map.
      rewrite (nth_map_in _ _ pos 0%Z []) by lia.
      assert (Ltok : length (nth (Z.to_nat (nth pos (nth k idx []) 0%Z)) E []) = d).
      { apply (is_matrix_nth_row vocab); [exact HE |].
        destruct (Hrows _ (nth_In idx [] Hki)) as [_ Fr].
        rewrite Forall_forall in Fr.
        assert (Hp : pos < length (nth k idx [])) by lia.
        specialize (Fr _ (nth_In (nth k idx []) 0%Z Hp)). lia. }
      rewrite (nth_map_in _ _ j FP.zero FP.zero) by lia. reflexivity.
    + unfold PE. rewrite (nth_map_seq _ _ _ _ Hpos).
      rewrite (nth_indep _ FP.zero NaN) by now rewrite PE_row_length.
      now apply PE_row_entry.
Qed.

Lemma Transformer_shape_embedding (vocab n_head d d_ff : nat) (self : Transformer.t) :
  Transformer_shape vocab n_head d d_ff self = true ->
  is_matrix vocab d (Embedding.weight (Transformer.embedding self)) = true
  /\ PositionalEncoding.d_model (Transformer.pos_encoding self) = Z.of_nat d
  /\ Transformer.d_model self = Z.of_nat d.
Proof.
  unfold Transformer_shape. intros Hs.
  apply andb_prop in Hs. destruct Hs as [Hs Hdm].
  apply andb_prop in Hs. destruct Hs as [Hs Hpe].
  apply andb_prop in Hs. destruct Hs as [_ HE].
  apply Z.eqb_eq in Hdm, Hpe. auto.
Qed.

(** X18. The input of the encoder and decoder stacks: for even
    [d_model >= 2] and tokens inside the vocabulary, the embedding step of
    [Transformer.forward] returns a tensor of shape (batch, seq, d_model)
    whose entry at sequence [k], position [pos] and feature [j] is the
    embedding weight of the token at [(k, pos)], scaled by [sqrt(d_model)],
    plus the sinusoid of [pos] and [j]; the source and the target go through
    the same weights. *)
Theorem Transformer_embed_entries
  (self : Transformer.t) (vocab n_head d d_ff b seq_len : nat)
  (idx : list (list Z)) :
  Transformer_shape vocab n_head d d_ff self = true ->
  Nat.even d = true -> 2 <= d -> 1 <= b -> 1 <= seq_len ->
  indices_shape b seq_len vocab idx = true ->
  exists e,
    Transformer.embed self idx = ok e
    /\ has_shape 1 [b] seq_len d e = true
    /\ forall k pos j, k < b -> pos < seq_len -> j < d ->
         let token := Z.to_nat (nth pos (nth k idx []) 0%Z) in
         let E := Embedding.weight (Transformer.embedding self) in
         nth j (nth pos (nth k e []) []) FP.zero
         = (nth j (nth token E []) FP.zero * FP.sqrt (FP.of_Z (Z.of_nat d))
            + sinusoid d pos j)%fp.
Proof.
  intros Hself.
  destruct (Transformer_shape_embedding vocab n_head d d_ff self Hself)
    as [HE [Hpe Hdm]].
  now apply (embed_entries self vocab d b seq_len idx).
Qed.

Lemma Transformer_embed_entries_witness :
  exists e,
    Transformer.embed tiny_transformer [[1%Z; 0%Z]] = ok e
    /\ has_shape 1 [1] 2 2 e = true
    /\ nth 0 (nth 1 (nth 0 e []) []) FP.zero
       = (Fin 1 * FP.sqrt (FP.of_Z 2) + sinusoid 2 1 0)%fp.
Proof.
  destruct (Transformer_embed_entries tiny_transformer 2 1 2 1 1 2
              [[1%Z; 0%Z]] eq_refl eq_refl (le_n 2) (le_n 1)
              (le_S 1 1 (le_n 1)) eq_refl) as [e [H1 [H2 H3]]].
  exists e. split; [exact H1 |]. split; [exact H2 |].
  exact (H3 0 1 0 (le_n 1) (le_n 2) (le_S 1 1 (le_n 1))).
Defined.

(** ** The shared embedding matrix in the forward pass *)

Lemma lookup_rows_entry (E : matrix) (b n vocab : nat) (idx : list (list Z))
  (i pos j : nat) :
  indices_shape b n vocab idx = true -> i < b -> pos < n ->
  entry3 (map (map (fun t => nth (Z.to_nat t) E [])) idx) i pos j
  = nth j (nth (Z.to_nat (token_at idx i pos)) E []) FP.zero.
Proof.
  intros Hidx Hi Hpos. unfold entry3, token_at.
  pose proof (indices_shape_elim _ _ _ _ Hidx) as [Lidx Hrows].
  rewrite Forall_forall in Hrows.
  assert (Hki : i < length idx) by lia.
  destruct (Hrows _ (nth_In idx [] Hki)) as [Lrow _].
  rewrite (nth_map_in (map (fun t => nth (Z.to_nat t) E [])) idx i [] [] Hki).
  now rewrite (nth_map_in (fun t => nth (Z.to_nat t) E []) _ pos 0%Z []) by lia.
Qed.

Lemma shared_matrix_after
  (self : Transformer.t) (vocab d v k : nat) (a : fp) :
  is_matrix vocab d (Embedding.weight (Transformer.embedding self)) = true ->
  is_matrix vocab d
    (Embedding.weight (Transformer.embedding (set_embedding_entry self v k a)))
  = true.
Proof. intros HE. now apply set_entry_is_matrix. Qed.

Lemma shared_entry_after
  (self : Transformer.t) (vocab d v k : nat) (a : fp) :
  is_matrix vocab d (Embedding.weight (Transformer.embedding self)) = true ->
  v < vocab -> k < d ->
  nth k (nth v (Embedding.weight
                  (Transformer.embedding (set_embedding_entry self v k a))) [])
      FP.zero = a.
Proof.
  intros HE Hv Hk.
  cbn [set_embedding_entry Transformer.embedding Embedding.weight].
  rewrite set_entry_row by (rewrite (is_matrix_length _ _ _ HE); lia).
  apply update_nth_same. now rewrite (is_matrix_nth_row _ _ _ _ HE Hv).
Qed.

Lemma set_entry_other_row (m : matrix) (u v k : nat) (a : fp) :
  u <> v -> nth u (set_entry m v k a) [] = nth u m [].
Proof.
  intros Hne. destruct (Nat.lt_ge_cases u (length m)) as [Hu | Hu].
  - unfold set_entry. rewrite (mapi_nth _ _ _ [] []) by exact Hu.
    destruct (Nat.eqb_spec u v); [contradiction | reflexivity].
  - rewrite !nth_overflow; [reflexivity | exact Hu |].
    unfold set_entry. now rewrite mapi_length.
Qed.

(** the product with a transposed matrix: entry [(pos, u)] is the dot product
    of row [pos] with row [u] of the matrix *)
Lemma matmul_transpose_rows (n vocab d : nat) (A E : matrix) :
  is_matrix n d A = true -> is_matrix vocab d E = true ->
  1 <= vocab -> 1 <= d ->
  matmul A (transpose E) = ok (map (fun row => map (dot row) E) A).
Proof.
  intros HA HE Hv Hd.
  rewrite (matmul_value A (transpose E) d);
    [| exact (is_matrix_rows n d A HA)
     | exact (is_matrix_length d vocab _ (transpose_is_matrix _ _ _ HE Hv))].
  now rewrite (transpose_involutive vocab d E HE Hv Hd).
Qed.

Lemma project_entries (self : Transformer.t) (vocab d b n : nat) (dec : tensor3) :
  is_matrix vocab d (Embedding.weight (Transformer.embedding self)) = true ->
  1 <= vocab -> 1 <= d ->
  has_shape 1 [b] n d dec = true ->
  exists s,
    Transformer.project self dec = ok s
    /\ forall i pos u, i < b -> pos < n -> u < vocab ->
         entry3 s i pos u
         = dot (nth pos (nth i dec []) [])
               (nth u (Embedding.weight (Transformer.embedding self)) []).
Proof.
  intros HE Hv Hd Hdec.
  set (E := Embedding.weight (Transformer.embedding self)) in *.
  apply has_shape_tall in Hdec. apply tall1_elim in Hdec.
  destruct Hdec as [Lb Fdec]. rewrite Forall_forall in Fdec.
  exists (map (fun x => map (fun row => map (dot row) E) x) dec). split.
  - unfold Transformer.project. fold E. rewrite matmul_w_eq.
    apply mapM_ok_in. intros x Hx.
    apply (matmul_transpose_rows n vocab d); auto.
  - intros i pos u Hi Hpos Hu. unfold entry3.
    assert (Hi' : i < length dec) by (rewrite Lb; exact Hi).
    pose proof (Fdec _ (nth_In dec [] Hi')) as Hx.
    rewrite (nth_map_in (fun x => map (fun row => map (dot row) E) x)
               dec i [] [] Hi').
    rewrite (nth_map_in (fun row => map (dot row) E) _ pos [] [])
      by (rewrite (is_matrix_length _ _ _ Hx); exact Hpos).
    apply (nth_map_in (dot _) E u [] FP.zero).
    now rewrite (is_matrix_length _ _ _ HE).
Qed.

(** C6: the model holds one embedding matrix, and [Transformer.forward]
    reads it three times: in the lookup of the source tokens, in the lookup
    of the target tokens, and, transposed, as the matrix of the pre-softmax
    projection of the decoder output (no second matrix exists).  So after
    the assignment of a new value to entry [(v, k)] of the shared matrix,
    the forward pass embeds source and target with the changed matrix and
    projects with its transpose; every position of the source or of the
    target that holds token [v] gets the new value as feature [k] of its
    lookup result, which differs from what it was, and the embedded input
    holds the new value there, scaled by [sqrt(d_model)], plus the position,
    when the positional encoding fits; the score of token [v] at every
    position of the projected decoder output is the dot product of the
    decoder row with row [v] of the changed matrix, the scores of the other
    tokens being what they were; column [v] of the projection matrix is row
    [v] of the changed matrix, holds the new value in row [k] and differs
    from what it was. *)
Theorem Transformer_weight_tying
  (self : Transformer.t) (vocab d v k : nat) (a : fp) :
  let E := Embedding.weight (Transformer.embedding self) in
  let self' := set_embedding_entry self v k a in
  let E' := Embedding.weight (Transformer.embedding self') in
  is_matrix vocab d E = true -> v < vocab -> k < d ->
  a <> nth k (nth v E []) FP.zero ->
  (forall x y,
     Transformer.forward self' x y
     = (xe <- Transformer.embed self' x ;;
        ye <- Transformer.embed self' y ;;
        encoder_output <-
          Transformer.run_encoders (Transformer.encoders self) xe ;;
        decoder_output <-
          Transformer.run_decoders (Transformer.decoders self) ye
            encoder_output ;;
        scores <- matmul_w decoder_output (transpose E') ;;
        ok (softmax 1 scores)))
  /\ (forall idx b n,
        indices_shape b n vocab idx = true ->
        exists L L',
          Embedding.forward (Transformer.embedding self) idx = ok L
          /\ Embedding.forward (Transformer.embedding self') idx = ok L'
          /\ Transformer.embed self' idx
             = (let x := tmap 1 (fun e =>
                                   (e * FP.sqrt (FP.of_Z
                                                   (Transformer.d_model self)))%fp)
                              L' in
                pe <- PositionalEncoding.forward
                        (Transformer.pos_encoding self) x ;;
                tadd 1 x [pe])
          /\ forall i pos, i < b -> pos < n ->
               token_at idx i pos = Z.of_nat v ->
               entry3 L' i pos k = a /\ entry3 L' i pos k <> entry3 L i pos k)
  /\ (Transformer.d_model self = Z.of_nat d ->
      PositionalEncoding.d_model (Transformer.pos_encoding self) = Z.of_nat d ->
      Nat.even d = true -> 2 <= d ->
      forall idx b n,
        1 <= b -> 1 <= n -> indices_shape b n vocab idx = true ->
        exists e e',
          Transformer.embed self idx = ok e
          /\ Transformer.embed self' idx = ok e'
          /\ forall i pos, i < b -> pos < n ->
               token_at idx i pos = Z.of_nat v ->
               entry3 e' i pos k
               = (a * FP.sqrt (FP.of_Z (Z.of_nat d)) + sinusoid d pos k)%fp
               /\ entry3 e i pos k
                  = (nth k (nth v E []) FP.zero
                     * FP.sqrt (FP.of_Z (Z.of_nat d))
                     + sinusoid d pos k)%fp)
  /\ (forall dec,
        Transformer.project self' dec = matmul_w dec (transpose E'))
  /\ (forall dec b n,
        has_shape 1 [b] n d dec = true ->
        exists s s',
          Transformer.project self dec = ok s
          /\ Transformer.project self' dec = ok s'
          /\ forall i pos, i < b -> pos < n ->
               entry3 s' i pos v
               = dot (nth pos (nth i dec []) []) (nth v E' [])
               /\ forall u, u < vocab -> u <> v ->
                    entry3 s' i pos u = entry3 s i pos u)
  /\ column (transpose E') v = nth v E' []
  /\ nth k (column (transpose E') v) FP.zero = a
  /\ column (transpose E') v <> column (transpose E) v.
Proof.
  intros E self' E' HE Hv Hk Ha.
  pose proof (shared_matrix_after self vocab d v k a HE) as HE'.
  pose proof (shared_entry_after self vocab d v k a HE Hv Hk) as Hnew.
  fold E in HE', Hnew. fold self' in HE', Hnew. fold E' in HE', Hnew.
  split; [reflexivity |].
  split; [| split; [| split; [| split; [| split; [| split]]]]].
  - (* the lookups *)
    intros idx b n Hidx.
    exists (map (map (fun t => nth (Z.to_nat t) E [])) idx),
           (map (map (fun t => nth (Z.to_nat t) E' [])) idx).
    assert (HL : Embedding.forward (Transformer.embedding self) idx
                 = ok (map (map (fun t => nth (Z.to_nat t) E [])) idx)).
    { apply Embedding_forward_in_range.
      exact (indices_in_vocab _ vocab d b n idx HE Hidx). }
    assert (HL' : Embedding.forward (Transformer.embedding self') idx
                  = ok (map (map (fun t => nth (Z.to_nat t) E' [])) idx)).
    { apply Embedding_forward_in_range.
      exact (indices_in_vocab _ vocab d b n idx HE' Hidx). }
    split; [exact HL |]. split; [exact HL' |]. split.
    + unfold Transformer.embed. rewrite HL', bind_ok_l. reflexivity.
    + intros i pos Hi Hpos Htok.
      rewrite !(lookup_rows_entry _ b n vocab idx i pos k Hidx Hi Hpos).
      rewrite Htok, Nat2Z.id, Hnew. split; [reflexivity | exact Ha].
  - (* the embedded source and target *)
    intros Hdm Hpe Hev Hd idx b n Hb Hn Hidx.
    destruct (embed_entries self vocab d b n idx HE Hpe Hdm Hev Hd Hb Hn Hidx)
      as [e [He [_ Hent]]].
    destruct (embed_entries self' vocab d b n idx HE' Hpe Hdm Hev Hd Hb Hn Hidx)
      as [e' [He' [_ Hent']]].
    exists e, e'. split; [exact He |]. split; [exact He' |].
    intros i pos Hi Hpos Htok. unfold entry3, token_at in *.
    rewrite (Hent' i pos k Hi Hpos Hk), (Hent i pos k Hi Hpos Hk).
    cbv zeta. fold E E'. rewrite Htok, Nat2Z.id, Hnew.
    split; reflexivity.
  - reflexivity.
  - (* the scores *)
    intros dec b n Hdec.
    destruct (project_entries self vocab d b n dec HE) as [s [Hs Hent]];
      [lia | lia | exact Hdec |].
    destruct (project_entries self' vocab d b n dec HE') as [s' [Hs' Hent']];
      [lia | lia | exact Hdec |].
    exists s, s'. split; [exact Hs |]. split; [exact Hs' |].
    intros i pos Hi Hpos. split.
    + exact (Hent' i pos v Hi Hpos Hv).
    + intros u Hu Hne. rewrite (Hent' i pos u Hi Hpos Hu).
      rewrite (Hent i pos u Hi Hpos Hu). fold E. f_equal.
      now apply set_entry_other_row.
  - now apply (column_transpose vocab d).
  - rewrite (column_transpose vocab d E' v HE' Hv). exact Hnew.
  - rewrite (column_transpose vocab d E' v HE' Hv).
    rewrite (column_transpose vocab d E v HE Hv).
    intros Heq. apply Ha. now rewrite <- Hnew, Heq.
Qed.

Lemma Transformer_weight_tying_witness :
  (exists L L',
     Embedding.forward (Transformer.embedding demo_transformer) [[1%Z; 0%Z]]
     = ok L
     /\ Embedding.forward
          (Transformer.embedding
             (set_embedding_entry demo_transformer 1 0 (Fin 9)))
          [[1%Z; 0%Z]] = ok L'
     /\ entry3 L' 0 0 0 = Fin 9
     /\ entry3 L' 0 0 0 <> entry3 L 0 0 0)
  /\ (exists e e',
        Transformer.embed demo_transformer [[0%Z; 1%Z]] = ok e
        /\ Transformer.embed
             (set_embedding_entry demo_transformer 1 0 (Fin 9))
             [[0%Z; 1%Z]] = ok e'
        /\ entry3 e' 0 1 0
           = (Fin 9 * FP.sqrt (FP.of_Z 2) + sinusoid 2 1 0)%fp)
  /\ column (transpose
               (Embedding.weight
                  (Transformer.embedding
                     (set_embedding_entry demo_transformer 1 0 (Fin 9))))) 1
     <> column (transpose (Embedding.weight
                             (Transformer.embedding demo_transformer))) 1.
Proof.
  assert (Ha : Fin 9 <> nth 0 (nth 1 (Embedding.weight
                 (Transformer.embedding demo_transformer)) []) FP.zero).
  { simpl. unfold advance. intros H. inversion H. lra. }
  destruct (Transformer_weight_tying demo_transformer 2 2 1 0 (Fin 9)
              eq_refl (le_n 2) (le_S 1 1 (le_n 1)) Ha)
    as [_ [Hlook [Hemb [_ [_ [_ [_ Hcol]]]]]]].
  split; [| split; [| exact Hcol]].
  - destruct (Hlook [[1%Z; 0%Z]] 1 2 eq_refl) as [L [L' [HL [HL' [_ Hent]]]]].
    exists L, L'. split; [exact HL |]. split; [exact HL' |].
    exact (Hent 0 0 (le_n 1) (le_S 1 1 (le_n 1)) eq_refl).
  - destruct (Hemb eq_refl eq_refl eq_refl (le_n 2) [[0%Z; 1%Z]] 1 2
                (le_n 1) (le_S 1 1 (le_n 1)) eq_refl)
      as [e [e' [He [He' Hent]]]].
    exists e, e'. split; [exact He |]. split; [exact He' |].
    exact (proj1 (Hent 0 1 (le_n 1) (le_n 2) eq_refl)).
Defined.

Lemma fold_bind_raise {A B} (f : B -> A -> result A) (l : list B) (e : exn) :
  fold_left (fun acc b => a <- acc ;; f b a) l (raise e) = raise e.
Proof. induction l as [| b l IH]; [reflexivity | exact IH]. Qed.

Lemma MultiHeadAttention_forward_batch_raise
  (n_head d_model b b' n m : nat) (self : MultiHeadAttention.t)
  (x enc : list (list (list fp))) :
  1 <= n_head -> 1 <= d_model ->
  MultiHeadAttention_shape n_head d_model self = true ->
  has_shape 1 [b] n d_model x = true ->
  has_shape 1 [b'] m d_model enc = true ->
  b <> b' -> b <> 1 -> b' <> 1 ->
  MultiHeadAttention.forward self x (Some enc) = raise RuntimeError.
Proof.
  intros Hh Hd Hself Hx Henc Hne Hb Hb'.
  unfold MultiHeadAttention_shape in Hself.
  apply andb_prop in Hself. destruct Hself as [Hself _].
  apply andb_prop in Hself. destruct Hself as [Hlen Hheads].
  apply Nat.eqb_eq in Hlen. unfold MultiHeadAttention.forward.
  destruct (MultiHeadAttention.multi_head_attention self) as [| a heads];
    [simpl in Hlen; lia |].
  cbn [forallb] in Hheads. apply andb_prop in Hheads. destruct Hheads as [Ha _].
  cbn [mapM].
  now rewrite (Attention_forward_batch_raise a b b' n m d_model
                 (d_model / n_head) x enc Ha Hd Hx Henc Hne Hb Hb').
Qed.

(** X19. The source and the target must hold the same number of
    sequences: on a well-formed model with at least one decoder layer,
    [Transformer.forward] with a source batch of [b >= 2] sequences and a
    target batch of [b' >= 2] sequences, [b <> b'], raises RuntimeError (in
    the attention of the first decoder layer over the encoder output). *)
Theorem Transformer_forward_batch_mismatch
  (vocab n_head d d_ff b b' seq_src seq_tgt : nat) (self : Transformer.t)
  (x y : list (list Z)) :
  1 <= n_head -> d mod n_head = 0 -> Nat.even d = true -> 2 <= d ->
  1 <= d_ff -> 1 <= seq_src -> 1 <= seq_tgt ->
  Transformer_shape vocab n_head d d_ff self = true ->
  Transformer.decoders self <> [] ->
  indices_shape b seq_src vocab x = true ->
  indices_shape b' seq_tgt vocab y = true ->
  2 <= b -> 2 <= b' -> b <> b' ->
  Transformer.forward self x y = raise RuntimeError.
Proof.
  intros Hh Hmod Hev Hd Hff Hsrc Htgt Hself Hne Hx Hy Hb Hb' Hbb.
  pose proof Hself as Hshape. unfold Transformer_shape in Hshape.
  apply andb_prop in Hshape. destruct Hshape as [Hshape _].
  apply andb_prop in Hshape. destruct Hshape as [Hshape _].
  apply andb_prop in Hshape. destruct Hshape as [Hshape HE].
  apply andb_prop in Hshape. destruct Hshape as [Hencs Hdecs].
  unfold Transformer.forward.
  destruct (embed_shape self vocab n_head d d_ff b seq_src x
              Hself Hev Hd ltac:(lia) Hsrc Hx) as [ex [Hex Hexs]].
  destruct (embed_shape self vocab n_head d d_ff b' seq_tgt y
              Hself Hev Hd ltac:(lia) Htgt Hy) as [ey [Hey Heys]].
  rewrite Hex, bind_ok_l, Hey, bind_ok_l.
  destruct (run_encoders_shape (Transformer.encoders self) n_head d d_ff b
              seq_src ex Hencs Hh) as [enc [Henc Hencshape]];
    [lia | exact Hmod | exact Hff | exact Hsrc | exact Hexs |].
  rewrite Henc, bind_ok_l.
  destruct (Transformer.decoders self) as [| dec decs]; [contradiction |].
  cbn [forallb] in Hdecs. apply andb_prop in Hdecs. destruct Hdecs as [Hdec _].
  unfold Decoder_shape in Hdec.
  apply andb_prop in Hdec. destruct Hdec as [Hdec _].
  apply andb_prop in Hdec. destruct Hdec as [Hdec _].
  apply andb_prop in Hdec. destruct Hdec as [Hdec Hln1].
  apply andb_prop in Hdec. destruct Hdec as [Hdec _].
  apply andb_prop in Hdec. destruct Hdec as [Hdec Hatt].
  apply andb_prop in Hdec. destruct Hdec as [Hmatt _].
  assert (Hraise : Decoder.forward dec ey enc = raise RuntimeError).
  { unfold Decoder.forward.
    destruct (MultiHeadAttention_forward_steps n_head d b' seq_tgt
                (Decoder.masked_attention dec) ey None Hh ltac:(lia) Hmod Htgt
                Hmatt Heys eq_refl)
      as [heads [Z [ma [_ [_ [_ [_ [_ [_ [_ [Hma Hmas]]]]]]]]]]].
    rewrite Hma, bind_ok_l.
    destruct (add_norm_shape (Decoder.layer_norm1 dec) b' seq_tgt d ma ey
                Hln1 Hmas Heys) as [x1 [Hx1 Hx1s]].
    apply bind_inv in Hx1. destruct Hx1 as [s1 [Hs1 Hx1]].
    rewrite Hs1, bind_ok_l, Hx1, bind_ok_l.
    rewrite (MultiHeadAttention_forward_batch_raise n_head d b' b seq_tgt
               seq_src (Decoder.attention dec) x1 enc Hh ltac:(lia) Hatt
               Hx1s Hencshape); [reflexivity | lia | lia | lia]. }
  unfold Transformer.run_decoders. cbn [fold_left].
  rewrite bind_ok_l, Hraise.
  now rewrite (fold_bind_raise
                 (fun decoder a => Decoder.forward decoder a enc)).
Qed.

Lemma Transformer_forward_batch_mismatch_witness :
  Transformer.forward demo_transformer
    [[0%Z]; [1%Z]] [[0%Z]; [1%Z]; [0%Z]] = raise RuntimeError.
Proof.
  apply (Transformer_forward_batch_mismatch 2 1 2 1 2 3 1 1 demo_transformer
           [[0%Z]; [1%Z]] [[0%Z]; [1%Z]; [0%Z]]);
    try reflexivity; try lia; discriminate.
Defined.

(** X20. A model of odd [d_model] other than three cannot run: whatever the
    weights and the (valid) tokens are, [Transformer.forward] raises
    RuntimeError, because the positional encoding of the embedded source
    does not fit its slice. *)
Theorem Transformer_forward_odd_d_model
  (vocab n_head d d_ff b seq_len : nat) (self : Transformer.t)
  (x y : list (list Z)) :
  Transformer_shape vocab n_head d d_ff self = true ->
  Nat.odd d = true -> d <> 3 -> 1 <= b -> 1 <= seq_len ->
  indices_shape b seq_len vocab x = true ->
  Transformer.forward self x y = raise RuntimeError.
Proof.
  intros Hself Hodd H3 Hb Hseq Hx. unfold Transformer_shape in Hself.
  apply andb_prop in Hself. destruct Hself as [Hself Hdm].
  apply andb_prop in Hself. destruct Hself as [Hself Hpe].
  apply andb_prop in Hself. destruct Hself as [_ HE].
  apply Z.eqb_eq in Hdm, Hpe.
  unfold Transformer.forward, Transformer.embed.
  destruct (Embedding_forward_shape _ vocab d b seq_len x HE Hx)
    as [e [He Hes]].
  rewrite He, bind_ok_l. cbv zeta.
  set (x' := tmap 1 _ e).
  assert (Hx' : has_shape 1 [b] seq_len d x' = true) by now apply tmap_shape.
  assert (Hinit : Transformer.pos_encoding self
                  = PositionalEncoding.init (Z.of_nat d)).
  { destruct (Transformer.pos_encoding self) as [dm]. simpl in Hpe.
    now rewrite Hpe. }
  rewrite Hinit.
  now rewrite (PE_forward_odd d seq_len x' (has_shape_hd b seq_len d x' Hx' Hb)
                 Hseq Hodd H3).
Qed.

Lemma Transformer_forward_odd_d_model_witness :
  let self :=
    {| Transformer.n_token := 1; Transformer.n_layer := 0;
       Transformer.n_head := 1; Transformer.d_model := 1; Transformer.d_ff := 1;
       Transformer.encoders := []; Transformer.decoders := [];
       Transformer.embedding := {| Embedding.weight := [[Fin 1]] |};
       Transformer.pos_encoding := PositionalEncoding.init 1 |} in
  Transformer.forward self [[0%Z]] [[0%Z]] = raise RuntimeError.
Proof.
  apply (Transformer_forward_odd_d_model 1 1 1 1 1 1 _ [[0%Z]] [[0%Z]]);
    try reflexivity; try lia; discriminate.
Defined.

(** ** How far the NaN rows reach *)

Lemma bad_row_entry (rows cols i j : nat) (m : list (list fp)) :
  is_matrix rows cols m = true -> i < rows -> j < cols ->
  FP.is_fin (nth j (nth i m []) FP.zero) = false -> bad_row i m.
Proof.
  intros Hm Hi Hj Hbad. exists (nth j (nth i m []) FP.zero).
  split; [| exact Hbad]. apply nth_In.
  now rewrite (is_matrix_nth_row rows cols m i Hm Hi).
Qed.

Lemma bad_row_index (rows cols i : nat) (m : list (list fp)) :
  is_matrix rows cols m = true -> i < rows -> bad_row i m ->
  exists j, j < cols /\ FP.is_fin (nth j (nth i m []) FP.zero) = false.
Proof.
  intros Hm Hi [a [Ha Hbad]].
  destruct (In_nth _ _ FP.zero Ha) as [j [Hj E]].
  rewrite (is_matrix_nth_row rows cols m i Hm Hi) in Hj.
  exists j. split; [exact Hj | now rewrite E].
Qed.

Lemma nan_row_at_bad (rows cols i : nat) (m : list (list fp)) :
  is_matrix rows cols m = true -> i < rows -> 1 <= cols ->
  nan_row_at i m -> bad_row i m.
Proof.
  intros Hm Hi Hc Hnan. apply (bad_row_entry rows cols i 0 m Hm Hi Hc).
  unfold nan_row_at in Hnan. rewrite Forall_forall in Hnan.
  rewrite (Hnan (nth 0 (nth i m []) FP.zero)); [reflexivity |].
  apply nth_In. rewrite (is_matrix_nth_row rows cols m i Hm Hi). lia.
Qed.

Lemma apply_mask_bad_row (rows cols i : nat) (w : list (list fp)) :
  is_matrix rows cols w = true -> i < rows -> i + 1 < cols ->
  exists w', ScaledDotProductAttention.apply_mask w = ok w'
             /\ is_matrix rows cols w' = true /\ bad_row i w'.
Proof.
  intros Hw Hi Hc. eexists.
  split; [apply (apply_mask_value rows cols w Hw); lia |].
  assert (Hz : is_matrix rows cols
                 (zip_rows FP.mul w
                    (ScaledDotProductAttention.look_ahead_mask rows cols))
               = true)
    by (apply zip_rows_is_matrix; [exact Hw | apply look_ahead_mask_is_matrix]).
  split; [exact Hz |].
  apply (bad_row_entry rows cols i (i + 1) _ Hz Hi Hc).
  rewrite (zip_rows_nth _ rows cols i (i + 1) _ _ Hw
             (look_ahead_mask_is_matrix rows cols) Hi Hc).
  rewrite (look_ahead_mask_nth _ _ _ _ Hi Hc), Nat.leb_refl.
  apply mul_NInf_nonfin.
Qed.

Lemma ScaledDotProductAttention_forward_bad_row
  (self : ScaledDotProductAttention.t) (n : nat) (dims : list nat)
  (seq_q seq_k d_k d_v i : nat) (Q K V : tensor n) :
  ScaledDotProductAttention.mask self = true ->
  i < seq_q -> 1 <= seq_k -> 1 <= d_k -> i + 1 < d_v ->
  tall n (fun m => is_matrix seq_q d_k m = true) dims Q ->
  tall n (fun m => is_matrix seq_k d_k m = true) dims K ->
  tall n (fun m => is_matrix seq_k d_v m = true) dims V ->
  exists out,
    ScaledDotProductAttention.forward self n Q K V = ok out
    /\ tall n (fun m => is_matrix seq_q d_v m = true /\ bad_row i m) dims out.
Proof.
  intros Hmask Hq Hk Hd Hv HQ HK HV.
  destruct (ScaledDotProductAttention_forward_steps self n dims
              seq_q seq_k d_k d_v Q K V Hk Hd HQ HK HV) as [wv [Hso ->]].
  rewrite Hmask.
  apply (lift1M_tall n _ (fun m => is_matrix seq_q d_v m = true));
    [| exact Hso].
  intros m Hm. now apply apply_mask_bad_row.
Qed.

Lemma Attention_forward_bad_row
  (self : Attention.t) (b n d_model d_key i : nat)
  (inputs : list (list (list fp))) :
  ScaledDotProductAttention.mask (Attention.scaled_dot_product self) = true ->
  Attention_shape d_model d_key self = true ->
  1 <= d_model -> i + 1 < d_key -> i < n ->
  has_shape 1 [b] n d_model inputs = true ->
  exists out,
    Attention.forward self inputs None = ok out
    /\ tall 1 (fun m => is_matrix n d_key m = true /\ bad_row i m) [b] out.
Proof.
  intros Hmask Hs Hdm Hdk Hn Hin. unfold Attention_shape in Hs.
  apply andb_prop in Hs. destruct Hs as [Hs HWV].
  apply andb_prop in Hs. destruct Hs as [HWK HWQ].
  apply has_shape_tall in Hin.
  unfold Attention.forward. cbv zeta.
  destruct (matmul_w_tall b n d_model d_key _ _ Hin HWK Hdm) as [K [HK HKs]].
  destruct (matmul_w_tall b n d_model d_key _ _ Hin HWV Hdm) as [V [HV HVs]].
  destruct (matmul_w_tall b n d_model d_key _ _ Hin HWQ Hdm) as [Q [HQ HQs]].
  rewrite HK, bind_ok_l, HV, bind_ok_l, HQ, bind_ok_l.
  apply (ScaledDotProductAttention_forward_bad_row
           (Attention.scaled_dot_product self) 1 [b] n n d_key d_key i Q K V);
    auto; lia.
Qed.

Lemma cat_rows_bad_row (n c1 c2 i : nat) (a b : list (list fp)) :
  is_matrix n c1 a = true -> is_matrix n c2 b = true ->
  i < n -> bad_row i a ->
  exists z, cat_rows a b = ok z
            /\ is_matrix n (c1 + c2) z = true /\ bad_row i z.
Proof.
  intros Ha Hb Hi [x [Hx Hbad]].
  destruct (cat_rows_is_matrix n c1 c2 a b Ha Hb) as [z [Hz Hs]].
  exists z. split; [exact Hz |]. split; [exact Hs |].
  rewrite (cat_rows_value n c1 c2 a b Ha Hb) in Hz. injection Hz as <-.
  exists x. split; [| exact Hbad].
  rewrite (nth_map_in _ _ i ([], []) [])
    by (rewrite length_combine, (is_matrix_length _ _ _ Ha),
          (is_matrix_length _ _ _ Hb); lia).
  rewrite combine_nth
    by (rewrite (is_matrix_length _ _ _ Ha), (is_matrix_length _ _ _ Hb); lia).
  cbn [fst snd]. apply in_or_app. now left.
Qed.

Lemma matmul_bad_row (n k d i : nat) (Z W : list (list fp)) :
  is_matrix n k Z = true -> is_matrix k d W = true ->
  i < n -> 1 <= d -> 1 <= k -> bad_row i Z ->
  exists out, matmul Z W = ok out
              /\ is_matrix n d out = true /\ bad_row i out.
Proof.
  intros HZ HW Hi Hd Hk Hbad.
  destruct (matmul_is_matrix n k d Z W HZ HW Hk) as [out [Hout [Hs _]]].
  exists out. split; [exact Hout |]. split; [exact Hs |].
  apply (bad_row_entry n d i 0 out Hs Hi Hd).
  rewrite (matmul_value Z W k) in Hout;
    [| apply (is_matrix_rows _ _ _ HZ) | apply (is_matrix_length _ _ _ HW)].
  injection Hout as <-.
  destruct (bad_row_index n k i Z HZ Hi Hbad) as [j [Hj Hbadj]].
  rewrite (nth_map_in _ _ i [] [])
    by now rewrite (is_matrix_length _ _ _ HZ).
  rewrite (nth_map_in (dot (nth i Z [])) _ _ [])
    by (rewrite (transpose_length k d W HW Hk); lia).
  rewrite (transpose_nth k d W 0 HW) by lia.
  apply (dot_nonfin _ (column W 0) j); [| | exact Hbadj].
  - rewrite column_length, (is_matrix_length _ _ _ HW).
    exact (is_matrix_nth_row n k Z i HZ Hi).
  - now rewrite (is_matrix_nth_row n k Z i HZ Hi).
Qed.

Lemma MultiHeadAttention_forward_bad_row
  (n_head d_model b n i : nat) (self : MultiHeadAttention.t)
  (x : list (list (list fp))) :
  1 <= n_head -> d_model mod n_head = 0 -> i + 1 < d_model / n_head -> i < n ->
  MultiHeadAttention_shape n_head d_model self = true ->
  MultiHeadAttention_masked self = true ->
  has_shape 1 [b] n d_model x = true ->
  exists out,
    MultiHeadAttention.forward self x None = ok out
    /\ tall 1 (fun m => is_matrix n d_model m = true /\ bad_row i m) [b] out.
Proof.
  intros Hh Hmod Hdk Hn Hself Hmask Hx.
  set (d_k := d_model / n_head) in *.
  assert (Hprod : n_head * d_k = d_model).
  { unfold d_k. apply Nat.Div0.div_exact in Hmod. lia. }
  assert (Hd : 1 <= d_model) by nia.
  unfold MultiHeadAttention_shape in Hself. fold d_k in Hself.
  apply andb_prop in Hself. destruct Hself as [Hself HW].
  apply andb_prop in Hself. destruct Hself as [Hlen Hheads].
  apply Nat.eqb_eq in Hlen. rewrite forallb_forall in Hheads.
  unfold MultiHeadAttention_masked in Hmask. rewrite forallb_forall in Hmask.
  destruct (mapM_exists
              (fun attention => Attention.forward attention x None)
              (tall 1 (fun m => is_matrix n d_k m = true /\ bad_row i m) [b])
              (MultiHeadAttention.multi_head_attention self))
    as [heads [Hrun [Hl HF]]].
  { intros a Ha. apply (Attention_forward_bad_row a b n d_model d_k); auto. }
  unfold MultiHeadAttention.forward. rewrite Hrun, bind_ok_l.
  destruct heads as [| o1 os]; [simpl in Hl; lia |].
  pose proof (Forall_inv HF) as Ho1. pose proof (Forall_inv_tail HF) as Hos.
  assert (Hstep : forall k a c,
             (is_matrix n k a = true /\ bad_row i a) ->
             is_matrix n d_k c = true ->
             exists z, cat_rows a c = ok z
                       /\ (is_matrix n (k + d_k) z = true /\ bad_row i z)).
  { intros k a c [Ha Ht] Hc.
    destruct (cat_rows_bad_row n k d_k i a c Ha Hc Hn Ht) as [z [Hz [Hs Htz]]].
    exists z. auto. }
  assert (Hrest : Forall (tall 1 (fun a => is_matrix n d_k a = true) [b]) os).
  { eapply Forall_impl; [| exact Hos]. intros o Ho.
    eapply tall_impl; [| exact Ho]. now intros m [Hm _]. }
  destruct (cat_fold_gen 1 [b]
              (fun k a => is_matrix n k a = true /\ bad_row i a)
              (fun a => is_matrix n d_k a = true) d_k os Hstep o1 d_k
              Ho1 Hrest) as [Z [HZ HZs]].
  unfold cat. rewrite HZ, bind_ok_l.
  assert (Hwidth : d_k + @length (tensor 1) os * d_k = n_head * d_k).
  { change (@length (tensor 1) os) with (@length (list (list (list fp))) os).
    simpl in Hl. rewrite <- Hlen, <- Hl. lia. }
  rewrite Hwidth in HZs.
  rewrite matmul_w_eq.
  apply (lift1M_tall 1 (fun z => matmul z (MultiHeadAttention.W self))
           (fun a => is_matrix n (n_head * d_k) a = true /\ bad_row i a));
    [| exact HZs].
  intros z [Hz Ht].
  apply (matmul_bad_row n (n_head * d_k) d_model i z _ Hz HW); auto; lia.
Qed.

Lemma zip_add_bad_row_l (n d i : nat) (u v : list (list fp)) :
  is_matrix n d u = true -> is_matrix n d v = true -> i < n ->
  bad_row i u -> bad_row i (zip_rows FP.add u v).
Proof.
  intros Hu Hv Hi Hbad.
  destruct (bad_row_index n d i u Hu Hi Hbad) as [j [Hj Hbadj]].
  apply (bad_row_entry n d i j); [now apply zip_rows_is_matrix | exact Hi
                                 | exact Hj |].
  rewrite (zip_rows_nth FP.add n d i j u v Hu Hv Hi Hj).
  now apply add_nonfin_l.
Qed.

Lemma zip_add_bad_row_r (n d i : nat) (u v : list (list fp)) :
  is_matrix n d u = true -> is_matrix n d v = true -> i < n ->
  bad_row i v -> bad_row i (zip_rows FP.add u v).
Proof.
  intros Hu Hv Hi Hbad.
  destruct (bad_row_index n d i v Hv Hi Hbad) as [j [Hj Hbadj]].
  apply (bad_row_entry n d i j); [now apply zip_rows_is_matrix | exact Hi
                                 | exact Hj |].
  rewrite (zip_rows_nth FP.add n d i j u v Hu Hv Hi Hj).
  now apply add_nonfin_r.
Qed.

Lemma layer_norm_value_NaN_in (self : LayerNorm.t) (v : list fp) (a : fp) :
  In a v -> FP.is_fin a = false ->
  Forall (fun y => y = NaN) (layer_norm_value self v).
Proof.
  intros Hin Hbad.
  assert (Hne : v <> []) by (intros ->; destruct Hin).
  assert (Hlen : (0 < INR (length v))%R).
  { apply lt_0_INR. destruct v; [contradiction | simpl; lia]. }
  unfold layer_norm_value.
  set (mu := LayerNorm.mean v).
  assert (Hmu : FP.is_fin mu = false).
  { unfold mu, LayerNorm.mean, FP.of_nat.
    apply div_nonfin_pos; [exact Hlen |]. now apply (vsum_nonfin v a). }
  set (sq := map (fun x => ((x - mu) * (x - mu))%fp) v).
  assert (Hsq : Forall pinf_or_nan sq).
  { apply Forall_forall. intros y Hy. unfold sq in Hy.
    apply in_map_iff in Hy. destruct Hy as [x [<- _]].
    apply square_nonfin. now apply sub_nonfin_r. }
  set (sd := FP.sqrt (LayerNorm.mean sq + Fin (LayerNorm.eps self))%fp).
  assert (Hsd : pinf_or_nan sd).
  { unfold sd. apply sqrt_pinf_or_nan, add_fin_pinf_or_nan.
    unfold LayerNorm.mean, FP.of_nat. apply div_pinf_or_nan_pos.
    - unfold sq. now rewrite length_map.
    - apply vsum_pinf_or_nan; [| exact Hsq].
      unfold sq. destruct v; [contradiction | discriminate]. }
  apply Forall_forall. intros y Hy.
  apply in_map_iff in Hy. destruct Hy as [[s bb] [<- Hin1]].
  apply in_combine_l in Hin1.
  apply in_map_iff in Hin1. destruct Hin1 as [[nx w] [<- Hin2]].
  apply in_combine_l in Hin2.
  apply in_map_iff in Hin2. destruct Hin2 as [x [<- _]].
  cbn [fst snd].
  rewrite (div_nonfin_by_pinf_or_nan (x - mu)%fp sd);
    [| now apply sub_nonfin_r | exact Hsd].
  now rewrite mul_NaN_l, add_NaN_l.
Qed.

Lemma add_norm_nan_at (ln : LayerNorm.t) (b n d i : nat)
  (PA PB : list (list fp) -> Prop) (a x : list (list (list fp))) :
  LayerNorm_shape d ln = true -> i < n ->
  (forall u v, is_matrix n d u = true -> is_matrix n d v = true ->
               PA u -> PB v -> bad_row i (zip_rows FP.add u v)) ->
  tall 1 (fun m => is_matrix n d m = true /\ PA m) [b] a ->
  tall 1 (fun m => is_matrix n d m = true /\ PB m) [b] x ->
  exists y, (s <- tadd 1 a x ;; LayerNorm.forward ln s) = ok y
            /\ tall 1 (fun m => is_matrix n d m = true /\ nan_row_at i m) [b] y.
Proof.
  intros Hln Hi HRS Ha Hx.
  apply (add_norm_gen ln b n d PA PB (bad_row i) (nan_row_at i) a x Hln HRS);
    [| exact Ha | exact Hx].
  intros s y Hs [c [Hc Hbad]] Hy.
  assert (E : mapM (LayerNorm.forward_row ln) s
              = ok (map (layer_norm_value ln) s)).
  { apply mapM_ok_in. intros v Hv. apply (forward_row_value ln d); auto.
    pose proof (is_matrix_rows _ _ _ Hs) as R. rewrite Forall_forall in R.
    now apply R. }
  rewrite E in Hy. injection Hy as <-. unfold nan_row_at.
  rewrite (nth_map_in _ _ i [] []) by now rewrite (is_matrix_length _ _ _ Hs).
  now apply (layer_norm_value_NaN_in ln _ c).
Qed.

Lemma Decoder_forward_nan_at (dec : Decoder.t) (n_head d d_ff b n m i : nat)
  (x enc : list (list (list fp))) :
  Decoder_shape n_head d d_ff dec = true ->
  1 <= n_head -> d mod n_head = 0 -> i + 1 < d / n_head -> 1 <= d_ff ->
  1 <= b -> i < n -> 1 <= m ->
  has_shape 1 [b] n d x = true -> has_shape 1 [b] m d enc = true ->
  exists y, Decoder.forward dec x enc = ok y
            /\ tall 1 (fun a => is_matrix n d a = true /\ nan_row_at i a) [b] y.
Proof.
  intros Hdec Hh Hmod Hdk Hff Hb Hi Hm Hx Henc.
  assert (Hd : 1 <= d).
  { apply Nat.Div0.div_exact in Hmod. nia. }
  assert (Hn : 1 <= n) by lia.
  unfold Decoder_shape in Hdec.
  apply andb_prop in Hdec. destruct Hdec as [Hdec Hln3].
  apply andb_prop in Hdec. destruct Hdec as [Hdec Hln2].
  apply andb_prop in Hdec. destruct Hdec as [Hdec Hln1].
  apply andb_prop in Hdec. destruct Hdec as [Hdec Hffn].
  apply andb_prop in Hdec. destruct Hdec as [Hdec Hatt].
  apply andb_prop in Hdec. destruct Hdec as [Hmatt Hmasked].
  unfold Decoder.forward.
  destruct (MultiHeadAttention_forward_bad_row n_head d b n i
              (Decoder.masked_attention dec) x Hh Hmod Hdk Hi Hmatt Hmasked Hx)
    as [ma [Hma Hmas]].
  rewrite Hma, bind_ok_l.
  destruct (add_norm_nan_at (Decoder.layer_norm1 dec) b n d i
              (bad_row i) (fun _ => True) ma x Hln1 Hi)
    as [x1 [Hx1 Hx1s]];
    [intros u v Hu Hv Ht _; now apply (zip_add_bad_row_l n d) | exact Hmas
     | apply tall_true; now apply has_shape_tall |].
  apply bind_inv in Hx1. destruct Hx1 as [s1 [Hs1 Hx1]].
  rewrite Hs1, bind_ok_l, Hx1, bind_ok_l.
  assert (Hx1shape : has_shape 1 [b] n d x1 = true).
  { apply has_shape_tall. eapply tall_impl; [| exact Hx1s]. now intros a [Ha _]. }
  destruct (MultiHeadAttention_forward_steps n_head d b n (Decoder.attention dec)
              x1 (Some enc) Hh Hd Hmod Hn Hatt Hx1shape
              (memory_shape_some b m d enc Hb Hm Henc))
    as [heads [Z [a2 [_ [_ [_ [_ [_ [_ [_ [Ha2 Ha2s]]]]]]]]]]].
  rewrite Ha2, bind_ok_l.
  destruct (add_norm_nan_at (Decoder.layer_norm2 dec) b n d i
              (fun _ => True) (nan_row_at i) a2 x1 Hln2 Hi)
    as [x2 [Hx2 Hx2s]];
    [intros u v Hu Hv _ Hnan; apply (zip_add_bad_row_r n d); auto;
     now apply (nan_row_at_bad n d)
    | apply tall_true; now apply has_shape_tall | exact Hx1s |].
  apply bind_inv in Hx2. destruct Hx2 as [s2 [Hs2 Hx2]].
  rewrite Hs2, bind_ok_l, Hx2, bind_ok_l.
  assert (Hx2shape : has_shape 1 [b] n d x2 = true).
  { apply has_shape_tall. eapply tall_impl; [| exact Hx2s]. now intros a [Ha _]. }
  destruct (FeedForwardNetwork_forward_shape (Decoder.feedforward dec)
              d d_ff b n x2 Hffn Hd Hff Hx2shape) as [f [Hf Hfs]].
  rewrite Hf, bind_ok_l.
  apply (add_norm_nan_at (Decoder.layer_norm3 dec) b n d i
           (fun _ => True) (nan_row_at i) f x2 Hln3 Hi);
    [intros u v Hu Hv _ Hnan; apply (zip_add_bad_row_r n d); auto;
     now apply (nan_row_at_bad n d)
    | apply tall_true; now apply has_shape_tall | exact Hx2s].
Qed.

Lemma run_decoders_nan_at (decoders : list Decoder.t)
  (n_head d d_ff b n m i : nat) (y enc : list (list (list fp))) :
  forallb (Decoder_shape n_head d d_ff) decoders = true -> decoders <> [] ->
  1 <= n_head -> d mod n_head = 0 -> i + 1 < d / n_head -> 1 <= d_ff ->
  1 <= b -> i < n -> 1 <= m ->
  has_shape 1 [b] n d y = true -> has_shape 1 [b] m d enc = true ->
  exists out, Transformer.run_decoders decoders y enc = ok out
              /\ tall 1 (fun a => is_matrix n d a = true /\ nan_row_at i a)
                      [b] out.
Proof.
  intros Hds Hne Hh Hmod Hdk Hff Hb Hi Hm Hy Henc.
  destruct decoders as [| dec ds]; [contradiction |]. clear Hne.
  simpl in Hds. apply andb_prop in Hds. destruct Hds as [Hdec Hds].
  destruct (Decoder_forward_nan_at dec n_head d d_ff b n m i y enc
              Hdec Hh Hmod Hdk Hff Hb Hi Hm Hy Henc) as [y1 [Hy1 Hy1s]].
  unfold Transformer.run_decoders. cbn [fold_left]. rewrite bind_ok_l, Hy1.
  clear Hy1 Hy Hdec. revert y1 Hy1s.
  induction ds as [| dec' ds IH]; intros y1 Hy1s.
  - exists y1. now split.
  - simpl in Hds. apply andb_prop in Hds. destruct Hds as [Hdec' Hds].
    assert (Hy1shape : has_shape 1 [b] n d y1 = true).
    { apply has_shape_tall. eapply tall_impl; [| exact Hy1s].
      now intros a [Ha _]. }
    destruct (Decoder_forward_nan_at dec' n_head d d_ff b n m i y1 enc
                Hdec' Hh Hmod Hdk Hff Hb Hi Hm Hy1shape Henc)
      as [y2 [Hy2 Hy2s]].
    cbn [fold_left]. rewrite bind_ok_l, Hy2. apply (IH Hds y2 Hy2s).
Qed.

Lemma matmul_nan_row_at (n k d i : nat) (Z W : list (list fp)) :
  is_matrix n k Z = true -> is_matrix k d W = true ->
  i < n -> 1 <= k -> nan_row_at i Z ->
  exists out, matmul Z W = ok out
              /\ is_matrix n d out = true /\ nan_row_at i out.
Proof.
  intros HZ HW Hi Hk Hnan.
  destruct (matmul_is_matrix n k d Z W HZ HW Hk) as [out [Hout [Hs _]]].
  exists out. split; [exact Hout |]. split; [exact Hs |].
  rewrite (matmul_value Z W k) in Hout;
    [| apply (is_matrix_rows _ _ _ HZ) | apply (is_matrix_length _ _ _ HW)].
  injection Hout as <-. unfold nan_row_at in *.
  rewrite (nth_map_in _ _ i [] [])
    by now rewrite (is_matrix_length _ _ _ HZ).
  pose proof (is_matrix_nth_row n k Z i HZ Hi) as Lr.
  apply Forall_forall. intros a Ha.
  apply in_map_iff in Ha. destruct Ha as [col [<- Hcol]].
  apply (dot_NaN _ col 0); [| lia |].
  - pose proof (is_matrix_rows _ _ _ (transpose_is_matrix k d W HW Hk)) as Hcols.
    rewrite Forall_forall in Hcols. now rewrite (Hcols col Hcol).
  - rewrite Forall_forall in Hnan. apply Hnan. apply nth_In. lia.
Qed.

Lemma Transformer_forward_nan_at
  (vocab n_head d d_ff b seq_src seq_tgt pos : nat) (self : Transformer.t)
  (x y : list (list Z)) :
  1 <= vocab -> 1 <= n_head -> d mod n_head = 0 -> pos + 1 < d / n_head ->
  Nat.even d = true -> 1 <= d_ff ->
  1 <= b -> 1 <= seq_src -> pos < seq_tgt ->
  Transformer_shape vocab n_head d d_ff self = true ->
  Transformer.decoders self <> [] ->
  indices_shape b seq_src vocab x = true ->
  indices_shape b seq_tgt vocab y = true ->
  exists out,
    Transformer.forward self x y = ok out
    /\ has_shape 1 [b] seq_tgt vocab out = true
    /\ Forall (fun m => Forall (fun a => a = NaN) (nth pos m [])) out.
Proof.
  intros Hv Hh Hmod Hdk Hev Hff Hb Hsrc Hpos Hself Hne Hx Hy.
  assert (Hd : 2 <= d).
  { apply Nat.Div0.div_exact in Hmod. nia. }
  assert (Htgt : 1 <= seq_tgt) by lia.
  pose proof Hself as Hshape. unfold Transformer_shape in Hshape.
  apply andb_prop in Hshape. destruct Hshape as [Hshape _].
  apply andb_prop in Hshape. destruct Hshape as [Hshape _].
  apply andb_prop in Hshape. destruct Hshape as [Hshape HE].
  apply andb_prop in Hshape. destruct Hshape as [Hencs Hdecs].
  unfold Transformer.forward.
  destruct (embed_shape self vocab n_head d d_ff b seq_src x
              Hself Hev Hd Hb Hsrc Hx) as [ex [Hex Hexs]].
  destruct (embed_shape self vocab n_head d d_ff b seq_tgt y
              Hself Hev Hd Hb Htgt Hy) as [ey [Hey Heys]].
  rewrite Hex, bind_ok_l, Hey, bind_ok_l.
  destruct (run_encoders_shape (Transformer.encoders self) n_head d d_ff b
              seq_src ex Hencs Hh) as [enc [Henc Hencshape]];
    [lia | exact Hmod | exact Hff | exact Hsrc | exact Hexs |].
  rewrite Henc, bind_ok_l.
  destruct (run_decoders_nan_at (Transformer.decoders self) n_head d d_ff b
              seq_tgt seq_src pos ey enc Hdecs Hne Hh Hmod Hdk Hff Hb Hpos Hsrc
              Heys Hencshape) as [dec [Hdec Hdecs']].
  rewrite Hdec, bind_ok_l.
  unfold Transformer.project. rewrite matmul_w_eq.
  destruct (lift1M_tall 1
              (fun z => matmul z (transpose
                                    (Embedding.weight (Transformer.embedding self))))
              (fun a => is_matrix seq_tgt d a = true /\ nan_row_at pos a)
              (fun a => is_matrix seq_tgt vocab a = true /\ nan_row_at pos a)
              [b] dec) as [scores [Hscores Hss]]; [| exact Hdecs' |].
  { intros z [Hz Hnan].
    apply (matmul_nan_row_at seq_tgt d vocab pos z _ Hz); auto; try lia.
    now apply transpose_is_matrix. }
  change (mapM (fun z => matmul z (transpose
                   (Embedding.weight (Transformer.embedding self)))) dec)
    with (lift1M 1 (fun z => matmul z (transpose
                   (Embedding.weight (Transformer.embedding self)))) dec).
  rewrite Hscores, bind_ok_l.
  exists (softmax 1 scores). split; [reflexivity |].
  assert (Hout : tall 1 (fun a => is_matrix seq_tgt vocab a = true
                                  /\ nan_row_at pos a)
                      [b] (softmax 1 scores)).
  { unfold softmax.
    apply (lift1_tall 1 _ (fun a => is_matrix seq_tgt vocab a = true
                                    /\ nan_row_at pos a)); [| exact Hss].
    intros m [Hm Hnan]. split; [now apply softmax_rows_is_matrix |].
    unfold nan_row_at in *.
    rewrite (nth_map_in _ _ pos [] [])
      by now rewrite (is_matrix_length _ _ _ Hm).
    now apply softmax_row_NaN. }
  split.
  - apply has_shape_tall. eapply tall_impl; [| exact Hout]. now intros a [Ha _].
  - apply tall1_elim in Hout. destruct Hout as [_ Hout].
    eapply Forall_impl; [| exact Hout]. now intros a [_ Ha].
Qed.

(** X21. How far the NaN of the masked attention reaches: on a well-formed
    model with a decoder layer, every target position [pos] with
    [pos + 1 < d_key] gives a row of NaN in the output of
    [Transformer.forward], for every batch element; so a target shorter than
    the head width [d_key = d_model / n_head] gives an output in which every
    entry is NaN.  This is the case of the unit test of the notebook (a
    target of length 3, heads of width 64): it checks the shape only, and
    the shape is right. *)
Theorem Transformer_forward_nan_extent
  (vocab n_head d d_ff b seq_src seq_tgt : nat) (self : Transformer.t)
  (x y : list (list Z)) :
  1 <= vocab -> 1 <= n_head -> d mod n_head = 0 -> 2 <= d / n_head ->
  Nat.even d = true -> 1 <= d_ff ->
  1 <= b -> 1 <= seq_src -> 1 <= seq_tgt ->
  Transformer_shape vocab n_head d d_ff self = true ->
  Transformer.decoders self <> [] ->
  indices_shape b seq_src vocab x = true ->
  indices_shape b seq_tgt vocab y = true ->
  (exists out,
     Transformer.forward self x y = ok out
     /\ has_shape 1 [b] seq_tgt vocab out = true
     /\ (forall pos, pos < seq_tgt -> pos + 1 < d / n_head ->
           Forall (fun m => Forall (fun a => a = NaN) (nth pos m [])) out)
     /\ (seq_tgt < d / n_head ->
         Forall (Forall (Forall (fun a => a = NaN))) out))
  /\ (forall g x' y',
        indices_shape 2 3 vocab x' = true ->
        indices_shape 2 3 vocab y' = true ->
        exists t g' out,
          Transformer.init (Z.of_nat vocab) 6 8 512 2048 g = ok (t, g')
          /\ Transformer.forward t x' y' = ok out
          /\ has_shape 1 [2] 3 vocab out = true
          /\ Forall (Forall (Forall (fun a => a = NaN))) out).
Proof.
  intros Hv Hh Hmod Hdk Hev Hff Hb Hsrc Htgt Hself Hne Hx Hy.
  assert (Hgen : forall n_head d d_ff b seq_src seq_tgt self x y,
            1 <= vocab -> 1 <= n_head -> d mod n_head = 0 ->
            2 <= d / n_head -> Nat.even d = true -> 1 <= d_ff ->
            1 <= b -> 1 <= seq_src -> 1 <= seq_tgt ->
            Transformer_shape vocab n_head d d_ff self = true ->
            Transformer.decoders self <> [] ->
            indices_shape b seq_src vocab x = true ->
            indices_shape b seq_tgt vocab y = true ->
            exists out,
              Transformer.forward self x y = ok out
              /\ has_shape 1 [b] seq_tgt vocab out = true
              /\ (forall pos, pos < seq_tgt -> pos + 1 < d / n_head ->
                    Forall (fun m => Forall (fun a => a = NaN) (nth pos m []))
                           out)
              /\ (seq_tgt < d / n_head ->
                  Forall (Forall (Forall (fun a => a = NaN))) out)).
  { clear. intros n_head d d_ff b seq_src seq_tgt self x y
      Hv Hh Hmod Hdk Hev Hff Hb Hsrc Htgt Hself Hne Hx Hy.
    destruct (Transformer_forward_nan_at vocab n_head d d_ff b seq_src seq_tgt 0
                self x y Hv Hh Hmod ltac:(lia) Hev Hff Hb Hsrc ltac:(lia)
                Hself Hne Hx Hy) as [out [Hout [Hshape _]]].
    exists out. split; [exact Hout |]. split; [exact Hshape |].
    assert (Hrows : forall pos, pos < seq_tgt -> pos + 1 < d / n_head ->
              Forall (fun m => Forall (fun a => a = NaN) (nth pos m [])) out).
    { intros pos Hpos Hposk.
      destruct (Transformer_forward_nan_at vocab n_head d d_ff b seq_src
                  seq_tgt pos self x y Hv Hh Hmod Hposk Hev Hff Hb Hsrc Hpos
                  Hself Hne Hx Hy) as [out' [Hout' [_ Hnan]]].
      rewrite Hout in Hout'. injection Hout' as <-. exact Hnan. }
    split; [exact Hrows |].
    intros Hshort. apply has_shape_tall in Hshape. apply tall1_elim in Hshape.
    destruct Hshape as [_ Hms]. rewrite Forall_forall in Hms.
    apply Forall_forall. intros m Hm. apply Forall_forall. intros r Hr.
    destruct (In_nth m r [] Hr) as [pos [Hpos <-]].
    rewrite (is_matrix_length _ _ _ (Hms m Hm)) in Hpos.
    specialize (Hrows pos Hpos ltac:(lia)).
    rewrite Forall_forall in Hrows. now apply Hrows. }
  split.
  - now apply (Hgen n_head d d_ff b seq_src seq_tgt self x y).
  - intros g x' y' Hx' Hy'.
    destruct (Transformer_init_ok vocab 6 8 512 2048 g) as [t [g' [Hi [Hs Hl]]]];
      [lia | reflexivity |].
    assert (Hnet : Transformer.decoders t <> []).
    { intros E. rewrite E in Hl. discriminate. }
    destruct (Hgen 8 512 2048 2 3 3 t x' y' Hv ltac:(lia) eq_refl
                ltac:(simpl; lia) eq_refl ltac:(lia) ltac:(lia) ltac:(lia)
                ltac:(lia) Hs Hnet Hx' Hy') as [out [Hout [Hshape [_ Hall]]]].
    exists t, g', out. split; [exact Hi |]. split; [exact Hout |].
    split; [exact Hshape |]. apply Hall. simpl. lia.
Qed.

Lemma Transformer_forward_nan_extent_witness :
  exists out,
    Transformer.forward demo_transformer [[0%Z]] [[1%Z]] = ok out
    /\ has_shape 1 [1] 1 2 out = true
    /\ Forall (Forall (Forall (fun a => a = NaN))) out.
Proof.
  destruct (proj1 (Transformer_forward_nan_extent 2 1 2 1 1 1 1
                     demo_transformer [[0%Z]] [[1%Z]]
                     (le_S 1 1 (le_n 1)) (le_n 1) eq_refl (le_n 2) eq_refl
                     (le_n 1) (le_n 1) (le_n 1) (le_n 1) eq_refl
                     ltac:(discriminate) eq_refl eq_refl))
    as [out [Hrun [Hshape [_ Hall]]]].
  exists out. split; [exact Hrun |]. split; [exact Hshape |].
  apply Hall. apply le_n.
Defined.

(** ** A normalisation of the wrong width *)

Lemma LayerNorm_forward_width_raise (ln : LayerNorm.t) (b n w : nat)
  (s : list (list (list fp))) :
  1 <= b -> 1 <= n -> w <> LayerNorm.normalized_shape ln ->
  has_shape 1 [b] n w s = true ->
  LayerNorm.forward ln s = raise RuntimeError.
Proof.
  intros Hb Hn Hw Hs. apply has_shape_tall in Hs. apply tall1_elim in Hs.
  destruct Hs as [L F].
  destruct s as [| m s']; [simpl in L; lia |].
  pose proof (Forall_inv F) as Hm.
  destruct (hd_nonempty_matrix n w m Hm Hn) as [r [m' [-> Lr]]].
  unfold LayerNorm.forward. cbn [lift1M mapM].
  unfold LayerNorm.forward_row at 1. rewrite Lr.
  replace (w =? LayerNorm.normalized_shape ln) with false
    by (symmetry; now apply Nat.eqb_neq).
  reflexivity.
Qed.

(** X22. The width of the normalisation is not taken from the wrapped
    layer: [Sublayer(layer, d_model)], whose [d_model] defaults to 512, on an
    input of another width [w] raises RuntimeError at the layer
    normalisation, although the wrapped layer and the residual sum
    succeed. *)
Theorem Sublayer_forward_width_mismatch
  (layer : list (list (list fp)) -> result (list (list (list fp))))
  (d w b n : nat) (x fx : list (list (list fp))) :
  1 <= b -> 1 <= n -> w <> d ->
  has_shape 1 [b] n w x = true ->
  layer x = ok fx -> has_shape 1 [b] n w fx = true ->
  exists self s,
    Sublayer.init layer (Z.of_nat d) = ok self
    /\ Residual_Connection.forward (Sublayer.res_connect self) x = ok s
    /\ has_shape 1 [b] n w s = true
    /\ Sublayer.forward self x = raise RuntimeError.
Proof.
  intros Hb Hn Hw Hx Hfx Hfxs.
  destruct (LayerNorm_init_ok d) as [ln [Hln Hlns]].
  destruct (LayerNorm_shape_elim d ln Hlns) as [Hnorm _].
  apply has_shape_tall in Hx, Hfxs.
  destruct (tadd_gen b n w (fun _ => True) (fun _ => True) (fun _ => True)
              x fx (fun _ _ _ _ _ _ => I)
              (tall_true 1 _ [b] x Hx) (tall_true 1 _ [b] fx Hfxs))
    as [s [Hs Hss]].
  assert (Hsshape : has_shape 1 [b] n w s = true).
  { apply has_shape_tall. eapply tall_impl; [| exact Hss]. now intros m [Hm _]. }
  exists {| Sublayer.res_connect := Residual_Connection.init layer;
            Sublayer.layer_norm := ln |}, s.
  split; [| split; [| split; [exact Hsshape |]]].
  - unfold Sublayer.init. now rewrite Hln, bind_ok_l.
  - unfold Residual_Connection.forward.
    cbn [Sublayer.res_connect Residual_Connection.layer
         Residual_Connection.init].
    now rewrite Hfx, bind_ok_l.
  - unfold Sublayer.forward, Residual_Connection.forward.
    cbn [Sublayer.res_connect Sublayer.layer_norm Residual_Connection.layer
         Residual_Connection.init].
    rewrite Hfx, bind_ok_l, Hs, bind_ok_l.
    apply (LayerNorm_forward_width_raise ln b n w s Hb Hn); [| exact Hsshape].
    now rewrite Hnorm.
Qed.

Lemma Sublayer_forward_width_mismatch_witness :
  let x := [[[Fin 3; Fin 1]; [Fin 1; Fin 3]]] in
  exists self s,
    Sublayer.init (FeedForwardNetwork.forward tiny_feed_forward) 512 = ok self
    /\ Residual_Connection.forward (Sublayer.res_connect self) x = ok s
    /\ has_shape 1 [1] 2 2 s = true
    /\ Sublayer.forward self x = raise RuntimeError.
Proof.
  refine (Sublayer_forward_width_mismatch
            (FeedForwardNetwork.forward tiny_feed_forward)
            512 2 1 2 [[[Fin 3; Fin 1]; [Fin 1; Fin 3]]]
            (map (map (FeedForwardNetwork_row tiny_feed_forward))
                 [[[Fin 3; Fin 1]; [Fin 1; Fin 3]]])
            (le_n 1) (le_S 1 1 (le_n 1)) _ eq_refl
            (proj1 (FeedForwardNetwork_forward_rows tiny_feed_forward 2 1 1 2
                      [[[Fin 3; Fin 1]; [Fin 1; Fin 3]]]
                      eq_refl (le_S 1 1 (le_n 1)) (le_n 1) eq_refl))
            eq_refl).
  lia.
Defined.

(** ** The draft and the final attention *)

Lemma matmul_raise (A B : list (list fp)) (e : exn) :
  matmul A B = raise e -> e = RuntimeError.
Proof.
  unfold matmul. destruct (forallb _ A); intros H; [discriminate |].
  now injection H.
Qed.

Lemma Draft_ScaledDotProductAttention_forward_eq
  (Q K V : list (list fp)) (mask : bool) :
  Draft.ScaledDotProductAttention.forward Q K V mask
  = ScaledDotProductAttention.forward (ScaledDotProductAttention.init false) 0
      Q K V.
Proof.
  unfold Draft.ScaledDotProductAttention.forward,
    ScaledDotProductAttention.forward, ScaledDotProductAttention.weights.
  cbn [lift1 lift2 softmax tmap last_dim ScaledDotProductAttention.mask
       ScaledDotProductAttention.init].
  rewrite bind_assoc. apply bind_ext. intros dp. rewrite bind_ok_l.
  apply bind_ext. intros wv. now destruct mask.
Qed.

Lemma matmul_w_singleton (x W : list (list fp)) :
  matmul_w [x] W = (y <- matmul x W ;; ok [y]).
Proof.
  rewrite matmul_w_eq. cbn [mapM]. apply bind_ext. intros y.
  now rewrite bind_ok_l.
Qed.

Lemma ScaledDotProductAttention_forward_singleton (Q K V : list (list fp)) :
  ScaledDotProductAttention.forward (ScaledDotProductAttention.init false) 1
    [Q] [K] [V]
  = (out <- ScaledDotProductAttention.forward
              (ScaledDotProductAttention.init false) 0 Q K V ;;
     ok [out]).
Proof.
  unfold ScaledDotProductAttention.forward, ScaledDotProductAttention.weights.
  cbn [lift1 lift2 bcast2 length Nat.eqb combine mapM fst snd map softmax tmap
       last_dim ScaledDotProductAttention.mask ScaledDotProductAttention.init].
  destruct (matmul Q (transpose K)) as [e | dp]; [reflexivity |].
  rewrite !bind_ok_l.
  cbn [lift1 lift2 bcast2 length Nat.eqb combine mapM fst snd map].
  destruct (matmul _ V) as [e | wv]; [reflexivity |].
  now rewrite !bind_ok_l.
Qed.

(** X23. The draft classes at the head of the notebook compute, on one
    sequence, what the final classes compute on a batch of one sequence
    without a mask: the draft [ScaledDotProductAttention.forward] is the
    final unmasked attention on matrices, the draft [Attention.forward] is
    the final self-attention of the same three weight matrices on the batch
    [[inputs]], and their [mask] argument changes nothing. *)
Theorem Draft_attention_is_unmasked_attention
  (self : Draft.Attention.t) (Q K V inputs : list (list fp)) (mask : bool) :
  Draft.ScaledDotProductAttention.forward Q K V mask
  = ScaledDotProductAttention.forward (ScaledDotProductAttention.init false) 0
      Q K V
  /\ Draft.ScaledDotProductAttention.forward Q K V true
     = Draft.ScaledDotProductAttention.forward Q K V false
  /\ Draft.Attention.forward self inputs mask
     = (out <- Attention.forward
                 {| Attention.WK := Draft.Attention.WK self;
                    Attention.WQ := Draft.Attention.WQ self;
                    Attention.WV := Draft.Attention.WV self;
                    Attention.scaled_dot_product :=
                      ScaledDotProductAttention.init false |}
                 [inputs] None ;;
        ok (hd [] out)).
Proof.
  split; [apply Draft_ScaledDotProductAttention_forward_eq |].
  split; [now rewrite !Draft_ScaledDotProductAttention_forward_eq |].
  unfold Draft.Attention.forward, Attention.forward.
  cbn [Attention.WK Attention.WQ Attention.WV Attention.scaled_dot_product].
  rewrite !matmul_w_singleton.
  destruct (matmul inputs (Draft.Attention.WK self)) as [eK | k] eqn:EK;
    [now rewrite (matmul_raise _ _ _ EK) |].
  rewrite !bind_ok_l.
  destruct (matmul inputs (Draft.Attention.WV self)) as [eV | v] eqn:EV;
    destruct (matmul inputs (Draft.Attention.WQ self)) as [eQ | q] eqn:EQ;
    cbn [bind ok raise];
    try (rewrite (matmul_raise _ _ _ EV));
    try (rewrite (matmul_raise _ _ _ EQ));
    try reflexivity.
  rewrite Draft_ScaledDotProductAttention_forward_eq.
  rewrite ScaledDotProductAttention_forward_singleton.
  destruct (ScaledDotProductAttention.forward _ 0 q k v) as [e | out];
    reflexivity.
Qed.
